(** * The file enumerator and the cascading configuration resolver

    A shallow embedding of [lib/lookup/file-enumerator.js] (the
    [FileEnumerator] class) and [lib/lookup/extracted-config.js] (the
    [ExtractedConfig] class), with the properties the specification states
    about them.

    Config arrays are JavaScript objects that the enumerator compares by
    identity and that it mutates in place ([push], [unshift]) before it
    publishes them.  They live in a store: an array is a location, its
    elements are what the store holds there, and reference equality is
    equality of locations. *)

From Stdlib Require Import Ascii String NArith.
From stdpp Require Import gmap strings list fin_maps.

Local Open Scope string_scope.

(** ** JavaScript values the code handles *)

(** Free-form configuration data ([ConfigData], parser options, settings). *)
#[warnings="-register-all"]
Inductive Json :=
| JNull
| JBool (b : bool)
| JNum (n : Z)
| JStr (s : string)
| JArr (items : list Json)
| JObj (props : list (string * Json)).

(** An error thrown by a collaborator: Node's [fs], the config array factory,
    the validator.  [code] is the empty string when the error has none. *)
Record JsError := { code : string; message : string }.

(** What a call into a collaborator does: it returns or it throws. *)
Inductive Ext (A : Type) :=
| Returned (a : A)
| Raised (e : JsError).
Arguments Returned {A} a.
Arguments Raised {A} e.

(** [ConfigDependency]: a loaded parser or plugin.  [definition] is the
    rules table the loaded module exposes, [None] when loading failed. *)
Record ConfigDependency := {
  definition : option (gmap string string);
  dep_filePath : string;
  id : string;
  importerName : string;
  importerPath : string
}.

(** Locations of config arrays. *)
Abbreviation loc := nat.

(** One layer of a config array. *)
Record ConfigElement := {
  name : string;
  filePath : string;
  root : option bool;
  parser : option ConfigDependency;
  plugins : list (string * ConfigDependency);
  body : Json
}.



(** ** Collaborators *)

(** [fs.Stats], as far as the enumerator looks at it. *)
Record Stats := { isFile : bool; isDirectory : bool }.

(** Pure library functions: Node's [path], [is-glob], [glob-parent],
    [minimatch], lodash's [escapeRegExp] and [RegExp#test]. *)
Record Platform := {
  path_sep : string;
  path_dirname : string -> string;
  path_resolve : string -> string -> string;
  path_join : string -> string -> string;
  isGlob : string -> bool;
  getGlobParent : string -> string;
  minimatch_match : string -> string -> bool;
  escapeRegExp : string -> string;
  RegExp_test : string -> string -> bool;
  replace_backslashes : string -> string
}.

(** What surrounds the enumerator at the time of a call: the home directory,
    the file system, the config array factory's loaders, the validator, the
    rule loader and the ignore predicate.  It may differ from one call to the
    next. *)
Record World := {
  os_homedir : string;
  fs_statSync : string -> Ext Stats;
  fs_readdirSync : string -> Ext (list string);
  factory_create : option Json -> string -> Ext (list ConfigElement);
  factory_loadFile : string -> string -> Ext (list ConfigElement);
  factory_loadOnDirectory : string -> option string -> Ext (list ConfigElement);
  configArray_root : list ConfigElement -> bool;
  validateConfigArray : list ConfigElement -> option JsError;
  loadRules : string -> string -> Ext (gmap string string);
  ignoredPaths_contains : bool -> string -> bool -> bool
}.

Record FileEntry := {
  entry_config : loc;
  entry_filePath : string;
  flag : nat
}.

Record FileAndConfig := {
  config : loc;
  fc_filePath : string;
  ignored : bool
}.

(** What the enumerator does that its surroundings can see, in order: the
    calls into the factory, and the entries the [iterateFiles] generator hands
    to its consumer. *)
Inductive Event :=
| CallCreate (name : string)
| CallLoadFile (path : string)
| CallLoadOnDirectory (dir : string) (name : option string)
| Yield (entry : FileAndConfig).

(** ** Errors and outcomes *)

Inductive Error :=
| NoFilesFoundError (pattern : string) (globDisabled : bool)
| AllFilesIgnoredError (pattern : string)
| ConfigurationNotFoundError (directoryPath : string)
| ExternalError (e : JsError).

Definition Error_message (e : Error) : string :=
  match e with
  | NoFilesFoundError pattern globDisabled =>
      "No files matching '" ++ pattern ++ "' were found"
        ++ (if globDisabled then " (glob was disabled)" else EmptyString) ++ "."
  | AllFilesIgnoredError pattern =>
      "All files matched by '" ++ pattern ++ "' are ignored."
  | ConfigurationNotFoundError directoryPath =>
      "No ESLint configuration found on " ++ directoryPath ++ "."
  | ExternalError e => message e
  end.

Definition Error_messageTemplate (e : Error) : string :=
  match e with
  | NoFilesFoundError _ _ => "file-not-found"
  | AllFilesIgnoredError _ => "all-files-ignored"
  | ConfigurationNotFoundError _ => "no-config-found"
  | ExternalError _ => EmptyString
  end.

Inductive Outcome (A : Type) :=
| Ok (a : A)
| Throw (e : Error)
| OutOfFuel.
Arguments Ok {A} a.
Arguments Throw {A} e.
Arguments OutOfFuel {A}.

(** ** The enumerator's state *)

(** The internal slots of a [FileEnumerator] ([FileEnumeratorInternalSlots];
    the factory and the ignore predicates are in the [World]), the store of
    config arrays with its allocation pointer, and the events so far. *)
Record State := {
  baseConfigArray : loc;
  baseConfigData : option Json;
  cliConfigArray : loc;
  cliConfigData : option Json;
  configCache : gmap string loc;
  cwd : string;
  extRegExp : string;
  finalizeCache : gmap loc loc;
  globInputPaths : bool;
  ignoreFlag : bool;
  rulePaths : option (list string);
  specificConfigPath : option string;
  useEslintrc : bool;
  heap : gmap loc (list ConfigElement);
  next : loc;
  events : list Event
}.

Definition set_baseConfigArray (a : loc) (s : State) : State :=
  {| baseConfigArray := a; baseConfigData := baseConfigData s;
     cliConfigArray := cliConfigArray s; cliConfigData := cliConfigData s;
     configCache := configCache s; cwd := cwd s; extRegExp := extRegExp s;
     finalizeCache := finalizeCache s; globInputPaths := globInputPaths s;
     ignoreFlag := ignoreFlag s; rulePaths := rulePaths s;
     specificConfigPath := specificConfigPath s; useEslintrc := useEslintrc s;
     heap := heap s; next := next s; events := events s |}.

Definition set_cliConfigArray (a : loc) (s : State) : State :=
  {| baseConfigArray := baseConfigArray s; baseConfigData := baseConfigData s;
     cliConfigArray := a; cliConfigData := cliConfigData s;
     configCache := configCache s; cwd := cwd s; extRegExp := extRegExp s;
     finalizeCache := finalizeCache s; globInputPaths := globInputPaths s;
     ignoreFlag := ignoreFlag s; rulePaths := rulePaths s;
     specificConfigPath := specificConfigPath s; useEslintrc := useEslintrc s;
     heap := heap s; next := next s; events := events s |}.

Definition set_configCache (c : gmap string loc) (s : State) : State :=
  {| baseConfigArray := baseConfigArray s; baseConfigData := baseConfigData s;
     cliConfigArray := cliConfigArray s; cliConfigData := cliConfigData s;
     configCache := c; cwd := cwd s; extRegExp := extRegExp s;
     finalizeCache := finalizeCache s; globInputPaths := globInputPaths s;
     ignoreFlag := ignoreFlag s; rulePaths := rulePaths s;
     specificConfigPath := specificConfigPath s; useEslintrc := useEslintrc s;
     heap := heap s; next := next s; events := events s |}.

Definition set_finalizeCache (c : gmap loc loc) (s : State) : State :=
  {| baseConfigArray := baseConfigArray s; baseConfigData := baseConfigData s;
     cliConfigArray := cliConfigArray s; cliConfigData := cliConfigData s;
     configCache := configCache s; cwd := cwd s; extRegExp := extRegExp s;
     finalizeCache := c; globInputPaths := globInputPaths s;
     ignoreFlag := ignoreFlag s; rulePaths := rulePaths s;
     specificConfigPath := specificConfigPath s; useEslintrc := useEslintrc s;
     heap := heap s; next := next s; events := events s |}.

Definition set_store (h : gmap loc (list ConfigElement)) (n : loc) (s : State) : State :=
  {| baseConfigArray := baseConfigArray s; baseConfigData := baseConfigData s;
     cliConfigArray := cliConfigArray s; cliConfigData := cliConfigData s;
     configCache := configCache s; cwd := cwd s; extRegExp := extRegExp s;
     finalizeCache := finalizeCache s; globInputPaths := globInputPaths s;
     ignoreFlag := ignoreFlag s; rulePaths := rulePaths s;
     specificConfigPath := specificConfigPath s; useEslintrc := useEslintrc s;
     heap := h; next := n; events := events s |}.

Definition set_events (l : list Event) (s : State) : State :=
  {| baseConfigArray := baseConfigArray s; baseConfigData := baseConfigData s;
     cliConfigArray := cliConfigArray s; cliConfigData := cliConfigData s;
     configCache := configCache s; cwd := cwd s; extRegExp := extRegExp s;
     finalizeCache := finalizeCache s; globInputPaths := globInputPaths s;
     ignoreFlag := ignoreFlag s; rulePaths := rulePaths s;
     specificConfigPath := specificConfigPath s; useEslintrc := useEslintrc s;
     heap := heap s; next := next s; events := l |}.

(** The elements of the array at a location. *)
Definition contents (s : State) (a : loc) : list ConfigElement :=
  default [] (heap s !! a).

(** ** Computations that read and write the state and may throw *)

Definition M (A : Type) : Type := State -> Outcome A * State.

Definition ret {A} (a : A) : M A := fun s => (Ok a, s).
Definition throw {A} (e : Error) : M A := fun s => (Throw e, s).
Definition bind {A B} (m : M A) (k : A -> M B) : M B :=
  fun s =>
    match m s with
    | (Ok a, s') => k a s'
    | (Throw e, s') => (Throw e, s')
    | (OutOfFuel, s') => (OutOfFuel, s')
    end.
Definition get : M State := fun s => (Ok s, s).
Definition modify (f : State -> State) : M unit := fun s => (Ok tt, f s).

Notation "'let*' x ':=' m 'in' k" := (bind m (fun x => k))
  (at level 10, x pattern, m at level 100, k at level 200).
Notation "m ';;' k" := (bind m (fun _ => k))
  (at level 100, k at level 200, right associativity).

(** [new ConfigArray(...es)]: a new object, distinct from every earlier one. *)
Definition alloc (es : list ConfigElement) : M loc :=
  fun s => (Ok (next s), set_store (<[next s := es]> (heap s)) (S (next s)) s).

(** Replace the elements of an array in place ([push], [unshift]). *)
Definition store (a : loc) (es : list ConfigElement) : M unit :=
  modify (fun s => set_store (<[a := es]> (heap s)) (next s) s).

Definition record (c : Event) : M unit :=
  modify (fun s => set_events (events s ++ [c]) s).

Definition lift {A} (r : Ext A) : M A :=
  match r with
  | Returned a => ret a
  | Raised e => throw (ExternalError e)
  end.

(** ** The config array factory, as the enumerator uses it *)

(** Modelled from the spec: [ConfigArrayFactory#create]
    (lib/lookup/config-array-factory.js is not among the sources).  It makes a
    new array of the elements the inline data gives; the array may be empty. *)
Definition create (w : World) (data : option Json) (name : string) : M loc :=
  record (CallCreate name);;
  let* es := lift (factory_create w data name) in
  alloc es.

(** Modelled from the spec: [ConfigArrayFactory#loadFile].  It makes a new
    array of the elements of one config file. *)
Definition loadFile (w : World) (path name : string) : M loc :=
  record (CallLoadFile path);;
  let* es := lift (factory_loadFile w path name) in
  alloc es.

(** Modelled from the spec: [ConfigArrayFactory#loadOnDirectory].  It makes a
    new array of the elements found in the directory, empty if there is no
    config file; with a [parent] it layers what it found on the parent's
    elements, and returns the parent itself when it found nothing. *)
Definition loadOnDirectory (w : World) (dir : string) (name : option string)
    (parent : option loc) : M loc :=
  record (CallLoadOnDirectory dir name);;
  let* es := lift (factory_loadOnDirectory w dir name) in
  match parent with
  | None => alloc es
  | Some p =>
      match es with
      | [] => ret p
      | _ => let* s := get in alloc (contents s p ++ es)
      end
  end.

(** ** Helpers of file-enumerator.js *)

Definition NONE : nat := 0.
Definition IGNORED_SILENTLY : nat := 1.
Definition IGNORED : nat := 2.

Definition dotfilesPattern : string := "(?:(?:^\.)|(?:[/\\]\.))[^/\\.].*".

(** JavaScript's truthiness of a string or [null]. *)
Definition truthy (o : option string) : bool :=
  match o with
  | Some s => negb (bool_decide (s = EmptyString))
  | None => false
  end.

Section FileEnumerator.

Variable P : Platform.

Definition isGlobPattern (pattern : string) : bool :=
  isGlob P (if bool_decide (path_sep P = "\") then replace_backslashes P pattern
            else pattern).

Definition statSafeSync (w : World) (filePath : string) : M (option Stats) :=
  match fs_statSync w filePath with
  | Returned st => ret (Some st)
  | Raised e =>
      if negb (bool_decide (code e = "ENOENT")) then throw (ExternalError e)
      else ret None
  end.

Definition readdirSafeSync (w : World) (directoryPath : string) : M (list string) :=
  match fs_readdirSync w directoryPath with
  | Returned l => ret l
  | Raised e =>
      if negb (bool_decide (code e = "ENOENT")) then throw (ExternalError e)
      else ret []
  end.

(** [rulePaths.reduce((map, rulesPath) => Object.assign(map, loadRules(rulesPath, cwd)), {})] *)
Fixpoint reduceRules (w : World) (rulePaths : list string) (cwd : string)
    (map : gmap string string) : M (gmap string string) :=
  match rulePaths with
  | [] => ret map
  | rulesPath :: rest =>
      let* rules := lift (loadRules w rulesPath cwd) in
      reduceRules w rest cwd (rules ∪ map)
  end.

Definition createBaseConfigArray (w : World) : M loc :=
  let* s := get in
  let* baseConfigArray := create w (baseConfigData s) "BaseConfig" in
  match rulePaths s with
  | Some ((_ :: _) as rulePaths) =>
      let* rules := reduceRules w rulePaths (cwd s) ∅ in
      let* s' := get in
      store baseConfigArray
        (contents s' baseConfigArray ++
         [{| name := "--rulesdir";
             filePath := EmptyString;
             root := None;
             parser := None;
             plugins := [(EmptyString, {| definition := Some rules;
                                 dep_filePath := EmptyString;
                                 id := EmptyString;
                                 importerName := "--rulesdir";
                                 importerPath := EmptyString |})];
             body := JNull |}]);;
      ret baseConfigArray
  | _ => ret baseConfigArray
  end.

Definition createCLIConfigArray (w : World) : M loc :=
  let* s := get in
  let* cliConfigArray := create w (cliConfigData s) "CLIOptions" in
  if truthy (specificConfigPath s) then
    let* loaded := loadFile w (default EmptyString (specificConfigPath s)) "--config" in
    let* s' := get in
    store cliConfigArray (contents s' loaded ++ contents s' cliConfigArray);;
    ret cliConfigArray
  else ret cliConfigArray.

(** [FileEnumeratorOptions], defaults filled in. *)
Record FileEnumeratorOptions := {
  opt_baseConfig : option Json;
  opt_cliConfig : option Json;
  opt_cwd : string;
  opt_extensions : list string;
  opt_globInputPaths : bool;
  opt_ignore : bool;
  opt_rulePaths : option (list string);
  opt_specificConfigPath : option string;
  opt_useEslintrc : bool
}.

Definition startsWithDot (ext : string) : bool :=
  match ext with
  | String c _ => bool_decide (c = "."%char)
  | EmptyString => false
  end.

Definition slice1 (ext : string) : string :=
  match ext with
  | String _ rest => rest
  | EmptyString => EmptyString
  end.

Fixpoint join (sep : string) (l : list string) : string :=
  match l with
  | [] => EmptyString
  | [x] => x
  | x :: rest => x ++ sep ++ join sep rest
  end.

Definition makeExtRegExp (extensions : list string) : string :=
  ".\.(?:" ++
  join "|" (map (fun ext => escapeRegExp P (if startsWithDot ext then slice1 ext else ext))
                extensions)
  ++ ")$".

(** The constructor: the slots before the two arrays are made, then
    [createBaseConfigArray] and [createCLIConfigArray] in that order. *)
Definition emptySlots (o : FileEnumeratorOptions) : State :=
  {| baseConfigArray := 0; baseConfigData := opt_baseConfig o;
     cliConfigArray := 0; cliConfigData := opt_cliConfig o;
     configCache := ∅; cwd := opt_cwd o;
     extRegExp := makeExtRegExp (opt_extensions o);
     finalizeCache := ∅; globInputPaths := opt_globInputPaths o;
     ignoreFlag := opt_ignore o; rulePaths := opt_rulePaths o;
     specificConfigPath := opt_specificConfigPath o;
     useEslintrc := opt_useEslintrc o;
     heap := ∅; next := 0; events := [] |}.

Definition constructor (w : World) : M unit :=
  let* base := createBaseConfigArray w in
  modify (set_baseConfigArray base);;
  let* cli := createCLIConfigArray w in
  modify (set_cliConfigArray cli).

Definition new_FileEnumerator (w : World) (o : FileEnumeratorOptions)
  : Outcome unit * State :=
  constructor w (emptySlots o).

Definition clearCache (w : World) : M unit :=
  let* base := createBaseConfigArray w in
  modify (set_baseConfigArray base);;
  let* cli := createCLIConfigArray w in
  modify (set_cliConfigArray cli);;
  modify (set_configCache ∅).

(** *** The ancestor resolver *)

Definition consideredRoot (w : World) (s : State) (filePath directoryPath : string) : bool :=
  bool_decide (directoryPath = EmptyString)
  || bool_decide (directoryPath = filePath)
  || (bool_decide (directoryPath = os_homedir w)
      && negb (bool_decide (cwd s = os_homedir w))).

Definition cacheConfig (directoryPath : string) (configArray : loc) : M unit :=
  modify (fun s => set_configCache (<[directoryPath := configArray]> (configCache s)) s).

(** [fuel] bounds the number of directories the walk may climb. *)
Fixpoint _loadConfigInAncestorsRecursive (fuel : nat) (w : World) (filePath : string)
  : M loc :=
  fun s =>
  match fuel with
  | 0 => (OutOfFuel, s)
  | S fuel' =>
    if negb (useEslintrc s) then (Ok (baseConfigArray s), s) else
    let directoryPath := path_dirname P filePath in
    match configCache s !! directoryPath with
    | Some configArray => (Ok configArray, s)
    | None =>
      if consideredRoot w s filePath directoryPath then
        (cacheConfig directoryPath (baseConfigArray s);;
         ret (baseConfigArray s)) s
      else
        match loadOnDirectory w directoryPath None None s with
        | (Throw (ExternalError error), s1) =>
            if bool_decide (code error = "EACCES") then
              (cacheConfig directoryPath (baseConfigArray s1);;
               ret (baseConfigArray s1)) s1
            else (Throw (ExternalError error), s1)
        | (Throw e, s1) => (Throw e, s1)
        | (OutOfFuel, s1) => (OutOfFuel, s1)
        | (Ok configArray, s1) =>
            if (0 <? length (contents s1 configArray))%nat
               && configArray_root w (contents s1 configArray) then
              (cacheConfig directoryPath configArray;;
               ret configArray) s1
            else
              (let* configArray :=
                 (if (0 <? length (contents s1 configArray))%nat then
                    let* parent := _loadConfigInAncestorsRecursive fuel' w directoryPath in
                    let* s2 := get in
                    store configArray (contents s2 parent ++ contents s2 configArray);;
                    ret configArray
                  else _loadConfigInAncestorsRecursive fuel' w directoryPath) in
               cacheConfig directoryPath configArray;;
               ret configArray) s1
        end
    end
  end.

Definition _loadConfigInAncestors (fuel : nat) (w : World) (filePath : string) : M loc :=
  _loadConfigInAncestorsRecursive fuel w filePath.

Definition _loadConfigOnDirectory (w : World) (directoryPath : string)
    (parentConfigArray : loc) : M loc :=
  let* s := get in
  if negb (useEslintrc s) then ret parentConfigArray
  else loadOnDirectory w directoryPath None (Some parentConfigArray).

(** *** The finalizer *)

Definition noFilePath (es : list ConfigElement) : bool :=
  forallb (fun c => bool_decide (filePath c = EmptyString)) es.

(** Whether finalizing [configArray] for the first time consults the personal
    config. *)
Definition wantsPersonalConfig (s : State) (configArray : loc) : bool :=
  useEslintrc s
  && noFilePath (contents s configArray)
  && noFilePath (contents s (cliConfigArray s)).

Definition _finalizeConfigArray (w : World) (configArray : loc) (directoryPath : string)
  : M loc :=
  let* s := get in
  let* finalConfigArray :=
    match finalizeCache s !! configArray with
    | Some finalConfigArray => ret finalConfigArray
    | None =>
        let* finalConfigArray :=
          (if wantsPersonalConfig s configArray then
             loadOnDirectory w (os_homedir w) (Some "PersonalConfig") (Some configArray)
           else ret configArray) in
        let* s1 := get in
        let* finalConfigArray :=
          (if (0 <? length (contents s1 (cliConfigArray s1)))%nat then
             alloc (contents s1 finalConfigArray ++ contents s1 (cliConfigArray s1))
           else ret finalConfigArray) in
        let* s2 := get in
        match validateConfigArray w (contents s2 finalConfigArray) with
        | Some e => throw (ExternalError e)
        | None =>
            modify (fun s => set_finalizeCache
                               (<[configArray := finalConfigArray]> (finalizeCache s)) s);;
            ret finalConfigArray
        end
    end in
  let* s3 := get in
  if useEslintrc s3 && bool_decide (length (contents s3 finalConfigArray) = 0) then
    throw (ConfigurationNotFoundError directoryPath)
  else ret finalConfigArray.

(** *** The file iterator *)

Record WalkOptions := {
  dotfiles : bool;
  recursive : bool;
  selector : option string
}.

Definition _isIgnoredFile (w : World) (filePath : string) (dotfiles direct : bool)
  : M bool :=
  let* s := get in
  ret (if ignoreFlag s then ignoredPaths_contains w dotfiles filePath false
       else negb direct && ignoredPaths_contains w dotfiles filePath true).

(** What [_iterateFiles] returns: an array, or the generator object of
    [_iterateFilesRecursive], whose body has not started to run. *)
Inductive FileIter :=
| IterArray (entries : list FileEntry)
| IterWalk (directoryPath : string) (parentConfig : loc) (options : WalkOptions).

(** [for (const x of xs) acc = body(x, acc)] over an array. *)
Fixpoint forEach {X A} (body : X -> A -> M A) (xs : list X) (acc : A) : M A :=
  match xs with
  | [] => ret acc
  | x :: rest => let* acc' := body x acc in forEach body rest acc'
  end.

Definition isFileStat (stat : option Stats) : bool :=
  match stat with Some st => isFile st | None => false end.

Definition isDirectoryStat (stat : option Stats) : bool :=
  match stat with Some st => isDirectory st | None => false end.

(** The generator [_iterateFilesRecursive], run to its end by a [for-of] loop
    whose body is [yield]: the body runs at each entry, between the
    generator's own steps.  [fuel] bounds the depth of the walk. *)
Fixpoint _iterateFilesRecursive {A} (yield : FileEntry -> A -> M A) (fuel : nat)
    (w : World) (directoryPath : string) (parentConfig : loc)
    (options : WalkOptions) (acc : A) : M A :=
  match fuel with
  | 0 => fun s => (OutOfFuel, s)
  | S fuel' =>
    let* ignoredDir := _isIgnoredFile w directoryPath (dotfiles options) false in
    if ignoredDir then ret acc else
    let* config := _loadConfigOnDirectory w directoryPath parentConfig in
    let* filenames := readdirSafeSync w directoryPath in
    forEach
      (fun filename acc =>
         let filePath := path_join P directoryPath filename in
         let* stat := statSafeSync w filePath in
         if isFileStat stat then
           let* ignored := _isIgnoredFile w filePath (dotfiles options) false in
           let flag := if ignored then IGNORED_SILENTLY else NONE in
           let* s := get in
           let matched :=
             match selector options with
             | Some pattern => minimatch_match P pattern filePath
             | None => RegExp_test P (extRegExp s) filePath
             end in
           if matched then
             yield {| entry_config := config; entry_filePath := filePath; flag := flag |} acc
           else ret acc
         else if recursive options && isDirectoryStat stat then
           _iterateFilesRecursive yield fuel' w filePath config options acc
         else ret acc)
      filenames acc
  end.

Definition _iterateFilesWithFile (fuel : nat) (w : World) (filePath : string)
  : M FileIter :=
  let* config := _loadConfigInAncestors fuel w filePath in
  let* ignored := _isIgnoredFile w filePath false true in
  let flag := if ignored then IGNORED else NONE in
  ret (IterArray [{| entry_config := config; entry_filePath := filePath; flag := flag |}]).

Definition _iterateFilesWithDirectory (fuel : nat) (w : World) (directoryPath : string)
    (dotfiles : bool) : M FileIter :=
  let* config := _loadConfigInAncestors fuel w directoryPath in
  ret (IterWalk directoryPath config
         {| dotfiles := dotfiles; recursive := true; selector := None |}).

(** [s.slice(n)] for [0 <= n]. *)
Fixpoint slice (n : nat) (s : string) : string :=
  match n, s with
  | 0, _ => s
  | S n', String _ rest => slice n' rest
  | S _, EmptyString => EmptyString
  end.

Definition _iterateFilesWithGlob (fuel : nat) (w : World) (pattern : string)
    (dotfiles : bool) : M FileIter :=
  let directoryPath := getGlobParent P pattern in
  let globPart := slice (String.length directoryPath + 1) pattern in
  let* config := _loadConfigInAncestors fuel w directoryPath in
  let recursive := RegExp_test P "\*\*|\/|\\" globPart in
  ret (IterWalk directoryPath config
         {| dotfiles := dotfiles; recursive := recursive; selector := Some pattern |}).

Definition _iterateFiles (fuel : nat) (w : World) (pattern : string) : M FileIter :=
  let* s := get in
  let absolutePath := path_resolve P (cwd s) pattern in
  if globInputPaths s && isGlobPattern pattern then
    _iterateFilesWithGlob fuel w absolutePath (RegExp_test P dotfilesPattern pattern)
  else
    let* stat := statSafeSync w absolutePath in
    if isDirectoryStat stat then
      _iterateFilesWithDirectory fuel w absolutePath (RegExp_test P dotfilesPattern pattern)
    else if isFileStat stat then
      _iterateFilesWithFile fuel w absolutePath
    else ret (IterArray []).

(** [for (const entry of iter) acc = body(entry, acc)] *)
Definition forOf {A} (fuel : nat) (w : World) (iter : FileIter)
    (body : FileEntry -> A -> M A) (acc : A) : M A :=
  match iter with
  | IterArray entries => forEach body entries acc
  | IterWalk directoryPath parentConfig options =>
      _iterateFilesRecursive body fuel w directoryPath parentConfig options acc
  end.

(** The variables of the loop over one pattern in [iterateFiles]; [set] is
    shared by all the patterns of a call. *)
Record LoopState := {
  foundRegardlessOfIgnored : bool;
  found : bool;
  set : gset string
}.

(** The body of the inner loop of [iterateFiles]. *)
Definition iterateFiles_body (w : World) (entry : FileEntry) (l : LoopState)
  : M LoopState :=
  if bool_decide (flag entry = IGNORED_SILENTLY) then
    ret {| foundRegardlessOfIgnored := true; found := found l; set := set l |}
  else if negb (bool_decide (entry_filePath entry ∈ set l)) then
    let* final := _finalizeConfigArray w (entry_config entry)
                    (path_dirname P (entry_filePath entry)) in
    record (Yield {| config := final;
                     fc_filePath := entry_filePath entry;
                     ignored := bool_decide (flag entry = IGNORED) |});;
    ret {| foundRegardlessOfIgnored := true; found := true;
           set := {[entry_filePath entry]} ∪ set l |}
  else
    ret {| foundRegardlessOfIgnored := true; found := true; set := set l |}.

(** One turn of the outer loop of [iterateFiles]; [globInputPaths] is the
    slot as [iterateFiles] read it when it started. *)
Definition iterateFiles_pattern (fuel : nat) (w : World) (globInputPaths : bool)
    (pattern : string) (set0 : gset string) : M (gset string) :=
  if bool_decide (pattern = EmptyString) then ret set0 else
  let* iter := _iterateFiles fuel w pattern in
  let* l := forOf fuel w iter (iterateFiles_body w)
              {| foundRegardlessOfIgnored := false; found := false; set := set0 |} in
  if negb (foundRegardlessOfIgnored l) then
    throw (NoFilesFoundError pattern (negb globInputPaths && isGlob P pattern))
  else if negb (found l) then
    throw (AllFilesIgnoredError pattern)
  else ret (set l).

(** [iterateFiles], run until its generator is done or throws.  The entries it
    yields are the [Yield] events it adds. *)
Definition iterateFiles (fuel : nat) (w : World) (patternOrPatterns : string + list string)
  : M unit :=
  let* s := get in
  let globInputPaths := globInputPaths s in
  let patterns :=
    match patternOrPatterns with
    | inl pattern => [pattern]
    | inr patterns => patterns
    end in
  let* _ := forEach (iterateFiles_pattern fuel w globInputPaths) patterns ∅ in
  ret tt.

(** *** The facade *)

Definition getConfigArrayForFile (fuel : nat) (w : World) (filePath : option string)
  : M loc :=
  let filePath := default "a.js" filePath in
  let* s := get in
  let absolutePath := path_resolve P (cwd s) filePath in
  let* config := _loadConfigInAncestors fuel w absolutePath in
  _finalizeConfigArray w config (path_dirname P absolutePath).

End FileEnumerator.

(** ** [ExtractedConfig] *)

Module ExtractedConfig.

(** The values held by the properties of an [ExtractedConfig] and of the
    object made from it. *)
Inductive Value :=
| VNull
| VString (s : string)
| VObject (o : Json)
| VDependency (d : ConfigDependency)
| VPlugins (o : list (string * ConfigDependency))
| VArray (ids : list string).

(** JavaScript's [!v]. *)
Definition falsy (v : Value) : bool :=
  match v with
  | VNull => true
  | VString s => bool_decide (s = EmptyString)
  | _ => false
  end.

(** The fields the constructor sets, in its order.  [plugins] lists the
    plugins in the order they were added to the object. *)
Record ExtractedConfig := {
  env : Json;
  globals : Json;
  parser : option ConfigDependency;
  parserOptions : Json;
  plugins : list (string * ConfigDependency);
  processor : option string;
  rules : Json;
  settings : Json
}.

Definition ofOption {A} (f : A -> Value) (o : option A) : Value :=
  match o with Some a => f a | None => VNull end.

(** The own enumerable properties of [this]. *)
Definition ownProperties (this : ExtractedConfig) : list (string * Value) :=
  [ ("env", VObject (env this));
    ("globals", VObject (globals this));
    ("parser", ofOption VDependency (parser this));
    ("parserOptions", VObject (parserOptions this));
    ("plugins", VPlugins (plugins this));
    ("processor", ofOption VString (processor this));
    ("rules", VObject (rules this));
    ("settings", VObject (settings this)) ].

Fixpoint getProperty (key : string) (o : list (string * Value)) : option Value :=
  match o with
  | [] => None
  | (k, v) :: rest => if bool_decide (k = key) then Some v else getProperty key rest
  end.

(** [o[key] = v]: an existing property keeps its place. *)
Fixpoint setProperty (key : string) (v : Value) (o : list (string * Value))
  : list (string * Value) :=
  match o with
  | [] => [(key, v)]
  | (k, v') :: rest =>
      if bool_decide (k = key) then (k, v) :: rest
      else (k, v') :: setProperty key v rest
  end.

(** [const { [key]: _ignore, ...rest } = o] *)
Definition restWithout (key : string) (o : list (string * Value)) : list (string * Value) :=
  filter (fun kv => fst kv ≠ key) o.

Definition digit (c : ascii) : option N :=
  let n := N_of_ascii c in
  if ((48 <=? n) && (n <=? 57))%N then Some (n - 48)%N else None.

Fixpoint digits (s : string) (acc : N) : option N :=
  match s with
  | EmptyString => Some acc
  | String c rest =>
      match digit c with
      | Some d => digits rest (10 * acc + d)%N
      | None => None
      end
  end.

(** An array index: the canonical decimal form of an integer below
    [2^32 - 1]. *)
Definition arrayIndex (key : string) : option N :=
  match key with
  | EmptyString => None
  | String c rest =>
      if bool_decide (c = "0"%char) then
        if bool_decide (rest = EmptyString) then Some 0%N else None
      else
        match digits key 0 with
        | Some n => if (n <? 4294967295)%N then Some n else None
        | None => None
        end
  end.

Definition isArrayIndex (key : string) : bool :=
  match arrayIndex key with Some _ => true | None => false end.

Fixpoint insertIndex (n : N) (key : string) (sorted : list (N * string)) : list (N * string) :=
  match sorted with
  | [] => [(n, key)]
  | (m, k) :: rest =>
      if (n <=? m)%N then (n, key) :: sorted else (m, k) :: insertIndex n key rest
  end.

Fixpoint indexKeys (keys : list string) : list (N * string) :=
  match keys with
  | [] => []
  | key :: rest =>
      match arrayIndex key with
      | Some n => insertIndex n key (indexKeys rest)
      | None => indexKeys rest
      end
  end.

(** [Object.keys(o)] for an object whose properties were created in the order
    of [o]: the array indices in ascending order, then the other keys in the
    order of their creation. *)
Definition Object_keys {V} (o : list (string * V)) : list string :=
  let keys := map fst o in
  map snd (indexKeys keys) ++ List.filter (fun key => negb (isArrayIndex key)) keys.

Definition toCompatibleObjectAsConfigFileContent (this : ExtractedConfig)
  : list (string * Value) :=
  let config := restWithout "processor" (ownProperties this) in
  let config :=
    setProperty "parser"
      (match getProperty "parser" config with
       | Some (VDependency parser) => VString (dep_filePath parser)
       | Some v => v
       | None => VNull
       end) config in
  setProperty "plugins"
    (match getProperty "plugins" config with
     | Some (VPlugins plugins) => VArray (rev (Object_keys plugins))
     | _ => VArray []
     end) config.

(** Sample configs: a parser and two plugins; two plugins of which the
    second has an id that is an array index. *)
Definition dependency (id filePath : string) : ConfigDependency :=
  {| definition := None; dep_filePath := filePath; id := id;
     importerName := ".eslintrc.json"; importerPath := "/tmp/root/.eslintrc.json" |}.

Definition sample (plugins : list (string * ConfigDependency)) : ExtractedConfig :=
  {| env := JObj []; globals := JObj [];
     parser := Some (dependency "babel-eslint" "/tmp/root/node_modules/babel-eslint/index.js");
     parserOptions := JObj []; plugins := plugins;
     processor := Some "markdown/.md"; rules := JObj []; settings := JObj [] |}.

Definition reactImport : ExtractedConfig :=
  sample [("react", dependency "react" "/tmp/root/node_modules/eslint-plugin-react/index.js");
          ("import", dependency "import" "/tmp/root/node_modules/eslint-plugin-import/index.js")].

Definition reactTwo : ExtractedConfig :=
  sample [("react", dependency "react" "/tmp/root/node_modules/eslint-plugin-react/index.js");
          ("2", dependency "2" "/tmp/root/node_modules/eslint-plugin-2/index.js")].

End ExtractedConfig.

(** ** Operations, reachable states and invariants *)

(** The traced variant of a loop body: it also collects the entries the loop
    receives. *)
Definition traced {A} (body : FileEntry -> A -> M A)
    (entry : FileEntry) (acc : A * list FileEntry) : M (A * list FileEntry) :=
  let* acc' := body entry (fst acc) in
  ret (acc', (snd acc ++ [entry])%list).

Definition silentlyIgnored (entry : FileEntry) : bool :=
  bool_decide (flag entry = IGNORED_SILENTLY).

(** Two runs that end alike: in the same state, both with a result, the
    results related by [R], or both with the same error. *)
Definition related {A B} (R : A -> B -> Prop)
    (x : Outcome A * State) (y : Outcome B * State) : Prop :=
  snd x = snd y /\
  match fst x, fst y with
  | Ok a, Ok b => R a b
  | Throw e1, Throw e2 => e1 = e2
  | OutOfFuel, OutOfFuel => True
  | _, _ => False
  end.

(** The flags of the loop over a pattern say what the loop has received. *)
Definition flagsOf (l : LoopState) (received : LoopState * list FileEntry) : Prop :=
  l = fst received /\
  foundRegardlessOfIgnored l = negb (bool_decide (snd received = [])) /\
  found l = negb (forallb silentlyIgnored (snd received)).

(** The public operations. *)
Inductive Op :=
| GetConfigArrayForFile (filePath : option string)
| IterateFiles (patternOrPatterns : string + list string)
| ClearCache.

Definition isClearCache (op : Op) : bool :=
  match op with ClearCache => true | _ => false end.

Definition run (P : Platform) (fuel : nat) (w : World) (op : Op) : M unit :=
  match op with
  | GetConfigArrayForFile filePath =>
      let* _ := getConfigArrayForFile P fuel w filePath in ret tt
  | IterateFiles patterns => iterateFiles P fuel w patterns
  | ClearCache => clearCache w
  end.

(** One operation, run to its end: it returned or it threw. *)
Definition finished {A} (r : Outcome A) : Prop := r ≠ OutOfFuel.

Inductive step (P : Platform) (allowClear : bool) (s s' : State) : Prop :=
| step_run fuel w op r :
    (isClearCache op = true -> allowClear = true) ->
    run P fuel w op s = (r, s') ->
    finished r ->
    step P allowClear s s'.

(** Any number of operations; with [allowClear = false], none of them is
    [clearCache]. *)
Inductive steps (P : Platform) (allowClear : bool) : State -> State -> Prop :=
| steps_refl s : steps P allowClear s s
| steps_step s s' s'' :
    steps P allowClear s s' -> step P allowClear s' s'' -> steps P allowClear s s''.

(** The states of an enumerator: made by the constructor, then used. *)
Inductive reachable (P : Platform) (s : State) : Prop :=
| reachable_intro w o s0 :
    new_FileEnumerator P w o = (Ok tt, s0) ->
    steps P true s0 s ->
    reachable P s.

(** Every array in use was allocated, and a finalized array is never older
    than the array it was made from.  With [epoch], moreover, the base array
    and every cached array were allocated at [epoch] or later. *)
Record inv (epoch : loc) (s : State) : Prop := {
  inv_heap : forall a, is_Some (heap s !! a) -> a < next s;
  inv_base : epoch <= baseConfigArray s < next s;
  inv_cli : cliConfigArray s < next s;
  inv_cache : forall d a, configCache s !! d = Some a -> epoch <= a < next s;
  inv_final : forall k f, finalizeCache s !! k = Some f -> k <= f < next s
}.

(** What an operation other than [clearCache] leaves as it is: the slots, the
    entries of both caches, the arrays allocated before and the events so far. *)
Record grows (s s' : State) : Prop := {
  grows_base : baseConfigArray s' = baseConfigArray s;
  grows_cli : cliConfigArray s' = cliConfigArray s;
  grows_cwd : cwd s' = cwd s;
  grows_useEslintrc : useEslintrc s' = useEslintrc s;
  grows_cache : configCache s ⊆ configCache s';
  grows_final : finalizeCache s ⊆ finalizeCache s';
  grows_next : next s <= next s';
  grows_heap : forall a, a < next s -> heap s' !! a = heap s !! a;
  grows_events : events s `prefix_of` events s'
}.

(** The directories above a path: [ancestor n p] is [n] levels up. *)
Fixpoint ancestor (P : Platform) (n : nat) (p : string) : string :=
  match n with
  | 0 => p
  | S n' => path_dirname P (ancestor P n' p)
  end.

(** The same world with another file system and another ignore predicate. *)
Definition withFileSystem (w : World)
    (statSync : string -> Ext Stats) (readdirSync : string -> Ext (list string))
    (contains : bool -> string -> bool -> bool) : World :=
  {| os_homedir := os_homedir w;
     fs_statSync := statSync;
     fs_readdirSync := readdirSync;
     factory_create := factory_create w;
     factory_loadFile := factory_loadFile w;
     factory_loadOnDirectory := factory_loadOnDirectory w;
     configArray_root := configArray_root w;
     validateConfigArray := validateConfigArray w;
     loadRules := loadRules w;
     ignoredPaths_contains := contains |}.

Definition logged (c : Event) (s : State) : State := set_events (events s ++ [c]) s.

Definition allocated (es : list ConfigElement) (s : State) : State :=
  set_store (<[next s := es]> (heap s)) (S (next s)) s.

(** Every allocated location is below the allocation pointer. *)
Definition heap_ok (s : State) : Prop :=
  forall a, is_Some (heap s !! a) -> a < next s.

(** What making an array leaves as it is: every slot, and the arrays
    allocated before. *)
Record frames (s s' : State) : Prop := {
  frames_base : baseConfigArray s' = baseConfigArray s;
  frames_cli : cliConfigArray s' = cliConfigArray s;
  frames_cwd : cwd s' = cwd s;
  frames_useEslintrc : useEslintrc s' = useEslintrc s;
  frames_cache : configCache s' = configCache s;
  frames_final : finalizeCache s' = finalizeCache s;
  frames_next : next s <= next s';
  frames_heap : forall a, a < next s -> heap s' !! a = heap s !! a;
  frames_events : events s `prefix_of` events s'
}.

(** ** A sample platform and sample worlds

    A POSIX platform and small worlds to run the enumerator on.  [dirname]
    follows Node's [path.posix.dirname]; the other functions are simple
    stand-ins that agree with the libraries on the inputs used below
    (absolute paths without [.] and [..] segments, globs written with [*]). *)

Module Sample.

Definition slash : ascii := "/"%char.

(** The loop of [path.posix.dirname], over the characters after the first,
    last one first: the characters before the slash that ends the directory
    part. *)
Fixpoint scan (reversed : list ascii) (matchedSlash : bool) : option (list ascii) :=
  match reversed with
  | [] => None
  | c :: before =>
      if bool_decide (c = slash) then
        if negb matchedSlash then Some before else scan before true
      else scan before false
  end.

Definition dirname (path : string) : string :=
  match list_ascii_of_string path with
  | [] => "."
  | first :: rest =>
      let hasRoot := bool_decide (first = slash) in
      match scan (rev rest) true with
      | None => if hasRoot then "/" else "."
      | Some [] => if hasRoot then "//" else string_of_list_ascii [first]
      | Some before => string_of_list_ascii (first :: rev before)
      end
  end.

Definition startsWith (c : ascii) (s : string) : bool :=
  match s with
  | String c' _ => bool_decide (c' = c)
  | EmptyString => false
  end.

Definition endsWith (suffix s : string) : bool :=
  bool_decide (slice (String.length s - String.length suffix) s = suffix).

Fixpoint containsChar (c : ascii) (s : string) : bool :=
  match s with
  | String c' rest => bool_decide (c' = c) || containsChar c rest
  | EmptyString => false
  end.

Definition resolve (cwd path : string) : string :=
  if startsWith slash path then path else cwd ++ "/" ++ path.

Definition join (dir name : string) : string :=
  if endsWith "/" dir then dir ++ name else dir ++ "/" ++ name.

Fixpoint beforeStar (s : string) : string :=
  match s with
  | String c rest => if bool_decide (c = "*"%char) then EmptyString else String c (beforeStar rest)
  | EmptyString => EmptyString
  end.

Definition globParent (pattern : string) : string :=
  dirname (beforeStar pattern ++ "x").

Fixpoint afterLastStar (s : string) : string :=
  match s with
  | String c rest =>
      if containsChar "*"%char s then afterLastStar rest else s
  | EmptyString => EmptyString
  end.

Definition matchGlob (pattern path : string) : bool :=
  endsWith (afterLastStar pattern) path.

Definition testRegExp (source s : string) : bool :=
  if bool_decide (source = dotfilesPattern) then startsWith "."%char s
  else if bool_decide (source = "\*\*|\/|\\") then containsChar slash s
  else endsWith ".js" s.

Definition posix : Platform :=
  {| path_sep := "/";
     path_dirname := dirname;
     path_resolve := resolve;
     path_join := join;
     isGlob := containsChar "*"%char;
     getGlobParent := globParent;
     minimatch_match := matchGlob;
     escapeRegExp := fun s => s;
     RegExp_test := testRegExp;
     replace_backslashes := fun s => s |}.

Definition element (name filePath : string) : ConfigElement :=
  {| name := name; filePath := filePath; root := None; parser := None;
     plugins := []; body := JNull |}.

Definition rootElement (name filePath : string) : ConfigElement :=
  {| name := name; filePath := filePath; root := Some true; parser := None;
     plugins := []; body := JNull |}.

(** [ConfigArray#root]: the flag of the last element that has one. *)
Fixpoint lastRoot (es : list ConfigElement) : option bool :=
  match es with
  | [] => None
  | e :: rest =>
      match lastRoot rest with
      | Some b => Some b
      | None => root e
      end
  end.

Definition isRoot (es : list ConfigElement) : bool := default false (lastRoot es).

Definition eacces : JsError := {| code := "EACCES"; message := "permission denied" |}.
Definition enoent : JsError := {| code := "ENOENT"; message := "no such file or directory" |}.
Definition eio : JsError := {| code := "EIO"; message := "i/o error" |}.

Definition file : Stats := {| isFile := true; isDirectory := false |}.
Definition directory : Stats := {| isFile := false; isDirectory := true |}.

(** A world given by its home directory, the config files of its directories
    and its file system; inline config data [JNull] makes no element, other
    data one; every config array is valid; nothing is ignored but paths that
    end in [ignored.js]. *)
Definition world (home : string)
    (configs : string -> Ext (list ConfigElement))
    (stat : string -> Ext Stats) (readdir : string -> Ext (list string)) : World :=
  {| os_homedir := home;
     fs_statSync := stat;
     fs_readdirSync := readdir;
     factory_create := fun data name =>
       Returned (match data with
                 | None | Some JNull => []
                 | Some _ => [element name EmptyString]
                 end);
     factory_loadFile := fun path name => Returned [element name path];
     factory_loadOnDirectory := fun dir _ => configs dir;
     configArray_root := isRoot;
     validateConfigArray := fun _ => None;
     loadRules := fun _ _ => Returned ∅;
     ignoredPaths_contains := fun _ path _ => endsWith "ignored.js" path |}.

Definition options (cwd : string) : FileEnumeratorOptions :=
  {| opt_baseConfig := None; opt_cliConfig := None; opt_cwd := cwd;
     opt_extensions := [".js"]; opt_globInputPaths := true; opt_ignore := true;
     opt_rulePaths := Some []; opt_specificConfigPath := None;
     opt_useEslintrc := true |}.

(** The project of the end-to-end scenarios: [/tmp/root] with a config file,
    [lib] with two files, [lib/nested] with a config file and two files; the
    directory [/locked] cannot be read. *)
Definition projectConfigs (dir : string) : Ext (list ConfigElement) :=
  if bool_decide (dir = "/tmp/root") then
    Returned [element ".eslintrc.json" "/tmp/root/.eslintrc.json"]
  else if bool_decide (dir = "/tmp/root/lib/nested") then
    Returned [element ".eslintrc.yml" "/tmp/root/lib/nested/.eslintrc.yml"]
  else if bool_decide (dir = "/locked") then Raised eacces
  else if bool_decide (dir = "/broken") then Raised eio
  else if bool_decide (dir = "/home/user") then
    Returned [element "PersonalConfig" "/home/user/.eslintrc.json"]
  else if bool_decide (dir = "/tmp/root/sub") then
    Returned [rootElement ".eslintrc.json" "/tmp/root/sub/.eslintrc.json"]
  else Returned [].

Definition projectStat (path : string) : Ext Stats :=
  if bool_decide (path ∈ ["/tmp/root"; "/tmp/root/lib"; "/tmp/root/lib/nested";
                          "/tmp/root/hidden"]) then
    Returned directory
  else if bool_decide (path ∈ ["/tmp/root/lib/one.js"; "/tmp/root/lib/two.js";
                               "/tmp/root/lib/nested/one.js";
                               "/tmp/root/lib/nested/two.js";
                               "/tmp/root/hidden/ignored.js";
                               "/tmp/root/hidden/readme.md"]) then
    Returned file
  else Raised enoent.

Definition projectReaddir (path : string) : Ext (list string) :=
  if bool_decide (path = "/tmp/root") then Returned ["hidden"; "lib"]
  else if bool_decide (path = "/tmp/root/lib") then Returned ["nested"; "one.js"; "two.js"]
  else if bool_decide (path = "/tmp/root/lib/nested") then Returned ["one.js"; "two.js"]
  else if bool_decide (path = "/tmp/root/hidden") then Returned ["ignored.js"; "readme.md"]
  else Raised enoent.

Definition project : World :=
  world "/home/user" projectConfigs projectStat projectReaddir.

(** The state of a new enumerator in [/tmp/root], when its constructor
    returns. *)
Definition fresh : State := snd (new_FileEnumerator posix project (options "/tmp/root")).

(** The enumerator after [getConfigArrayForFile("lib/one.js")], and after a
    walk over [lib] that follows it. *)
Definition afterOne : State :=
  snd (getConfigArrayForFile posix 10 project (Some "lib/one.js") fresh).

Definition afterWalk : State :=
  snd (iterateFiles posix 10 project (inl "lib/**/*.js") afterOne).

(** The same enumerator after [clearCache()], and after asking for
    [lib/one.js] again. *)
Definition cleared : State := snd (clearCache project afterWalk).

Definition afterClear : State :=
  snd (getConfigArrayForFile posix 10 project (Some "lib/one.js") cleared).

(** A world whose only config file is the personal one, in the home
    directory, and a new enumerator in a project without config files. *)
Definition homeConfigs (dir : string) : Ext (list ConfigElement) :=
  if bool_decide (dir = "/home/user") then
    Returned [element "PersonalConfig" "/home/user/.eslintrc.json"]
  else Returned [].

Definition homeOnly : World :=
  world "/home/user" homeConfigs projectStat projectReaddir.

Definition freshAtWork : State :=
  snd (new_FileEnumerator posix homeOnly (options "/work")).

(** A world with a config file in the root directory [/], and a new
    enumerator with a base config in it. *)
Definition rootConfigs (dir : string) : Ext (list ConfigElement) :=
  if bool_decide (dir = "/") then
    Returned [element ".eslintrc.json" "/.eslintrc.json"]
  else Returned [].

Definition rootWorld : World :=
  world "/home/user" rootConfigs projectStat projectReaddir.

Definition withBase (cwd : string) : FileEnumeratorOptions :=
  {| opt_baseConfig := Some (JObj []); opt_cliConfig := None; opt_cwd := cwd;
     opt_extensions := [".js"]; opt_globInputPaths := true; opt_ignore := true;
     opt_rulePaths := Some []; opt_specificConfigPath := None;
     opt_useEslintrc := true |}.

Definition freshAtRoot : State :=
  snd (new_FileEnumerator posix rootWorld (withBase "/tmp/root")).

(** A world without any config file, and a new enumerator in it. *)
Definition noConfigs : World :=
  world "/home/user" (fun _ => Returned []) projectStat projectReaddir.

Definition freshNoConfig : State :=
  snd (new_FileEnumerator posix noConfigs (options "/work")).

End Sample.

(** ** More vocabulary: what the consumer has received, what never changes *)

(** [get cwd()] *)
Definition get_cwd : M string :=
  let* s := get in ret (cwd s).

Definition yieldOf (c : Event) : option FileAndConfig :=
  match c with
  | Yield entry => Some entry
  | _ => None
  end.

(** The entries [iterateFiles] has handed to its consumer so far, and the
    calls into the factory so far. *)
Definition yielded (s : State) : list FileAndConfig := omap yieldOf (events s).

Definition isCall (c : Event) : bool :=
  match c with
  | Yield _ => false
  | _ => true
  end.

Definition calls (s : State) : list Event := List.filter isCall (events s).

(** The slots that hold the constructor's options. *)
Record configured (s s' : State) : Prop := {
  configured_baseConfigData : baseConfigData s' = baseConfigData s;
  configured_cliConfigData : cliConfigData s' = cliConfigData s;
  configured_cwd : cwd s' = cwd s;
  configured_extRegExp : extRegExp s' = extRegExp s;
  configured_globInputPaths : globInputPaths s' = globInputPaths s;
  configured_ignoreFlag : ignoreFlag s' = ignoreFlag s;
  configured_rulePaths : rulePaths s' = rulePaths s;
  configured_specificConfigPath : specificConfigPath s' = specificConfigPath s;
  configured_useEslintrc : useEslintrc s' = useEslintrc s
}.

(** A step that hands nothing to the consumer and leaves the options alone. *)
Definition quiet (s s' : State) : Prop :=
  configured s s' /\ yielded s' = yielded s.

(** How a loop with variables of type [A] ends when [I] holds of its
    variables throughout: [I] holds of the result if the loop returned, and of
    the variables as they were when it threw. *)
Definition ends {A} (I : A -> State -> Prop) (r : Outcome A) (s : State) : Prop :=
  match r with
  | Ok a => I a s
  | _ => exists a, I a s
  end.

(** The pseudo plugin element [createBaseConfigArray] pushes for
    [--rulesdir]. *)
Definition rulesdirElement (rules : gmap string string) : ConfigElement :=
  {| name := "--rulesdir";
     filePath := EmptyString;
     root := None;
     parser := None;
     plugins := [(EmptyString, {| definition := Some rules;
                                  dep_filePath := EmptyString;
                                  id := EmptyString;
                                  importerName := "--rulesdir";
                                  importerPath := EmptyString |})];
     body := JNull |}.

(** Whether [_isIgnoredFile(filePath, { dotfiles, direct })] holds in [s]. *)
Definition isIgnored (w : World) (s : State) (filePath : string) (dotfiles direct : bool)
  : bool :=
  if ignoreFlag s then ignoredPaths_contains w dotfiles filePath false
  else negb direct && ignoredPaths_contains w dotfiles filePath true.

(** A step that only loads: besides being quiet, it leaves both caches and
    the base and CLI arrays as they are. *)
Definition loading (s s' : State) : Prop :=
  quiet s s' /\ configCache s' = configCache s /\ finalizeCache s' = finalizeCache s /\
  baseConfigArray s' = baseConfigArray s /\ cliConfigArray s' = cliConfigArray s.

(** The paths [fs.readdirSync] finds below a directory, at any depth. *)
Inductive inside (P : Platform) (w : World) (directoryPath : string) : string -> Prop :=
| inside_here filename filenames :
    fs_readdirSync w directoryPath = Returned filenames ->
    In filename filenames ->
    inside P w directoryPath (path_join P directoryPath filename)
| inside_deeper filename filenames filePath :
    fs_readdirSync w directoryPath = Returned filenames ->
    In filename filenames ->
    inside P w (path_join P directoryPath filename) filePath ->
    inside P w directoryPath filePath.

(** What [_iterateFilesRecursive], started on [directoryPath], has found out
    about an entry when it yields it in state [s]. *)
Record walked (P : Platform) (w : World) (options : WalkOptions) (directoryPath : string)
    (entry : FileEntry) (s : State) : Prop := {
  walked_inside : inside P w directoryPath (entry_filePath entry);
  walked_file :
    exists stat, fs_statSync w (entry_filePath entry) = Returned stat /\ isFile stat = true;
  walked_flag :
    flag entry =
    if isIgnored w s (entry_filePath entry) (dotfiles options) false
    then IGNORED_SILENTLY else NONE;
  walked_matched :
    match selector options with
    | Some pattern => minimatch_match P pattern (entry_filePath entry) = true
    | None => RegExp_test P (extRegExp s) (entry_filePath entry) = true
    end
}.

(** What the consumer of one [iterateFiles(patterns)] call, started in [s0],
    has received when the call is in state [s] and its set of paths is [set]:
    no path twice, every path in the set, and [ignored: true] only for a file
    that a pattern names directly and that the ignore predicate rejects.  The
    options are as they were. *)
Definition received (P : Platform) (w : World) (patterns : list string) (s0 : State)
    (set : gset string) (s : State) : Prop :=
  configured s0 s /\
  exists new,
    yielded s = (yielded s0 ++ new)%list /\
    NoDup (map fc_filePath new) /\
    (forall fc, In fc new -> fc_filePath fc ∈ set) /\
    Forall (fun fc =>
              ignored fc = true ->
              exists pattern,
                In pattern patterns /\
                fc_filePath fc = path_resolve P (cwd s0) pattern /\
                isIgnored w s0 (fc_filePath fc) false true = true) new.

(** The sample project with an ignore predicate that rejects the directory
    [hidden] and nothing else. *)
Definition ignoringHidden : World :=
  withFileSystem Sample.project (fs_statSync Sample.project)
    (fs_readdirSync Sample.project)
    (fun _ path _ => Sample.endsWith "/hidden" path).

(** The definition a rule id has in the last of the tables that define it. *)
Fixpoint lastDefinition (id : string) (tables : list (gmap string string))
  : option string :=
  match tables with
  | [] => None
  | table :: rest =>
      match lastDefinition id rest with
      | Some rule => Some rule
      | None => table !! id
      end
  end.

(** The sample project with two rule directories that both define the rule
    [no-foo], and the options that name them. *)
Definition withRules : World :=
  {| os_homedir := os_homedir Sample.project;
     fs_statSync := fs_statSync Sample.project;
     fs_readdirSync := fs_readdirSync Sample.project;
     factory_create := factory_create Sample.project;
     factory_loadFile := factory_loadFile Sample.project;
     factory_loadOnDirectory := factory_loadOnDirectory Sample.project;
     configArray_root := configArray_root Sample.project;
     validateConfigArray := validateConfigArray Sample.project;
     loadRules := fun rulesPath _ =>
       if bool_decide (rulesPath = "rules-a") then
         Returned (<["no-foo" := "a/no-foo.js"]> (<["no-bar" := "a/no-bar.js"]> ∅))
       else Returned (<["no-foo" := "b/no-foo.js"]> ∅);
     ignoredPaths_contains := ignoredPaths_contains Sample.project |}.

Definition rulesOptions : FileEnumeratorOptions :=
  {| opt_baseConfig := None; opt_cliConfig := Some (JObj []); opt_cwd := "/tmp/root";
     opt_extensions := [".js"]; opt_globInputPaths := true; opt_ignore := true;
     opt_rulePaths := Some ["rules-a"; "rules-b"];
     opt_specificConfigPath := Some "/tmp/root/my.json";
     opt_useEslintrc := true |}.

(** An enumerator that does not look for config files: [useEslintrc: false],
    with a base config. *)
Definition withoutEslintrc : FileEnumeratorOptions :=
  {| opt_baseConfig := Some (JObj []); opt_cliConfig := Some (JObj []);
     opt_cwd := "/tmp/root";
     opt_extensions := [".js"]; opt_globInputPaths := true; opt_ignore := true;
     opt_rulePaths := Some []; opt_specificConfigPath := None;
     opt_useEslintrc := false |}.

Definition freshWithoutEslintrc : State :=
  snd (new_FileEnumerator Sample.posix Sample.project withoutEslintrc).

(** What the sample project's directories above a path hold, by level. *)
Definition projectLoads (p : string) (i : nat) : list ConfigElement :=
  match Sample.projectConfigs (ancestor Sample.posix (S i) p) with
  | Returned es => es
  | Raised _ => []
  end.

(** The sample project after its [--config] file has gone: [loadFile]
    throws. *)
Definition configFileGone : World :=
  {| os_homedir := os_homedir Sample.project;
     fs_statSync := fs_statSync Sample.project;
     fs_readdirSync := fs_readdirSync Sample.project;
     factory_create := factory_create Sample.project;
     factory_loadFile := fun _ _ => Raised Sample.enoent;
     factory_loadOnDirectory := factory_loadOnDirectory Sample.project;
     configArray_root := configArray_root Sample.project;
     validateConfigArray := validateConfigArray Sample.project;
     loadRules := loadRules Sample.project;
     ignoredPaths_contains := ignoredPaths_contains Sample.project |}.

(** An enumerator made with a [--config] file, after one
    [getConfigArrayForFile]. *)
Definition usedWithConfigFile : State :=
  snd (getConfigArrayForFile Sample.posix 10 withRules (Some "lib/one.js")
         (snd (new_FileEnumerator Sample.posix withRules rulesOptions))).

(** ** The test utilities ([tests/lib/lookup/_utils.js]) *)

Module Utils.

(** Node's [path], as the utilities use it. *)
Record Path := {
  isAbsolute : string -> bool;
  join : list string -> string;
  resolve : list string -> string;
  dirname : string -> string
}.

Section Resolver.

Variable path : Path.

(** [fs.statSync] of the file system the utilities are given. *)
Variable statSync : string -> Ext Stats.

Definition isExistingFile (filePath : string) : bool :=
  match statSync filePath with
  | Returned stat => isFile stat
  | Raised _ => false
  end.

Definition getTestPaths (prefix : string) : list string :=
  [join path [prefix]; join path [prefix ++ ".js"]; join path [prefix; "index.js"]].

Definition isSeparator (c : ascii) : bool :=
  bool_decide (c = "/"%char) || bool_decide (c = "\"%char).

(** [/^\.{1,2}[/\\]/u.test(request)] *)
Definition isRelative (request : string) : bool :=
  match request with
  | String c1 (String c2 rest) =>
      bool_decide (c1 = "."%char)
      && (isSeparator c2
          || (bool_decide (c2 = "."%char)
              && match rest with
                 | String c3 _ => isSeparator c3
                 | EmptyString => false
                 end))
  | _ => false
  end.

(** The [while] loop of [iterateCandidatePaths]: the candidates it yields in
    at most [fuel] turns, and whether it has ended by then. *)
Fixpoint climb (fuel : nat) (request prevPath dirPath : string) : list string * bool :=
  if negb (bool_decide (dirPath = EmptyString)) && negb (bool_decide (dirPath = prevPath))
  then
    match fuel with
    | 0 => ([], false)
    | S fuel' =>
        let (rest, ended) := climb fuel' request dirPath (dirname path dirPath) in
        ((getTestPaths (join path [dirPath; "node_modules"; request]) ++ rest)%list, ended)
    end
  else ([], true).

(** The generator [iterateCandidatePaths], run for at most [fuel] turns of
    its loop. *)
Definition iterateCandidatePaths (fuel : nat) (request relativeTo : string)
  : list string * bool :=
  if isAbsolute path request then (getTestPaths request, true)
  else if isRelative request then
    (getTestPaths (resolve path [dirname path relativeTo; request]), true)
  else
    let prevPath := resolve path [relativeTo] in
    let dirPath := dirname path prevPath in
    climb fuel request prevPath dirPath.

Definition moduleNotFound (request : string) : JsError :=
  {| code := "MODULE_NOT_FOUND"; message := "Cannot find module '" ++ request ++ "'" |}.

(** [fsResolve]: the loop returns at the first candidate that is an existing
    file, without asking the generator for more.  [None]: the fuel ran out
    before a candidate existed. *)
Definition fsResolve (fuel : nat) (request relativeTo : string) : option (Ext string) :=
  let (candidates, ended) := iterateCandidatePaths fuel request relativeTo in
  match List.find isExistingFile candidates with
  | Some filePath => Some (Returned filePath)
  | None => if ended then Some (Raised (moduleNotFound request)) else None
  end.

(** The directory [n] levels above a path. *)
Definition up (n : nat) (p : string) : string := Nat.iter n (dirname path) p.

End Resolver.

(** A sample: POSIX paths without [.] and [..] segments, and a file system
    with one package in [/tmp/root/node_modules]. *)
Definition posix : Path :=
  {| isAbsolute := Sample.startsWith Sample.slash;
     join := fun segments =>
       match segments with
       | [] => "."
       | first :: rest => fold_left Sample.join rest first
       end;
     resolve := fun segments => fold_left Sample.resolve segments "/tmp/root";
     dirname := Sample.dirname |}.

Definition packages (filePath : string) : Ext Stats :=
  if bool_decide (filePath = "/tmp/root/node_modules/eslint-config-foo/index.js") then
    Returned Sample.file
  else if bool_decide (filePath = "/tmp/root/node_modules/eslint-config-foo") then
    Returned Sample.directory
  else Raised Sample.enoent.

End Utils.

(** Whether the walk does anything with an entry of a directory: the entry is
    a file, or a directory when the walk is recursive, or [fs.statSync] fails
    on it with an error other than [ENOENT]. *)
Definition considered (P : Platform) (w : World) (options : WalkOptions)
    (directoryPath filename : string) : bool :=
  match fs_statSync w (path_join P directoryPath filename) with
  | Returned stat => isFile stat || (recursive options && isDirectory stat)
  | Raised e => negb (bool_decide (code e = "ENOENT"))
  end.

(** The world whose directories list such entries only. *)
Definition withoutOthers (P : Platform) (w : World) (options : WalkOptions) : World :=
  withFileSystem w (fs_statSync w)
    (fun directoryPath =>
       match fs_readdirSync w directoryPath with
       | Returned filenames =>
           Returned (List.filter (considered P w options directoryPath) filenames)
       | Raised e => Raised e
       end)
    (ignoredPaths_contains w).

(** What holds throughout an [iterateFiles] call started in [s0] with
    [useEslintrc: false]: no call into the factory, the directory cache as it
    was, and one config array for all the files. *)
Definition lookupFree (s0 s : State) : Prop :=
  useEslintrc s = false /\
  baseConfigArray s = baseConfigArray s0 /\
  calls s = calls s0 /\
  configCache s = configCache s0 /\
  exists new,
    yielded s = (yielded s0 ++ new)%list /\
    Forall (fun fc => finalizeCache s !! baseConfigArray s0 = Some (config fc)) new.

(** ** What the caches hold on a used enumerator *)

(** The finalized arrays made from the arrays of location [epoch] or later
    are layered: the elements of the raw array, then those of the personal
    config if it was consulted, then those of the CLI array. *)
Definition layered (epoch : loc) (s : State) : Prop :=
  forall k f, finalizeCache s !! k = Some f -> epoch <= k ->
    exists personal,
      contents s f = (contents s k ++ personal ++ contents s (cliConfigArray s))%list.

(** With a base array that has elements, every array of the directory cache
    has elements. *)
Definition based (s : State) : Prop :=
  contents s (baseConfigArray s) <> [] ->
  forall d c, configCache s !! d = Some c -> contents s c <> [].

(** What every operation keeps, and what every operation but [clearCache]
    keeps once the arrays have been built. *)
Definition kept (epoch : loc) (s : State) : Prop :=
  inv epoch s /\ layered epoch s.

Definition settled (epoch : loc) (s : State) : Prop :=
  kept epoch s /\ based s.

(** * Properties *)

(** ** The state after each primitive step *)

Ltac unfold_M :=
  unfold cacheConfig, store, record, alloc, lift, bind, ret, throw, get, modify in *.

Lemma bind_unfold {A B} (m : M A) (k : A -> M B) s :
  bind m k s =
  match m s with
  | (Ok a, s') => k a s'
  | (Throw e, s') => (Throw e, s')
  | (OutOfFuel, s') => (OutOfFuel, s')
  end.
Proof. reflexivity. Qed.

Lemma grows_refl s : grows s s.
Proof. split; auto. Qed.

Lemma prefix_logged s c : events s `prefix_of` events (logged c s).
Proof. cbn. by apply prefix_app_r. Qed.

Lemma grows_trans s1 s2 s3 : grows s1 s2 -> grows s2 s3 -> grows s1 s3.
Proof.
  intros [] []. split; try congruence.
  - etrans; eassumption.
  - etrans; eassumption.
  - lia.
  - intros a Ha. rewrite grows_heap1 by lia. auto.
  - etrans; eassumption.
Qed.

Lemma inv_weaken n m s : n <= m -> inv m s -> inv n s.
Proof.
  intros Hle []. split; auto.
  - lia.
  - intros d a Hd. apply inv_cache0 in Hd. lia.
Qed.

Lemma inv_alloc n s es : inv n s -> inv n (allocated es s).
Proof.
  intros []. split; cbn.
  - intros a [x Hx]. destruct (decide (a = next s)) as [->|Hne]; [lia|].
    rewrite lookup_insert_ne in Hx by congruence.
    assert (a < next s) by eauto. lia.
  - lia.
  - lia.
  - intros d a Hd. apply inv_cache0 in Hd. lia.
  - intros k f Hk. apply inv_final0 in Hk. lia.
Qed.

Lemma grows_alloc s es : grows s (allocated es s).
Proof.
  split; cbn; auto.
  intros a Ha. apply lookup_insert_ne. lia.
Qed.

Lemma inv_events n s l : inv n s -> inv n (set_events l s).
Proof. intros []. split; cbn; auto. Qed.

Lemma grows_logged s c : grows s (logged c s).
Proof. split; cbn; auto. by apply prefix_app_r. Qed.

Lemma inv_store n s a es :
  inv n s -> a < next s -> inv n (set_store (<[a := es]> (heap s)) (next s) s).
Proof.
  intros [] Ha. split; cbn; auto.
  intros b [x Hx]. destruct (decide (a = b)) as [->|Hne]; [lia|].
  rewrite lookup_insert_ne in Hx by congruence. eauto.
Qed.

Lemma grows_store s0 s a es :
  grows s0 s -> next s0 <= a ->
  grows s0 (set_store (<[a := es]> (heap s)) (next s) s).
Proof.
  intros [] Ha. split; cbn; auto.
  intros b Hb. rewrite lookup_insert_ne by lia. auto.
Qed.

Lemma inv_cacheConfig n s d a :
  inv n s -> n <= a < next s ->
  inv n (set_configCache (<[d := a]> (configCache s)) s).
Proof.
  intros [] Ha. split; cbn; auto.
  intros d' a' Hd. destruct (decide (d = d')) as [->|Hne].
  - rewrite lookup_insert_eq in Hd. congruence.
  - rewrite lookup_insert_ne in Hd by congruence. eauto.
Qed.

Lemma grows_cacheConfig s0 s d a :
  grows s0 s -> configCache s0 !! d = None ->
  grows s0 (set_configCache (<[d := a]> (configCache s)) s).
Proof.
  intros [] Hd. split; cbn; auto.
  apply insert_subseteq_r; auto.
Qed.

Lemma inv_finalizeCache n s k f :
  inv n s -> k <= f < next s ->
  inv n (set_finalizeCache (<[k := f]> (finalizeCache s)) s).
Proof.
  intros [] Hf. split; cbn; auto.
  intros k' f' Hk. destruct (decide (k = k')) as [->|Hne].
  - rewrite lookup_insert_eq in Hk. congruence.
  - rewrite lookup_insert_ne in Hk by congruence. eauto.
Qed.

Lemma grows_finalizeCache s0 s k f :
  grows s0 s -> finalizeCache s0 !! k = None ->
  grows s0 (set_finalizeCache (<[k := f]> (finalizeCache s)) s).
Proof.
  intros [] Hk. split; cbn; auto.
  apply insert_subseteq_r; auto.
Qed.

Lemma contents_grows s s' a : grows s s' -> a < next s -> contents s' a = contents s a.
Proof. intros [] Ha. unfold contents. rewrite grows_heap0; auto. Qed.

(** ** The factory's loaders *)


Lemma loadOnDirectory_cases w d nm parent s r s' :
  loadOnDirectory w d nm parent s = (r, s') ->
  let s1 := logged (CallLoadOnDirectory d nm) s in
  match factory_loadOnDirectory w d nm with
  | Raised e => r = Throw (ExternalError e) /\ s' = s1
  | Returned es =>
      match parent, es with
      | Some p, [] => r = Ok p /\ s' = s1
      | Some p, _ => r = Ok (next s) /\ s' = allocated (contents s p ++ es) s1
      | None, _ => r = Ok (next s) /\ s' = allocated es s1
      end
  end.
Proof.
  unfold loadOnDirectory. unfold_M. cbn.
  destruct (factory_loadOnDirectory w d nm) as [es|e]; cbn.
  - destruct parent as [p|]; [destruct es|]; cbn; intros [= <- <-]; auto.
  - intros [= <- <-]; auto.
Qed.

Lemma loadOnDirectory_inv n w d nm parent s r s' :
  inv n s ->
  (forall p, parent = Some p -> p < next s) ->
  loadOnDirectory w d nm parent s = (r, s') ->
  inv n s' /\ grows s s' /\
  configCache s' = configCache s /\ finalizeCache s' = finalizeCache s /\
  forall a, r = Ok a -> a < next s' /\ (parent = Some a \/ next s <= a).
Proof.
  intros Hinv Hp H. apply loadOnDirectory_cases in H. cbn in H.
  assert (Hl : inv n (logged (CallLoadOnDirectory d nm) s)) by by apply inv_events.
  assert (Gl : grows s (logged (CallLoadOnDirectory d nm) s)) by apply grows_logged.
  destruct (factory_loadOnDirectory w d nm) as [es|e].
  - destruct parent as [p|]; [destruct es as [|e0 es]|]; destruct H as [-> ->].
    + split; [|split; [|split; [|split]]]; auto.
      intros a [= <-]; cbn; eauto.
    + split; [|split; [|split; [|split]]]; auto.
      * by apply inv_alloc.
      * eapply grows_trans; [exact Gl|apply grows_alloc].
      * intros a [= <-]. cbn. split; [lia|auto].
    + split; [|split; [|split; [|split]]]; auto.
      * by apply inv_alloc.
      * eapply grows_trans; [exact Gl|apply grows_alloc].
      * intros a [= <-]. cbn. split; [lia|auto].
  - destruct H as [-> ->]. split; [|split; [|split; [|split]]]; auto; discriminate.
Qed.

(** ** The ancestor resolver keeps the invariants *)

Ltac split4 := split; [|split; [|split]].

Lemma ancestors_inv P n w fuel : forall p s r s',
  inv n s ->
  _loadConfigInAncestorsRecursive P fuel w p s = (r, s') ->
  inv n s' /\ grows s s' /\ finalizeCache s' = finalizeCache s /\
  forall a, r = Ok a ->
    n <= a < next s' /\
    if useEslintrc s then configCache s' !! path_dirname P p = Some a
    else a = baseConfigArray s /\ s' = s.
Proof.
  induction fuel as [|fuel IH]; intros p s r s' Hinv H;
    cbn [_loadConfigInAncestorsRecursive] in H.
  - injection H as <- <-. split4; auto using grows_refl.
    intros a [=].
  - destruct (useEslintrc s) eqn:Huse; cbn [negb] in H.
    2:{ injection H as <- <-. split4; auto using grows_refl.
        intros a [= <-]. split; auto. destruct Hinv. lia. }
    destruct (configCache s !! path_dirname P p) as [c|] eqn:Hc.
    { injection H as <- <-. split4; auto using grows_refl.
      intros a [= <-]. split; auto. destruct Hinv. eauto. }
    destruct (consideredRoot w s p (path_dirname P p)) eqn:Hroot.
    { unfold_M. cbn in H. injection H as <- <-.
      split4; auto.
      - apply inv_cacheConfig; auto. destruct Hinv; lia.
      - apply grows_cacheConfig; auto using grows_refl.
      - intros a [= <-]. cbn. rewrite lookup_insert_eq. split; auto.
        destruct Hinv; lia. }
    destruct (loadOnDirectory w (path_dirname P p) None None s) as [r1 s1] eqn:Hload.
    assert (Hnone : forall p0 : loc, (None : option loc) = Some p0 -> p0 < next s)
      by (intros ? [=]).
    destruct (loadOnDirectory_inv n _ _ _ _ _ _ _ Hinv Hnone Hload)
      as (Hinv1 & G1 & Hc1 & Hf1 & Hr1).
    assert (Hb : n <= next s) by (destruct Hinv; lia).
    destruct r1 as [configArray|e|].
    + destruct (Hr1 _ eq_refl) as [Hlt [?|Hge]]; [discriminate|].
      destruct ((0 <? length (contents s1 configArray))%nat
                && configArray_root w (contents s1 configArray)).
      * unfold_M. cbn in H. injection H as <- <-. split4; auto.
        -- apply inv_cacheConfig; auto. lia.
        -- apply grows_cacheConfig; auto.
        -- intros a [= <-]. cbn. rewrite lookup_insert_eq. split; auto. lia.
      * destruct (0 <? length (contents s1 configArray))%nat.
        -- unfold_M.
           destruct (_loadConfigInAncestorsRecursive P fuel w (path_dirname P p) s1)
             as [r2 s2] eqn:Hrec.
           destruct (IH _ _ _ _ Hinv1 Hrec) as (Hinv2 & G2 & Hf2 & Hr2).
           assert (G : grows s s2) by (eapply grows_trans; eassumption).
           destruct r2 as [parent| |]; cbv beta iota in H; injection H as <- <-.
           ++ assert (Hlt2 : configArray < next s2) by (destruct G2; lia).
              split4.
              ** apply (inv_cacheConfig n (set_store _ _ s2)); cbn; [|lia].
                 by apply inv_store.
              ** apply (grows_cacheConfig s (set_store _ _ s2)); auto.
                 by apply grows_store.
              ** cbn. congruence.
              ** intros a [= <-]. cbn. rewrite lookup_insert_eq. split; auto. lia.
           ++ split4; auto; [congruence|intros a [=]].
           ++ split4; auto; [congruence|intros a [=]].
        -- unfold_M.
           destruct (_loadConfigInAncestorsRecursive P fuel w (path_dirname P p) s1)
             as [r2 s2] eqn:Hrec.
           destruct (IH _ _ _ _ Hinv1 Hrec) as (Hinv2 & G2 & Hf2 & Hr2).
           assert (G : grows s s2) by (eapply grows_trans; eassumption).
           destruct r2 as [parent| |]; cbv beta iota in H; injection H as <- <-.
           ++ destruct (Hr2 _ eq_refl) as [Hp _].
              split4.
              ** apply inv_cacheConfig; auto.
              ** apply grows_cacheConfig; auto.
              ** cbn. congruence.
              ** intros a [= <-]. cbn. rewrite lookup_insert_eq. split; auto.
           ++ split4; auto; [congruence|intros a [=]].
           ++ split4; auto; [congruence|intros a [=]].
    + destruct e as [| | |error].
      1-3: injection H as <- <-; split4; auto; intros a [=].
      destruct (bool_decide (code error = "EACCES")).
      * unfold_M. cbn in H. injection H as <- <-. split4; auto.
        -- apply inv_cacheConfig; auto. destruct Hinv1; lia.
        -- apply grows_cacheConfig; auto.
        -- intros a [= <-]. cbn. rewrite lookup_insert_eq. split; auto.
           destruct Hinv1; lia.
      * injection H as <- <-. split4; auto. intros a [=].
    + injection H as <- <-. split4; auto. intros a [=].
Qed.

(** ** The finalizer *)

Lemma finalize_hit w k d s f :
  finalizeCache s !! k = Some f ->
  _finalizeConfigArray w k d s =
  (if useEslintrc s && bool_decide (length (contents s f) = 0)
   then Throw (ConfigurationNotFoundError d) else Ok f, s).
Proof.
  intros Hc. unfold _finalizeConfigArray. unfold_M. rewrite Hc.
  by destruct (useEslintrc s && bool_decide (length (contents s f) = 0)).
Qed.

Lemma finalize_miss w k d s :
  finalizeCache s !! k = None ->
  _finalizeConfigArray w k d s =
  match (if wantsPersonalConfig s k
         then loadOnDirectory w (os_homedir w) (Some "PersonalConfig") (Some k) s
         else (Ok k, s)) with
  | (Ok f1, s1) =>
      let '(f2, s2) :=
        if (0 <? length (contents s1 (cliConfigArray s1)))%nat
        then (next s1, allocated (contents s1 f1 ++ contents s1 (cliConfigArray s1)) s1)
        else (f1, s1) in
      match validateConfigArray w (contents s2 f2) with
      | Some e => (Throw (ExternalError e), s2)
      | None =>
          let s3 := set_finalizeCache (<[k := f2]> (finalizeCache s2)) s2 in
          (if useEslintrc s3 && bool_decide (length (contents s3 f2) = 0)
           then Throw (ConfigurationNotFoundError d) else Ok f2, s3)
      end
  | (Throw e, s1) => (Throw e, s1)
  | (OutOfFuel, s1) => (OutOfFuel, s1)
  end.
Proof.
  intros Hc. unfold _finalizeConfigArray. unfold_M. rewrite Hc.
  unfold allocated.
  destruct (wantsPersonalConfig s k);
    [destruct (loadOnDirectory w (os_homedir w) (Some "PersonalConfig") (Some k) s)
       as [[f1| |] s1]; auto|];
    cbv beta iota;
    (match goal with |- context [(0 <? ?x)%nat] => destruct (0 <? x)%nat end);
    cbv beta iota;
    (match goal with |- context [validateConfigArray w ?x] =>
       destruct (validateConfigArray w x) end); auto;
    (match goal with |- context [if ?b then _ else _] => destruct b end); auto.
Qed.

Lemma finalize_inv n w k d s r s' :
  inv n s -> k < next s ->
  _finalizeConfigArray w k d s = (r, s') ->
  inv n s' /\ grows s s' /\ configCache s' = configCache s /\
  forall f, r = Ok f ->
    k <= f < next s' /\ finalizeCache s' !! k = Some f /\
    (useEslintrc s = true -> contents s' f <> []).
Proof.
  intros Hinv Hk H.
  destruct (finalizeCache s !! k) as [f0|] eqn:Hcache.
  - rewrite (finalize_hit _ _ _ _ _ Hcache) in H.
    injection H as <- <-. split4; auto using grows_refl.
    intros f Hf. destruct (useEslintrc s) eqn:Huse; cbn in Hf.
    + case_bool_decide as Hlen; [discriminate|]. injection Hf as <-.
      split; [destruct Hinv; eauto|]. split; auto.
      intros _ Hnil. by rewrite Hnil in Hlen.
    + injection Hf as <-. split; [destruct Hinv; eauto|]. split; auto; discriminate.
  - rewrite (finalize_miss _ _ _ _ Hcache) in H.
    assert (exists r1 s1,
      (if wantsPersonalConfig s k
       then loadOnDirectory w (os_homedir w) (Some "PersonalConfig") (Some k) s
       else (Ok k, s)) = (r1, s1) /\
      inv n s1 /\ grows s s1 /\ configCache s1 = configCache s /\
      finalizeCache s1 = finalizeCache s /\
      forall f1, r1 = Ok f1 -> k <= f1 < next s1) as (r1 & s1 & E & Hinv1 & G1 & Hc1 & Hf1 & Hr1).
    { destruct (wantsPersonalConfig s k).
      - destruct (loadOnDirectory w (os_homedir w) (Some "PersonalConfig") (Some k) s)
          as [r1 s1] eqn:Hload.
        exists r1, s1. split; auto.
        assert (Hp : forall p, Some k = Some p -> p < next s) by (by intros ? [= <-]).
        destruct (loadOnDirectory_inv n _ _ _ _ _ _ _ Hinv Hp Hload)
          as (? & ? & ? & ? & Hr).
        repeat (split; auto).
        all: destruct (Hr _ H4) as [? [[= ->]|?]]; lia.
      - exists (Ok k), s. repeat (split; auto using grows_refl).
        all: injection H0 as <-; lia. }
    rewrite E in H. destruct r1 as [f1| |].
    2,3: injection H as <- <-; split4; auto; intros ? [=].
    specialize (Hr1 _ eq_refl).
    assert (exists f2 s2,
      (if (0 <? length (contents s1 (cliConfigArray s1)))%nat
       then (next s1, allocated (contents s1 f1 ++ contents s1 (cliConfigArray s1)) s1)
       else (f1, s1)) = (f2, s2) /\
      inv n s2 /\ grows s s2 /\ configCache s2 = configCache s /\
      finalizeCache s2 = finalizeCache s /\ k <= f2 < next s2)
      as (f2 & s2 & E2 & Hinv2 & G2 & Hc2 & Hf2 & Hr2).
    { destruct (0 <? length (contents s1 (cliConfigArray s1)))%nat.
      - eexists _, _. split; [reflexivity|]. split; [by apply inv_alloc|].
        split; [eapply grows_trans; [exact G1|apply grows_alloc]|].
        pose proof (grows_next _ _ G1). cbn. split_and!; auto; lia.
      - exists f1, s1. split_and!; auto; lia. }
    rewrite E2 in H.
    destruct (validateConfigArray w (contents s2 f2)).
    { injection H as <- <-. split4; auto. intros ? [=]. }
    cbv zeta in H.
    assert (Hinv3 : inv n (set_finalizeCache (<[k:=f2]> (finalizeCache s2)) s2))
      by by apply inv_finalizeCache.
    assert (G3 : grows s (set_finalizeCache (<[k:=f2]> (finalizeCache s2)) s2)).
    { apply grows_finalizeCache; auto. }
    injection H as <- <-. split4; auto.
    intros f Hf. cbn in Hf. cbn.
    replace (useEslintrc s2) with (useEslintrc s) in Hf by (by destruct G2).
    destruct (useEslintrc s); cbn in Hf.
    + case_bool_decide as Hlen; [discriminate|]. injection Hf as <-.
      rewrite lookup_insert_eq. split_and!; auto; try lia.
      intros _ Hnil. by rewrite Hnil in Hlen.
    + injection Hf as <-. rewrite lookup_insert_eq. split_and!; auto; lia.
Qed.

Lemma loadConfigOnDirectory_inv n w d parent s r s' :
  inv n s -> parent < next s ->
  _loadConfigOnDirectory w d parent s = (r, s') ->
  inv n s' /\ grows s s' /\
  configCache s' = configCache s /\ finalizeCache s' = finalizeCache s /\
  forall a, r = Ok a -> a < next s'.
Proof.
  intros Hinv Hp H. unfold _loadConfigOnDirectory in H. unfold_M.
  destruct (useEslintrc s); cbn [negb] in H.
  - assert (Hp' : forall p, Some parent = Some p -> p < next s) by (by intros ? [= <-]).
    destruct (loadOnDirectory_inv n _ _ _ _ _ _ _ Hinv Hp' H) as (? & ? & ? & ? & Hr).
    split; [|split; [|split; [|split]]]; auto.
    intros a Ha. by destruct (Hr _ Ha).
  - injection H as <- <-. split; [|split; [|split; [|split]]]; auto using grows_refl.
    by intros a [= <-].
Qed.


(** ** Making the base and CLI arrays *)

Lemma frames_refl s : frames s s.
Proof. split; auto. Qed.

Lemma frames_trans s1 s2 s3 : frames s1 s2 -> frames s2 s3 -> frames s1 s3.
Proof.
  intros [] []. split; try congruence.
  - lia.
  - intros a Ha. rewrite frames_heap1 by lia. auto.
  - etrans; eassumption.
Qed.

Lemma frames_grows s s' : frames s s' -> grows s s'.
Proof. intros []. split; auto; by match goal with H : _ = _ |- _ ⊆ _ => rewrite H end. Qed.

Lemma frames_alloc s es : frames s (allocated es s).
Proof.
  split; cbn; auto.
  intros a Ha. apply lookup_insert_ne. lia.
Qed.

Lemma frames_logged s c : frames s (logged c s).
Proof. split; cbn; auto. by apply prefix_app_r. Qed.

Lemma frames_store s0 s a es :
  frames s0 s -> next s0 <= a ->
  frames s0 (set_store (<[a := es]> (heap s)) (next s) s).
Proof.
  intros [] Ha. split; cbn; auto.
  intros b Hb. rewrite lookup_insert_ne by lia. auto.
Qed.

Lemma inv_frames n s s' : inv n s -> frames s s' -> heap_ok s' -> inv n s'.
Proof.
  intros [] [] Hok. split; auto.
  - lia.
  - lia.
  - intros d a. rewrite frames_cache0. intros Hd. apply inv_cache0 in Hd. lia.
  - intros k f. rewrite frames_final0. intros Hk. apply inv_final0 in Hk. lia.
Qed.


Lemma heap_ok_alloc s es : heap_ok s -> heap_ok (allocated es s).
Proof.
  intros Hok a [x Hx]. cbn in *.
  destruct (decide (a = next s)) as [->|Hne]; [lia|].
  rewrite lookup_insert_ne in Hx by congruence.
  assert (a < next s) by eauto. lia.
Qed.

Lemma heap_ok_store s a es :
  heap_ok s -> a < next s -> heap_ok (set_store (<[a := es]> (heap s)) (next s) s).
Proof.
  intros Hok Ha b [x Hx]. cbn in *.
  destruct (decide (a = b)) as [->|Hne]; [lia|].
  rewrite lookup_insert_ne in Hx by congruence. eauto.
Qed.

Lemma create_spec w data nm s r s' :
  create w data nm s = (r, s') ->
  frames s s' /\ (heap_ok s -> heap_ok s') /\
  forall a, r = Ok a -> a = next s /\ next s' = S (next s).
Proof.
  unfold create. unfold_M. cbn.
  destruct (factory_create w data nm) as [es|e]; cbn; intros [= <- <-].
  - split_and!.
    + eapply frames_trans; [apply frames_logged|apply (frames_alloc (logged _ s))].
    + intros Hok. by apply (heap_ok_alloc (logged _ s)).
    + by intros a [= <-].
  - split_and!; [apply frames_logged|done|intros a [=]].
Qed.

Lemma loadFile_spec w path nm s r s' :
  loadFile w path nm s = (r, s') ->
  frames s s' /\ (heap_ok s -> heap_ok s') /\
  forall a, r = Ok a -> a = next s /\ next s' = S (next s).
Proof.
  unfold loadFile. unfold_M. cbn.
  destruct (factory_loadFile w path nm) as [es|e]; cbn; intros [= <- <-].
  - split_and!.
    + eapply frames_trans; [apply frames_logged|apply (frames_alloc (logged _ s))].
    + intros Hok. by apply (heap_ok_alloc (logged _ s)).
    + by intros a [= <-].
  - split_and!; [apply frames_logged|done|intros a [=]].
Qed.

Lemma reduceRules_state w rulePaths c : forall map s r s',
  reduceRules w rulePaths c map s = (r, s') -> s' = s.
Proof.
  induction rulePaths as [|p rest IH]; intros map s r s' H; cbn in H.
  - by injection H as <- <-.
  - unfold_M. destruct (loadRules w p c); cbn in H; eauto.
    by injection H as <- <-.
Qed.

Lemma createBaseConfigArray_spec w s r s' :
  createBaseConfigArray w s = (r, s') ->
  frames s s' /\ (heap_ok s -> heap_ok s') /\
  forall a, r = Ok a -> next s <= a < next s'.
Proof.
  unfold createBaseConfigArray. unfold bind at 1. unfold get at 1.
  unfold bind at 1.
  destruct (create w (baseConfigData s) "BaseConfig" s) as [r1 s1] eqn:Hc.
  destruct (create_spec _ _ _ _ _ _ Hc) as (G1 & Hok1 & Hr1).
  destruct r1 as [base| |]; try (intros [= <- <-]; split_and!; auto; intros ? [=]).
  destruct (Hr1 _ eq_refl) as [-> Hn].
  destruct (rulePaths s) as [[|p rest]|].
  1,3: unfold ret; intros [= <- <-]; split_and!; auto; intros ? [= <-]; lia.
  unfold bind at 1.
  destruct (reduceRules w (p :: rest) (cwd s) ∅ s1) as [r2 s2] eqn:Hr.
  apply reduceRules_state in Hr as ->.
  destruct r2 as [rules| |]; try (intros [= <- <-]; split_and!; auto; intros ? [=]).
  unfold_M. intros [= <- <-]. split_and!.
  - apply frames_store; auto.
  - intros Hok. apply heap_ok_store; auto. lia.
  - intros ? [= <-]. cbn. lia.
Qed.

Lemma createCLIConfigArray_spec w s r s' :
  createCLIConfigArray w s = (r, s') ->
  frames s s' /\ (heap_ok s -> heap_ok s') /\
  forall a, r = Ok a -> next s <= a < next s'.
Proof.
  unfold createCLIConfigArray. unfold bind at 1. unfold get at 1.
  unfold bind at 1.
  destruct (create w (cliConfigData s) "CLIOptions" s) as [r1 s1] eqn:Hc.
  destruct (create_spec _ _ _ _ _ _ Hc) as (G1 & Hok1 & Hr1).
  destruct r1 as [cli| |]; try (intros [= <- <-]; split_and!; auto; intros ? [=]).
  destruct (Hr1 _ eq_refl) as [-> Hn].
  destruct (truthy (specificConfigPath s)).
  2: unfold ret; intros [= <- <-]; split_and!; auto; intros ? [= <-]; lia.
  unfold bind at 1.
  destruct (loadFile w (default EmptyString (specificConfigPath s)) "--config" s1)
    as [r2 s2] eqn:Hl.
  destruct (loadFile_spec _ _ _ _ _ _ Hl) as (G2 & Hok2 & Hr2).
  assert (G : frames s s2) by (eapply frames_trans; eassumption).
  destruct r2 as [loaded| |]; try (intros [= <- <-]; split_and!; auto; intros ? [=]).
  destruct (Hr2 _ eq_refl) as [-> Hn2].
  unfold_M. intros [= <- <-]. split_and!.
  - apply frames_store; auto.
  - intros Hok. apply heap_ok_store; auto. lia.
  - intros ? [= <-]. cbn. lia.
Qed.

(** ** The operations keep the invariants *)

Lemma inv_set_baseConfigArray n s a :
  inv n s -> n <= a < next s -> inv n (set_baseConfigArray a s).
Proof. intros [] Ha. split; cbn; auto. Qed.

Lemma inv_set_cliConfigArray n s a :
  inv n s -> a < next s -> inv n (set_cliConfigArray a s).
Proof. intros [] Ha. split; cbn; auto. Qed.

Lemma inv_clear n m s :
  inv n s -> m <= baseConfigArray s -> inv m (set_configCache ∅ s).
Proof.
  intros [] Hm. split; cbn; auto.
  - lia.
  - intros d a Hd. by rewrite lookup_empty in Hd.
Qed.

Lemma clearCache_inv n w s r s' :
  inv n s ->
  clearCache w s = (r, s') ->
  inv n s' /\ finalizeCache s' = finalizeCache s /\
  next s <= next s' /\
  (forall a, a < next s -> heap s' !! a = heap s !! a) /\
  (r = Ok tt ->
   inv (next s) s' /\ configCache s' = ∅ /\
   next s <= baseConfigArray s' /\ next s <= cliConfigArray s').
Proof.
  intros Hinv. unfold clearCache. unfold bind at 1.
  destruct (createBaseConfigArray w s) as [r1 s1] eqn:Hb.
  destruct (createBaseConfigArray_spec _ _ _ _ Hb) as (F1 & Hok1 & Hr1).
  assert (Hinv1 : inv n s1).
  { eapply inv_frames; eauto. apply Hok1. by destruct Hinv. }
  destruct r1 as [base| |].
  2,3: intros [= <- <-]; destruct F1; split_and!; auto; discriminate.
  specialize (Hr1 _ eq_refl).
  assert (Hn : n <= next s) by (destruct Hinv; lia).
  unfold modify at 1. unfold bind at 1. unfold bind at 1.
  destruct (createCLIConfigArray w (set_baseConfigArray base s1)) as [r2 s2] eqn:Hc.
  destruct (createCLIConfigArray_spec _ _ _ _ Hc) as (F2 & Hok2 & Hr2).
  assert (Hinv1' : inv n (set_baseConfigArray base s1))
    by (apply inv_set_baseConfigArray; auto; lia).
  assert (Hinv2 : inv n s2).
  { eapply inv_frames; eauto. apply Hok2. by destruct Hinv1'. }
  destruct F1, F2. cbn in *.
  destruct r2 as [cli| |].
  2,3: intros [= <- <-]; split_and!; auto; try congruence; try lia;
       try discriminate; intros a Ha; rewrite frames_heap1 by lia; auto.
  specialize (Hr2 _ eq_refl).
  unfold_M. intros [= <- <-]. cbn.
  assert (Hinv3 : inv n (set_cliConfigArray cli s2))
    by (apply inv_set_cliConfigArray; auto; lia).
  split_and!; try congruence; try lia.
  - eapply inv_weaken; [|eapply (inv_clear n n (set_cliConfigArray cli s2))]; cbn; auto.
    lia.
  - intros a Ha; rewrite frames_heap1 by lia; auto.
  - intros _. split_and!; auto; try lia.
    apply (inv_clear n _ (set_cliConfigArray cli s2)); auto. cbn. lia.
Qed.

Lemma constructor_inv P w o s :
  new_FileEnumerator P w o = (Ok tt, s) ->
  inv 0 s /\ configCache s = ∅ /\ finalizeCache s = ∅ /\
  useEslintrc s = opt_useEslintrc o /\ cwd s = opt_cwd o.
Proof.
  unfold new_FileEnumerator, constructor. unfold bind at 1.
  destruct (createBaseConfigArray w (emptySlots P o)) as [r1 s1] eqn:Hb.
  destruct (createBaseConfigArray_spec _ _ _ _ Hb) as (F1 & Hok1 & Hr1).
  destruct r1 as [base| |]; try discriminate.
  specialize (Hr1 _ eq_refl).
  unfold modify at 1. unfold bind at 1. unfold bind at 1.
  destruct (createCLIConfigArray w (set_baseConfigArray base s1)) as [r2 s2] eqn:Hc.
  destruct (createCLIConfigArray_spec _ _ _ _ Hc) as (F2 & Hok2 & Hr2).
  destruct r2 as [cli| |]; try discriminate.
  specialize (Hr2 _ eq_refl).
  unfold_M. intros [= <-].
  assert (heap_ok (emptySlots P o)).
  { intros a [x Hx]. cbn in Hx. by rewrite lookup_empty in Hx. }
  destruct F1, F2. cbn in *. split_and!; try congruence.
  split; cbn.
  - apply Hok2. cbn. by apply Hok1.
  - lia.
  - lia.
  - intros d a. rewrite frames_cache1, frames_cache0. by rewrite lookup_empty.
  - intros k f. rewrite frames_final1, frames_final0. by rewrite lookup_empty.
Qed.

Lemma getConfigArrayForFile_inv P n fuel w p s r s' :
  inv n s ->
  getConfigArrayForFile P fuel w p s = (r, s') ->
  inv n s' /\ grows s s' /\
  forall a, r = Ok a ->
    exists raw,
      n <= raw /\ raw <= a < next s' /\ finalizeCache s' !! raw = Some a /\
      if useEslintrc s
      then configCache s' !! path_dirname P (path_resolve P (cwd s) (default "a.js" p))
             = Some raw
           /\ contents s' a <> []
      else raw = baseConfigArray s.
Proof.
  intros Hinv. unfold getConfigArrayForFile, _loadConfigInAncestors.
  unfold bind at 1. unfold get at 1. unfold bind at 1.
  destruct (_loadConfigInAncestorsRecursive P fuel w
              (path_resolve P (cwd s) (default "a.js" p)) s) as [r1 s1] eqn:Ha.
  destruct (ancestors_inv _ _ _ _ _ _ _ _ Hinv Ha) as (Hinv1 & G1 & Hf1 & Hr1).
  destruct r1 as [raw| |].
  2,3: intros [= <- <-]; split_and!; auto; intros ? [=].
  destruct (Hr1 _ eq_refl) as [Hraw Hcase].
  intros Hfin. assert (Hlt : raw < next s1) by lia.
  destruct (finalize_inv _ _ _ _ _ _ _ Hinv1 Hlt Hfin) as (Hinv2 & G2 & Hc2 & Hr2).
  split_and!; auto.
  - eapply grows_trans; eassumption.
  - intros a ->. destruct (Hr2 _ eq_refl) as (Hle & Hlook & Hne).
    exists raw. split_and!; auto; try lia.
    destruct (useEslintrc s) eqn:Huse.
    + rewrite Hc2. split; auto. apply Hne. by rewrite (grows_useEslintrc _ _ G1).
    + tauto.
Qed.

(** ** The file iterator keeps the invariants *)

Lemma isIgnoredFile_eq w p d dr s :
  exists b, _isIgnoredFile w p d dr s = (Ok b, s).
Proof. unfold _isIgnoredFile. unfold_M. eauto. Qed.

Lemma statSafeSync_state w p s r s' : statSafeSync w p s = (r, s') -> s' = s.
Proof.
  unfold statSafeSync. unfold_M.
  destruct (fs_statSync w p) as [st|e]; [|destruct (negb _)]; by intros [= <- <-].
Qed.

Lemma readdirSafeSync_state w p s r s' : readdirSafeSync w p s = (r, s') -> s' = s.
Proof.
  unfold readdirSafeSync. unfold_M.
  destruct (fs_readdirSync w p) as [st|e]; [|destruct (negb _)]; by intros [= <- <-].
Qed.

Lemma forEach_inv {X A} n (body : X -> A -> M A) (K : State -> Prop) :
  (forall s s', K s -> grows s s' -> K s') ->
  (forall x acc s r s',
     inv n s -> K s -> body x acc s = (r, s') -> inv n s' /\ grows s s') ->
  forall xs acc s r s',
    inv n s -> K s -> forEach body xs acc s = (r, s') -> inv n s' /\ grows s s'.
Proof.
  intros HK Hbody. induction xs as [|x xs IH]; intros acc s r s' Hinv Hk H; cbn in H.
  - injection H as <- <-. auto using grows_refl.
  - unfold bind in H. destruct (body x acc s) as [r1 s1] eqn:Hb.
    destruct (Hbody _ _ _ _ _ Hinv Hk Hb) as [Hinv1 G1].
    destruct r1 as [acc1| |]; try (injection H as <- <-; auto).
    destruct (IH _ _ _ _ Hinv1 (HK _ _ Hk G1) H) as [Hinv2 G2].
    split; auto. eapply grows_trans; eassumption.
Qed.

Lemma walk_inv {A} P n w (yield : FileEntry -> A -> M A) options :
  (forall e acc s r s',
     inv n s -> entry_config e < next s -> yield e acc s = (r, s') ->
     inv n s' /\ grows s s') ->
  forall fuel d parent acc s r s',
    inv n s -> parent < next s ->
    _iterateFilesRecursive P yield fuel w d parent options acc s = (r, s') ->
    inv n s' /\ grows s s'.
Proof.
  intros Hyield. induction fuel as [|fuel IH]; intros d parent acc s r s' Hinv Hp H;
    cbn [_iterateFilesRecursive] in H.
  - injection H as <- <-. auto using grows_refl.
  - unfold bind at 1 in H.
    destruct (isIgnoredFile_eq w d (dotfiles options) false s) as [b Hb].
    rewrite Hb in H. destruct b.
    { injection H as <- <-. auto using grows_refl. }
    unfold bind at 1 in H.
    destruct (_loadConfigOnDirectory w d parent s) as [r1 s1] eqn:Hl.
    destruct (loadConfigOnDirectory_inv _ _ _ _ _ _ _ Hinv Hp Hl)
      as (Hinv1 & G1 & _ & _ & Hr1).
    destruct r1 as [config| |]; try (injection H as <- <-; auto).
    specialize (Hr1 _ eq_refl).
    unfold bind at 1 in H.
    destruct (readdirSafeSync w d s1) as [r2 s2] eqn:Hrd.
    apply readdirSafeSync_state in Hrd as ->.
    destruct r2 as [filenames| |]; try (injection H as <- <-; auto).
    eapply (forEach_inv n _ (fun s => config < next s)) in H; auto.
    + destruct H as [Hinv2 G2]. split; auto. eapply grows_trans; eassumption.
    + intros x y Hx G. destruct G. lia.
    + clear H. intros filename acc' x r' x' Hinvx Hcx Hx.
      unfold bind at 1 in Hx.
      destruct (statSafeSync w (path_join P d filename) x) as [r3 s3] eqn:Hst.
      apply statSafeSync_state in Hst as ->.
      destruct r3 as [stat| |]; try (injection Hx as <- <-; auto using grows_refl).
      destruct (isFileStat stat).
      * unfold bind at 1 in Hx.
        destruct (isIgnoredFile_eq w (path_join P d filename) (dotfiles options) false x)
          as [b' Hb'].
        rewrite Hb' in Hx. unfold bind at 1 in Hx. unfold get at 1 in Hx.
        match type of Hx with (if ?c then _ else _) _ = _ => destruct c end.
        -- eapply Hyield; [exact Hinvx| |exact Hx]. exact Hcx.
        -- injection Hx as <- <-. auto using grows_refl.
      * destruct (recursive options && isDirectoryStat stat).
        -- eapply IH; eauto.
        -- injection Hx as <- <-. auto using grows_refl.
Qed.

Lemma iterateFiles_body_inv P n w e l s r s' :
  inv n s -> entry_config e < next s ->
  iterateFiles_body P w e l s = (r, s') ->
  inv n s' /\ grows s s'.
Proof.
  intros Hinv He. unfold iterateFiles_body.
  destruct (bool_decide (flag e = IGNORED_SILENTLY)).
  { unfold ret. intros [= <- <-]. auto using grows_refl. }
  destruct (negb (bool_decide (entry_filePath e ∈ set l))).
  2:{ unfold ret. intros [= <- <-]. auto using grows_refl. }
  unfold bind at 1.
  destruct (_finalizeConfigArray w (entry_config e)
              (path_dirname P (entry_filePath e)) s) as [r1 s1] eqn:Hf.
  destruct (finalize_inv _ _ _ _ _ _ _ Hinv He Hf) as (Hinv1 & G1 & _ & _).
  destruct r1 as [final| |]; try (intros [= <- <-]; auto).
  split.
  - by apply inv_events.
  - eapply grows_trans; [exact G1|apply grows_logged].
Qed.

Lemma iterateFiles_iter_inv P n fuel w pattern s r s' :
  inv n s ->
  _iterateFiles P fuel w pattern s = (r, s') ->
  inv n s' /\ grows s s' /\
  forall iter, r = Ok iter ->
    match iter with
    | IterArray entries => Forall (fun e => entry_config e < next s') entries
    | IterWalk _ parent _ => parent < next s'
    end.
Proof.
  intros Hinv. unfold _iterateFiles. unfold bind at 1. unfold get at 1.
  assert (Hanc : forall p s0 r0 s0',
    inv n s0 -> _loadConfigInAncestors P fuel w p s0 = (r0, s0') ->
    inv n s0' /\ grows s0 s0' /\ forall a, r0 = Ok a -> a < next s0').
  { intros p s0 r0 s0' Hi Ha.
    destruct (ancestors_inv _ _ _ _ _ _ _ _ Hi Ha) as (? & ? & _ & Hr).
    split_and!; auto. intros a Hq. destruct (Hr _ Hq). lia. }
  destruct (globInputPaths s && isGlobPattern P pattern).
  { unfold _iterateFilesWithGlob. unfold bind at 1.
    destruct (_loadConfigInAncestors P fuel w
                (getGlobParent P (path_resolve P (cwd s) pattern)) s)
      as [r1 s1] eqn:Ha.
    destruct (Hanc _ _ _ _ Hinv Ha) as (? & ? & Hr).
    destruct r1 as [c| |]; unfold ret; intros [= <- <-]; split_and!; auto;
      intros iter [= <-]. auto. }
  unfold bind at 1.
  destruct (statSafeSync w (path_resolve P (cwd s) pattern) s) as [r0 s0] eqn:Hst.
  apply statSafeSync_state in Hst as ->.
  destruct r0 as [stat| |].
  2,3: intros [= <- <-]; split_and!; auto using grows_refl; intros ? ?; discriminate.
  destruct (isDirectoryStat stat).
  { unfold _iterateFilesWithDirectory. unfold bind at 1.
    destruct (_loadConfigInAncestors P fuel w (path_resolve P (cwd s) pattern) s)
      as [r1 s1] eqn:Ha.
    destruct (Hanc _ _ _ _ Hinv Ha) as (? & ? & Hr).
    destruct r1 as [c| |]; unfold ret; intros [= <- <-]; split_and!; auto;
      intros iter [= <-]. auto. }
  destruct (isFileStat stat).
  { unfold _iterateFilesWithFile. unfold bind at 1.
    destruct (_loadConfigInAncestors P fuel w (path_resolve P (cwd s) pattern) s)
      as [r1 s1] eqn:Ha.
    destruct (Hanc _ _ _ _ Hinv Ha) as (? & ? & Hr).
    destruct r1 as [c| |].
    2,3: intros [= <- <-]; split_and!; auto; intros ? ?; discriminate.
    unfold bind at 1.
    destruct (isIgnoredFile_eq w (path_resolve P (cwd s) pattern) false true s1)
      as [b ->].
    unfold ret. intros [= <- <-]. split_and!; auto.
    intros iter [= <-]. constructor; auto. }
  unfold ret. intros [= <- <-]. split_and!; auto using grows_refl.
  intros iter [= <-]. constructor.
Qed.

Lemma forOf_inv {A} P n fuel w iter (body : FileEntry -> A -> M A) :
  (forall e acc s r s',
     inv n s -> entry_config e < next s -> body e acc s = (r, s') ->
     inv n s' /\ grows s s') ->
  forall acc s r s',
    inv n s ->
    match iter with
    | IterArray entries => Forall (fun e => entry_config e < next s) entries
    | IterWalk _ parent _ => parent < next s
    end ->
    forOf P fuel w iter body acc s = (r, s') ->
    inv n s' /\ grows s s'.
Proof.
  intros Hbody acc s r s' Hinv Hiter. destruct iter as [entries|d parent options]; cbn.
  - revert acc s Hinv Hiter. induction entries as [|e es IH]; intros acc s Hinv Hes H;
      cbn in H.
    + injection H as <- <-. auto using grows_refl.
    + unfold bind in H. destruct (body e acc s) as [r1 s1] eqn:Hb.
      inversion Hes as [|? ? He Hes']; subst.
      destruct (Hbody _ _ _ _ _ Hinv He Hb) as [Hinv1 G1].
      destruct r1 as [acc1| |]; try (injection H as <- <-; auto).
      assert (Hes1 : Forall (fun e => entry_config e < next s1) es).
      { eapply Forall_impl; [exact Hes'|]. intros x Hx. cbn in *. destruct G1. lia. }
      destruct (IH _ _ Hinv1 Hes1 H) as [Hinv2 G2].
      split; auto. eapply grows_trans; eassumption.
  - by apply walk_inv.
Qed.

Lemma iterateFiles_pattern_inv P n fuel w g pattern set0 s r s' :
  inv n s ->
  iterateFiles_pattern P fuel w g pattern set0 s = (r, s') ->
  inv n s' /\ grows s s'.
Proof.
  intros Hinv. unfold iterateFiles_pattern.
  destruct (bool_decide (pattern = EmptyString)).
  { unfold ret. intros [= <- <-]. auto using grows_refl. }
  unfold bind at 1.
  destruct (_iterateFiles P fuel w pattern s) as [r1 s1] eqn:Hi.
  destruct (iterateFiles_iter_inv _ _ _ _ _ _ _ _ Hinv Hi) as (Hinv1 & G1 & Hr1).
  destruct r1 as [iter| |]; try (intros [= <- <-]; auto).
  specialize (Hr1 _ eq_refl).
  unfold bind at 1.
  match goal with |- context [forOf P fuel w iter ?b ?a s1] =>
    destruct (forOf P fuel w iter b a s1) as [r2 s2] eqn:Hfor end.
  eapply forOf_inv in Hfor; eauto using iterateFiles_body_inv.
  destruct Hfor as [Hinv2 G2].
  assert (G : grows s s2) by (eapply grows_trans; eassumption).
  destruct r2 as [l| |]; try (intros [= <- <-]; auto).
  unfold_M.
  destruct (negb (foundRegardlessOfIgnored l)); [|destruct (negb (found l))];
    intros [= <- <-]; auto.
Qed.

Lemma iterateFiles_inv P n fuel w patterns s r s' :
  inv n s ->
  iterateFiles P fuel w patterns s = (r, s') ->
  inv n s' /\ grows s s'.
Proof.
  intros Hinv. unfold iterateFiles. unfold bind at 1. unfold get at 1.
  unfold bind at 1.
  match goal with |- context [forEach ?b ?xs ?a s] =>
    destruct (forEach b xs a s) as [r1 s1] eqn:Hfor end.
  eapply (forEach_inv n _ (fun _ => True)) in Hfor; auto.
  - destruct r1; unfold ret; intros [= <- <-]; auto.
  - intros x acc s0 r0 s0' Hi _ Hx. eapply iterateFiles_pattern_inv; eauto.
Qed.

Lemma run_inv P n fuel w op s r s' :
  inv n s ->
  run P fuel w op s = (r, s') ->
  inv n s' /\ (isClearCache op = false -> grows s s').
Proof.
  intros Hinv. destruct op as [p|patterns|]; cbn.
  - unfold bind. destruct (getConfigArrayForFile P fuel w p s) as [r1 s1] eqn:Hg.
    destruct (getConfigArrayForFile_inv _ _ _ _ _ _ _ _ Hinv Hg) as (? & ? & _).
    destruct r1; unfold ret; intros [= <- <-]; auto.
  - intros H. destruct (iterateFiles_inv _ _ _ _ _ _ _ _ Hinv H). auto.
  - intros H. destruct (clearCache_inv _ _ _ _ _ Hinv H) as (? & _). split; auto.
    discriminate.
Qed.

Lemma steps_inv P n c s s' : steps P c s s' -> inv n s -> inv n s'.
Proof.
  induction 1 as [|s s' s'' _ IH [fuel w op r _ Hrun _]]; auto.
  intros Hinv. by destruct (run_inv _ _ _ _ _ _ _ _ (IH Hinv) Hrun).
Qed.

Lemma steps_grows P s s' : steps P false s s' -> inv 0 s -> grows s s'.
Proof.
  induction 1 as [|s s' s'' Hsteps IH [fuel w op r Hop Hrun _]]; intros Hinv.
  - apply grows_refl.
  - eapply grows_trans; [by apply IH|].
    pose proof (steps_inv _ _ _ _ _ Hsteps Hinv) as Hinv'.
    destruct (run_inv _ _ _ _ _ _ _ _ Hinv' Hrun) as [_ G]. apply G.
    destruct (isClearCache op); auto. by specialize (Hop eq_refl).
Qed.

Lemma reachable_inv P s : reachable P s -> inv 0 s.
Proof.
  intros [w o s0 Hnew Hsteps].
  eapply steps_inv; [exact Hsteps|]. by destruct (constructor_inv _ _ _ _ Hnew).
Qed.

(** ** C1: files of one directory share one config array *)

(** C1.  Once [getConfigArrayForFile(p1)] has returned an array, every later
    [getConfigArrayForFile(p2)] for a path of the same directory (the
    [dirname] of the path resolved against the working directory) returns
    that very array, the same location, as long as no [clearCache()] came in
    between; other calls of [getConfigArrayForFile] and [iterateFiles] may.
    The second call finds the directory in the config cache and the raw array
    in the finalize cache, and changes nothing. *)
Theorem same_directory_same_array P s fuel1 w1 p1 a s1 s2 fuel2 w2 p2 :
  reachable P s ->
  getConfigArrayForFile P fuel1 w1 p1 s = (Ok a, s1) ->
  steps P false s1 s2 ->
  path_dirname P (path_resolve P (cwd s) (default "a.js" p1)) =
  path_dirname P (path_resolve P (cwd s) (default "a.js" p2)) ->
  0 < fuel2 ->
  getConfigArrayForFile P fuel2 w2 p2 s2 = (Ok a, s2).
Proof.
  intros Hreach Hget Hsteps Hdir Hfuel.
  pose proof (reachable_inv _ _ Hreach) as Hinv.
  destruct (getConfigArrayForFile_inv _ _ _ _ _ _ _ _ Hinv Hget)
    as (Hinv1 & G1 & Hr).
  destruct (Hr _ eq_refl) as (raw & _ & Hlt & Hfin & Hcase).
  pose proof (steps_grows _ _ _ Hsteps Hinv1) as G2.
  assert (Hfin2 : finalizeCache s2 !! raw = Some a).
  { eapply lookup_weaken; [exact Hfin|by destruct G2]. }
  assert (Huse : useEslintrc s2 = useEslintrc s)
    by (destruct G1, G2; congruence).
  assert (Hcwd : cwd s2 = cwd s) by (destruct G1, G2; congruence).
  destruct fuel2 as [|fuel2]; [lia|].
  unfold getConfigArrayForFile, _loadConfigInAncestors.
  unfold bind at 1. unfold get at 1. unfold bind at 1.
  cbn [_loadConfigInAncestorsRecursive]. rewrite Huse, Hcwd, <- Hdir.
  destruct (useEslintrc s) eqn:Hu; cbn [negb].
  - destruct Hcase as [Hcache Hne].
    assert (Hcache2 : configCache s2 !! path_dirname P
                        (path_resolve P (cwd s) (default "a.js" p1)) = Some raw).
    { eapply lookup_weaken; [exact Hcache|by destruct G2]. }
    rewrite Hcache2. rewrite (finalize_hit _ _ _ _ _ Hfin2).
    rewrite (contents_grows _ _ _ G2) by lia.
    rewrite Huse. cbn. case_bool_decide as Hlen; auto.
    destruct (contents s1 a); [done|discriminate].
  - subst raw. replace (baseConfigArray s2) with (baseConfigArray s)
      by (destruct G1, G2; congruence).
    rewrite (finalize_hit _ _ _ _ _ Hfin2). by rewrite Huse.
Qed.

Lemma same_directory_same_array_witness :
  getConfigArrayForFile Sample.posix 10 Sample.project (Some "lib/two.js")
    Sample.afterWalk
  = (Ok 3, Sample.afterWalk).
Proof.
  apply (same_directory_same_array Sample.posix Sample.fresh 10 Sample.project
           (Some "lib/one.js") 3 Sample.afterOne Sample.afterWalk 10 Sample.project
           (Some "lib/two.js")).
  - apply (reachable_intro _ _ Sample.project (Sample.options "/tmp/root") Sample.fresh).
    + vm_compute. reflexivity.
    + apply steps_refl.
  - vm_compute. reflexivity.
  - apply (steps_step _ _ Sample.afterOne Sample.afterOne Sample.afterWalk);
      [apply steps_refl|].
    apply (step_run _ _ _ _ 10 Sample.project (IterateFiles (inl "lib/**/*.js")) (Ok tt)).
    + discriminate.
    + vm_compute. reflexivity.
    + discriminate.
  - vm_compute. reflexivity.
  - lia.
Defined.

(** ** C3: [clearCache] *)

Lemma run_next P n fuel w op s r s' :
  inv n s -> run P fuel w op s = (r, s') -> next s <= next s'.
Proof.
  intros Hinv Hrun. destruct op as [p|patterns|].
  - destruct (run_inv _ _ _ _ _ _ _ _ Hinv Hrun) as [_ G].
    by destruct (G eq_refl).
  - destruct (run_inv _ _ _ _ _ _ _ _ Hinv Hrun) as [_ G].
    by destruct (G eq_refl).
  - cbn in Hrun. by destruct (clearCache_inv _ _ _ _ _ Hinv Hrun) as (_ & _ & ? & _).
Qed.

Lemma steps_next P c s s' : steps P c s s' -> inv 0 s -> next s <= next s'.
Proof.
  induction 1 as [|s s' s'' Hsteps IH [fuel w op r _ Hrun _]]; intros Hinv; [lia|].
  pose proof (steps_inv _ _ _ _ _ Hsteps Hinv) as Hinv'.
  pose proof (run_next _ _ _ _ _ _ _ _ Hinv' Hrun). specialize (IH Hinv). lia.
Qed.






(** ** C6: the personal config *)

Lemma noFilePath_Forall es :
  noFilePath es = true <-> Forall (fun c => filePath c = EmptyString) es.
Proof.
  unfold noFilePath. rewrite forallb_forall, Forall_forall.
  split; intros H c Hc.
  - apply list_elem_of_In in Hc. apply H in Hc. by apply bool_decide_eq_true in Hc.
  - apply bool_decide_eq_true. apply H. by apply list_elem_of_In.
Qed.

Lemma wantsPersonalConfig_iff s a :
  wantsPersonalConfig s a = true <->
  useEslintrc s = true /\
  Forall (fun c => filePath c = EmptyString) (contents s a) /\
  Forall (fun c => filePath c = EmptyString) (contents s (cliConfigArray s)).
Proof.
  unfold wantsPersonalConfig. rewrite !andb_true_iff, !noFilePath_Forall. tauto.
Qed.

Lemma finalize_events w a dir s r s' :
  finalizeCache s !! a = None ->
  _finalizeConfigArray w a dir s = (r, s') ->
  events s' =
  (events s ++
   if wantsPersonalConfig s a
   then [CallLoadOnDirectory (os_homedir w) (Some "PersonalConfig")] else [])%list.
Proof.
  intros Hmiss H. rewrite (finalize_miss _ _ _ _ Hmiss) in H.
  assert (exists r1 s1,
    (if wantsPersonalConfig s a
     then loadOnDirectory w (os_homedir w) (Some "PersonalConfig") (Some a) s
     else (Ok a, s)) = (r1, s1) /\
    events s1 =
    (events s ++
     if wantsPersonalConfig s a
     then [CallLoadOnDirectory (os_homedir w) (Some "PersonalConfig")] else [])%list)
    as (r1 & s1 & E & Hev).
  { destruct (wantsPersonalConfig s a).
    - destruct (loadOnDirectory w (os_homedir w) (Some "PersonalConfig") (Some a) s)
        as [r1 s1] eqn:Hl.
      exists r1, s1. split; auto. apply loadOnDirectory_cases in Hl. cbn in Hl.
      destruct (factory_loadOnDirectory w (os_homedir w) (Some "PersonalConfig"))
        as [[|e es]|e]; destruct Hl as [_ ->]; reflexivity.
    - exists (Ok a), s. by rewrite app_nil_r. }
  rewrite E in H. rewrite <- Hev. clear E Hev.
  destruct r1 as [f1| |]; try by injection H as <- <-.
  destruct (0 <? length (contents s1 (cliConfigArray s1)))%nat;
    cbv beta iota in H;
    match type of H with context [validateConfigArray w ?x] =>
      destruct (validateConfigArray w x) end;
    by injection H as <- <-.
Qed.

(** C6.  When the finalizer finalizes a raw array (the array is not in the
    finalize cache yet), it calls the factory's [loadOnDirectory] on the home
    directory, under the name [PersonalConfig], if and only if [useEslintrc]
    is true and every element of the raw array and of the CLI array has an
    empty [filePath]; it makes no other call into the factory.  So an element
    loaded from a file, in the raw array (a project config) or in the CLI array
    (the [--config] file), suppresses the lookup. *)
Theorem personal_config_iff w a dir s r s' :
  finalizeCache s !! a = None ->
  _finalizeConfigArray w a dir s = (r, s') ->
  exists new,
    events s' = (events s ++ new)%list /\
    (forall c, In c new ->
       c = CallLoadOnDirectory (os_homedir w) (Some "PersonalConfig")) /\
    (In (CallLoadOnDirectory (os_homedir w) (Some "PersonalConfig")) new <->
     useEslintrc s = true /\
     Forall (fun c => filePath c = EmptyString) (contents s a) /\
     Forall (fun c => filePath c = EmptyString) (contents s (cliConfigArray s))) /\
    (Exists (fun c => filePath c <> EmptyString)
       (contents s a ++ contents s (cliConfigArray s)) -> new = []).
Proof.
  intros Hmiss H. pose proof (finalize_events _ _ _ _ _ _ Hmiss H) as Hev.
  pose proof (wantsPersonalConfig_iff s a) as Hiff.
  destruct (wantsPersonalConfig s a); eexists; (split; [exact Hev|]).
  - split_and!.
    + intros c [<-|[]]. reflexivity.
    + split; [intros _; by apply Hiff|intros _; by left].
    + intros Hex. destruct Hiff as [(_ & Ha & Hc) _]; auto.
      apply Exists_app in Hex as [Hex|Hex]; apply Exists_exists in Hex;
        destruct Hex as (c & Hin & Hne); exfalso; apply Hne.
      * by apply (proj1 (Forall_forall _ _) Ha).
      * by apply (proj1 (Forall_forall _ _) Hc).
  - split_and!; auto.
    + intros c [].
    + split; [intros []|]. intros Hc. by apply Hiff in Hc.
Qed.

Lemma personal_config_iff_witness :
  exists new,
    events (snd (_finalizeConfigArray Sample.homeOnly 0 "/work" Sample.freshAtWork)) =
    (events Sample.freshAtWork ++ new)%list /\
    In (CallLoadOnDirectory "/home/user" (Some "PersonalConfig")) new.
Proof.
  destruct (personal_config_iff Sample.homeOnly 0 "/work" Sample.freshAtWork
              (fst (_finalizeConfigArray Sample.homeOnly 0 "/work" Sample.freshAtWork))
              (snd (_finalizeConfigArray Sample.homeOnly 0 "/work" Sample.freshAtWork)))
    as (new & Hev & _ & Hiff & _).
  - vm_compute. reflexivity.
  - vm_compute. reflexivity.
  - exists new. split; [exact Hev|]. apply Hiff. split_and!.
    + vm_compute. reflexivity.
    + vm_compute. constructor.
    + vm_compute. constructor.
Defined.

(** ** C7: no configuration found *)

Lemma finalize_throws w a dir s d' s' :
  _finalizeConfigArray w a dir s = (Throw (ConfigurationNotFoundError d'), s') ->
  d' = dir /\ useEslintrc s = true /\
  exists f, finalizeCache s' !! a = Some f /\ contents s' f = [].
Proof.
  intros H. destruct (finalizeCache s !! a) as [f0|] eqn:Hc.
  - rewrite (finalize_hit _ _ _ _ _ Hc) in H.
    destruct (useEslintrc s); [|discriminate]. cbn in H.
    case_bool_decide as Hlen; [|discriminate]. injection H as <- <-.
    split_and!; auto. exists f0. split; auto. by apply nil_length_inv.
  - rewrite (finalize_miss _ _ _ _ Hc) in H.
    destruct (if wantsPersonalConfig s a then _ else _) as [r1 s1] eqn:E.
    assert (Huse : forall e, r1 = Throw e -> exists j, e = ExternalError j).
    { destruct (wantsPersonalConfig s a).
      - apply loadOnDirectory_cases in E. cbn in E.
        destruct (factory_loadOnDirectory w (os_homedir w) (Some "PersonalConfig"))
          as [[|e0 es]|j]; destruct E as [-> _]; intros e [=]; eauto.
      - injection E as <- <-. intros e [=]. }
    assert (Hu1 : useEslintrc s1 = useEslintrc s).
    { destruct (wantsPersonalConfig s a).
      - apply loadOnDirectory_cases in E. cbn in E.
        destruct (factory_loadOnDirectory w (os_homedir w) (Some "PersonalConfig"))
          as [[|e0 es]|j]; by destruct E as [_ ->].
      - by injection E as <- <-. }
    destruct r1 as [f1|e1|]; [| |discriminate].
    2:{ injection H as -> <-. destruct (Huse _ eq_refl) as [j [=]]. }
    destruct (0 <? length (contents s1 (cliConfigArray s1)))%nat;
      cbv beta iota zeta in H;
      match type of H with context [validateConfigArray w ?x] =>
        destruct (validateConfigArray w x) end; try discriminate;
      match type of H with context [if ?b then _ else _] =>
        destruct b eqn:Hb end; try discriminate;
      injection H as <- <-; cbn in Hb; rewrite Hu1 in Hb;
      apply andb_true_iff in Hb as [Hu Hlen];
      apply bool_decide_eq_true in Hlen; apply nil_length_inv in Hlen;
      (split_and!; auto; eexists; split; [cbn; apply lookup_insert_eq|exact Hlen]).
Qed.

Lemma finalize_stored_empty w a dir s r s' f :
  _finalizeConfigArray w a dir s = (r, s') ->
  useEslintrc s = true ->
  finalizeCache s' !! a = Some f -> contents s' f = [] ->
  r = Throw (ConfigurationNotFoundError dir).
Proof.
  intros H Hu Hf Hnil. destruct (finalizeCache s !! a) as [f0|] eqn:Hc.
  - rewrite (finalize_hit _ _ _ _ _ Hc) in H. injection H as <- <-.
    rewrite Hc in Hf. injection Hf as ->. rewrite Hu, Hnil. reflexivity.
  - rewrite (finalize_miss _ _ _ _ Hc) in H.
    destruct (if wantsPersonalConfig s a then _ else _) as [r1 s1] eqn:E.
    assert (Hs1 : useEslintrc s1 = useEslintrc s /\ finalizeCache s1 = finalizeCache s).
    { destruct (wantsPersonalConfig s a).
      - apply loadOnDirectory_cases in E. cbn in E.
        destruct (factory_loadOnDirectory w (os_homedir w) (Some "PersonalConfig"))
          as [[|e0 es]|j]; by destruct E as [_ ->].
      - by injection E as <- <-. }
    destruct Hs1 as [Hu1 Hf1].
    destruct r1 as [f1|e1|].
    2,3: injection H as <- <-; rewrite Hf1, Hc in Hf; discriminate.
    destruct (0 <? length (contents s1 (cliConfigArray s1)))%nat;
      cbv beta iota zeta in H;
      match type of H with context [validateConfigArray w ?x] =>
        destruct (validateConfigArray w x) end;
      injection H as <- <-; cbn in Hf; try (rewrite Hf1, Hc in Hf; discriminate);
      rewrite lookup_insert_eq in Hf; injection Hf as <-;
      cbn; rewrite Hu1, Hu; cbn; cbn in Hnil; unfold contents in *; cbn in *;
      by rewrite Hnil.
Qed.

Lemma ancestors_nonempty P w fuel : forall p s a s',
  inv 0 s ->
  contents s (baseConfigArray s) <> [] ->
  (forall d c, configCache s !! d = Some c -> contents s c <> []) ->
  _loadConfigInAncestorsRecursive P fuel w p s = (Ok a, s') ->
  contents s' a <> [] /\
  (forall d c, configCache s' !! d = Some c -> contents s' c <> []).
Proof.
  induction fuel as [|fuel IH]; intros p s a s' Hinv Hbase Hcache H;
    cbn [_loadConfigInAncestorsRecursive] in H; [discriminate|].
  destruct (useEslintrc s) eqn:Huse; cbn [negb] in H.
  2:{ by injection H as <- <-. }
  destruct (configCache s !! path_dirname P p) as [c|] eqn:Hc.
  { injection H as <- <-. eauto. }
  assert (Hset : forall t x,
    contents t x <> [] ->
    (forall d c, configCache t !! d = Some c -> contents t c <> []) ->
    forall d c, configCache (set_configCache (<[path_dirname P p := x]> (configCache t)) t)
                  !! d = Some c ->
                contents (set_configCache (<[path_dirname P p := x]> (configCache t)) t) c
                <> []).
  { intros t x Hx Ht d c. cbn. destruct (decide (path_dirname P p = d)) as [->|Hne].
    - rewrite lookup_insert_eq. by intros [= <-].
    - rewrite lookup_insert_ne by done. apply Ht. }
  destruct (consideredRoot w s p (path_dirname P p)).
  { unfold_M. injection H as <- <-. split; [exact Hbase|by apply Hset]. }
  destruct (loadOnDirectory w (path_dirname P p) None None s) as [r1 s1] eqn:Hload.
  assert (Hnone : forall p0 : loc, (None : option loc) = Some p0 -> p0 < next s)
    by (intros ? [=]).
  destruct (loadOnDirectory_inv 0 _ _ _ _ _ _ _ Hinv Hnone Hload)
    as (Hinv1 & G1 & Hc1 & Hf1 & Hr1).
  assert (Hbase1 : contents s1 (baseConfigArray s1) <> []).
  { rewrite (grows_base _ _ G1). rewrite (contents_grows _ _ _ G1); auto.
    destruct Hinv; lia. }
  assert (Hcache1 : forall d c, configCache s1 !! d = Some c -> contents s1 c <> []).
  { intros d c. rewrite Hc1. intros Hd. rewrite (contents_grows _ _ _ G1); eauto.
    destruct Hinv. apply inv_cache0 in Hd. lia. }
  destruct r1 as [configArray|e|]; [| |discriminate].
  - destruct (Hr1 _ eq_refl) as [Hlt [?|Hge]]; [discriminate|].
    destruct (0 <? length (contents s1 configArray))%nat eqn:Hlen.
    + assert (Hown : contents s1 configArray <> []).
      { intros Hnil. rewrite Hnil in Hlen. discriminate. }
      cbn [andb] in H. destruct (configArray_root w (contents s1 configArray)).
      * unfold_M. injection H as <- <-. split; [exact Hown|by apply Hset].
      * unfold_M.
        destruct (_loadConfigInAncestorsRecursive P fuel w (path_dirname P p) s1)
          as [r2 s2] eqn:Hrec.
        destruct r2 as [parent| |]; try discriminate.
        destruct (IH _ _ _ _ Hinv1 Hbase1 Hcache1 Hrec) as [Hparent Hcache2].
        injection H as <- <-.
        assert (Hnew : forall x,
          contents s2 x <> [] ->
          contents (set_store
                      (<[configArray := (contents s2 parent ++ contents s2 configArray)%list]>
                         (heap s2)) (next s2) s2) x <> []).
        { intros x Hx. unfold contents at 1. cbn.
          destruct (decide (configArray = x)) as [->|Hne].
          - rewrite lookup_insert_eq. cbn. intros Hnil.
            apply app_eq_nil in Hnil as [Hnil _]. by apply Hparent.
          - rewrite lookup_insert_ne by done. exact Hx. }
        assert (Hown2 : contents s2 configArray <> []).
        { destruct (ancestors_inv _ _ _ _ _ _ _ _ Hinv1 Hrec) as (_ & G2 & _).
          by rewrite (contents_grows _ _ _ G2). }
        split.
        -- by apply Hnew.
        -- intros d c. cbn. destruct (decide (path_dirname P p = d)) as [->|Hne].
           ++ rewrite lookup_insert_eq. intros [= <-]. by apply Hnew.
           ++ rewrite lookup_insert_ne by done. intros Hd. apply Hnew. eauto.
    + cbn [andb] in H. unfold_M.
      destruct (_loadConfigInAncestorsRecursive P fuel w (path_dirname P p) s1)
        as [r2 s2] eqn:Hrec.
      destruct r2 as [parent| |]; try discriminate.
      destruct (IH _ _ _ _ Hinv1 Hbase1 Hcache1 Hrec) as [Hparent Hcache2].
      injection H as <- <-. split; [exact Hparent|by apply Hset].
  - destruct e as [| | |error]; try discriminate.
    destruct (bool_decide (code error = "EACCES")); [|discriminate].
    unfold_M. injection H as <- <-. split; [exact Hbase1|by apply Hset].
Qed.

(** An error that escapes the ancestor walk is one the factory raised when it
    loaded a directory above the path, and not an access-denied error. *)
Lemma ancestors_throw P w fuel : forall p s e s',
  _loadConfigInAncestorsRecursive P fuel w p s = (Throw e, s') ->
  exists n j,
    factory_loadOnDirectory w (ancestor P (S n) p) None = Raised j /\
    code j <> "EACCES" /\ e = ExternalError j.
Proof.
  induction fuel as [|fuel IH]; intros p s e s' H;
    cbn [_loadConfigInAncestorsRecursive] in H; [discriminate|].
  destruct (useEslintrc s); cbn [negb] in H; [|discriminate].
  destruct (configCache s !! path_dirname P p); [discriminate|].
  destruct (consideredRoot w s p (path_dirname P p)); [discriminate|].
  destruct (loadOnDirectory w (path_dirname P p) None None s) as [r1 s1] eqn:Hload.
  apply loadOnDirectory_cases in Hload. cbn in Hload.
  assert (Hup : forall t t',
    _loadConfigInAncestorsRecursive P fuel w (path_dirname P p) t = (Throw e, t') ->
    exists n j,
      factory_loadOnDirectory w (ancestor P (S n) p) None = Raised j /\
      code j <> "EACCES" /\ e = ExternalError j).
  { intros t t' Ht. destruct (IH _ _ _ _ Ht) as (n & j & Hj & Hc & He).
    exists (S n), j. split_and!; auto.
    clear - Hj. revert Hj. generalize (S n). intros m.
    replace (ancestor P m (path_dirname P p)) with (ancestor P (S m) p); auto.
    clear. induction m as [|m IHm]; cbn in *; congruence. }
  destruct (factory_loadOnDirectory w (path_dirname P p) None) as [es|j] eqn:Hf;
    destruct Hload as [-> ->].
  - match type of H with context [if ?b then _ else _] => destruct b end;
      [discriminate|].
    match type of H with context [if ?b then _ else _] => destruct b end; unfold_M;
    match type of H with context [_loadConfigInAncestorsRecursive P fuel w ?q ?t] =>
      destruct (_loadConfigInAncestorsRecursive P fuel w q t) as [[x|e'|] t'] eqn:Hrec
    end; try discriminate; injection H as <- <-; eauto.
  - case_bool_decide as Hc; [discriminate|]. injection H as <- <-.
    exists 0, j. auto.
Qed.

Lemma contents_allocated_new s es : contents (allocated es s) (next s) = es.
Proof. unfold contents. cbn. by rewrite lookup_insert_eq. Qed.

Lemma contents_allocated_old s es x :
  x < next s -> contents (allocated es s) x = contents s x.
Proof. intros Hx. unfold contents. cbn. rewrite lookup_insert_ne by lia. done. Qed.

(** What finalization makes of a raw array: its elements, then the personal
    config's, then the CLI array's. *)
Lemma finalize_miss_contents w a dir s r s' f :
  inv 0 s -> a < next s ->
  finalizeCache s !! a = None ->
  _finalizeConfigArray w a dir s = (r, s') ->
  finalizeCache s' !! a = Some f ->
  exists personal,
    contents s' f = (contents s a ++ personal ++ contents s (cliConfigArray s))%list.
Proof.
  intros Hinv Ha Hmiss H Hf. rewrite (finalize_miss _ _ _ _ Hmiss) in H.
  assert (Hcli : cliConfigArray s < next s) by by destruct Hinv.
  assert (exists r1 s1,
    (if wantsPersonalConfig s a
     then loadOnDirectory w (os_homedir w) (Some "PersonalConfig") (Some a) s
     else (Ok a, s)) = (r1, s1) /\
    finalizeCache s1 = finalizeCache s /\ cliConfigArray s1 = cliConfigArray s /\
    next s <= next s1 /\
    contents s1 (cliConfigArray s) = contents s (cliConfigArray s) /\
    forall f1, r1 = Ok f1 ->
      f1 < next s1 /\ exists personal, contents s1 f1 = (contents s a ++ personal)%list)
    as (r1 & s1 & E & Hf1 & Hc1 & Hn1 & Hcc1 & Hr1).
  { destruct (wantsPersonalConfig s a).
    - destruct (loadOnDirectory w (os_homedir w) (Some "PersonalConfig") (Some a) s)
        as [r1 s1] eqn:Hl.
      exists r1, s1. split; auto. apply loadOnDirectory_cases in Hl. cbn in Hl.
      destruct (factory_loadOnDirectory w (os_homedir w) (Some "PersonalConfig"))
        as [[|e es]|e]; destruct Hl as [-> ->]; cbn; split_and!; auto.
      + intros f1 [= <-]. split; auto. exists []. by rewrite app_nil_r.
      + by apply (contents_allocated_old (logged _ s)).
      + intros f1 [= <-]. split; [lia|]. exists (e :: es).
        apply (contents_allocated_new (logged _ s)).
      + intros f1 [=].
    - exists (Ok a), s. split_and!; auto. intros f1 [= <-]. split; auto.
      exists []. by rewrite app_nil_r. }
  rewrite E in H. destruct r1 as [f1| |].
  2,3: injection H as <- <-; rewrite Hf1, Hmiss in Hf; discriminate.
  destruct (Hr1 _ eq_refl) as (Hlt1 & personal & Hp).
  rewrite Hc1 in H. rewrite Hcc1 in H.
  destruct (0 <? length (contents s (cliConfigArray s)))%nat eqn:Hlen;
    cbv beta iota zeta in H;
    match type of H with context [validateConfigArray w ?x] =>
      destruct (validateConfigArray w x) end;
    injection H as <- <-; cbn in Hf; try (rewrite Hf1, Hmiss in Hf; discriminate);
    rewrite lookup_insert_eq in Hf; injection Hf as <-; exists personal.
  - change (contents (allocated (contents s1 f1 ++ contents s (cliConfigArray s)) s1)
              (next s1)
            = (contents s a ++ personal ++ contents s (cliConfigArray s))%list).
    rewrite contents_allocated_new, Hp. by rewrite app_assoc.
  - change (contents s1 f1
            = (contents s a ++ personal ++ contents s (cliConfigArray s))%list).
    destruct (contents s (cliConfigArray s)); [|discriminate].
    by rewrite Hp, app_nil_r.
Qed.

Lemma finalize_nonempty w a dir s r s' :
  inv 0 s -> a < next s ->
  finalizeCache s !! a = None ->
  contents s a <> [] \/ contents s (cliConfigArray s) <> [] ->
  _finalizeConfigArray w a dir s = (r, s') ->
  forall d, r <> Throw (ConfigurationNotFoundError d).
Proof.
  intros Hinv Ha Hmiss Hne H d ->.
  destruct (finalize_throws _ _ _ _ _ _ H) as (_ & _ & f & Hf & Hnil).
  destruct (finalize_miss_contents _ _ _ _ _ _ _ Hinv Ha Hmiss H Hf) as [personal Hc].
  rewrite Hnil in Hc. symmetry in Hc.
  apply app_eq_nil in Hc as [Hc1 Hc2]. apply app_eq_nil in Hc2 as [_ Hc2].
  tauto.
Qed.

(** The finalizer throws [ConfigurationNotFoundError(dir)] exactly when
    [useEslintrc] is true and the finalized array, the one the finalize cache
    holds for the raw array when the call ends, is empty: the check comes
    after the array has been stored, and it is made on a cache hit too.  A new
    enumerator with [useEslintrc] false, with a non-empty base array or with a
    non-empty CLI array never fails in this way. *)
Lemma finalize_configuration_not_found P :
  (forall w a dir s r s',
     _finalizeConfigArray w a dir s = (r, s') ->
     (r = Throw (ConfigurationNotFoundError dir) <->
      useEslintrc s = true /\
      exists f, finalizeCache s' !! a = Some f /\ contents s' f = []) /\
     (forall d, r = Throw (ConfigurationNotFoundError d) -> d = dir)) /\
  (forall w a dir s f,
     finalizeCache s !! a = Some f -> useEslintrc s = true -> contents s f = [] ->
     _finalizeConfigArray w a dir s = (Throw (ConfigurationNotFoundError dir), s)) /\
  (forall w0 o s fuel w p r s',
     new_FileEnumerator P w0 o = (Ok tt, s) ->
     opt_useEslintrc o = false \/
     contents s (baseConfigArray s) <> [] \/
     contents s (cliConfigArray s) <> [] ->
     getConfigArrayForFile P fuel w p s = (r, s') ->
     forall d, r <> Throw (ConfigurationNotFoundError d)).
Proof.
  split; [|split].
  - intros w a dir s r s' H. split.
    + split.
      * intros ->. by destruct (finalize_throws _ _ _ _ _ _ H) as (_ & ? & ?).
      * intros (Hu & f & Hf & Hnil). eapply finalize_stored_empty; eauto.
    + intros d ->. by destruct (finalize_throws _ _ _ _ _ _ H).
  - intros w a dir s f Hf Hu Hnil. rewrite (finalize_hit _ _ _ _ _ Hf).
    by rewrite Hu, Hnil.
  - intros w0 o s fuel w p r s' Hnew Hesc Hget d ->.
    destruct (constructor_inv _ _ _ _ Hnew) as (Hinv & Hcache & Hfinal & Hu & _).
    unfold getConfigArrayForFile, _loadConfigInAncestors in Hget.
    unfold bind at 1 in Hget. unfold get at 1 in Hget. unfold bind at 1 in Hget.
    destruct (_loadConfigInAncestorsRecursive P fuel w
                (path_resolve P (cwd s) (default "a.js" p)) s) as [r1 s1] eqn:Ha.
    destruct (ancestors_inv _ _ _ _ _ _ _ _ Hinv Ha) as (Hinv1 & G1 & Hf1 & Hr1).
    destruct r1 as [raw|e|]; [| |discriminate].
    2:{ injection Hget as -> <-.
        by destruct (ancestors_throw _ _ _ _ _ _ _ Ha) as (? & ? & _ & _ & [=]). }
    destruct (Hr1 _ eq_refl) as [Hraw Hcase].
    destruct Hesc as [Hoff|[Hbase|Hcli]].
    + apply finalize_throws in Hget as (_ & Hu1 & _).
      rewrite (grows_useEslintrc _ _ G1) in Hu1. congruence.
    + assert (Hmiss : finalizeCache s1 !! raw = None)
        by (rewrite Hf1, Hfinal; apply lookup_empty).
      assert (Hne : contents s1 raw <> []).
      { assert (Hempty : forall d' c, configCache s !! d' = Some c -> contents s c <> []).
        { intros d' c. rewrite Hcache, lookup_empty. discriminate. }
        by destruct (ancestors_nonempty P w fuel _ s raw s1 Hinv Hbase Hempty Ha). }
      assert (Hlt : raw < next s1) by lia.
      by apply (finalize_nonempty w raw _ s1 _ _ Hinv1 Hlt Hmiss (or_introl Hne) Hget d).
    + assert (Hmiss : finalizeCache s1 !! raw = None)
        by (rewrite Hf1, Hfinal; apply lookup_empty).
      assert (Hne : contents s1 (cliConfigArray s1) <> []).
      { rewrite (grows_cli _ _ G1). rewrite (contents_grows _ _ _ G1); auto.
        destruct Hinv; lia. }
      assert (Hlt : raw < next s1) by lia.
      by apply (finalize_nonempty w raw _ s1 _ _ Hinv1 Hlt Hmiss (or_intror Hne) Hget d).
Qed.

(** A walk that does not return an array writes no entry of the directory
    cache. *)
Lemma ancestors_failed P w fuel : forall p s r s',
  _loadConfigInAncestorsRecursive P fuel w p s = (r, s') ->
  (forall a, r <> Ok a) -> configCache s' = configCache s.
Proof.
  induction fuel as [|fuel IH]; intros p s r s' H Hr;
    cbn [_loadConfigInAncestorsRecursive] in H; [by injection H as _ <-|].
  destruct (useEslintrc s); cbn [negb] in H; [|by injection H as _ <-].
  destruct (configCache s !! path_dirname P p); [by injection H as _ <-|].
  destruct (consideredRoot w s p (path_dirname P p)).
  { unfold_M. injection H as <- _. by destruct (Hr (baseConfigArray s)). }
  destruct (loadOnDirectory w (path_dirname P p) None None s) as [r1 s1] eqn:Hload.
  apply loadOnDirectory_cases in Hload. cbn in Hload.
  assert (Hc1 : configCache s1 = configCache s).
  { destruct (factory_loadOnDirectory w (path_dirname P p) None);
      by destruct Hload as [_ ->]. }
  destruct r1 as [configArray|e|]; [| |by injection H as _ <-].
  - match type of H with context [if ?b then _ else _] => destruct b end.
    { unfold_M. injection H as <- _. by destruct (Hr configArray). }
    match type of H with context [if ?b then _ else _] => destruct b end; unfold_M;
    match type of H with context [_loadConfigInAncestorsRecursive P fuel w ?q ?t] =>
      destruct (_loadConfigInAncestorsRecursive P fuel w q t) as [[x|e'|] t'] eqn:Hrec
    end;
    try (injection H as <- _; by edestruct Hr);
    injection H as <- <-; rewrite <- Hc1; eapply IH; eauto; discriminate.
  - destruct e as [| | |error]; try by injection H as _ <-.
    destruct (bool_decide (code error = "EACCES")); [|by injection H as _ <-].
    unfold_M. injection H as <- _. by edestruct Hr.
Qed.

(** *** What the caches hold on a used enumerator *)

Lemma layered_entry e s s' k f :
  inv e s -> grows s s' -> finalizeCache s !! k = Some f ->
  (exists personal,
     contents s f = (contents s k ++ personal ++ contents s (cliConfigArray s))%list) ->
  exists personal,
    contents s' f = (contents s' k ++ personal ++ contents s' (cliConfigArray s'))%list.
Proof.
  intros Hinv G Hk [personal Hp]. exists personal.
  destruct (inv_final _ _ Hinv _ _ Hk) as [Hkf Hf].
  pose proof (inv_cli _ _ Hinv) as Hcli.
  rewrite (grows_cli _ _ G), !(contents_grows _ _ _ G); auto. lia.
Qed.

Lemma layered_stable e s s' :
  inv e s -> layered e s -> grows s s' -> finalizeCache s' = finalizeCache s ->
  layered e s'.
Proof.
  intros Hinv HL G Hf k f Hk He. rewrite Hf in Hk.
  eapply layered_entry; eauto.
Qed.

Lemma based_stable e s s' :
  inv e s -> based s -> grows s s' -> configCache s' = configCache s -> based s'.
Proof.
  intros Hinv HB G Hc Hbase d c Hd. rewrite Hc in Hd.
  destruct (inv_cache _ _ Hinv _ _ Hd) as [_ Hlt].
  pose proof (inv_base _ _ Hinv) as [_ Hb].
  rewrite (contents_grows _ _ _ G) by done.
  rewrite (grows_base _ _ G), (contents_grows _ _ _ G) in Hbase by done.
  eapply HB; eauto.
Qed.

Lemma ancestors_based P e w fuel p s r s' :
  inv e s -> based s ->
  _loadConfigInAncestorsRecursive P fuel w p s = (r, s') -> based s'.
Proof.
  intros Hinv HB H.
  destruct (ancestors_inv _ _ _ _ _ _ _ _ Hinv H) as (Hinv' & G & Hf & Hr).
  destruct r as [a|err|].
  - intros Hbase d c Hd.
    pose proof (inv_base _ _ Hinv) as [_ Hb].
    rewrite (grows_base _ _ G), (contents_grows _ _ _ G) in Hbase by done.
    assert (Hinv0 : inv 0 s) by (eapply inv_weaken; [|exact Hinv]; lia).
    destruct (ancestors_nonempty P w fuel p s a s' Hinv0 Hbase (HB Hbase) H) as [_ Hall].
    eauto.
  - apply (based_stable e s s' Hinv HB G). eapply ancestors_failed; eauto.
  - apply (based_stable e s s' Hinv HB G). eapply ancestors_failed; eauto.
Qed.

(** The finalizer writes no entry of the finalize cache but the one of its
    argument. *)
Lemma finalize_frame w a dir s r s' k :
  _finalizeConfigArray w a dir s = (r, s') -> k <> a ->
  finalizeCache s' !! k = finalizeCache s !! k.
Proof.
  intros H Hne. destruct (finalizeCache s !! a) as [fa|] eqn:Ha.
  - rewrite (finalize_hit _ _ _ _ _ Ha) in H. by injection H as _ <-.
  - rewrite (finalize_miss _ _ _ _ Ha) in H.
    assert (exists r1 s1,
      (if wantsPersonalConfig s a
       then loadOnDirectory w (os_homedir w) (Some "PersonalConfig") (Some a) s
       else (Ok a, s)) = (r1, s1) /\ finalizeCache s1 = finalizeCache s)
      as (r1 & s1 & E & F1).
    { destruct (wantsPersonalConfig s a).
      - destruct (loadOnDirectory w (os_homedir w) (Some "PersonalConfig") (Some a) s)
          as [r1 s1] eqn:E.
        exists r1, s1. split; [done|].
        apply loadOnDirectory_cases in E. cbn in E.
        destruct (factory_loadOnDirectory w (os_homedir w) (Some "PersonalConfig"))
          as [[|e0 es]|j]; by destruct E as [_ ->].
      - by exists (Ok a), s. }
    rewrite E in H. destruct r1 as [f1|e|]; [|injection H as _ <-; congruence..].
    destruct (0 <? length (contents s1 (cliConfigArray s1)))%nat;
      cbv beta iota zeta in H;
      match type of H with context [validateConfigArray w ?x] =>
        destruct (validateConfigArray w x) end;
      injection H as _ <-; cbn; try rewrite lookup_insert_ne by done; congruence.
Qed.

Lemma finalize_layered e w a dir s r s' :
  inv e s -> layered e s -> a < next s ->
  _finalizeConfigArray w a dir s = (r, s') -> layered e s'.
Proof.
  intros Hinv HL Ha H.
  destruct (finalize_inv _ _ _ _ _ _ _ Hinv Ha H) as (Hinv' & G & Hc & _).
  intros k f Hk He. destruct (decide (k = a)) as [->|Hne].
  - destruct (finalizeCache s !! a) as [fa|] eqn:Hhit.
    + rewrite (finalize_hit _ _ _ _ _ Hhit) in H. injection H as _ <-. by apply HL.
    + assert (Hinv0 : inv 0 s) by (eapply inv_weaken; [|exact Hinv]; lia).
      destruct (finalize_miss_contents _ _ _ _ _ _ _ Hinv0 Ha Hhit H Hk) as [personal Hp].
      exists personal. pose proof (inv_cli _ _ Hinv) as Hcli.
      rewrite Hp, (grows_cli _ _ G).
      by rewrite (contents_grows _ _ a G), (contents_grows _ _ (cliConfigArray s) G).
  - rewrite (finalize_frame _ _ _ _ _ _ _ H Hne) in Hk.
    apply (layered_entry e s s' k f Hinv G Hk). by apply HL.
Qed.

(** A property of the states that the loaders, the ancestor walk and the
    finalizer keep is kept by every operation but [clearCache]. *)
Section Keeps.

Variables (P : Platform) (e : loc) (K : State -> Prop).

Hypothesis K_inv : forall s, K s -> inv e s.
Hypothesis K_stable : forall s s',
  K s -> inv e s' -> grows s s' ->
  configCache s' = configCache s -> finalizeCache s' = finalizeCache s -> K s'.
Hypothesis K_ancestors : forall w fuel p s r s',
  K s -> _loadConfigInAncestorsRecursive P fuel w p s = (r, s') -> K s'.
Hypothesis K_finalize : forall w a dir s r s',
  K s -> a < next s -> _finalizeConfigArray w a dir s = (r, s') -> K s'.

Lemma loadConfigOnDirectory_keeps w d parent s r s' :
  K s -> parent < next s ->
  _loadConfigOnDirectory w d parent s = (r, s') -> K s'.
Proof.
  intros HK Hp H.
  destruct (loadConfigOnDirectory_inv _ _ _ _ _ _ _ (K_inv _ HK) Hp H)
    as (? & ? & ? & ? & _).
  by apply (K_stable s).
Qed.

Lemma iterateFiles_body_keeps w entry l s r s' :
  K s -> entry_config entry < next s ->
  iterateFiles_body P w entry l s = (r, s') -> K s' /\ next s <= next s'.
Proof.
  intros HK He H. split.
  2:{ destruct (iterateFiles_body_inv _ _ _ _ _ _ _ _ (K_inv _ HK) He H) as [_ G].
      by destruct G. }
  revert H. unfold iterateFiles_body.
  destruct (bool_decide (flag entry = IGNORED_SILENTLY)); [by intros [= _ <-]|].
  destruct (negb (bool_decide (entry_filePath entry ∈ set l))); [|by intros [= _ <-]].
  rewrite bind_unfold.
  destruct (_finalizeConfigArray w (entry_config entry)
              (path_dirname P (entry_filePath entry)) s) as [r1 s1] eqn:Hf.
  pose proof (K_finalize _ _ _ _ _ _ HK He Hf) as HK1.
  destruct r1 as [final| |]; [|by intros [= _ <-]..].
  unfold record, modify, bind, ret. intros [= _ <-].
  apply (K_stable s1); auto.
  - apply inv_events. by apply K_inv.
  - apply grows_logged.
Qed.

Lemma forEach_keeps {X A} (body : X -> A -> M A) (J : State -> Prop) (Q : X -> Prop) :
  (forall x acc s r s', Q x -> J s -> body x acc s = (r, s') -> J s') ->
  forall xs acc s r s',
    Forall Q xs -> J s -> forEach body xs acc s = (r, s') -> J s'.
Proof.
  intros Hbody. induction xs as [|x xs IH]; intros acc s r s' HQ HJ H; cbn in H.
  - by injection H as _ <-.
  - rewrite bind_unfold in H. destruct (body x acc s) as [r1 s1] eqn:E.
    inversion HQ as [|? ? Hx Hxs]; subst.
    pose proof (Hbody _ _ _ _ _ Hx HJ E) as HJ1.
    destruct r1 as [acc1| |]; [eauto|by injection H as _ <-..].
Qed.

Lemma walk_keeps {A} w (yield : FileEntry -> A -> M A) options :
  (forall entry acc s r s',
     K s -> entry_config entry < next s -> yield entry acc s = (r, s') ->
     K s' /\ next s <= next s') ->
  forall fuel d parent acc s r s',
    K s -> parent < next s ->
    _iterateFilesRecursive P yield fuel w d parent options acc s = (r, s') ->
    K s' /\ next s <= next s'.
Proof.
  intros Hyield. induction fuel as [|fuel IH]; intros d parent acc s r s' HK Hp H;
    cbn [_iterateFilesRecursive] in H.
  - injection H as _ <-. auto.
  - rewrite bind_unfold in H.
    destruct (isIgnoredFile_eq w d (dotfiles options) false s) as [b Hb].
    rewrite Hb in H. destruct b; [injection H as _ <-; auto|].
    rewrite bind_unfold in H.
    destruct (_loadConfigOnDirectory w d parent s) as [r1 s1] eqn:Hl.
    pose proof (loadConfigOnDirectory_keeps _ _ _ _ _ _ HK Hp Hl) as HK1.
    destruct (loadConfigOnDirectory_inv _ _ _ _ _ _ _ (K_inv _ HK) Hp Hl)
      as (_ & G1 & _ & _ & Hr1).
    pose proof (grows_next _ _ G1) as Hn1.
    destruct r1 as [config| |]; [|injection H as _ <-; auto..].
    specialize (Hr1 _ eq_refl).
    rewrite bind_unfold in H.
    destruct (readdirSafeSync w d s1) as [r2 s2] eqn:Hrd.
    apply readdirSafeSync_state in Hrd as ->.
    destruct r2 as [filenames| |]; [|injection H as _ <-; auto..].
    apply (forEach_keeps _ (fun t => K t /\ next s1 <= next t) (fun _ => True)) in H.
    + destruct H. split; auto. lia.
    + clear H. intros filename acc' x r' x' _ [HKx Hnx] Hx.
      rewrite bind_unfold in Hx.
      destruct (statSafeSync w (path_join P d filename) x) as [r3 s3] eqn:Hst.
      apply statSafeSync_state in Hst as ->.
      destruct r3 as [stat| |]; [|injection Hx as _ <-; auto..].
      destruct (isFileStat stat).
      * rewrite bind_unfold in Hx.
        destruct (isIgnoredFile_eq w (path_join P d filename) (dotfiles options) false x)
          as [b' Hb'].
        rewrite Hb' in Hx. rewrite bind_unfold in Hx. unfold get at 1 in Hx.
        match type of Hx with (if ?c then _ else _) _ = _ => destruct c end.
        -- apply Hyield in Hx; auto; [|cbn; lia]. destruct Hx. split; auto. lia.
        -- injection Hx as _ <-. auto.
      * destruct (recursive options && isDirectoryStat stat).
        -- apply IH in Hx; auto; [|lia]. destruct Hx. split; auto. lia.
        -- injection Hx as _ <-. auto.
    + by apply Forall_true.
    + auto.
Qed.

Lemma iterateFiles_pattern_keeps fuel w g pattern set0 s r s' :
  K s -> iterateFiles_pattern P fuel w g pattern set0 s = (r, s') -> K s'.
Proof.
  intros HK. unfold iterateFiles_pattern.
  destruct (bool_decide (pattern = EmptyString)); [by intros [= _ <-]|].
  rewrite bind_unfold.
  destruct (_iterateFiles P fuel w pattern s) as [r1 s1] eqn:Hi.
  destruct (iterateFiles_iter_inv _ _ _ _ _ _ _ _ (K_inv _ HK) Hi) as (Hinv1 & G1 & Hr1).
  assert (HK1 : K s1).
  { clear Hr1. revert Hi. unfold _iterateFiles. rewrite bind_unfold. unfold get at 1.
    cbv beta iota.
    assert (Hanc : forall A p (k : loc -> M A) r0 s0,
      (forall a t, exists x, k a t = (x, t)) ->
      (let* config := _loadConfigInAncestors P fuel w p in k config) s = (r0, s0) ->
      K s0).
    { intros A p k r0 s0 Hk. rewrite bind_unfold.
      destruct (_loadConfigInAncestors P fuel w p s) as [r2 s2] eqn:Ha.
      apply (K_ancestors _ _ _ _ _ _ HK) in Ha.
      destruct r2 as [c| |]; [|by intros [= _ <-]..].
      destruct (Hk c s2) as [x ->]. by intros [= _ <-]. }
    destruct (globInputPaths s && isGlobPattern P pattern).
    { unfold _iterateFilesWithGlob. apply Hanc. intros; eexists; reflexivity. }
    rewrite bind_unfold.
    destruct (statSafeSync w (path_resolve P (cwd s) pattern) s) as [r0 s0] eqn:Hst.
    apply statSafeSync_state in Hst as ->.
    destruct r0 as [stat| |]; [|by intros [= _ <-]..].
    destruct (isDirectoryStat stat).
    { unfold _iterateFilesWithDirectory. apply Hanc. intros; eexists; reflexivity. }
    destruct (isFileStat stat); [|by intros [= _ <-]].
    unfold _iterateFilesWithFile. apply Hanc. intros a t.
    rewrite bind_unfold.
    destruct (isIgnoredFile_eq w (path_resolve P (cwd s) pattern) false true t) as [b ->].
    eexists; reflexivity. }
  destruct r1 as [iter| |]; [|by intros [= _ <-]..].
  specialize (Hr1 _ eq_refl). rewrite bind_unfold.
  match goal with |- context [forOf P fuel w iter ?b ?a s1] =>
    destruct (forOf P fuel w iter b a s1) as [r2 s2] eqn:Hfor end.
  assert (HK2 : K s2).
  { destruct iter as [entries|d parent options]; cbn [forOf] in Hfor.
    - apply (forEach_keeps _ (fun t => K t /\ next s1 <= next t)
               (fun entry => entry_config entry < next s1)) in Hfor.
      + tauto.
      + intros entry acc t r' t' He [HKt Hnt] Hb.
        apply iterateFiles_body_keeps in Hb; auto; [|lia].
        destruct Hb. split; auto. lia.
      + exact Hr1.
      + auto.
    - apply (walk_keeps w _ options (iterateFiles_body_keeps w)) in Hfor; tauto. }
  destruct r2 as [l| |]; [|by intros [= _ <-]..].
  destruct (negb (foundRegardlessOfIgnored l)); [by intros [= _ <-]|].
  destruct (negb (found l)); by intros [= _ <-].
Qed.

Lemma iterateFiles_keeps fuel w patterns s r s' :
  K s -> iterateFiles P fuel w patterns s = (r, s') -> K s'.
Proof.
  intros HK. unfold iterateFiles. rewrite bind_unfold. unfold get at 1. cbv beta iota.
  rewrite bind_unfold.
  match goal with |- context [forEach ?b ?xs ?a s] =>
    destruct (forEach b xs a s) as [r1 s1] eqn:Hfor end.
  apply (forEach_keeps _ K (fun _ => True)) in Hfor; auto.
  - destruct r1; by intros [= _ <-].
  - intros x acc t r' t' _ Ht Hx. by eapply iterateFiles_pattern_keeps.
  - by apply Forall_true.
Qed.

Lemma getConfigArrayForFile_keeps fuel w p s r s' :
  K s -> getConfigArrayForFile P fuel w p s = (r, s') -> K s'.
Proof.
  intros HK. unfold getConfigArrayForFile, _loadConfigInAncestors.
  rewrite bind_unfold. unfold get at 1. cbv beta iota. rewrite bind_unfold.
  destruct (_loadConfigInAncestorsRecursive P fuel w
              (path_resolve P (cwd s) (default "a.js" p)) s) as [r1 s1] eqn:Ha.
  pose proof (K_ancestors _ _ _ _ _ _ HK Ha) as HK1.
  destruct (ancestors_inv _ _ _ _ _ _ _ _ (K_inv _ HK) Ha) as (_ & _ & _ & Hr1).
  destruct r1 as [raw| |]; [|by intros [= _ <-]..].
  destruct (Hr1 _ eq_refl) as [Hraw _].
  intros Hfin. eapply K_finalize; eauto. lia.
Qed.

Lemma run_keeps fuel w op s r s' :
  isClearCache op = false -> K s -> run P fuel w op s = (r, s') -> K s'.
Proof.
  intros Hop HK Hrun. destruct op as [p|patterns|]; cbn [run] in Hrun; [| |done].
  - rewrite bind_unfold in Hrun.
    destruct (getConfigArrayForFile P fuel w p s) as [r1 s1] eqn:Hg.
    apply (getConfigArrayForFile_keeps _ _ _ _ _ _ HK) in Hg.
    destruct r1; unfold ret in Hrun; by injection Hrun as _ <-.
  - exact (iterateFiles_keeps _ _ _ _ _ _ HK Hrun).
Qed.

End Keeps.

Lemma run_kept P e fuel w op s r s' :
  isClearCache op = false -> kept e s -> run P fuel w op s = (r, s') -> kept e s'.
Proof.
  apply (run_keeps P e (kept e)).
  - by intros t [].
  - intros t t' [Hinv HL] Hinv' G _ Hf. split; [done|].
    exact (layered_stable e t t' Hinv HL G Hf).
  - intros w0 fuel0 p t r0 t' [Hinv HL] H.
    destruct (ancestors_inv _ _ _ _ _ _ _ _ Hinv H) as (Hinv' & G & Hf & _).
    split; [done|]. exact (layered_stable e t t' Hinv HL G Hf).
  - intros w0 a dir t r0 t' [Hinv HL] Ha H. split.
    + by destruct (finalize_inv _ _ _ _ _ _ _ Hinv Ha H).
    + exact (finalize_layered e w0 a dir t r0 t' Hinv HL Ha H).
Qed.

Lemma run_settled P e fuel w op s r s' :
  isClearCache op = false -> settled e s -> run P fuel w op s = (r, s') -> settled e s'.
Proof.
  apply (run_keeps P e (settled e)).
  - by intros t [[] _].
  - intros t t' [[Hinv HL] HB] Hinv' G Hc Hf. split; [split; [done|]|].
    + exact (layered_stable e t t' Hinv HL G Hf).
    + exact (based_stable e t t' Hinv HB G Hc).
  - intros w0 fuel0 p t r0 t' [[Hinv HL] HB] H.
    destruct (ancestors_inv _ _ _ _ _ _ _ _ Hinv H) as (Hinv' & G & Hf & _).
    split; [split; [done|]|].
    + exact (layered_stable e t t' Hinv HL G Hf).
    + exact (ancestors_based P e w0 fuel0 p t r0 t' Hinv HB H).
  - intros w0 a dir t r0 t' [[Hinv HL] HB] Ha H.
    destruct (finalize_inv _ _ _ _ _ _ _ Hinv Ha H) as (Hinv' & G & Hc & _).
    split; [split; [done|]|].
    + exact (finalize_layered e w0 a dir t r0 t' Hinv HL Ha H).
    + exact (based_stable e t t' Hinv HB G Hc).
Qed.

Lemma steps_settled P e s s' : steps P false s s' -> settled e s -> settled e s'.
Proof.
  induction 1 as [|s s' s'' _ IH [fuel w op r Hop Hrun _]]; auto.
  intros HK. apply (run_settled P e fuel w op s' r s''); auto.
  destruct (isClearCache op); auto. by specialize (Hop eq_refl).
Qed.

Lemma constructor_settled P w o s : new_FileEnumerator P w o = (Ok tt, s) -> settled 0 s.
Proof.
  intros Hnew. destruct (constructor_inv _ _ _ _ Hnew) as (Hinv & Hc & Hf & _).
  split; [split; [done|]|].
  - intros k f. by rewrite Hf, lookup_empty.
  - intros _ d c. by rewrite Hc, lookup_empty.
Qed.

Lemma clearCache_settled w t s :
  inv 0 t -> clearCache w t = (Ok tt, s) -> settled (next t) s.
Proof.
  intros Hinv Hclear.
  destruct (clearCache_inv _ _ _ _ _ Hinv Hclear) as (_ & Hf & _ & _ & Hok).
  destruct (Hok eq_refl) as (Hinv' & Hc & _).
  split; [split; [done|]|].
  - intros k f. rewrite Hf. intros Hk He.
    destruct (inv_final _ _ Hinv _ _ Hk). lia.
  - intros _ d c. by rewrite Hc, lookup_empty.
Qed.

(** A [clearCache()] that throws leaves the CLI array in its slot. *)
Lemma clearCache_thrown_cli w t r s :
  clearCache w t = (r, s) -> r <> Ok tt -> cliConfigArray s = cliConfigArray t.
Proof.
  unfold clearCache. rewrite bind_unfold.
  destruct (createBaseConfigArray w t) as [r1 s1] eqn:Hb.
  destruct (createBaseConfigArray_spec _ _ _ _ Hb) as (F1 & _).
  destruct r1 as [base| |]; [|intros [= _ <-] _; by destruct F1..].
  rewrite bind_unfold. unfold modify at 1. rewrite bind_unfold.
  destruct (createCLIConfigArray w (set_baseConfigArray base s1)) as [r2 s2] eqn:Hc.
  destruct (createCLIConfigArray_spec _ _ _ _ Hc) as (F2 & _).
  destruct r2 as [cli| |].
  - unfold_M. by intros [= <- _] [].
  - intros [= _ <-] _. destruct F1, F2. cbn in *. congruence.
  - intros [= _ <-] _. destruct F1, F2. cbn in *. congruence.
Qed.

Lemma clearCache_kept e w t r s :
  kept e t -> clearCache w t = (r, s) -> exists e', kept e' s.
Proof.
  intros [Hinv HL] Hclear.
  assert (r = Ok tt \/ r <> Ok tt) as [->|Hr]
    by (destruct r as [[]| |]; auto; right; discriminate).
  - exists (next t). apply (clearCache_settled w).
    + eapply inv_weaken; [|exact Hinv]. lia.
    + done.
  - exists e. destruct (clearCache_inv _ _ _ _ _ Hinv Hclear) as (Hinv' & Hf & _ & Hheap & _).
    split; [done|]. intros k f. rewrite Hf. intros Hk He.
    destruct (HL _ _ Hk He) as [personal Hp]. exists personal.
    destruct (inv_final _ _ Hinv _ _ Hk). pose proof (inv_cli _ _ Hinv).
    rewrite (clearCache_thrown_cli _ _ _ _ Hclear Hr).
    unfold contents in *. rewrite !Hheap by lia. exact Hp.
Qed.

Lemma reachable_kept P s : reachable P s -> exists e, kept e s.
Proof.
  intros [w o s0 Hnew Hsteps].
  induction Hsteps as [|s0 s s' _ IH [fuel w' op r _ Hrun _]].
  - exists 0. by destruct (constructor_settled _ _ _ _ Hnew).
  - destruct (IH Hnew) as [e HK]. destruct op as [p|patterns|].
    + exists e. by apply (run_kept P e fuel w' (GetConfigArrayForFile p) s r s').
    + exists e. by apply (run_kept P e fuel w' (IterateFiles patterns) s r s').
    + by apply (clearCache_kept e w' s r s').
Qed.

(** *** [getConfigArrayForFile] and the error *)

Lemma getConfigArrayForFile_found P e fuel w p s r s' :
  kept e s ->
  useEslintrc s = false \/
  (based s /\ contents s (baseConfigArray s) <> []) \/
  contents s (cliConfigArray s) <> [] ->
  getConfigArrayForFile P fuel w p s = (r, s') ->
  forall d, r <> Throw (ConfigurationNotFoundError d).
Proof.
  intros [Hinv HL] Hesc Hget d ->.
  unfold getConfigArrayForFile, _loadConfigInAncestors in Hget.
  rewrite bind_unfold in Hget. unfold get at 1 in Hget. cbv beta iota in Hget.
  rewrite bind_unfold in Hget.
  destruct (_loadConfigInAncestorsRecursive P fuel w
              (path_resolve P (cwd s) (default "a.js" p)) s) as [r1 s1] eqn:Ha.
  destruct (ancestors_inv _ _ _ _ _ _ _ _ Hinv Ha) as (Hinv1 & G1 & Hf1 & Hr1).
  pose proof (layered_stable e s s1 Hinv HL G1 Hf1) as HL1.
  destruct r1 as [raw|err|]; [| |discriminate].
  2:{ injection Hget as -> <-.
      by destruct (ancestors_throw _ _ _ _ _ _ _ Ha) as (? & ? & _ & _ & [=]). }
  destruct (Hr1 _ eq_refl) as [Hraw Hcase].
  destruct (useEslintrc s) eqn:Huse.
  2:{ apply finalize_throws in Hget as (_ & Hu1 & _).
      rewrite (grows_useEslintrc _ _ G1) in Hu1. congruence. }
  destruct Hesc as [?|Hesc]; [discriminate|].
  pose proof (inv_base _ _ Hinv) as [_ Hb]. pose proof (inv_cli _ _ Hinv) as Hcli.
  assert (Hne : contents s1 raw <> [] \/ contents s1 (cliConfigArray s1) <> []).
  { destruct Hesc as [[HB Hbase]|Hc].
    - left. apply (ancestors_based P e w fuel _ s _ s1 Hinv HB Ha) with
        (d := path_dirname P (path_resolve P (cwd s) (default "a.js" p))); [|done].
      by rewrite (grows_base _ _ G1), (contents_grows _ _ _ G1).
    - right. by rewrite (grows_cli _ _ G1), (contents_grows _ _ _ G1). }
  destruct (finalizeCache s1 !! raw) as [f|] eqn:Hhit.
  - destruct (HL1 _ _ Hhit) as [personal Hp]; [lia|].
    rewrite (finalize_hit _ _ _ _ _ Hhit) in Hget.
    destruct (useEslintrc s1); [|discriminate]. cbn in Hget.
    case_bool_decide as Hlen; [|discriminate].
    apply nil_length_inv in Hlen. rewrite Hlen in Hp. symmetry in Hp.
    apply app_eq_nil in Hp as [Hp1 Hp2]. apply app_eq_nil in Hp2 as [_ Hp2]. tauto.
  - assert (Hinv0 : inv 0 s1) by (eapply inv_weaken; [|exact Hinv1]; lia).
    assert (Hlt : raw < next s1) by lia.
    by apply (finalize_nonempty w raw _ s1 _ _ Hinv0 Hlt Hhit Hne Hget d).
Qed.

Lemma getConfigArrayForFile_not_found P fuel w p s r s' :
  inv 0 s ->
  getConfigArrayForFile P fuel w p s = (r, s') -> finished r ->
  let dir := path_dirname P (path_resolve P (cwd s) (default "a.js" p)) in
  (r = Throw (ConfigurationNotFoundError dir) <->
   useEslintrc s = true /\
   exists raw f,
     configCache s' !! dir = Some raw /\ finalizeCache s' !! raw = Some f /\
     contents s' f = []) /\
  (forall d, r = Throw (ConfigurationNotFoundError d) -> d = dir).
Proof.
  intros Hinv Hget Hfin dir. subst dir.
  unfold getConfigArrayForFile, _loadConfigInAncestors in Hget.
  rewrite bind_unfold in Hget. unfold get at 1 in Hget. cbv beta iota in Hget.
  rewrite bind_unfold in Hget.
  set (abs := path_resolve P (cwd s) (default "a.js" p)) in *.
  destruct (_loadConfigInAncestorsRecursive P fuel w abs s) as [r1 s1] eqn:Ha.
  destruct (ancestors_inv _ _ _ _ _ _ _ _ Hinv Ha) as (Hinv1 & G1 & Hf1 & Hr1).
  destruct r1 as [raw|err|].
  - destruct (Hr1 _ eq_refl) as [Hraw Hcase].
    assert (Hlt : raw < next s1) by lia.
    destruct (finalize_inv _ _ _ _ _ _ _ Hinv1 Hlt Hget) as (_ & _ & Hc2 & _).
    split.
    + split.
      * intros ->. destruct (finalize_throws _ _ _ _ _ _ Hget) as (_ & Hu & f & Hf & Hnil).
        rewrite (grows_useEslintrc _ _ G1) in Hu. rewrite Hu in Hcase.
        split; [done|]. exists raw, f. by rewrite Hc2.
      * intros (Hu & raw' & f & Hd & Hf & Hnil). rewrite Hu in Hcase.
        rewrite Hc2, Hcase in Hd. injection Hd as <-.
        eapply finalize_stored_empty; eauto. by rewrite (grows_useEslintrc _ _ G1).
    + intros d ->. by destruct (finalize_throws _ _ _ _ _ _ Hget).
  - injection Hget as <- <-.
    destruct (ancestors_throw _ _ _ _ _ _ _ Ha) as (n & j & _ & _ & ->).
    split; [|discriminate]. split; [discriminate|].
    intros (Hu & raw & f & Hd & _). exfalso.
    rewrite (ancestors_failed _ _ _ _ _ _ _ Ha) in Hd by discriminate.
    destruct fuel as [|fuel]; [discriminate|].
    cbn [_loadConfigInAncestorsRecursive] in Ha. rewrite Hu in Ha. cbn [negb] in Ha.
    fold abs in Hd. rewrite Hd in Ha. discriminate.
  - injection Hget as <- <-. by destruct Hfin.
Qed.

Lemma getConfigArrayForFile_not_found_again P fuel w p s s' :
  inv 0 s ->
  let dir := path_dirname P (path_resolve P (cwd s) (default "a.js" p)) in
  getConfigArrayForFile P fuel w p s = (Throw (ConfigurationNotFoundError dir), s') ->
  forall fuel' w' p',
    fuel' <> 0 ->
    path_dirname P (path_resolve P (cwd s') (default "a.js" p')) = dir ->
    getConfigArrayForFile P fuel' w' p' s' = (Throw (ConfigurationNotFoundError dir), s').
Proof.
  intros Hinv dir Hget fuel' w' p' Hfuel Hdir.
  destruct (getConfigArrayForFile_inv _ _ _ _ _ _ _ _ Hinv Hget) as (_ & G & _).
  destruct (getConfigArrayForFile_not_found _ _ _ _ _ _ _ Hinv Hget) as [[Hthrow _] _];
    [discriminate|].
  destruct (Hthrow eq_refl) as (Hu & raw & f & Hd & Hf & Hnil). fold dir in Hd.
  unfold getConfigArrayForFile, _loadConfigInAncestors.
  rewrite bind_unfold. unfold get at 1. cbv beta iota. rewrite bind_unfold.
  destruct fuel' as [|fuel']; [done|]. cbn [_loadConfigInAncestorsRecursive].
  rewrite (grows_useEslintrc _ _ G), Hu. cbn [negb]. rewrite Hdir, Hd.
  rewrite (finalize_hit _ _ _ _ _ Hf), (grows_useEslintrc _ _ G), Hu, Hnil.
  reflexivity.
Qed.

(** Without any config file and with an empty base array, the walk returns
    an empty array. *)
Lemma ancestors_empty P w fuel : forall p s a s',
  inv 0 s ->
  (forall d nm, factory_loadOnDirectory w d nm = Returned []) ->
  contents s (baseConfigArray s) = [] ->
  (forall d c, configCache s !! d = Some c -> contents s c = []) ->
  _loadConfigInAncestorsRecursive P fuel w p s = (Ok a, s') ->
  contents s' a = [] /\ contents s' (baseConfigArray s') = [] /\
  (forall d c, configCache s' !! d = Some c -> contents s' c = []).
Proof.
  intros p s a s' Hinv Hnone. revert p s a s' Hinv.
  induction fuel as [|fuel IH]; intros p s a s' Hinv Hbase Hcache H;
    cbn [_loadConfigInAncestorsRecursive] in H; [discriminate|].
  destruct (useEslintrc s) eqn:Huse; cbn [negb] in H.
  2:{ by injection H as <- <-. }
  destruct (configCache s !! path_dirname P p) as [c|] eqn:Hc.
  { injection H as <- <-. eauto. }
  assert (Hset : forall t x,
    contents t x = [] ->
    (forall d c, configCache t !! d = Some c -> contents t c = []) ->
    forall d c, configCache (set_configCache (<[path_dirname P p := x]> (configCache t)) t)
                  !! d = Some c ->
                contents (set_configCache (<[path_dirname P p := x]> (configCache t)) t) c
                = []).
  { intros t x Hx Ht d c. cbn. destruct (decide (path_dirname P p = d)) as [->|Hne].
    - rewrite lookup_insert_eq. by intros [= <-].
    - rewrite lookup_insert_ne by done. apply Ht. }
  destruct (consideredRoot w s p (path_dirname P p)).
  { unfold_M. injection H as <- <-. split_and!; [exact Hbase|exact Hbase|by apply Hset]. }
  destruct (loadOnDirectory w (path_dirname P p) None None s) as [r1 s1] eqn:Hload.
  assert (Hnone' : forall p0 : loc, (None : option loc) = Some p0 -> p0 < next s)
    by (intros ? [=]).
  destruct (loadOnDirectory_inv 0 _ _ _ _ _ _ _ Hinv Hnone' Hload)
    as (Hinv1 & G1 & Hc1 & Hf1 & _).
  apply loadOnDirectory_cases in Hload. cbn in Hload. rewrite Hnone in Hload.
  destruct Hload as [-> Hs1].
  assert (Hown : contents s1 (next s) = []).
  { rewrite Hs1. apply (contents_allocated_new (logged _ s)). }
  rewrite Hown in H. cbn [length Nat.ltb Nat.leb andb] in H.
  assert (Hbase1 : contents s1 (baseConfigArray s1) = []).
  { rewrite (grows_base _ _ G1). rewrite (contents_grows _ _ _ G1); auto.
    destruct Hinv; lia. }
  assert (Hcache1 : forall d c, configCache s1 !! d = Some c -> contents s1 c = []).
  { intros d c. rewrite Hc1. intros Hd. rewrite (contents_grows _ _ _ G1); eauto.
    destruct (inv_cache _ _ Hinv _ _ Hd). lia. }
  unfold_M.
  destruct (_loadConfigInAncestorsRecursive P fuel w (path_dirname P p) s1)
    as [r2 s2] eqn:Hrec.
  destruct r2 as [parent| |]; try discriminate.
  destruct (IH _ _ _ _ Hinv1 Hbase1 Hcache1 Hrec) as (Hparent & Hbase2 & Hcache2).
  injection H as <- <-. split_and!; [exact Hparent|exact Hbase2|by apply Hset].
Qed.

Lemma getConfigArrayForFile_without_config P w0 o s fuel w p r s' :
  new_FileEnumerator P w0 o = (Ok tt, s) ->
  opt_useEslintrc o = true ->
  contents s (baseConfigArray s) = [] ->
  contents s (cliConfigArray s) = [] ->
  (forall d nm, factory_loadOnDirectory w d nm = Returned []) ->
  validateConfigArray w [] = None ->
  getConfigArrayForFile P fuel w p s = (r, s') -> finished r ->
  r = Throw (ConfigurationNotFoundError
               (path_dirname P (path_resolve P (cwd s) (default "a.js" p)))).
Proof.
  intros Hnew Hopt Hbase Hcli Hnone Hvalid Hget Hfin.
  destruct (constructor_inv _ _ _ _ Hnew) as (Hinv & Hcache & Hfinal & Hu & _).
  rewrite Hopt in Hu.
  unfold getConfigArrayForFile, _loadConfigInAncestors in Hget.
  rewrite bind_unfold in Hget. unfold get at 1 in Hget. cbv beta iota in Hget.
  rewrite bind_unfold in Hget.
  destruct (_loadConfigInAncestorsRecursive P fuel w
              (path_resolve P (cwd s) (default "a.js" p)) s) as [r1 s1] eqn:Ha.
  destruct (ancestors_inv _ _ _ _ _ _ _ _ Hinv Ha) as (Hinv1 & G1 & Hf1 & Hr1).
  destruct r1 as [raw|err|].
  - assert (Hempty : forall d c, configCache s !! d = Some c -> contents s c = []).
    { intros d c. by rewrite Hcache, lookup_empty. }
    destruct (ancestors_empty P w fuel _ s raw s1 Hinv Hnone Hbase Hempty Ha)
      as (Hraw & _ & _).
    assert (Hmiss : finalizeCache s1 !! raw = None)
      by (rewrite Hf1, Hfinal; apply lookup_empty).
    assert (Hcli1 : contents s1 (cliConfigArray s1) = []).
    { rewrite (grows_cli _ _ G1), (contents_grows _ _ _ G1); auto. by destruct Hinv. }
    assert (Hu1 : useEslintrc s1 = true) by by rewrite (grows_useEslintrc _ _ G1).
    rewrite (finalize_miss _ _ _ _ Hmiss) in Hget.
    unfold wantsPersonalConfig in Hget. rewrite Hu1, Hraw, Hcli1 in Hget.
    cbn [noFilePath forallb andb] in Hget.
    destruct (loadOnDirectory w (os_homedir w) (Some "PersonalConfig") (Some raw) s1)
      as [r2 s2] eqn:Hload.
    apply loadOnDirectory_cases in Hload. cbn in Hload. rewrite Hnone in Hload.
    destruct Hload as [-> ->].
    change (cliConfigArray (logged _ s1)) with (cliConfigArray s1) in Hget.
    change (contents (logged ?c s1)) with (contents s1) in Hget.
    rewrite Hcli1 in Hget. cbn [length Nat.ltb Nat.leb] in Hget. cbv beta iota zeta in Hget.
    assert (Hraw1 : forall c, contents (logged c s1) raw = []) by (intros c; exact Hraw).
    assert (Hraw2 : forall c fc,
              contents (set_finalizeCache fc (logged c s1)) raw = [])
      by (intros c fc; exact Hraw).
    rewrite Hraw1, Hvalid, Hraw2 in Hget. cbn in Hget. rewrite Hu1 in Hget.
    by injection Hget as <- _.
  - injection Hget as <- _.
    destruct (ancestors_throw _ _ _ _ _ _ _ Ha) as (n & j & Hj & _).
    by rewrite Hnone in Hj.
  - injection Hget as <- _. by destruct Hfin.
Qed.

(** C7.  [getConfigArrayForFile], called on an enumerator in any state it
    can be in and run to its end, throws [ConfigurationNotFoundError(dir)],
    with [dir] the directory of the resolved path, exactly when [useEslintrc]
    is true and the finalized array is empty: the array that the finalize
    cache holds, when the call ends, for the array cached for [dir].  It
    throws that error for no other directory.  The array is stored before
    the check, and the check is made on a cache hit too: the call made again
    for that directory, in any world, throws the same error and changes
    nothing.  A new enumerator with [useEslintrc] true, an empty base array
    and an empty CLI array throws the error for every path, when no
    directory has a config file.  On an enumerator used since its arrays
    were built (by the constructor, or by a [clearCache()] that returned),
    each of [useEslintrc] false, a non-empty base array and a non-empty CLI
    array excludes the error; [useEslintrc] false and a non-empty CLI array
    exclude it in every state, also after a [clearCache()] that threw.  Of
    the finalizer itself the same holds: it throws exactly when [useEslintrc]
    is true and the array it has stored is empty. *)
Theorem configuration_not_found_iff P :
  (forall fuel w p s r s',
     reachable P s ->
     getConfigArrayForFile P fuel w p s = (r, s') -> finished r ->
     let dir := path_dirname P (path_resolve P (cwd s) (default "a.js" p)) in
     (r = Throw (ConfigurationNotFoundError dir) <->
      useEslintrc s = true /\
      exists raw f,
        configCache s' !! dir = Some raw /\ finalizeCache s' !! raw = Some f /\
        contents s' f = []) /\
     (forall d, r = Throw (ConfigurationNotFoundError d) -> d = dir) /\
     (r = Throw (ConfigurationNotFoundError dir) ->
      forall fuel' w' p',
        fuel' <> 0 ->
        path_dirname P (path_resolve P (cwd s') (default "a.js" p')) = dir ->
        getConfigArrayForFile P fuel' w' p' s'
        = (Throw (ConfigurationNotFoundError dir), s'))) /\
  (forall w0 o s fuel w p r s',
     new_FileEnumerator P w0 o = (Ok tt, s) ->
     opt_useEslintrc o = true ->
     contents s (baseConfigArray s) = [] ->
     contents s (cliConfigArray s) = [] ->
     (forall d nm, factory_loadOnDirectory w d nm = Returned []) ->
     validateConfigArray w [] = None ->
     getConfigArrayForFile P fuel w p s = (r, s') -> finished r ->
     r = Throw (ConfigurationNotFoundError
                  (path_dirname P (path_resolve P (cwd s) (default "a.js" p))))) /\
  (forall w0 o t s0 s fuel w p r s',
     new_FileEnumerator P w0 o = (Ok tt, s0) \/
     (reachable P t /\ clearCache w0 t = (Ok tt, s0)) ->
     steps P false s0 s ->
     useEslintrc s = false \/
     contents s (baseConfigArray s) <> [] \/
     contents s (cliConfigArray s) <> [] ->
     getConfigArrayForFile P fuel w p s = (r, s') ->
     forall d, r <> Throw (ConfigurationNotFoundError d)) /\
  (forall s fuel w p r s',
     reachable P s ->
     useEslintrc s = false \/ contents s (cliConfigArray s) <> [] ->
     getConfigArrayForFile P fuel w p s = (r, s') ->
     forall d, r <> Throw (ConfigurationNotFoundError d)) /\
  (forall w a dir s r s',
     _finalizeConfigArray w a dir s = (r, s') ->
     (r = Throw (ConfigurationNotFoundError dir) <->
      useEslintrc s = true /\
      exists f, finalizeCache s' !! a = Some f /\ contents s' f = []) /\
     (forall d, r = Throw (ConfigurationNotFoundError d) -> d = dir)) /\
  (forall w a dir s f,
     finalizeCache s !! a = Some f -> useEslintrc s = true -> contents s f = [] ->
     _finalizeConfigArray w a dir s = (Throw (ConfigurationNotFoundError dir), s)) /\
  (forall w0 o s fuel w p r s',
     new_FileEnumerator P w0 o = (Ok tt, s) ->
     opt_useEslintrc o = false \/
     contents s (baseConfigArray s) <> [] \/
     contents s (cliConfigArray s) <> [] ->
     getConfigArrayForFile P fuel w p s = (r, s') ->
     forall d, r <> Throw (ConfigurationNotFoundError d)).
Proof.
  split_and!.
  - intros fuel w p s r s' Hreach Hget Hfin dir. apply reachable_inv in Hreach.
    destruct (getConfigArrayForFile_not_found _ _ _ _ _ _ _ Hreach Hget Hfin)
      as [Hiff Hdir].
    split_and!; auto.
    intros ->. exact (getConfigArrayForFile_not_found_again P fuel w p s s' Hreach Hget).
  - apply getConfigArrayForFile_without_config.
  - intros w0 o t s0 s fuel w p r s' Hbuilt Hsteps Hesc Hget.
    assert (exists e, settled e s0) as [e HK].
    { destruct Hbuilt as [Hnew|[Hreach Hclear]].
      - exists 0. by eapply constructor_settled.
      - exists (next t). apply reachable_inv in Hreach. by eapply clearCache_settled. }
    destruct (steps_settled P e s0 s Hsteps HK) as [HK' HB].
    apply (getConfigArrayForFile_found P e fuel w p s r s'); auto. tauto.
  - intros s fuel w p r s' Hreach Hesc Hget.
    destruct (reachable_kept P s Hreach) as [e HK].
    apply (getConfigArrayForFile_found P e fuel w p s r s'); auto. tauto.
  - apply (finalize_configuration_not_found P).
  - apply (finalize_configuration_not_found P).
  - apply (finalize_configuration_not_found P).
Qed.

(** ** C2: the errors of a pattern *)

Ltac related_done := by (split; cbn; auto).

Lemma related_bind {A B A' B'} (R : A -> B -> Prop) (R' : A' -> B' -> Prop)
    (m1 : M A) (m2 : M B) (k1 : A -> M A') (k2 : B -> M B') s :
  related R (m1 s) (m2 s) ->
  (forall a b t, R a b -> related R' (k1 a t) (k2 b t)) ->
  related R' (bind m1 k1 s) (bind m2 k2 s).
Proof.
  unfold related, bind.
  destruct (m1 s) as [[a|e1|] s1], (m2 s) as [[b|e2|] s2]; cbn;
    intros [-> H] Hk; try done.
  by apply Hk.
Qed.

Lemma related_same {A B} (R : A -> B -> Prop) (m : M A) (m' : M B) s :
  (forall a b, R a b) -> related (fun _ _ => True) (m s) (m' s) -> related R (m s) (m' s).
Proof.
  unfold related. destruct (m s) as [[a|e1|] s1], (m' s) as [[b|e2|] s2]; cbn; intuition.
Qed.

Lemma forEach_related {X A B} (R : A -> B -> Prop)
    (y1 : X -> A -> M A) (y2 : X -> B -> M B) :
  (forall x a b s, R a b -> related R (y1 x a s) (y2 x b s)) ->
  forall xs a b s, R a b -> related R (forEach y1 xs a s) (forEach y2 xs b s).
Proof.
  intros Hy. induction xs as [|x xs IH]; intros a b s HR; cbn.
  - related_done.
  - apply (related_bind R R); auto.
Qed.

Lemma related_refl {A} (m : M A) s : related eq (m s) (m s).
Proof. unfold related. by destruct (m s) as [[a|e|] s']. Qed.

Lemma walk_related {A B} P w (R : A -> B -> Prop)
    (y1 : FileEntry -> A -> M A) (y2 : FileEntry -> B -> M B) options :
  (forall x a b s, R a b -> related R (y1 x a s) (y2 x b s)) ->
  forall fuel d parent a b s, R a b ->
    related R (_iterateFilesRecursive P y1 fuel w d parent options a s)
              (_iterateFilesRecursive P y2 fuel w d parent options b s).
Proof.
  intros Hy. induction fuel as [|fuel IH]; intros d parent a b s HR;
    cbn [_iterateFilesRecursive].
  - related_done.
  - apply (related_bind eq R); [apply related_refl|]. intros ig ? t <-.
    destruct ig; [related_done|].
    apply (related_bind eq R); [apply related_refl|]. intros config ? t1 <-.
    apply (related_bind eq R); [apply related_refl|]. intros filenames ? t2 <-.
    apply forEach_related; auto. intros filename a' b' t' HR'.
    apply (related_bind eq R); [apply related_refl|]. intros stat ? t3 <-.
    destruct (isFileStat stat).
    + apply (related_bind eq R); [apply related_refl|]. intros ig' ? t4 <-.
      apply (related_bind eq R); [apply related_refl|]. intros s' ? t5 <-.
      match goal with |- context [if ?c then _ else _] => destruct c end.
      * by apply Hy.
      * related_done.
    + destruct (recursive options && isDirectoryStat stat).
      * by apply IH.
      * related_done.
Qed.

Lemma forOf_related {A B} P fuel w iter (R : A -> B -> Prop)
    (y1 : FileEntry -> A -> M A) (y2 : FileEntry -> B -> M B) :
  (forall x a b s, R a b -> related R (y1 x a s) (y2 x b s)) ->
  forall a b s, R a b ->
    related R (forOf P fuel w iter y1 a s) (forOf P fuel w iter y2 b s).
Proof.
  intros Hy a b s HR. destruct iter; cbn.
  - by apply forEach_related.
  - by apply walk_related.
Qed.

Lemma iterateFiles_body_flags P w entry l received s :
  flagsOf l received ->
  related flagsOf (iterateFiles_body P w entry l s)
                  (traced (iterateFiles_body P w) entry received s).
Proof.
  destruct received as [l' tr]. intros (-> & HfR & Hf). cbn [fst snd] in *.
  assert (Hne : bool_decide ((tr ++ [entry])%list = []) = false).
  { apply bool_decide_eq_false. by destruct tr. }
  assert (Hall : forallb silentlyIgnored (tr ++ [entry]) =
                 forallb silentlyIgnored tr
                 && bool_decide (flag entry = IGNORED_SILENTLY)).
  { rewrite forallb_app. cbn. unfold silentlyIgnored at 2. by rewrite andb_true_r. }
  unfold traced, iterateFiles_body. cbn [fst snd].
  destruct (bool_decide (flag entry = IGNORED_SILENTLY)) eqn:Hflag.
  - unfold_M. split; [done|]. cbn [fst snd]. unfold flagsOf. cbn [fst snd].
    split_and!; auto.
    + by rewrite Hne.
    + cbn [found]. by rewrite Hall, andb_true_r.
  - destruct (negb (bool_decide (entry_filePath entry ∈ set l'))).
    + unfold bind at 1 3 4.
      destruct (_finalizeConfigArray w (entry_config entry)
                  (path_dirname P (entry_filePath entry)) s) as [[final|e|] s1];
        try related_done.
      unfold_M. split; [done|]. cbn [fst snd]. unfold flagsOf. cbn [fst snd].
      split_and!; auto.
      * by rewrite Hne.
      * cbn [found]. by rewrite Hall, andb_false_r.
    + unfold_M. split; [done|]. cbn [fst snd]. unfold flagsOf. cbn [fst snd].
      split_and!; auto.
      * by rewrite Hne.
      * cbn [found]. by rewrite Hall, andb_false_r.
Qed.

(** One turn of the outer loop, for a non-empty pattern whose iteration
    comes to its end: what it throws, by the entries its loop received. *)
Lemma iterateFiles_pattern_outcome P fuel w g pattern set0 s iter s0 l received s1 :
  pattern <> EmptyString ->
  _iterateFiles P fuel w pattern s = (Ok iter, s0) ->
  forOf P fuel w iter (traced (iterateFiles_body P w))
    ({| foundRegardlessOfIgnored := false; found := false; set := set0 |}, []) s0
  = (Ok (l, received), s1) ->
  iterateFiles_pattern P fuel w g pattern set0 s =
  (match received with
   | [] => Throw (NoFilesFoundError pattern (negb g && isGlob P pattern))
   | _ :: _ =>
       if forallb (fun entry => bool_decide (flag entry = IGNORED_SILENTLY)) received
       then Throw (AllFilesIgnoredError pattern)
       else Ok (set l)
   end, s1) /\
  (negb g && isGlob P pattern = true <-> g = false /\ isGlob P pattern = true).
Proof.
  intros Hne Hiter Hfor. split.
  2:{ rewrite andb_true_iff, negb_true_iff. tauto. }
  unfold iterateFiles_pattern. rewrite bool_decide_eq_false_2 by done.
  unfold bind at 1. rewrite Hiter. unfold bind at 1.
  pose proof (forOf_related P fuel w iter flagsOf
                (iterateFiles_body P w) (traced (iterateFiles_body P w))
                (iterateFiles_body_flags P w)
                {| foundRegardlessOfIgnored := false; found := false; set := set0 |}
                ({| foundRegardlessOfIgnored := false; found := false; set := set0 |}, [])
                s0) as Hrel.
  rewrite Hfor in Hrel. unfold related in Hrel. cbn [fst snd] in Hrel.
  destruct (forOf P fuel w iter (iterateFiles_body P w)
              {| foundRegardlessOfIgnored := false; found := false; set := set0 |} s0)
    as [r2 s2].
  destruct Hrel as [Hs Hrel]; [by split|]. cbn in Hs. subst s2.
  destruct r2 as [l2| |]; cbn in Hrel; try done.
  destruct Hrel as (-> & HfR & Hf). cbn [fst snd] in *.
  rewrite HfR, Hf. unfold silentlyIgnored. destruct received as [|e tr]; cbn; [done|].
  by destruct (bool_decide (flag e = IGNORED_SILENTLY) && _).
Qed.

Lemma forEach_app {X A} (body : X -> A -> M A) xs ys acc s :
  forEach body (xs ++ ys) acc s = (let* acc' := forEach body xs acc in forEach body ys acc') s.
Proof.
  revert acc s. induction xs as [|x xs IH]; intros acc s; cbn [forEach app].
  - reflexivity.
  - rewrite !bind_unfold. destruct (body x acc s) as [[acc1|e|] s1]; [|done..].
    by rewrite IH, bind_unfold.
Qed.

(** C2.  Take a call of [iterateFiles] and a non-empty pattern [P] among
    its patterns, reached after the patterns before it have been processed
    without an error, and the entries the loop receives from the iteration
    of [P], when that iteration and the loop come to their end.  With no
    entry at all, [iterateFiles] throws [NoFilesFoundError(P, globDisabled)],
    where [globDisabled] is true exactly when the enumerator's
    [globInputPaths] is false and [isGlob(P)] holds; with entries that all
    have the flag [IGNORED_SILENTLY], it throws [AllFilesIgnoredError(P)];
    with an entry of another flag it throws neither: it goes on with the
    patterns after [P], and returns if there is none. *)
Theorem iterateFiles_pattern_errors P fuel w patternOrPatterns before pattern after
    set0 s s0 iter s1 l received s2 :
  match patternOrPatterns with inl p => [p] | inr ps => ps end
  = (before ++ pattern :: after)%list ->
  pattern <> EmptyString ->
  forEach (iterateFiles_pattern P fuel w (globInputPaths s)) before ∅ s = (Ok set0, s0) ->
  _iterateFiles P fuel w pattern s0 = (Ok iter, s1) ->
  forOf P fuel w iter (traced (iterateFiles_body P w))
    ({| foundRegardlessOfIgnored := false; found := false; set := set0 |}, []) s1
  = (Ok (l, received), s2) ->
  iterateFiles P fuel w patternOrPatterns s =
  match received with
  | [] =>
      (Throw (NoFilesFoundError pattern (negb (globInputPaths s) && isGlob P pattern)), s2)
  | _ :: _ =>
      if forallb (fun entry => bool_decide (flag entry = IGNORED_SILENTLY)) received
      then (Throw (AllFilesIgnoredError pattern), s2)
      else (let* _ := forEach (iterateFiles_pattern P fuel w (globInputPaths s))
                        after (set l) in
            ret tt) s2
  end /\
  (negb (globInputPaths s) && isGlob P pattern = true <->
   globInputPaths s = false /\ isGlob P pattern = true) /\
  (forallb (fun entry => bool_decide (flag entry = IGNORED_SILENTLY)) received = false ->
   iterateFiles P fuel w (inr (before ++ [pattern])%list) s = (Ok tt, s2)) /\
  iterateFiles P fuel w (inr before) s = (Ok tt, s0).
Proof.
  intros Hpatterns Hne Hbefore Hiter Hfor.
  destruct (iterateFiles_pattern_outcome P fuel w (globInputPaths s) pattern set0 s0 iter s1
              l received s2 Hne Hiter Hfor) as [Hpat Hglob].
  assert (Hrun : forall rest,
    iterateFiles P fuel w (inr (before ++ pattern :: rest)%list) s =
    match received with
    | [] =>
        (Throw (NoFilesFoundError pattern (negb (globInputPaths s) && isGlob P pattern)), s2)
    | _ :: _ =>
        if forallb (fun entry => bool_decide (flag entry = IGNORED_SILENTLY)) received
        then (Throw (AllFilesIgnoredError pattern), s2)
        else (let* _ := forEach (iterateFiles_pattern P fuel w (globInputPaths s))
                          rest (set l) in
              ret tt) s2
    end).
  { intros rest. unfold iterateFiles. rewrite bind_unfold. unfold get at 1. cbv beta iota zeta.
    rewrite bind_unfold, forEach_app, bind_unfold, Hbefore. cbn [forEach].
    rewrite bind_unfold, Hpat.
    destruct received as [|entry entries]; [done|].
    destruct (forallb _ (entry :: entries)); [done|].
    by rewrite bind_unfold. }
  split_and!.
  - rewrite <- Hrun. unfold iterateFiles. by rewrite Hpatterns.
  - exact Hglob.
  - intros Hsome. rewrite Hrun. destruct received as [|entry entries]; [discriminate|].
    by rewrite Hsome.
  - unfold iterateFiles. rewrite bind_unfold. unfold get at 1. cbv beta iota zeta.
    by rewrite bind_unfold, Hbefore.
Qed.

(** ** The ancestor walk, case by case *)

Section Walk.

Variables (P : Platform) (w : World) (fuel : nat) (filePath : string) (s : State).

Hypothesis Huse : useEslintrc s = true.
Hypothesis Hmiss : configCache s !! path_dirname P filePath = None.

Lemma walk_stop :
  consideredRoot w s filePath (path_dirname P filePath) = true ->
  _loadConfigInAncestorsRecursive P (S fuel) w filePath s =
  (Ok (baseConfigArray s),
   set_configCache (<[(path_dirname P filePath) := baseConfigArray s]> (configCache s)) s).
Proof.
  intros Hroot. cbn [_loadConfigInAncestorsRecursive].
  rewrite Huse, Hmiss, Hroot. reflexivity.
Qed.

Hypothesis Hgo : consideredRoot w s filePath (path_dirname P filePath) = false.

Lemma walk_eacces j :
  factory_loadOnDirectory w (path_dirname P filePath) None = Raised j -> code j = "EACCES" ->
  _loadConfigInAncestorsRecursive P (S fuel) w filePath s =
  (Ok (baseConfigArray s),
   set_configCache (<[(path_dirname P filePath) := baseConfigArray s]> (configCache s)) (logged (CallLoadOnDirectory (path_dirname P filePath) None) s)).
Proof.
  intros Hj Hc. cbn [_loadConfigInAncestorsRecursive].
  rewrite Huse, Hmiss, Hgo. cbn [negb].
  unfold loadOnDirectory. unfold_M. cbn. rewrite Hj. cbn.
  by rewrite bool_decide_eq_true_2.
Qed.

Lemma walk_error j :
  factory_loadOnDirectory w (path_dirname P filePath) None = Raised j -> code j <> "EACCES" ->
  _loadConfigInAncestorsRecursive P (S fuel) w filePath s =
  (Throw (ExternalError j), (logged (CallLoadOnDirectory (path_dirname P filePath) None) s)).
Proof.
  intros Hj Hc. cbn [_loadConfigInAncestorsRecursive].
  rewrite Huse, Hmiss, Hgo. cbn [negb].
  unfold loadOnDirectory. unfold_M. cbn. rewrite Hj. cbn.
  by rewrite bool_decide_eq_false_2.
Qed.

Lemma walk_root es :
  factory_loadOnDirectory w (path_dirname P filePath) None = Returned es ->
  es <> [] -> configArray_root w es = true ->
  _loadConfigInAncestorsRecursive P (S fuel) w filePath s =
  (Ok (next s),
   set_configCache (<[(path_dirname P filePath) := next s]> (configCache s)) (allocated es (logged (CallLoadOnDirectory (path_dirname P filePath) None) s))).
Proof.
  intros Hes Hne Hroot. cbn [_loadConfigInAncestorsRecursive].
  rewrite Huse, Hmiss, Hgo. cbn [negb].
  unfold loadOnDirectory. unfold_M. cbn. rewrite Hes. cbn.
  unfold contents. cbn. rewrite lookup_insert_eq. cbn. rewrite Hroot.
  destruct es; [done|]. reflexivity.
Qed.

Lemma walk_ascend es :
  factory_loadOnDirectory w (path_dirname P filePath) None = Returned es ->
  es = [] \/ configArray_root w es = false ->
  _loadConfigInAncestorsRecursive P (S fuel) w filePath s =
  match _loadConfigInAncestorsRecursive P fuel w (path_dirname P filePath) (allocated es (logged (CallLoadOnDirectory (path_dirname P filePath) None) s)) with
  | (Ok parent, s2) =>
      match es with
      | [] => (Ok parent, set_configCache (<[(path_dirname P filePath) := parent]> (configCache s2)) s2)
      | _ =>
          (Ok (next s),
           set_configCache (<[(path_dirname P filePath) := next s]> (configCache s2))
             (set_store (<[next s := (contents s2 parent ++ contents s2 (next s))%list]>
                           (heap s2)) (next s2) s2))
      end
  | (Throw e, s2) => (Throw e, s2)
  | (OutOfFuel, s2) => (OutOfFuel, s2)
  end.
Proof.
  intros Hes Hnot. cbn [_loadConfigInAncestorsRecursive].
  rewrite Huse, Hmiss, Hgo. cbn [negb].
  unfold loadOnDirectory. unfold_M. cbn. rewrite Hes. cbn.
  unfold contents at 1 2 3. cbn. rewrite lookup_insert_eq. cbn.
  unfold allocated, logged.
  destruct es as [|e es'].
  - cbn.
    match goal with |- context [_loadConfigInAncestorsRecursive P fuel w (path_dirname P filePath) ?t] =>
      destruct (_loadConfigInAncestorsRecursive P fuel w (path_dirname P filePath) t) as [[parent| |] s2] end;
    reflexivity.
  - destruct Hnot as [|Hroot]; [done|]. rewrite Hroot. cbn.
    match goal with |- context [_loadConfigInAncestorsRecursive P fuel w (path_dirname P filePath) ?t] =>
      destruct (_loadConfigInAncestorsRecursive P fuel w (path_dirname P filePath) t) as [[parent| |] s2] end;
    reflexivity.
Qed.

End Walk.

(** ** C4: [root: true] halts the walk *)

Lemma ancestor_dirname P n p :
  ancestor P n (path_dirname P p) = ancestor P (S n) p.
Proof. induction n as [|n IH]; cbn in *; congruence. Qed.

Lemma walk_below_root P w es : forall n fuel p s a s',
  inv 0 s ->
  useEslintrc s = true ->
  (forall i, i <= n -> configCache s !! ancestor P (S i) p = None) ->
  factory_loadOnDirectory w (ancestor P (S n) p) None = Returned es ->
  es <> [] -> configArray_root w es = true ->
  _loadConfigInAncestorsRecursive P fuel w p s = (Ok a, s') ->
  exists new,
    events s' = (events s ++ new)%list /\
    (forall c, In c new ->
       exists i, i <= n /\ c = CallLoadOnDirectory (ancestor P (S i) p) None) /\
    (forall e, In e (contents s' a) ->
       In e (contents s (baseConfigArray s)) \/
       exists i es_i,
         i <= n /\
         factory_loadOnDirectory w (ancestor P (S i) p) None = Returned es_i /\
         In e es_i).
Proof.
  induction n as [|n IH]; intros fuel p s a s' Hinv Huse Hmiss Hload Hne Hroot H.
  all: destruct fuel as [|fuel]; [discriminate|].
  all: pose proof (Hmiss 0 ltac:(lia)) as Hmiss0; cbn [ancestor] in Hmiss0.
  all: destruct (consideredRoot w s p (path_dirname P p)) eqn:Hstop;
    [rewrite (walk_stop P w fuel p s Huse Hmiss0 Hstop) in H; injection H as <- <-;
     exists []; rewrite app_nil_r; split_and!; [done|intros c []|by left]|].
  all: destruct (factory_loadOnDirectory w (path_dirname P p) None) as [es1|j] eqn:Hes1.
  all: try (destruct (decide (code j = "EACCES")) as [Hc|Hc];
    [rewrite (walk_eacces P w fuel p s Huse Hmiss0 Hstop j Hes1 Hc) in H;
     injection H as <- <-; exists [CallLoadOnDirectory (path_dirname P p) None];
     split_and!; [done| intros c [<-|[]]; exists 0; split; [lia|done] | by left]
    |rewrite (walk_error P w fuel p s Huse Hmiss0 Hstop j Hes1 Hc) in H; discriminate]).
  - cbn [ancestor] in Hload. rewrite Hload in Hes1. injection Hes1 as <-.
    rewrite (walk_root P w fuel p s Huse Hmiss0 Hstop es Hload Hne Hroot) in H.
    injection H as <- <-. exists [CallLoadOnDirectory (path_dirname P p) None].
    split_and!; [done| |].
    + intros c [<-|[]]. exists 0. split; [lia|done].
    + intros e He. right. exists 0, es. split_and!; [lia|done|].
      change (In e (contents (allocated es (logged (CallLoadOnDirectory (path_dirname P p) None) s))
                      (next (logged (CallLoadOnDirectory (path_dirname P p) None) s)))) in He.
      by rewrite contents_allocated_new in He.
  - destruct (decide (es1 <> [] /\ configArray_root w es1 = true)) as [[Hne1 Hroot1]|Hnot].
    { rewrite (walk_root P w fuel p s Huse Hmiss0 Hstop es1 Hes1 Hne1 Hroot1) in H.
      injection H as <- <-. exists [CallLoadOnDirectory (path_dirname P p) None].
      split_and!; [done| |].
      + intros c [<-|[]]. exists 0. split; [lia|done].
      + intros e He. right. exists 0, es1. split_and!; [lia|done|].
        change (In e (contents (allocated es1 (logged (CallLoadOnDirectory (path_dirname P p) None) s))
                        (next (logged (CallLoadOnDirectory (path_dirname P p) None) s)))) in He.
        by rewrite contents_allocated_new in He. }
    assert (Hasc : es1 = [] \/ configArray_root w es1 = false).
    { destruct es1 as [|e1 es1']; [by left|]. right.
      destruct (configArray_root w (e1 :: es1')) eqn:E; [|done].
      exfalso. apply Hnot. by split. }
    rewrite (walk_ascend P w fuel p s Huse Hmiss0 Hstop es1 Hes1 Hasc) in H.
    set (s1 := allocated es1 (logged (CallLoadOnDirectory (path_dirname P p) None) s)) in *.
    assert (Hinv1 : inv 0 s1) by (by apply inv_alloc, inv_events).
    assert (G1 : grows s s1).
    { eapply grows_trans; [apply grows_logged|apply grows_alloc]. }
    destruct (_loadConfigInAncestorsRecursive P fuel w (path_dirname P p) s1)
      as [[parent| |] s2] eqn:Hrec; try discriminate.
    destruct (ancestors_inv _ _ _ _ _ _ _ _ Hinv1 Hrec) as (Hinv2 & G2 & _ & Hr2).
    destruct (Hr2 _ eq_refl) as [Hparent _].
    destruct (IH fuel (path_dirname P p) s1 parent s2 Hinv1) as (new & Hev & Hnew & Hcont);
      auto.
    { intros i Hi. rewrite ancestor_dirname. apply (Hmiss (S i)). lia. }
    { by rewrite ancestor_dirname. }
    assert (Hbase : contents s1 (baseConfigArray s1) = contents s (baseConfigArray s)).
    { rewrite (grows_base _ _ G1). apply (contents_grows _ _ _ G1). destruct Hinv; lia. }
    assert (Hfrom : forall e, In e (contents s2 parent) ->
      In e (contents s (baseConfigArray s)) \/
      exists i es_i, i <= S n /\
        factory_loadOnDirectory w (ancestor P (S i) p) None = Returned es_i /\ In e es_i).
    { intros e He. destruct (Hcont e He) as [Hb|(i & es_i & Hi & Hl & Hin)].
      - left. by rewrite <- Hbase.
      - right. exists (S i), es_i. rewrite ancestor_dirname in Hl.
        split_and!; auto. lia. }
    exists (CallLoadOnDirectory (path_dirname P p) None :: new).
    assert (Hevents : events s2 =
      (events s ++ CallLoadOnDirectory (path_dirname P p) None :: new)%list).
    { rewrite Hev. subst s1. cbn. by rewrite <- app_assoc. }
    assert (Hcalls : forall c,
      In c (CallLoadOnDirectory (path_dirname P p) None :: new) ->
      exists i, i <= S n /\ c = CallLoadOnDirectory (ancestor P (S i) p) None).
    { intros c [<-|Hc].
      - exists 0. split; [lia|done].
      - destruct (Hnew c Hc) as (i & Hi & ->). exists (S i).
        rewrite ancestor_dirname. split; [lia|done]. }
    destruct es1 as [|e1 es1']; injection H as <- <-; (split_and!; [done|done|]).
    + exact Hfrom.
    + intros e He. unfold contents in He. cbn in He. rewrite lookup_insert_eq in He.
      cbn in He. apply in_app_or in He as [He|He]; [by apply Hfrom|].
      right. exists 0, (e1 :: es1'). split_and!; [lia|done|].
      assert (Hown : contents s2 (next s) = (e1 :: es1')%list).
      { rewrite (contents_grows _ _ _ G2) by (subst s1; cbn; lia).
        subst s1.
        apply (contents_allocated_new (logged (CallLoadOnDirectory (path_dirname P p) None) s)). }
      unfold contents in Hown. by rewrite Hown in He.
Qed.

(** C4.  When the walk loads a directory [d] and the factory returns a
    non-empty array that carries the root flag, the walk caches that array
    under [d] and returns it: the array holds the elements loaded from [d]
    and nothing else, and [d] is the only directory loaded.  The walk from a
    path below [d] (with no directory between the path and [d] in the cache
    yet) therefore never loads a directory above [d]: every element of the
    array it returns comes from the base array or was loaded from a directory
    between the path and [d], [d] included. *)
Theorem root_halts_walk P w :
  (forall fuel filePath s es,
     let d := path_dirname P filePath in
     useEslintrc s = true ->
     configCache s !! d = None ->
     consideredRoot w s filePath d = false ->
     factory_loadOnDirectory w d None = Returned es ->
     es <> [] -> configArray_root w es = true ->
     exists s',
       _loadConfigInAncestorsRecursive P (S fuel) w filePath s = (Ok (next s), s') /\
       configCache s' = <[d := next s]> (configCache s) /\
       contents s' (next s) = es /\
       events s' = (events s ++ [CallLoadOnDirectory d None])%list) /\
  (forall n fuel p s a s' es,
     let d := ancestor P (S n) p in
     reachable P s ->
     useEslintrc s = true ->
     (forall i, i <= n -> configCache s !! ancestor P (S i) p = None) ->
     factory_loadOnDirectory w d None = Returned es ->
     es <> [] -> configArray_root w es = true ->
     _loadConfigInAncestorsRecursive P fuel w p s = (Ok a, s') ->
     exists new,
       events s' = (events s ++ new)%list /\
       (forall c, In c new ->
          exists i, i <= n /\ c = CallLoadOnDirectory (ancestor P (S i) p) None) /\
       (forall e, In e (contents s' a) ->
          In e (contents s (baseConfigArray s)) \/
          exists i es_i,
            i <= n /\
            factory_loadOnDirectory w (ancestor P (S i) p) None = Returned es_i /\
            In e es_i)).
Proof.
  split.
  - intros fuel filePath s es d Huse Hmiss Hgo Hes Hne Hroot.
    eexists. split; [by apply walk_root|]. split_and!; try reflexivity.
    apply (contents_allocated_new (logged (CallLoadOnDirectory d None) s)).
  - intros n fuel p s a s' es d Hreach.
    apply (walk_below_root P w es n fuel p s a s'). by apply (reachable_inv P).
Qed.

Lemma root_halts_walk_witness :
  exists new,
    events (snd (_loadConfigInAncestorsRecursive Sample.posix 10 Sample.project
                   "/tmp/root/sub/deep/a.js" Sample.fresh))
    = (events Sample.fresh ++ new)%list /\
    (forall c, In c new ->
       exists i, i <= 1 /\
         c = CallLoadOnDirectory (ancestor Sample.posix (S i) "/tmp/root/sub/deep/a.js") None).
Proof.
  destruct (proj2 (root_halts_walk Sample.posix Sample.project) 1 10
              "/tmp/root/sub/deep/a.js" Sample.fresh 3
              (snd (_loadConfigInAncestorsRecursive Sample.posix 10 Sample.project
                      "/tmp/root/sub/deep/a.js" Sample.fresh))
              [Sample.rootElement ".eslintrc.json" "/tmp/root/sub/.eslintrc.json"])
    as (new & Hev & Hnew & _).
  - apply (reachable_intro _ _ Sample.project (Sample.options "/tmp/root") Sample.fresh).
    + vm_compute. reflexivity.
    + apply steps_refl.
  - reflexivity.
  - intros i Hi. destruct i as [|[|i]]; [vm_compute; reflexivity..|lia].
  - vm_compute. reflexivity.
  - discriminate.
  - vm_compute. reflexivity.
  - vm_compute. reflexivity.
  - exists new. by split.
Defined.

(** ** C5: where the walk stops *)

(** The claim as stated fails: the walk also caches and returns the base
    array for directories that meet none of the three conditions.  [/locked]
    cannot be read, and [/tmp] has no config file and no directory above it
    has one: for both the walk caches the base array and returns it. *)
Lemma base_array_without_stop :
  (consideredRoot Sample.project Sample.fresh "/locked/a.js" "/locked" = false /\
   "/locked" <> EmptyString /\ "/locked" <> "/locked/a.js" /\
   "/locked" <> os_homedir Sample.project /\
   fst (_loadConfigInAncestorsRecursive Sample.posix 10 Sample.project
          "/locked/a.js" Sample.fresh) = Ok (baseConfigArray Sample.fresh) /\
   configCache (snd (_loadConfigInAncestorsRecursive Sample.posix 10 Sample.project
                       "/locked/a.js" Sample.fresh)) !! "/locked"
   = Some (baseConfigArray Sample.fresh)) /\
  (consideredRoot Sample.project Sample.fresh "/tmp/a.js" "/tmp" = false /\
   "/tmp" <> EmptyString /\ "/tmp" <> "/tmp/a.js" /\
   "/tmp" <> os_homedir Sample.project /\
   fst (_loadConfigInAncestorsRecursive Sample.posix 10 Sample.project
          "/tmp/a.js" Sample.fresh) = Ok (baseConfigArray Sample.fresh) /\
   configCache (snd (_loadConfigInAncestorsRecursive Sample.posix 10 Sample.project
                       "/tmp/a.js" Sample.fresh)) !! "/tmp"
   = Some (baseConfigArray Sample.fresh)).
Proof. split; split_and!; try discriminate; vm_compute; reflexivity. Qed.

Lemma consideredRoot_iff w s filePath d :
  consideredRoot w s filePath d = true <->
  d = EmptyString \/ d = filePath \/ (d = os_homedir w /\ cwd s <> os_homedir w).
Proof.
  unfold consideredRoot.
  rewrite !orb_true_iff, andb_true_iff, negb_true_iff.
  rewrite !bool_decide_eq_true, bool_decide_eq_false. tauto.
Qed.

Lemma walk_events P w : forall fuel filePath s r s',
  _loadConfigInAncestorsRecursive P fuel w filePath s = (r, s') ->
  events s `prefix_of` events s'.
Proof.
  induction fuel as [|fuel IH]; intros filePath s r s' H.
  { by injection H as <- <-. }
  destruct (useEslintrc s) eqn:Huse.
  2:{ cbn [_loadConfigInAncestorsRecursive] in H. rewrite Huse in H.
      by injection H as <- <-. }
  destruct (configCache s !! path_dirname P filePath) as [c|] eqn:Hmiss.
  { cbn [_loadConfigInAncestorsRecursive] in H. rewrite Huse, Hmiss in H.
    by injection H as <- <-. }
  destruct (consideredRoot w s filePath (path_dirname P filePath)) eqn:Hgo.
  { rewrite (walk_stop P w fuel filePath s Huse Hmiss Hgo) in H.
    by injection H as <- <-. }
  set (d := path_dirname P filePath) in *.
  assert (H0 : events s `prefix_of` events (logged (CallLoadOnDirectory d None) s))
    by apply prefix_logged.
  destruct (factory_loadOnDirectory w d None) as [es|j] eqn:Hes.
  - destruct (decide (es <> [] /\ configArray_root w es = true)) as [[Hne Hroot]|Hnot].
    + rewrite (walk_root P w fuel filePath s Huse Hmiss Hgo es Hes Hne Hroot) in H.
      by injection H as <- <-.
    + assert (Hasc : es = [] \/ configArray_root w es = false).
      { destruct es as [|e1 es']; [by left|]. right.
        destruct (configArray_root w (e1 :: es')) eqn:E; [|done].
        exfalso. apply Hnot. by split. }
      rewrite (walk_ascend P w fuel filePath s Huse Hmiss Hgo es Hes Hasc) in H.
      fold d in H.
      destruct (_loadConfigInAncestorsRecursive P fuel w d
                  (allocated es (logged (CallLoadOnDirectory d None) s)))
        as [r2 s2] eqn:Hrec.
      apply IH in Hrec. cbn [events allocated set_store] in Hrec.
      assert (events s `prefix_of` events s2) by (etrans; eassumption).
      destruct r2 as [parent| |]; [destruct es|..]; by injection H as <- <-.
  - destruct (decide (code j = "EACCES")) as [Hc|Hc].
    + rewrite (walk_eacces P w fuel filePath s Huse Hmiss Hgo j Hes Hc) in H.
      by injection H as <- <-.
    + rewrite (walk_error P w fuel filePath s Huse Hmiss Hgo j Hes Hc) in H.
      by injection H as <- <-.
Qed.

Lemma walk_loads_first P w fuel filePath s r s' :
  useEslintrc s = true ->
  configCache s !! path_dirname P filePath = None ->
  consideredRoot w s filePath (path_dirname P filePath) = false ->
  _loadConfigInAncestorsRecursive P (S fuel) w filePath s = (r, s') ->
  exists later,
    events s' = (events s ++ CallLoadOnDirectory (path_dirname P filePath) None :: later)%list.
Proof.
  intros Huse Hmiss Hgo H.
  set (d := path_dirname P filePath) in *.
  destruct (factory_loadOnDirectory w d None) as [es|j] eqn:Hes.
  - destruct (decide (es <> [] /\ configArray_root w es = true)) as [[Hne Hroot]|Hnot].
    + rewrite (walk_root P w fuel filePath s Huse Hmiss Hgo es Hes Hne Hroot) in H.
      injection H as <- <-. exists []. reflexivity.
    + assert (Hasc : es = [] \/ configArray_root w es = false).
      { destruct es as [|e1 es']; [by left|]. right.
        destruct (configArray_root w (e1 :: es')) eqn:E; [|done].
        exfalso. apply Hnot. by split. }
      rewrite (walk_ascend P w fuel filePath s Huse Hmiss Hgo es Hes Hasc) in H.
      fold d in H.
      destruct (_loadConfigInAncestorsRecursive P fuel w d
                  (allocated es (logged (CallLoadOnDirectory d None) s)))
        as [r2 s2] eqn:Hrec.
      apply walk_events in Hrec as [later Hl]. cbn [events allocated set_store] in Hl.
      exists later. cbn in Hl. rewrite <- app_assoc in Hl.
      destruct r2 as [parent| |]; [destruct es|..]; by injection H as <- <-.
  - destruct (decide (code j = "EACCES")) as [Hc|Hc].
    + rewrite (walk_eacces P w fuel filePath s Huse Hmiss Hgo j Hes Hc) in H.
      injection H as <- <-. by exists [].
    + rewrite (walk_error P w fuel filePath s Huse Hmiss Hgo j Hes Hc) in H.
      injection H as <- <-. by exists [].
Qed.

(** C5 (amended).  On a cache miss, the walk treats a directory as the root
    of the chain, caching and returning the base array without asking the
    factory for the directory's config, exactly when the directory is empty,
    equals the path it was derived from, or is the home directory while the
    home directory differs from the working directory.  In every other case
    it first loads the directory's own config; it may still end up caching and
    returning the base array (when the load is denied access, or when neither
    the directory nor the chain above it has a config).  In particular, when
    the working directory is the home directory the walk loads the home
    directory's config, and unless that config carries the root flag it goes
    on with the directory above: its result is what the walk from the home
    directory returns, followed by the home directory's own elements. *)
Theorem walk_stops_iff P w fuel filePath s r s' :
  let d := path_dirname P filePath in
  let stop := d = EmptyString \/ d = filePath \/ (d = os_homedir w /\ cwd s <> os_homedir w) in
  reachable P s ->
  useEslintrc s = true ->
  configCache s !! d = None ->
  _loadConfigInAncestorsRecursive P (S fuel) w filePath s = (r, s') ->
  ((r = Ok (baseConfigArray s) /\
    s' = set_configCache (<[d := baseConfigArray s]> (configCache s)) s) <-> stop) /\
  (~ stop ->
   exists later, events s' = (events s ++ CallLoadOnDirectory d None :: later)%list) /\
  (cwd s = os_homedir w -> d = os_homedir w -> d <> EmptyString -> d <> filePath ->
   ~ stop /\
   forall es,
     factory_loadOnDirectory w d None = Returned es ->
     es = [] \/ configArray_root w es = false ->
     exists r2 s2,
       _loadConfigInAncestorsRecursive P fuel w d
         (allocated es (logged (CallLoadOnDirectory d None) s)) = (r2, s2) /\
       match r2 with
       | Ok parent =>
           exists a, r = Ok a /\ contents s' a = (contents s2 parent ++ es)%list
       | Throw e => r = Throw e
       | OutOfFuel => r = OutOfFuel
       end).
Proof.
  intros d stop Hreach Huse Hmiss H.
  pose proof (consideredRoot_iff w s filePath d) as Hiff. fold stop in Hiff.
  destruct (consideredRoot w s filePath d) eqn:Hgo.
  - assert (Hstop : stop) by by apply Hiff.
    rewrite (walk_stop P w fuel filePath s Huse Hmiss Hgo) in H.
    injection H as <- <-. split_and!; [done|done|].
    intros Hcwd Hd Hne1 Hne2. exfalso.
    destruct Hstop as [?|[?|[_ ?]]]; congruence.
  - assert (Hnot : ~ stop) by (intros Hs; apply Hiff in Hs; discriminate).
    destruct (walk_loads_first P w fuel filePath s r s' Huse Hmiss Hgo H)
      as [later Hlater].
    split_and!.
    + split; [|done]. intros [_ ->]. cbn in Hlater.
      apply (f_equal length) in Hlater. rewrite length_app in Hlater. cbn in Hlater. lia.
    + intros _. by exists later.
    + intros _ _ _ _. split; [done|]. intros es Hes Hasc.
      rewrite (walk_ascend P w fuel filePath s Huse Hmiss Hgo es Hes Hasc) in H.
      fold d in H.
      set (s1 := allocated es (logged (CallLoadOnDirectory d None) s)) in *.
      destruct (_loadConfigInAncestorsRecursive P fuel w d s1) as [r2 s2] eqn:Hrec.
      exists r2, s2. split; [done|].
      destruct r2 as [parent| |]; [|by injection H as <- <-..].
      assert (Hinv1 : inv 0 s1).
      { apply inv_alloc, inv_events. by apply (reachable_inv P). }
      destruct (ancestors_inv _ _ _ _ _ _ _ _ Hinv1 Hrec) as (_ & G2 & _).
      destruct es as [|e1 es']; injection H as <- <-.
      * exists parent. split; [done|]. by rewrite app_nil_r.
      * exists (next s). split; [done|].
        unfold contents at 1. cbn. rewrite lookup_insert_eq. cbn. f_equal.
        rewrite (contents_grows _ _ _ G2) by (subst s1; cbn; lia).
        apply (contents_allocated_new (logged (CallLoadOnDirectory d None) s)).
Qed.

Lemma walk_stops_iff_witness :
  fst (_loadConfigInAncestorsRecursive Sample.posix 2 Sample.project
         "/home/user/a.js" Sample.fresh) = Ok (baseConfigArray Sample.fresh).
Proof.
  destruct (walk_stops_iff Sample.posix Sample.project 1 "/home/user/a.js" Sample.fresh
              (fst (_loadConfigInAncestorsRecursive Sample.posix 2 Sample.project
                      "/home/user/a.js" Sample.fresh))
              (snd (_loadConfigInAncestorsRecursive Sample.posix 2 Sample.project
                      "/home/user/a.js" Sample.fresh)))
    as ([_ Hstop] & _).
  - apply (reachable_intro _ _ Sample.project (Sample.options "/tmp/root") Sample.fresh).
    + vm_compute. reflexivity.
    + apply steps_refl.
  - reflexivity.
  - vm_compute. reflexivity.
  - vm_compute. reflexivity.
  - apply Hstop. right. right. split; [vm_compute; reflexivity|]. discriminate.
Defined.

(** ** C8: access denied *)

(** C8.  When the factory fails to load a directory's config with the code
    [EACCES], the walk swallows the error, caches the base array under that
    directory, only that entry of the cache is written, and returns the base
    array; no directory above is loaded.  A loader error with another code
    comes out of the walk as it is, from whatever level of the walk it was
    raised at, and out of [getConfigArrayForFile]; nothing is cached for the
    directory.  No other error comes out of the walk. *)
Theorem eacces_falls_back_to_base P w fuel filePath s :
  let d := path_dirname P filePath in
  useEslintrc s = true ->
  configCache s !! d = None ->
  consideredRoot w s filePath d = false ->
  (forall j,
     factory_loadOnDirectory w d None = Raised j -> code j = "EACCES" ->
     exists s',
       _loadConfigInAncestorsRecursive P (S fuel) w filePath s
       = (Ok (baseConfigArray s), s') /\
       configCache s' = <[d := baseConfigArray s]> (configCache s) /\
       events s' = (events s ++ [CallLoadOnDirectory d None])%list /\
       heap s' = heap s /\ finalizeCache s' = finalizeCache s) /\
  (forall j,
     factory_loadOnDirectory w d None = Raised j -> code j <> "EACCES" ->
     exists s',
       _loadConfigInAncestorsRecursive P (S fuel) w filePath s
       = (Throw (ExternalError j), s') /\
       configCache s' = configCache s) /\
  (forall es e s2,
     factory_loadOnDirectory w d None = Returned es ->
     es = [] \/ configArray_root w es = false ->
     _loadConfigInAncestorsRecursive P fuel w d
       (allocated es (logged (CallLoadOnDirectory d None) s)) = (Throw e, s2) ->
     _loadConfigInAncestorsRecursive P (S fuel) w filePath s = (Throw e, s2)) /\
  (forall fuel' p t e t',
     _loadConfigInAncestorsRecursive P fuel' w p t = (Throw e, t') ->
     exists n j,
       factory_loadOnDirectory w (ancestor P (S n) p) None = Raised j /\
       code j <> "EACCES" /\ e = ExternalError j) /\
  (forall fuel' p t e t',
     _loadConfigInAncestorsRecursive P fuel' w
       (path_resolve P (cwd t) (default "a.js" p)) t = (Throw e, t') ->
     getConfigArrayForFile P fuel' w p t = (Throw e, t')).
Proof.
  intros d Huse Hmiss Hgo. split_and!.
  - intros j Hj Hc. eexists. split; [by apply (walk_eacces P w fuel filePath s Huse Hmiss Hgo j)|].
    by split_and!.
  - intros j Hj Hc. eexists. split; [by apply (walk_error P w fuel filePath s Huse Hmiss Hgo j)|]. done.
  - intros es e s2 Hes Hasc Hrec.
    rewrite (walk_ascend P w fuel filePath s Huse Hmiss Hgo es Hes Hasc).
    fold d. by rewrite Hrec.
  - intros fuel' p t e t'. apply (ancestors_throw P w fuel').
  - intros fuel' p t e t' H. unfold getConfigArrayForFile, _loadConfigInAncestors.
    unfold bind at 1. unfold get at 1. unfold bind at 1. by rewrite H.
Qed.

Lemma eacces_falls_back_to_base_witness :
  exists s',
    _loadConfigInAncestorsRecursive Sample.posix 10 Sample.project "/locked/a.js"
      Sample.fresh = (Ok (baseConfigArray Sample.fresh), s') /\
    configCache s' = <["/locked" := baseConfigArray Sample.fresh]> (configCache Sample.fresh).
Proof.
  destruct (proj1 (eacces_falls_back_to_base Sample.posix Sample.project 9
                     "/locked/a.js" Sample.fresh eq_refl eq_refl eq_refl)
              Sample.eacces eq_refl eq_refl) as (s' & Hrun & Hcache & _).
  exists s'. by split.
Defined.

(** ** C10: [getConfigArrayForFile] and the file itself *)

Lemma loadOnDirectory_finishes w d nm parent s :
  fst (loadOnDirectory w d nm parent s) <> OutOfFuel.
Proof.
  destruct (loadOnDirectory w d nm parent s) as [r s'] eqn:H.
  apply loadOnDirectory_cases in H. cbn in H.
  destruct (factory_loadOnDirectory w d nm) as [es|e];
    [destruct parent; [destruct es|]|]; destruct H as [-> _]; discriminate.
Qed.

Lemma finalize_finishes w a dir s :
  fst (_finalizeConfigArray w a dir s) <> OutOfFuel.
Proof.
  destruct (finalizeCache s !! a) as [f|] eqn:Hc.
  - rewrite (finalize_hit _ _ _ _ _ Hc). cbn. by destruct (_ && _).
  - rewrite (finalize_miss _ _ _ _ Hc).
    destruct (if wantsPersonalConfig s a then _ else _) as [r1 s1] eqn:E.
    assert (r1 <> OutOfFuel).
    { destruct (wantsPersonalConfig s a).
      - pose proof (loadOnDirectory_finishes w (os_homedir w) (Some "PersonalConfig")
                      (Some a) s) as Hl. by rewrite E in Hl.
      - by injection E as <- <-. }
    destruct r1 as [f1| |]; [| discriminate | done].
    destruct (0 <? length (contents s1 (cliConfigArray s1)))%nat; cbv beta iota zeta;
      match goal with |- context [validateConfigArray w ?x] =>
        destruct (validateConfigArray w x) end; try discriminate;
      cbn; by destruct (_ && _).
Qed.

(** The walk comes to an end when it has fuel for every level up to a
    directory that is its own [dirname]. *)
Lemma walk_finishes P w : forall n fuel p s,
  ancestor P (S n) p = ancestor P n p -> n < fuel ->
  fst (_loadConfigInAncestorsRecursive P fuel w p s) <> OutOfFuel.
Proof.
  induction n as [|n IH]; intros fuel p s Hfix Hfuel.
  all: destruct fuel as [|fuel]; [lia|].
  all: destruct (useEslintrc s) eqn:Huse;
    [|cbn [_loadConfigInAncestorsRecursive]; rewrite Huse; discriminate].
  all: destruct (configCache s !! path_dirname P p) as [c|] eqn:Hmiss;
    [cbn [_loadConfigInAncestorsRecursive]; rewrite Huse, Hmiss; discriminate|].
  all: destruct (consideredRoot w s p (path_dirname P p)) eqn:Hgo;
    [rewrite (walk_stop P w fuel p s Huse Hmiss Hgo); discriminate|].
  - exfalso. cbn in Hfix. unfold consideredRoot in Hgo.
    rewrite (bool_decide_eq_true_2 (path_dirname P p = p)) in Hgo by done.
    by rewrite orb_true_r in Hgo.
  - destruct (factory_loadOnDirectory w (path_dirname P p) None) as [es|j] eqn:Hes.
    + destruct (decide (es <> [] /\ configArray_root w es = true)) as [[Hne Hroot]|Hnot].
      * rewrite (walk_root P w fuel p s Huse Hmiss Hgo es Hes Hne Hroot). discriminate.
      * assert (Hasc : es = [] \/ configArray_root w es = false).
        { destruct es as [|e1 es']; [by left|]. right.
          destruct (configArray_root w (e1 :: es')) eqn:E; [|done].
          exfalso. apply Hnot. by split. }
        rewrite (walk_ascend P w fuel p s Huse Hmiss Hgo es Hes Hasc).
        match goal with |- context [_loadConfigInAncestorsRecursive P fuel w ?q ?t] =>
          pose proof (IH fuel q t) as Hrec;
          destruct (_loadConfigInAncestorsRecursive P fuel w q t) as [r2 s2] end.
        cbn in Hrec. rewrite !ancestor_dirname in Hrec.
        specialize (Hrec Hfix ltac:(lia)).
        destruct r2 as [parent| |]; [destruct es| |]; cbn; congruence.
    + destruct (decide (code j = "EACCES")) as [Hc|Hc].
      * rewrite (walk_eacces P w fuel p s Huse Hmiss Hgo j Hes Hc). discriminate.
      * rewrite (walk_error P w fuel p s Huse Hmiss Hgo j Hes Hc). discriminate.
Qed.

(** ** On the sample POSIX platform the walk always comes to an end *)

Lemma scan_false_length : forall reversed before,
  Sample.scan reversed false = Some before -> length before < length reversed.
Proof.
  induction reversed as [|c rest IH]; intros before H; cbn in H; [discriminate|].
  destruct (bool_decide (c = Sample.slash)).
  - injection H as <-. cbn. lia.
  - apply IH in H. cbn. lia.
Qed.

Lemma scan_true_length : forall reversed before,
  Sample.scan reversed true = Some before -> length before + 2 <= length reversed.
Proof.
  induction reversed as [|c rest IH]; intros before H; cbn in H; [discriminate|].
  destruct (bool_decide (c = Sample.slash)).
  - apply IH in H. cbn. lia.
  - apply scan_false_length in H. cbn. lia.
Qed.

Lemma length_list_ascii_of_string s :
  length (list_ascii_of_string s) = String.length s.
Proof. induction s as [|c s IH]; cbn; congruence. Qed.

Lemma length_string_of_list_ascii l :
  String.length (string_of_list_ascii l) = length l.
Proof. induction l as [|c l IH]; cbn; congruence. Qed.

Lemma dirname_short (p : string) :
  String.length p <= 1 -> Sample.dirname p = "/" \/ Sample.dirname p = ".".
Proof.
  destruct p as [|c [|c' p']]; cbn; intros H; [by right| |lia].
  unfold Sample.dirname. cbn. destruct (bool_decide (c = Sample.slash)); auto.
Qed.

Lemma dirname_shorter (p : string) :
  2 <= String.length p -> String.length (Sample.dirname p) < String.length p.
Proof.
  intros Hlen. unfold Sample.dirname.
  rewrite <- (length_list_ascii_of_string p) in Hlen |- *.
  destruct (list_ascii_of_string p) as [|first rest]; cbn in Hlen; [lia|].
  destruct (Sample.scan (rev rest) true) as [before|] eqn:Hscan.
  - apply scan_true_length in Hscan. rewrite length_rev in Hscan.
    destruct before as [|b before'].
    + destruct (bool_decide (first = Sample.slash)); cbn in *; lia.
    + rewrite length_string_of_list_ascii. cbn [length] in *.
      rewrite length_rev. cbn [length]. lia.
  - destruct (bool_decide (first = Sample.slash)); cbn; lia.
Qed.

Lemma posix_reaches_root : forall k p,
  String.length p <= k ->
  exists n, n <= k + 1 /\
    ancestor Sample.posix (S n) p = ancestor Sample.posix n p.
Proof.
  induction k as [|k IH]; intros p Hlen.
  - exists 1. split; [lia|]. cbn.
    destruct (dirname_short p ltac:(lia)) as [->| ->]; reflexivity.
  - destruct (decide (String.length p <= 1)) as [Hshort|Hlong].
    + exists 1. split; [lia|]. cbn.
      destruct (dirname_short p Hshort) as [->| ->]; reflexivity.
    + pose proof (dirname_shorter p ltac:(lia)) as Hlt.
      destruct (IH (Sample.dirname p) ltac:(lia)) as (n & Hn & Hfix).
      exists (S n). split; [lia|].
      change (Sample.dirname p) with (path_dirname Sample.posix p) in Hfix.
      by rewrite !ancestor_dirname in Hfix.
Qed.

(** On the sample platform [getConfigArrayForFile] returns or throws for every
    path, given fuel beyond the length of the resolved path. *)
Lemma posix_getConfigArrayForFile_finishes fuel w p s :
  String.length (Sample.resolve (cwd s) (default "a.js" p)) + 1 < fuel ->
  fst (getConfigArrayForFile Sample.posix fuel w p s) <> OutOfFuel.
Proof.
  intros Hfuel.
  destruct (posix_reaches_root _ (Sample.resolve (cwd s) (default "a.js" p))
              (Nat.le_refl _)) as (n & Hn & Hfix).
  unfold getConfigArrayForFile, _loadConfigInAncestors.
  unfold bind at 1. unfold get at 1. unfold bind.
  change (path_resolve Sample.posix) with Sample.resolve.
  pose proof (walk_finishes Sample.posix w n fuel
                (Sample.resolve (cwd s) (default "a.js" p)) s Hfix ltac:(lia)) as Hwalk.
  destruct (_loadConfigInAncestorsRecursive Sample.posix fuel w
              (Sample.resolve (cwd s) (default "a.js" p)) s) as [[raw|e|] s1];
    [|discriminate|done].
  apply finalize_finishes.
Qed.

(** The claim as stated fails: the result depends on more than the [dirname]
    of the resolved path.  [/] and [/a.js] have the same [dirname], [/]; with
    a config file in [/], a new enumerator returns the base array alone for
    [/], whose [dirname] is the path itself, and the base array followed by
    the config of [/] for [/a.js]. *)
Lemma same_dirname_different_result :
  path_dirname Sample.posix (path_resolve Sample.posix (cwd Sample.freshAtRoot) "/") =
  path_dirname Sample.posix (path_resolve Sample.posix (cwd Sample.freshAtRoot) "/a.js") /\
  fst (getConfigArrayForFile Sample.posix 10 Sample.rootWorld (Some "/") Sample.freshAtRoot)
  = Ok 0 /\
  fst (getConfigArrayForFile Sample.posix 10 Sample.rootWorld (Some "/a.js")
         Sample.freshAtRoot) = Ok 2 /\
  getConfigArrayForFile Sample.posix 10 Sample.rootWorld (Some "/") Sample.freshAtRoot
  <> getConfigArrayForFile Sample.posix 10 Sample.rootWorld (Some "/a.js")
       Sample.freshAtRoot.
Proof.
  split_and!; try (vm_compute; reflexivity).
  intros H. apply (f_equal fst) in H. vm_compute in H. discriminate.
Qed.

Lemma walk_ignores_file_system P w statSync readdirSync contains :
  forall fuel p s,
    _loadConfigInAncestorsRecursive P fuel
      (withFileSystem w statSync readdirSync contains) p s
    = _loadConfigInAncestorsRecursive P fuel w p s.
Proof.
  induction fuel as [|fuel IH]; intros p s; [reflexivity|].
  cbn [_loadConfigInAncestorsRecursive].
  destruct (useEslintrc s); [|reflexivity]. cbn [negb].
  destruct (configCache s !! path_dirname P p); [reflexivity|].
  change (consideredRoot (withFileSystem w statSync readdirSync contains) s p
            (path_dirname P p))
    with (consideredRoot w s p (path_dirname P p)).
  destruct (consideredRoot w s p (path_dirname P p)); [reflexivity|].
  change (loadOnDirectory (withFileSystem w statSync readdirSync contains)
            (path_dirname P p) None None s)
    with (loadOnDirectory w (path_dirname P p) None None s).
  destruct (loadOnDirectory w (path_dirname P p) None None s) as [[a|e|] s1];
    try reflexivity.
  cbn [withFileSystem configArray_root].
  destruct ((0 <? length (contents s1 a))%nat && configArray_root w (contents s1 a));
    [reflexivity|].
  destruct (0 <? length (contents s1 a))%nat; unfold bind; cbv beta; by rewrite IH.
Qed.

(** C10 (amended).  [getConfigArrayForFile(filePath)] never looks at the
    file system: with any other [fs.statSync], [fs.readdirSync] and ignore
    predicate it does the same, so it returns the same array or throws the
    same error whether the file exists or not.  What it does depends on the
    path through the [dirname] of the resolved path, and through whether that
    [dirname] is the resolved path itself, as it is for the file system's
    root.  And it comes to an end: with fuel for every level up to a directory
    that is its own [dirname], it returns or throws. *)
Theorem getConfigArrayForFile_ignores_file P fuel w s :
  (forall statSync readdirSync contains p,
     getConfigArrayForFile P fuel (withFileSystem w statSync readdirSync contains) p s
     = getConfigArrayForFile P fuel w p s) /\
  (forall p1 p2,
     let a1 := path_resolve P (cwd s) (default "a.js" p1) in
     let a2 := path_resolve P (cwd s) (default "a.js" p2) in
     path_dirname P a1 = path_dirname P a2 ->
     (path_dirname P a1 = a1 <-> path_dirname P a2 = a2) ->
     getConfigArrayForFile P fuel w p1 s = getConfigArrayForFile P fuel w p2 s) /\
  (forall n p,
     let a := path_resolve P (cwd s) (default "a.js" p) in
     ancestor P (S n) a = ancestor P n a -> n < fuel ->
     fst (getConfigArrayForFile P fuel w p s) <> OutOfFuel).
Proof.
  split; [|split].
  - intros statSync readdirSync contains p.
    unfold getConfigArrayForFile, _loadConfigInAncestors.
    unfold bind at 1 3. unfold get at 1 2. unfold bind at 1 2.
    rewrite walk_ignores_file_system. reflexivity.
  - intros p1 p2 a1 a2 Hdir Hroot.
    unfold getConfigArrayForFile, _loadConfigInAncestors.
    unfold bind at 1 3. unfold get at 1 2. fold a1 a2. rewrite <- Hdir.
    assert (Hwalk : _loadConfigInAncestorsRecursive P fuel w a1 s
                    = _loadConfigInAncestorsRecursive P fuel w a2 s).
    { destruct fuel as [|fuel']; [reflexivity|].
      cbn [_loadConfigInAncestorsRecursive]. rewrite <- Hdir.
      assert (Hc : consideredRoot w s a1 (path_dirname P a1)
                   = consideredRoot w s a2 (path_dirname P a1)).
      { unfold consideredRoot. f_equal. f_equal.
        apply bool_decide_ext. rewrite Hdir at 2. exact Hroot. }
      by rewrite Hc. }
    unfold bind. by rewrite Hwalk.
  - intros n p a Hfix Hfuel.
    unfold getConfigArrayForFile, _loadConfigInAncestors.
    unfold bind at 1. unfold get at 1. fold a. unfold bind.
    pose proof (walk_finishes P w n fuel a s Hfix Hfuel) as Hwalk.
    destruct (_loadConfigInAncestorsRecursive P fuel w a s) as [[raw|e|] s1];
      [|discriminate|done].
    apply finalize_finishes.
Qed.

Lemma getConfigArrayForFile_ignores_file_witness :
  getConfigArrayForFile Sample.posix 10 Sample.project (Some "lib/one.js") Sample.fresh
  = getConfigArrayForFile Sample.posix 10 Sample.project (Some "lib/missing.js")
      Sample.fresh.
Proof.
  apply (proj1 (proj2 (getConfigArrayForFile_ignores_file Sample.posix 10 Sample.project
                         Sample.fresh)) (Some "lib/one.js") (Some "lib/missing.js")).
  - vm_compute. reflexivity.
  - split; intros H; vm_compute in H; discriminate.
Defined.

(** ** Witnesses for C2 and C7 *)

Lemma iterateFiles_pattern_errors_witness :
  fst (iterateFiles Sample.posix 10 Sample.project (inr ["lib/one.js"; "hidden"])
         Sample.fresh)
  = Throw (AllFilesIgnoredError "hidden").
Proof.
  pose proof (proj1 (iterateFiles_pattern_errors Sample.posix 10 Sample.project
    (inr ["lib/one.js"; "hidden"]) ["lib/one.js"] "hidden" []
    {["/tmp/root/lib/one.js"]} Sample.fresh
    (snd (iterateFiles Sample.posix 10 Sample.project (inl "lib/one.js") Sample.fresh))
    (IterWalk "/tmp/root/hidden" 3
       {| dotfiles := false; recursive := true; selector := None |})
    (snd (_iterateFiles Sample.posix 10 Sample.project "hidden"
            (snd (iterateFiles Sample.posix 10 Sample.project (inl "lib/one.js")
                    Sample.fresh))))
    {| foundRegardlessOfIgnored := true; found := false;
       set := {["/tmp/root/lib/one.js"]} |}
    [{| entry_config := 3; entry_filePath := "/tmp/root/hidden/ignored.js";
        flag := IGNORED_SILENTLY |}]
    (snd (iterateFiles Sample.posix 10 Sample.project (inr ["lib/one.js"; "hidden"])
            Sample.fresh))
    ltac:(reflexivity) ltac:(discriminate) ltac:(vm_compute; reflexivity)
    ltac:(vm_compute; reflexivity) ltac:(vm_compute; reflexivity))) as H.
  rewrite H. reflexivity.
Defined.

Lemma configuration_not_found_iff_witness :
  fst (getConfigArrayForFile Sample.posix 10 Sample.noConfigs (Some "one.js")
         Sample.freshNoConfig)
  = Throw (ConfigurationNotFoundError "/work") /\
  fst (getConfigArrayForFile Sample.posix 10 Sample.noConfigs (Some "lib/two.js")
         (snd (getConfigArrayForFile Sample.posix 10 Sample.rootWorld (Some "lib/one.js")
                 Sample.freshAtRoot)))
  <> Throw (ConfigurationNotFoundError "/tmp/root/lib").
Proof.
  split.
  - assert (Hreach : reachable Sample.posix Sample.freshNoConfig).
    { apply (reachable_intro _ _ Sample.noConfigs (Sample.options "/work")
               Sample.freshNoConfig).
      - vm_compute. reflexivity.
      - apply steps_refl. }
    pose proof (proj1 (configuration_not_found_iff Sample.posix) 10 Sample.noConfigs
                  (Some "one.js") Sample.freshNoConfig
                  (fst (getConfigArrayForFile Sample.posix 10 Sample.noConfigs
                          (Some "one.js") Sample.freshNoConfig))
                  (snd (getConfigArrayForFile Sample.posix 10 Sample.noConfigs
                          (Some "one.js") Sample.freshNoConfig))
                  Hreach) as H.
    destruct H as [[_ H] _].
    + vm_compute. reflexivity.
    + vm_compute. discriminate.
    + apply H. split; [vm_compute; reflexivity|].
      exists 0, 0. split_and!; vm_compute; reflexivity.
  - apply (proj1 (proj2 (proj2 (configuration_not_found_iff Sample.posix)))
             Sample.rootWorld (Sample.withBase "/tmp/root") Sample.freshAtRoot
             Sample.freshAtRoot
             (snd (getConfigArrayForFile Sample.posix 10 Sample.rootWorld
                     (Some "lib/one.js") Sample.freshAtRoot))
             10 Sample.noConfigs (Some "lib/two.js")
             (fst (getConfigArrayForFile Sample.posix 10 Sample.noConfigs
                     (Some "lib/two.js")
                     (snd (getConfigArrayForFile Sample.posix 10 Sample.rootWorld
                             (Some "lib/one.js") Sample.freshAtRoot))))
             (snd (getConfigArrayForFile Sample.posix 10 Sample.noConfigs
                     (Some "lib/two.js")
                     (snd (getConfigArrayForFile Sample.posix 10 Sample.rootWorld
                             (Some "lib/one.js") Sample.freshAtRoot))))).
    + left. vm_compute. reflexivity.
    + apply (steps_step _ _ Sample.freshAtRoot Sample.freshAtRoot); [apply steps_refl|].
      apply (step_run _ _ _ _ 10 Sample.rootWorld
               (GetConfigArrayForFile (Some "lib/one.js")) (Ok tt)).
      * discriminate.
      * vm_compute. reflexivity.
      * discriminate.
    + right. left. vm_compute. discriminate.
    + vm_compute. reflexivity.
Defined.

(** ** C9: [toCompatibleObjectAsConfigFileContent] *)

Module ExtractedConfigProperties.

Import ExtractedConfig.

(** The claim as stated fails: the plugin ids are not always in the reverse
    of their insertion order.  With the plugins [react] and [2] added in this
    order, [Object.keys] lists the array index [2] first, so the result is
    [react], [2], which is the insertion order. *)
Lemma plugins_not_reverse_of_insertion :
  getProperty "plugins" (toCompatibleObjectAsConfigFileContent reactTwo)
  = Some (VArray ["react"; "2"]) /\
  rev (map fst (plugins reactTwo)) = ["2"; "react"] /\
  getProperty "plugins" (toCompatibleObjectAsConfigFileContent reactTwo)
  <> Some (VArray (rev (map fst (plugins reactTwo)))).
Proof. split_and!; [reflexivity|reflexivity|discriminate]. Qed.

Lemma indexKeys_no_index (keys : list string) :
  Forall (fun key => arrayIndex key = None) keys -> indexKeys keys = [].
Proof.
  induction 1 as [|key keys Hkey _ IH]; cbn; [done|]. by rewrite Hkey.
Qed.

Lemma Object_keys_no_index {V} (o : list (string * V)) :
  Forall (fun kv => arrayIndex (fst kv) = None) o -> Object_keys o = map fst o.
Proof.
  intros H. unfold Object_keys.
  assert (Hkeys : Forall (fun key => arrayIndex key = None) (map fst o)).
  { induction H; cbn; constructor; auto. }
  rewrite (indexKeys_no_index _ Hkeys). cbn.
  induction Hkeys as [|key keys Hkey _ IH]; cbn; [done|].
  unfold isArrayIndex at 1. rewrite Hkey. cbn. by f_equal.
Qed.

(** C9 (amended).  For every [ExtractedConfig],
    [toCompatibleObjectAsConfigFileContent()] returns an object with the
    properties [env], [globals], [parser], [parserOptions], [plugins], [rules]
    and [settings] and no [processor]: [parser] is the parser's file path when
    there is a parser and [null], a falsy value, otherwise; [plugins] is the
    reverse of [Object.keys] of the plugins, which is the reverse of their
    insertion order when no plugin id is an array index; [env], [globals],
    [parserOptions], [rules] and [settings] are those of the config. *)
Theorem toCompatibleObjectAsConfigFileContent_spec (this : ExtractedConfig) :
  let o := toCompatibleObjectAsConfigFileContent this in
  map fst o = ["env"; "globals"; "parser"; "parserOptions"; "plugins"; "rules";
               "settings"] /\
  (forall p, parser this = Some p ->
     getProperty "parser" o = Some (VString (dep_filePath p))) /\
  (parser this = None ->
     exists v, getProperty "parser" o = Some v /\ falsy v = true) /\
  getProperty "plugins" o = Some (VArray (rev (Object_keys (plugins this)))) /\
  (Forall (fun kv => arrayIndex (fst kv) = None) (plugins this) ->
   getProperty "plugins" o = Some (VArray (rev (map fst (plugins this))))) /\
  getProperty "processor" o = None /\
  getProperty "env" o = Some (VObject (env this)) /\
  getProperty "globals" o = Some (VObject (globals this)) /\
  getProperty "parserOptions" o = Some (VObject (parserOptions this)) /\
  getProperty "rules" o = Some (VObject (rules this)) /\
  getProperty "settings" o = Some (VObject (settings this)).
Proof.
  destruct this as [e g p po pl pr r st]. cbv zeta. cbn [parser plugins].
  assert (Hplugins :
    getProperty "plugins"
      (toCompatibleObjectAsConfigFileContent
         {| env := e; globals := g; parser := p; parserOptions := po;
            plugins := pl; processor := pr; rules := r; settings := st |})
    = Some (VArray (rev (Object_keys pl)))) by (destruct p; reflexivity).
  split; [destruct p; reflexivity|].
  split; [intros p' ->; reflexivity|].
  split; [intros ->; exists VNull; by split|].
  split; [exact Hplugins|].
  split; [intros H; by rewrite <- (Object_keys_no_index pl H)|].
  split_and!; destruct p; reflexivity.
Qed.

Lemma toCompatibleObjectAsConfigFileContent_spec_witness :
  getProperty "plugins" (toCompatibleObjectAsConfigFileContent reactImport)
  = Some (VArray ["import"; "react"]) /\
  getProperty "parser" (toCompatibleObjectAsConfigFileContent reactImport)
  = Some (VString "/tmp/root/node_modules/babel-eslint/index.js").
Proof.
  destruct (toCompatibleObjectAsConfigFileContent_spec reactImport)
    as (_ & Hparser & _ & _ & Hplugins & _).
  split.
  - apply Hplugins. repeat constructor.
  - apply (Hparser _ eq_refl).
Defined.

End ExtractedConfigProperties.

(** * Further properties of the enumerator *)

(** ** Steps that hand nothing to the consumer *)

Lemma configured_refl s : configured s s.
Proof. by split. Qed.

Lemma configured_trans s1 s2 s3 : configured s1 s2 -> configured s2 s3 -> configured s1 s3.
Proof. intros [] []. split; congruence. Qed.

Lemma quiet_refl s : quiet s s.
Proof. split; auto using configured_refl. Qed.

Lemma quiet_trans s1 s2 s3 : quiet s1 s2 -> quiet s2 s3 -> quiet s1 s3.
Proof.
  intros [C1 Y1] [C2 Y2]. split; [eapply configured_trans; eassumption|congruence].
Qed.

Lemma yielded_logged s c :
  yielded (logged c s) = (yielded s ++ match yieldOf c with Some e => [e] | None => [] end)%list.
Proof. unfold yielded. cbn. rewrite omap_app. cbn. by destruct (yieldOf c). Qed.

Lemma quiet_logged s c : isCall c = true -> quiet s (logged c s).
Proof.
  intros Hc. split; [by split|]. rewrite yielded_logged.
  destruct c; try discriminate; cbn; by rewrite app_nil_r.
Qed.

Lemma quiet_allocated s es : quiet s (allocated es s).
Proof. split; [by split|done]. Qed.

Lemma quiet_set_store s h n : quiet s (set_store h n s).
Proof. split; [by split|done]. Qed.

Lemma quiet_set_configCache s c : quiet s (set_configCache c s).
Proof. split; [by split|done]. Qed.

Lemma quiet_set_finalizeCache s c : quiet s (set_finalizeCache c s).
Proof. split; [by split|done]. Qed.

Create HintDb quiet.
#[local] Hint Resolve quiet_refl quiet_allocated quiet_set_store quiet_set_configCache
  quiet_set_finalizeCache : quiet.

Lemma loadOnDirectory_quiet w d nm parent s r s' :
  loadOnDirectory w d nm parent s = (r, s') -> loading s s'.
Proof.
  unfold loading. intros H. apply loadOnDirectory_cases in H. cbv zeta in H.
  assert (Q : quiet s (logged (CallLoadOnDirectory d nm) s)) by by apply quiet_logged.
  destruct (factory_loadOnDirectory w d nm) as [es|e].
  - destruct parent as [p|]; [destruct es|]; destruct H as [_ ->]; split_and!; auto;
      (eapply quiet_trans; [exact Q|apply quiet_allocated]).
  - destruct H as [_ ->]. by split_and!.
Qed.

Lemma ancestors_quiet P w fuel : forall p s r s',
  _loadConfigInAncestorsRecursive P fuel w p s = (r, s') ->
  quiet s s' /\ finalizeCache s' = finalizeCache s /\
  baseConfigArray s' = baseConfigArray s /\ cliConfigArray s' = cliConfigArray s.
Proof.
  induction fuel as [|fuel IH]; intros p s r s' H.
  - cbn in H. injection H as <- <-. split_and!; auto with quiet.
  - destruct (useEslintrc s) eqn:Huse.
    2:{ cbn [_loadConfigInAncestorsRecursive] in H. rewrite Huse in H. cbn in H.
        injection H as <- <-. split_and!; auto with quiet. }
    destruct (configCache s !! path_dirname P p) as [c|] eqn:Hc.
    { cbn [_loadConfigInAncestorsRecursive] in H. rewrite Huse, Hc in H. cbn in H.
      injection H as <- <-. split_and!; auto with quiet. }
    destruct (consideredRoot w s p (path_dirname P p)) eqn:Hroot.
    { rewrite walk_stop in H by assumption. injection H as <- <-.
      split_and!; auto with quiet. }
    assert (Q : quiet s (logged (CallLoadOnDirectory (path_dirname P p) None) s))
      by by apply quiet_logged.
    destruct (factory_loadOnDirectory w (path_dirname P p) None) as [es|j] eqn:Hload.
    + destruct (decide (es <> [] /\ configArray_root w es = true)) as [[Hne Hr]|Hno].
      * rewrite (walk_root P w fuel p s Huse Hc Hroot es) in H by assumption.
        injection H as <- <-. split_and!; auto.
        eapply quiet_trans; [exact Q|].
        eapply quiet_trans; [apply quiet_allocated|apply quiet_set_configCache].
      * assert (Hes : es = [] \/ configArray_root w es = false).
        { destruct es; [by left|]. right.
          destruct (configArray_root w (c :: es)) eqn:E; [|done].
          exfalso. apply Hno. by split. }
        rewrite (walk_ascend P w fuel p s Huse Hc Hroot es Hload Hes) in H.
        destruct (_loadConfigInAncestorsRecursive P fuel w (path_dirname P p) _)
          as [r2 s2] eqn:Hrec.
        apply IH in Hrec. destruct Hrec as (Q2 & F2 & B2 & C2).
        assert (Q' : quiet s s2).
        { eapply quiet_trans; [exact Q|].
          eapply quiet_trans; [apply quiet_allocated|exact Q2]. }
        destruct r2 as [parent|e|].
        -- destruct es; injection H as <- <-; split_and!; auto.
           ++ eapply quiet_trans; [exact Q'|apply quiet_set_configCache].
           ++ eapply quiet_trans; [exact Q'|].
              eapply quiet_trans; [apply quiet_set_store|apply quiet_set_configCache].
        -- injection H as <- <-. by split_and!.
        -- injection H as <- <-. by split_and!.
    + destruct (decide (code j = "EACCES")) as [He|He].
      * rewrite (walk_eacces P w fuel p s Huse Hc Hroot j) in H by assumption.
        injection H as <- <-. split_and!; auto.
        eapply quiet_trans; [exact Q|apply quiet_set_configCache].
      * rewrite (walk_error P w fuel p s Huse Hc Hroot j) in H by assumption.
        injection H as <- <-. by split_and!.
Qed.

Lemma finalize_quiet w a dir s r s' :
  _finalizeConfigArray w a dir s = (r, s') ->
  quiet s s' /\ configCache s' = configCache s /\
  baseConfigArray s' = baseConfigArray s /\ cliConfigArray s' = cliConfigArray s.
Proof.
  intros H. destruct (finalizeCache s !! a) as [f|] eqn:Hf.
  - rewrite (finalize_hit _ _ _ _ _ Hf) in H. injection H as <- <-.
    split_and!; auto with quiet.
  - rewrite (finalize_miss _ _ _ _ Hf) in H.
    assert (exists r1 s1,
      (if wantsPersonalConfig s a
       then loadOnDirectory w (os_homedir w) (Some "PersonalConfig") (Some a) s
       else (Ok a, s)) = (r1, s1) /\
      quiet s s1 /\ configCache s1 = configCache s /\
      baseConfigArray s1 = baseConfigArray s /\ cliConfigArray s1 = cliConfigArray s)
      as (r1 & s1 & E & Q1 & C1 & B1 & L1).
    { destruct (wantsPersonalConfig s a).
      - destruct (loadOnDirectory w (os_homedir w) (Some "PersonalConfig") (Some a) s)
          as [r1 s1] eqn:E.
        exists r1, s1. split; [done|]. apply loadOnDirectory_quiet in E.
        unfold loading in E. tauto.
      - exists (Ok a), s. split_and!; auto with quiet. }
    rewrite E in H. destruct r1 as [f1|e|].
    2,3: injection H as <- <-; by split_and!.
    destruct (0 <? length (contents s1 (cliConfigArray s1)))%nat.
    + destruct (validateConfigArray w _); injection H as <- <-; split_and!; auto.
      * eapply quiet_trans; [exact Q1|apply quiet_allocated].
      * eapply quiet_trans; [exact Q1|].
        eapply quiet_trans; [|apply quiet_set_finalizeCache]. apply quiet_allocated.
    + destruct (validateConfigArray w _); injection H as <- <-; split_and!; auto.
      eapply quiet_trans; [exact Q1|apply quiet_set_finalizeCache].
Qed.

Lemma loading_refl s : loading s s.
Proof. unfold loading. split_and!; auto with quiet. Qed.

Lemma loadConfigOnDirectory_quiet w d parent s r s' :
  _loadConfigOnDirectory w d parent s = (r, s') -> loading s s'.
Proof.
  unfold _loadConfigOnDirectory. unfold bind at 1. unfold get.
  destruct (useEslintrc s); cbn [negb].
  - apply loadOnDirectory_quiet.
  - intros [= <- <-]. apply loading_refl.
Qed.

(** ** Loops: what holds of the variables throughout holds at the end *)

Lemma ends_ok {A} (I : A -> State -> Prop) a s : I a s -> ends I (Ok a) s.
Proof. done. Qed.

Lemma ends_any {A} (I : A -> State -> Prop) r a s :
  (forall a', r = Ok a' -> a' = a) -> I a s -> ends I r s.
Proof.
  intros Hr HI. destruct r as [a'| |]; cbn; eauto.
  by rewrite (Hr a' eq_refl).
Qed.

Lemma forEach_ends {X A} (body : X -> A -> M A) (I : A -> State -> Prop) (Q : X -> Prop) :
  (forall x acc s r s', Q x -> I acc s -> body x acc s = (r, s') -> ends I r s') ->
  forall xs acc s r s',
    Forall Q xs -> I acc s -> forEach body xs acc s = (r, s') -> ends I r s'.
Proof.
  intros Hbody. induction xs as [|x xs IH]; intros acc s r s' HQ HI H.
  - injection H as <- <-. exact HI.
  - cbn in H. unfold bind in H. inversion HQ; subst.
    destruct (body x acc s) as [r1 s1] eqn:E. specialize (Hbody _ _ _ _ _ H2 HI E).
    destruct r1 as [acc1|e|].
    + exact (IH _ _ _ _ H3 Hbody H).
    + injection H as <- <-. exact Hbody.
    + injection H as <- <-. exact Hbody.
Qed.

Lemma isIgnoredFile_run w p d dr s :
  _isIgnoredFile w p d dr s = (Ok (isIgnored w s p d dr), s).
Proof. reflexivity. Qed.

Lemma statSafeSync_run w p s :
  statSafeSync w p s =
  (match fs_statSync w p with
   | Returned st => Ok (Some st)
   | Raised e => if bool_decide (code e = "ENOENT") then Ok None else Throw (ExternalError e)
   end, s).
Proof.
  unfold statSafeSync. destruct (fs_statSync w p) as [st|e]; [done|].
  by destruct (bool_decide (code e = "ENOENT")).
Qed.

Lemma readdirSafeSync_run w p s :
  readdirSafeSync w p s =
  (match fs_readdirSync w p with
   | Returned l => Ok l
   | Raised e => if bool_decide (code e = "ENOENT") then Ok [] else Throw (ExternalError e)
   end, s).
Proof.
  unfold readdirSafeSync. destruct (fs_readdirSync w p) as [st|e]; [done|].
  by destruct (bool_decide (code e = "ENOENT")).
Qed.

Lemma walked_deeper P w options d filename filenames e s :
  fs_readdirSync w d = Returned filenames -> In filename filenames ->
  walked P w options (path_join P d filename) e s -> walked P w options d e s.
Proof. intros Hr Hin []. split; auto. eapply inside_deeper; eauto. Qed.

Lemma walk_ends {A} P w (yield : FileEntry -> A -> M A) options (I : A -> State -> Prop) :
  (forall acc s s', I acc s -> loading s s' -> I acc s') ->
  forall fuel d parent acc s r s',
    (forall e acc s r s',
       I acc s -> walked P w options d e s -> yield e acc s = (r, s') -> ends I r s') ->
    I acc s ->
    _iterateFilesRecursive P yield fuel w d parent options acc s = (r, s') ->
    ends I r s'.
Proof.
  intros Hstable. induction fuel as [|fuel IH]; intros d parent acc s r s' Hyield HI H.
  - injection H as <- <-. by exists acc.
  - cbn [_iterateFilesRecursive] in H. unfold bind at 1 in H.
    rewrite isIgnoredFile_run in H.
    destruct (isIgnored w s d (dotfiles options) false).
    { injection H as <- <-. exact HI. }
    unfold bind at 1 in H.
    destruct (_loadConfigOnDirectory w d parent s) as [r1 s1] eqn:E1.
    apply loadConfigOnDirectory_quiet in E1.
    assert (HI1 : I acc s1) by eauto.
    destruct r1 as [config|e|].
    2,3: injection H as <- <-; by exists acc.
    unfold bind at 1 in H. rewrite readdirSafeSync_run in H.
    destruct (fs_readdirSync w d) as [filenames|e] eqn:Hread.
    2:{ destruct (bool_decide (code e = "ENOENT")); cbn in H; injection H as <- <-.
        - exact HI1.
        - by exists acc. }
    revert H. apply forEach_ends with (Q := fun x => In x filenames); auto.
    2:{ apply List.Forall_forall; auto. }
    clear dependent s. clear dependent acc. clear dependent s1.
    intros filename acc s r0 s0 Hin HI H.
    unfold bind at 1 in H. rewrite statSafeSync_run in H.
    destruct (fs_statSync w (path_join P d filename)) as [st|e] eqn:Hstat.
    2:{ destruct (bool_decide (code e = "ENOENT")).
        - cbn [isFileStat isDirectoryStat] in H. rewrite andb_false_r in H.
          injection H as <- <-. exact HI.
        - injection H as <- <-. by exists acc. }
    cbn [isFileStat isDirectoryStat] in H.
    destruct (isFile st) eqn:Hfile.
    + unfold bind at 1 in H. rewrite isIgnoredFile_run in H.
      unfold bind at 1 in H. unfold get in H.
      match type of H with
      | (if ?m then _ else _) _ = _ => destruct m eqn:Hm
      end.
      * revert H. apply Hyield; auto. split; cbn.
        -- eapply inside_here; eauto.
        -- eauto.
        -- done.
        -- by destruct (selector options).
      * injection H as <- <-. exact HI.
    + destruct (recursive options && isDirectory st).
      * revert H. apply IH; auto.
        intros e acc' t r' t' HI' Hw. apply Hyield; auto.
        eapply walked_deeper; eauto.
      * injection H as <- <-. exact HI.
Qed.

Lemma forOf_ends {A} P fuel w iter (body : FileEntry -> A -> M A)
    (I : A -> State -> Prop) :
  (forall acc s s', I acc s -> loading s s' -> I acc s') ->
  (forall e acc s r s',
     I acc s ->
     match iter with
     | IterArray entries => In e entries
     | IterWalk d _ options => walked P w options d e s
     end ->
     body e acc s = (r, s') -> ends I r s') ->
  forall acc s r s',
    I acc s -> forOf P fuel w iter body acc s = (r, s') -> ends I r s'.
Proof.
  intros Hstable Hbody acc s r s' HI H. destruct iter as [entries|d parent options].
  - revert H. apply forEach_ends with (Q := fun e => In e entries); auto.
    + intros; eapply Hbody; eauto.
    + apply List.Forall_forall; auto.
  - revert H. apply walk_ends; auto.
Qed.

(** ** What the directory walk yields *)

(** X1.  The entries a walk over a directory hands to its loop, whatever the loop
    does with them: paths [fs.readdirSync] found below the directory, which
    [fs.statSync] reports as files, which the selector accepts, flagged
    [NONE] or [IGNORED_SILENTLY] and never [IGNORED]. *)
Theorem walk_yields_found_files {A} P w fuel d parent options
    (body : FileEntry -> A -> M A) acc s acc' entries s' :
  _iterateFilesRecursive P (traced body) fuel w d parent options (acc, []) s
  = (Ok (acc', entries), s') ->
  Forall (fun e =>
            inside P w d (entry_filePath e) /\
            (exists stat,
               fs_statSync w (entry_filePath e) = Returned stat /\ isFile stat = true) /\
            (flag e = NONE \/ flag e = IGNORED_SILENTLY) /\
            (forall pattern, selector options = Some pattern ->
               minimatch_match P pattern (entry_filePath e) = true)) entries.
Proof.
  intros H.
  set (Q := fun e : FileEntry =>
            inside P w d (entry_filePath e) /\
            (exists stat,
               fs_statSync w (entry_filePath e) = Returned stat /\ isFile stat = true) /\
            (flag e = NONE \/ flag e = IGNORED_SILENTLY) /\
            (forall pattern, selector options = Some pattern ->
               minimatch_match P pattern (entry_filePath e) = true)).
  change (ends (fun (p : A * list FileEntry) (_ : State) => Forall Q (snd p))
            (Ok (acc', entries)) s').
  revert H. apply walk_ends; auto.
  clear. intros e [a received] s r s' HI Hw H. cbn in HI.
  unfold traced, bind in H. cbn [fst snd] in H.
  destruct (body e a s) as [[a'| |] s1].
  2,3: injection H as <- <-; by exists (a, received).
  injection H as <- <-. cbn. apply Forall_app. split; [done|].
  constructor; [|done]. destruct Hw as [Hin Hfile Hflag Hm]. unfold Q. split_and!; auto.
  - rewrite Hflag. destruct (isIgnored _ _ _ _ _); auto.
  - intros pattern Hsel. by rewrite Hsel in Hm.
Qed.

Lemma walk_yields_found_files_witness :
  Forall (fun e =>
            inside Sample.posix Sample.project "/tmp/root/lib" (entry_filePath e) /\
            (exists stat,
               fs_statSync Sample.project (entry_filePath e) = Returned stat /\
               isFile stat = true) /\
            (flag e = NONE \/ flag e = IGNORED_SILENTLY) /\
            (forall pattern, Some "/tmp/root/lib/**/*.js" = Some pattern ->
               minimatch_match Sample.posix pattern (entry_filePath e) = true))
    [{| entry_config := 2; entry_filePath := "/tmp/root/lib/nested/one.js"; flag := NONE |};
     {| entry_config := 2; entry_filePath := "/tmp/root/lib/nested/two.js"; flag := NONE |};
     {| entry_config := 0; entry_filePath := "/tmp/root/lib/one.js"; flag := NONE |};
     {| entry_config := 0; entry_filePath := "/tmp/root/lib/two.js"; flag := NONE |}].
Proof.
  apply (walk_yields_found_files Sample.posix Sample.project 10 "/tmp/root/lib" 0
           {| dotfiles := false; recursive := true;
              selector := Some "/tmp/root/lib/**/*.js" |}
           (fun _ (n : nat) => ret (S n)) 0 Sample.fresh 4 _
           (snd (_iterateFilesRecursive Sample.posix
                   (traced (fun _ (n : nat) => ret (S n))) 10 Sample.project
                   "/tmp/root/lib" 0
                   {| dotfiles := false; recursive := true;
                      selector := Some "/tmp/root/lib/**/*.js" |}
                   (0, []) Sample.fresh))).
  vm_compute. reflexivity.
Defined.

(** ** What [iterateFiles] hands to its consumer *)

Lemma iterateFiles_iter_quiet P fuel w pattern s r s' :
  _iterateFiles P fuel w pattern s = (r, s') ->
  quiet s s' /\
  forall entries, r = Ok (IterArray entries) ->
    entries = [] \/
    exists c,
      entries = [{| entry_config := c;
                    entry_filePath := path_resolve P (cwd s) pattern;
                    flag := if isIgnored w s (path_resolve P (cwd s) pattern) false true
                            then IGNORED else NONE |}].
Proof.
  unfold _iterateFiles. unfold bind at 1. unfold get.
  destruct (globInputPaths s && isGlobPattern P pattern).
  { unfold _iterateFilesWithGlob, _loadConfigInAncestors, bind.
    destruct (_loadConfigInAncestorsRecursive _ _ _ _ _) as [[c| |] s1] eqn:E;
      apply ancestors_quiet in E; intros [= <- <-]; split; try tauto; by intros ? [=]. }
  unfold bind at 1. rewrite statSafeSync_run.
  destruct (fs_statSync w _) as [st|e]; cbn [isDirectoryStat isFileStat].
  2:{ destruct (bool_decide _); cbn [isDirectoryStat isFileStat].
      - intros [= <- <-]. split; auto with quiet. intros ? [= <-]. by left.
      - intros [= <- <-]. split; auto with quiet. by intros ? [=]. }
  destruct (isDirectory st).
  { unfold _iterateFilesWithDirectory, _loadConfigInAncestors, bind.
    destruct (_loadConfigInAncestorsRecursive _ _ _ _ _) as [[c| |] s1] eqn:E;
      apply ancestors_quiet in E; intros [= <- <-]; split; try tauto; by intros ? [=]. }
  destruct (isFile st).
  2:{ intros [= <- <-]. split; auto with quiet. intros ? [= <-]. by left. }
  unfold _iterateFilesWithFile, _loadConfigInAncestors. unfold bind at 1.
  destruct (_loadConfigInAncestorsRecursive _ _ _ _ _) as [[c| |] s1] eqn:E;
    apply ancestors_quiet in E; destruct E as ([C Y] & _).
  2,3: intros [= <- <-]; split; [by split|by intros ? [=]].
  unfold bind. rewrite isIgnoredFile_run. intros [= <- <-]. split; [by split|].
  intros ? [= <-]. right. exists c. unfold isIgnored. by destruct C as [_ _ _ _ _ -> _ _ _].
Qed.

Lemma received_quiet P w patterns s0 set s s' :
  received P w patterns s0 set s -> quiet s s' -> received P w patterns s0 set s'.
Proof.
  intros (C0 & new & Hy & H) [C Y]. split; [by eapply configured_trans|].
  exists new. by rewrite Y.
Qed.

Lemma iterateFiles_body_received P w patterns s0 e l s r s' :
  received P w patterns s0 (set l) s ->
  (flag e = IGNORED ->
   exists pattern,
     In pattern patterns /\
     entry_filePath e = path_resolve P (cwd s0) pattern /\
     isIgnored w s0 (entry_filePath e) false true = true) ->
  iterateFiles_body P w e l s = (r, s') ->
  ends (fun l t => received P w patterns s0 (set l) t) r s'.
Proof.
  intros HI Hflag. unfold iterateFiles_body.
  destruct (bool_decide (flag e = IGNORED_SILENTLY)).
  { intros [= <- <-]. exact HI. }
  destruct (bool_decide (entry_filePath e ∈ set l)) eqn:Hin; cbn [negb].
  { intros [= <- <-]. exact HI. }
  apply bool_decide_eq_false in Hin.
  unfold bind at 1.
  destruct (_finalizeConfigArray w (entry_config e) _ s) as [[final| |] s1] eqn:E;
    apply finalize_quiet in E; destruct E as (Q & _).
  2,3: intros [= <- <-]; exists l; by eapply received_quiet.
  intros [= <- <-]. cbn.
  destruct (received_quiet _ _ _ _ _ _ _ HI Q) as (C & new & Hy & Hnd & Hset & Hign).
  split; [by destruct C|].
  exists (new ++ [{| config := final; fc_filePath := entry_filePath e;
                     ignored := bool_decide (flag e = IGNORED) |}])%list.
  split_and!.
  - fold (logged (Yield {| config := final; fc_filePath := entry_filePath e;
                           ignored := bool_decide (flag e = IGNORED) |}) s1).
    rewrite yielded_logged, Hy. cbn. by rewrite app_assoc.
  - rewrite map_app. apply NoDup_app. split_and!; auto.
    + intros p Hp ->%list_elem_of_singleton.
      apply list_elem_of_In, in_map_iff in Hp. destruct Hp as (fc & Hfc & Hp).
      apply Hset in Hp. rewrite Hfc in Hp. done.
    + cbn. apply NoDup_singleton.
  - intros fc [Hfc|[<-|[]]]%in_app_or.
    + apply Hset in Hfc. set_solver.
    + cbn. set_solver.
  - apply Forall_app. split; [done|]. constructor; [|done]. cbn.
    intros Hf%bool_decide_eq_true. auto.
Qed.

Lemma isIgnored_configured w s s' p d dr :
  configured s s' -> isIgnored w s' p d dr = isIgnored w s p d dr.
Proof. intros C. unfold isIgnored. by rewrite (configured_ignoreFlag _ _ C). Qed.

Lemma iterateFiles_pattern_received P fuel w g patterns s0 pattern set0 s r s' :
  In pattern patterns ->
  received P w patterns s0 set0 s ->
  iterateFiles_pattern P fuel w g pattern set0 s = (r, s') ->
  ends (fun set t => received P w patterns s0 set t) r s'.
Proof.
  intros Hin HI. unfold iterateFiles_pattern.
  destruct (bool_decide (pattern = EmptyString)).
  { intros [= <- <-]. exact HI. }
  unfold bind at 1.
  destruct (_iterateFiles P fuel w pattern s) as [r1 s1] eqn:E.
  apply iterateFiles_iter_quiet in E. destruct E as [Q1 Hiter].
  assert (HI1 : received P w patterns s0 set0 s1) by by eapply received_quiet.
  destruct r1 as [iter|e|].
  2,3: intros [= <- <-]; by exists set0.
  unfold bind at 1.
  destruct (forOf P fuel w iter (iterateFiles_body P w) _ s1) as [r2 s2] eqn:E2.
  assert (H2 : ends (fun l t => received P w patterns s0 (set l) t) r2 s2).
  { revert E2. apply forOf_ends; auto.
    - intros acc t t' Ht (Q & _). by eapply received_quiet.
    - intros e acc t r' t' Ht He. apply iterateFiles_body_received; auto.
      intros Hflag. destruct iter as [entries|d parent options].
      + destruct (Hiter _ eq_refl) as [->|[c ->]]; [done|].
        destruct He as [<-|[]]. cbn in *. exists pattern.
        destruct HI as [C _].
        rewrite <- (isIgnored_configured w s0 s _ _ _ C).
        rewrite (configured_cwd _ _ C) in *. split_and!; auto.
        revert Hflag. unfold IGNORED, NONE.
        by destruct (isIgnored w s _ false true).
      + destruct He as [_ _ Hf _]. rewrite Hf in Hflag. exfalso. revert Hflag.
        unfold IGNORED, IGNORED_SILENTLY, NONE.
        match goal with |- context [isIgnored ?a ?b ?c ?d ?f] =>
          destruct (isIgnored a b c d f) end; lia. }
  destruct r2 as [l|e|].
  2,3: intros [= <- <-]; destruct H2 as [l H2]; by exists (set l).
  cbn in H2.
  destruct (foundRegardlessOfIgnored l); cbn [negb].
  2:{ intros [= <- <-]. by exists (set l). }
  destruct (found l); cbn [negb].
  2:{ intros [= <- <-]. by exists (set l). }
  intros [= <- <-]. exact H2.
Qed.

Lemma iterateFiles_received P fuel w patternOrPatterns s r s' :
  iterateFiles P fuel w patternOrPatterns s = (r, s') ->
  exists set,
    received P w
      (match patternOrPatterns with inl pattern => [pattern] | inr patterns => patterns end)
      s set s'.
Proof.
  unfold iterateFiles. unfold bind at 1. unfold get. unfold bind.
  set (patterns := match patternOrPatterns with
                   | inl pattern => [pattern] | inr patterns => patterns end).
  destruct (forEach _ patterns ∅ s) as [r1 s1] eqn:E.
  assert (H : ends (fun set t => received P w patterns s set t) r1 s1).
  { revert E. apply forEach_ends with (Q := fun p => In p patterns).
    - intros x acc t r' t' Hx Ht. by apply iterateFiles_pattern_received.
    - apply List.Forall_forall; auto.
    - split; [apply configured_refl|]. exists []. rewrite app_nil_r.
      split_and!; auto; [constructor|intros ? []]. }
  destruct r1 as [set1|e|]; intros [= <- <-]; cbn in H; eauto.
Qed.

(** X2.  One call of [iterateFiles] never hands the same path to its consumer
    twice, however the patterns overlap and however the call ends. *)
Theorem iterateFiles_yields_each_path_once P fuel w patternOrPatterns s r s' :
  iterateFiles P fuel w patternOrPatterns s = (r, s') ->
  exists new,
    yielded s' = (yielded s ++ new)%list /\ NoDup (map fc_filePath new).
Proof.
  intros H. apply iterateFiles_received in H.
  destruct H as (set & _ & new & Hy & Hnd & _). eauto.
Qed.

(** X3.  [iterateFiles] hands over an entry with [ignored: true] only for a file
    that one of the patterns names directly (the pattern resolves to its path)
    and that [_isIgnoredFile] rejects as a direct file: never for a file found
    through a directory or a glob, and never when the [ignore] option is off. *)
Theorem iterateFiles_ignored_only_direct P fuel w patternOrPatterns s r s' :
  iterateFiles P fuel w patternOrPatterns s = (r, s') ->
  exists new,
    yielded s' = (yielded s ++ new)%list /\
    forall fc, In fc new -> ignored fc = true ->
      ignoreFlag s = true /\
      ignoredPaths_contains w false (fc_filePath fc) false = true /\
      exists pattern,
        In pattern (match patternOrPatterns with
                    | inl pattern => [pattern] | inr patterns => patterns end) /\
        fc_filePath fc = path_resolve P (cwd s) pattern.
Proof.
  intros H. apply iterateFiles_received in H.
  destruct H as (set & _ & new & Hy & _ & _ & Hign). exists new. split; [done|].
  intros fc Hfc Hi. rewrite List.Forall_forall in Hign.
  destruct (Hign fc Hfc Hi) as (pattern & Hin & Hp & Hig).
  unfold isIgnored in Hig. destruct (ignoreFlag s); [|done]. eauto.
Qed.

Lemma iterateFiles_yields_each_path_once_witness :
  exists new,
    yielded (snd (iterateFiles Sample.posix 10 Sample.project
                    (inr ["lib/one.js"; "lib/*.js"]) Sample.fresh))
    = (yielded Sample.fresh ++ new)%list /\
    NoDup (map fc_filePath new).
Proof.
  apply (iterateFiles_yields_each_path_once Sample.posix 10 Sample.project
           (inr ["lib/one.js"; "lib/*.js"]) Sample.fresh
           (fst (iterateFiles Sample.posix 10 Sample.project
                   (inr ["lib/one.js"; "lib/*.js"]) Sample.fresh))).
  vm_compute. reflexivity.
Defined.

Lemma iterateFiles_ignored_only_direct_witness :
  exists new,
    yielded (snd (iterateFiles Sample.posix 10 Sample.project
                    (inl "hidden/ignored.js") Sample.fresh))
    = (yielded Sample.fresh ++ new)%list /\
    forall fc, In fc new -> ignored fc = true ->
      ignoreFlag Sample.fresh = true /\
      ignoredPaths_contains Sample.project false (fc_filePath fc) false = true /\
      exists pattern,
        In pattern ["hidden/ignored.js"] /\
        fc_filePath fc = path_resolve Sample.posix (cwd Sample.fresh) pattern.
Proof.
  apply (iterateFiles_ignored_only_direct Sample.posix 10 Sample.project
           (inl "hidden/ignored.js") Sample.fresh
           (fst (iterateFiles Sample.posix 10 Sample.project
                   (inl "hidden/ignored.js") Sample.fresh))).
  vm_compute. reflexivity.
Defined.

(** ** Patterns that name a path *)

Lemma iterateFiles_single P fuel w pattern s :
  iterateFiles P fuel w (inl pattern) s =
  match iterateFiles_pattern P fuel w (globInputPaths s) pattern ∅ s with
  | (Ok _, s') => (Ok tt, s')
  | (Throw e, s') => (Throw e, s')
  | (OutOfFuel, s') => (OutOfFuel, s')
  end.
Proof.
  unfold iterateFiles. unfold bind at 1. unfold get. cbn [forEach]. unfold bind.
  by destruct (iterateFiles_pattern _ _ _ _ _ _ _) as [[?| |] ?].
Qed.

(** X4.  A pattern that is not taken as a glob and names no file or directory:
    when [fs.statSync] reports [ENOENT], or something that is neither a file
    nor a directory, [iterateFiles] throws [NoFilesFoundError], with
    [globDisabled] set when the pattern is a glob that the [globInputPaths]
    option disabled; any other error of [fs.statSync] is rethrown as it is.
    In each case nothing is loaded and nothing is yielded. *)
Theorem iterateFiles_missing_path P fuel w pattern s :
  pattern <> EmptyString ->
  globInputPaths s && isGlobPattern P pattern = false ->
  let absolutePath := path_resolve P (cwd s) pattern in
  let notFound :=
    NoFilesFoundError pattern (negb (globInputPaths s) && isGlob P pattern) in
  (forall e, fs_statSync w absolutePath = Raised e -> code e = "ENOENT" ->
     iterateFiles P fuel w (inl pattern) s = (Throw notFound, s)) /\
  (forall e, fs_statSync w absolutePath = Raised e -> code e <> "ENOENT" ->
     iterateFiles P fuel w (inl pattern) s = (Throw (ExternalError e), s)) /\
  (forall stat, fs_statSync w absolutePath = Returned stat ->
     isDirectory stat = false -> isFile stat = false ->
     iterateFiles P fuel w (inl pattern) s = (Throw notFound, s)).
Proof.
  intros Hne Hglob absolutePath notFound.
  assert (E : iterateFiles_pattern P fuel w (globInputPaths s) pattern ∅ s =
              match fs_statSync w absolutePath with
              | Raised e =>
                  if bool_decide (code e = "ENOENT") then (Throw notFound, s)
                  else (Throw (ExternalError e), s)
              | Returned stat =>
                  if isDirectory stat || isFile stat
                  then iterateFiles_pattern P fuel w (globInputPaths s) pattern ∅ s
                  else (Throw notFound, s)
              end).
  { destruct (fs_statSync w absolutePath) as [stat|e] eqn:Hstat.
    - destruct (isDirectory stat) eqn:Hd; [done|].
      destruct (isFile stat) eqn:Hf; [done|]. cbn [orb].
      unfold iterateFiles_pattern. rewrite bool_decide_eq_false_2 by done.
      unfold _iterateFiles. unfold bind at 1 2. unfold get. rewrite Hglob.
      unfold bind at 1. rewrite statSafeSync_run. fold absolutePath. rewrite Hstat.
      cbn [isDirectoryStat isFileStat]. rewrite Hd, Hf. reflexivity.
    - unfold iterateFiles_pattern. rewrite bool_decide_eq_false_2 by done.
      unfold _iterateFiles. unfold bind at 1 2. unfold get. rewrite Hglob.
      unfold bind at 1. rewrite statSafeSync_run. fold absolutePath. rewrite Hstat.
      by destruct (bool_decide (code e = "ENOENT")). }
  rewrite iterateFiles_single, E. split_and!.
  - intros e -> He. by rewrite bool_decide_eq_true_2.
  - intros e -> He. by rewrite bool_decide_eq_false_2.
  - intros stat -> -> ->. reflexivity.
Qed.

Lemma iterateFiles_missing_path_witness :
  iterateFiles Sample.posix 10 Sample.project (inl "lib/missing.js") Sample.fresh
  = (Throw (NoFilesFoundError "lib/missing.js" false), Sample.fresh).
Proof.
  apply (proj1 (iterateFiles_missing_path Sample.posix 10 Sample.project
                  "lib/missing.js" Sample.fresh ltac:(discriminate)
                  ltac:(vm_compute; reflexivity)) Sample.enoent).
  - vm_compute. reflexivity.
  - reflexivity.
Defined.

Ltac thrown H :=
  first [discriminate H | injection H as <- <-; eauto].

Lemma finalize_throw_kinds w a dir s e s' :
  _finalizeConfigArray w a dir s = (Throw e, s') ->
  e = ConfigurationNotFoundError dir \/ exists j, e = ExternalError j.
Proof.
  intros H. destruct (finalizeCache s !! a) as [f|] eqn:Hf.
  - rewrite (finalize_hit _ _ _ _ _ Hf) in H.
    destruct (useEslintrc s && _); thrown H.
  - rewrite (finalize_miss _ _ _ _ Hf) in H.
    destruct (wantsPersonalConfig s a).
    + destruct (loadOnDirectory w (os_homedir w) (Some "PersonalConfig") (Some a) s)
        as [r1 s1] eqn:E.
      apply loadOnDirectory_cases in E. cbv zeta in E.
      destruct r1 as [f1|e1|].
      * destruct (0 <? length (contents s1 (cliConfigArray s1)))%nat;
          cbv beta iota zeta in H;
          destruct (validateConfigArray w _); try thrown H;
          match type of H with
          | ((if ?b then _ else _), _) = _ => destruct b; thrown H
          end.
      * injection H as <- <-.
        destruct (factory_loadOnDirectory w (os_homedir w) (Some "PersonalConfig")) as [[|]|j];
          destruct E as [E _]; try discriminate. injection E as ->. eauto.
      * discriminate.
    + destruct (0 <? length (contents s (cliConfigArray s)))%nat;
        cbv beta iota zeta in H;
        destruct (validateConfigArray w _); try thrown H;
        match type of H with
        | ((if ?b then _ else _), _) = _ => destruct b; thrown H
        end.
Qed.

Lemma iterateFiles_pattern_direct_file P fuel w g pattern s stat r s' :
  pattern <> EmptyString ->
  globInputPaths s && isGlobPattern P pattern = false ->
  let absolutePath := path_resolve P (cwd s) pattern in
  fs_statSync w absolutePath = Returned stat ->
  isDirectory stat = false -> isFile stat = true ->
  iterateFiles_pattern P fuel w g pattern ∅ s = (r, s') ->
  (forall set1, r = Ok set1 ->
   exists final,
     yielded s' =
     (yielded s ++
      [{| config := final; fc_filePath := absolutePath;
          ignored := ignoreFlag s && ignoredPaths_contains w false absolutePath false |}])%list) /\
  (forall e, r = Throw e ->
     yielded s' = yielded s /\
     (forall p g, e <> NoFilesFoundError p g) /\
     (forall p, e <> AllFilesIgnoredError p)).
Proof.
  intros Hne Hglob absolutePath Hstat Hd Hf.
  unfold iterateFiles_pattern. rewrite bool_decide_eq_false_2 by done.
  unfold _iterateFiles. unfold bind at 1 2. unfold get. rewrite Hglob.
  unfold bind at 1. rewrite statSafeSync_run. fold absolutePath. rewrite Hstat.
  cbn [isDirectoryStat isFileStat]. rewrite Hd, Hf.
  unfold _iterateFilesWithFile, _loadConfigInAncestors. unfold bind at 1 2.
  destruct (_loadConfigInAncestorsRecursive P fuel w absolutePath s) as [r1 s1] eqn:E1.
  destruct (ancestors_quiet _ _ _ _ _ _ _ E1) as ([C1 Y1] & _).
  destruct r1 as [c|e|].
  2:{ intros [= <- <-]. split; [done|]. intros ? [= <-]. split; [done|].
      apply ancestors_throw in E1. destruct E1 as (n & j & _ & _ & ->). by split. }
  2:{ intros [= <- <-]. split; [done|]. by intros ? [=]. }
  unfold bind at 1. rewrite isIgnoredFile_run. unfold ret at 1. cbv beta iota.
  cbn [forOf forEach]. unfold bind at 1. unfold iterateFiles_body.
  cbn [flag entry_filePath entry_config set].
  assert (Hig : isIgnored w s1 absolutePath false true
                = ignoreFlag s && ignoredPaths_contains w false absolutePath false).
  { unfold isIgnored. rewrite (configured_ignoreFlag _ _ C1). by destruct (ignoreFlag s). }
  rewrite Hig.
  rewrite (bool_decide_eq_false_2 (_ = IGNORED_SILENTLY))
    by (unfold IGNORED, NONE, IGNORED_SILENTLY; destruct (ignoreFlag s && _); cbn; lia).
  rewrite (bool_decide_eq_false_2 (absolutePath ∈ ∅)) by set_solver. cbn [negb].
  unfold bind at 1.
  destruct (_finalizeConfigArray w c (path_dirname P absolutePath) s1) as [r2 s2] eqn:E2.
  destruct (finalize_quiet _ _ _ _ _ _ E2) as ([C2 Y2] & _).
  destruct r2 as [final|e|].
  - unfold record, modify, bind, ret. cbn [foundRegardlessOfIgnored found set negb].
    intros [= <- <-]. split; [|by intros ? [=]]. intros _ _. exists final.
    unfold yielded. cbn [events set_events]. rewrite omap_app. cbn [omap yieldOf].
    fold (yielded s2). rewrite Y2, Y1.
    do 3 f_equal. unfold IGNORED, NONE. by destruct (ignoreFlag s && _).
  - intros [= <- <-]. split; [done|]. intros ? [= <-]. split; [congruence|].
    apply finalize_throw_kinds in E2. destruct E2 as [->|[j ->]]; by split.
  - intros [= <- <-]. split; [done|]. by intros ? [=].
Qed.

(** X5.  A pattern that is not taken as a glob and names a file: [iterateFiles]
    hands over exactly that file, [ignored] telling whether the [ignore]
    option is on and the ignore predicate holds of it; it throws neither
    [NoFilesFoundError] nor [AllFilesIgnoredError], and when it throws it has
    handed over nothing. *)
Theorem iterateFiles_direct_file P fuel w pattern s stat r s' :
  pattern <> EmptyString ->
  globInputPaths s && isGlobPattern P pattern = false ->
  let absolutePath := path_resolve P (cwd s) pattern in
  fs_statSync w absolutePath = Returned stat ->
  isDirectory stat = false -> isFile stat = true ->
  iterateFiles P fuel w (inl pattern) s = (r, s') ->
  (r = Ok tt ->
   exists final,
     yielded s' =
     (yielded s ++
      [{| config := final; fc_filePath := absolutePath;
          ignored := ignoreFlag s && ignoredPaths_contains w false absolutePath false |}])%list) /\
  (forall e, r = Throw e ->
     yielded s' = yielded s /\
     (forall p g, e <> NoFilesFoundError p g) /\
     (forall p, e <> AllFilesIgnoredError p)).
Proof.
  intros Hne Hglob absolutePath Hstat Hd Hf. rewrite iterateFiles_single.
  destruct (iterateFiles_pattern P fuel w (globInputPaths s) pattern ∅ s)
    as [r1 s1] eqn:E.
  destruct (iterateFiles_pattern_direct_file _ _ _ _ _ _ _ _ _ Hne Hglob Hstat Hd Hf E)
    as [Hok Hthrow].
  destruct r1 as [set1|e|]; intros [= <- <-].
  - split; [eauto|by intros ? [=]].
  - split; [done|]. intros ? [= <-]. eauto.
  - split; [done|]. by intros ? [=].
Qed.

Lemma iterateFiles_direct_file_witness :
  exists final,
    yielded (snd (iterateFiles Sample.posix 10 Sample.project (inl "hidden/ignored.js")
                    Sample.fresh)) =
    (yielded Sample.fresh ++
     [{| config := final; fc_filePath := "/tmp/root/hidden/ignored.js";
         ignored := true |}])%list.
Proof.
  apply (proj1 (iterateFiles_direct_file Sample.posix 10 Sample.project
                  "hidden/ignored.js" Sample.fresh Sample.file
                  (fst (iterateFiles Sample.posix 10 Sample.project
                          (inl "hidden/ignored.js") Sample.fresh))
                  (snd (iterateFiles Sample.posix 10 Sample.project
                          (inl "hidden/ignored.js") Sample.fresh))
                  ltac:(discriminate) ltac:(vm_compute; reflexivity)
                  ltac:(vm_compute; reflexivity) ltac:(reflexivity) ltac:(reflexivity)
                  ltac:(vm_compute; reflexivity))).
  vm_compute. reflexivity.
Defined.

(** ** Directories the walk does not enter *)

Lemma forEach_ext {X A} (f g : X -> A -> M A) :
  (forall x acc s, f x acc s = g x acc s) ->
  forall xs acc s, forEach f xs acc s = forEach g xs acc s.
Proof.
  intros Hfg. induction xs as [|x xs IH]; intros acc s; [done|].
  cbn. unfold bind. rewrite Hfg. destruct (g x acc s) as [[acc'| |] s']; auto.
Qed.

Lemma bind_congr {A B} (m1 m2 : M A) (k1 k2 : A -> M B) s :
  m1 s = m2 s -> (forall a t, k1 a t = k2 a t) -> bind m1 k1 s = bind m2 k2 s.
Proof.
  intros Hm Hk. unfold bind. rewrite Hm. destruct (m2 s) as [[a| |] t]; auto.
Qed.

(** X6.  A walk whose options say [recursive: false] reads the one directory it was
    started on: it needs no more fuel than one level, and what
    [fs.readdirSync] would return for any other directory makes no
    difference. *)
Theorem walk_without_recursion {A} P w (yield : FileEntry -> A -> M A) fuel d parent
    options acc s readdirSync :
  recursive options = false ->
  readdirSync d = fs_readdirSync w d ->
  _iterateFilesRecursive P yield (S fuel)
    (withFileSystem w (fs_statSync w) readdirSync (ignoredPaths_contains w))
    d parent options acc s
  = _iterateFilesRecursive P yield 1 w d parent options acc s.
Proof.
  intros Hrec Hread. cbn [_iterateFilesRecursive].
  apply bind_congr; [reflexivity|]. intros ignoredDir t.
  destruct ignoredDir; [reflexivity|].
  apply bind_congr; [reflexivity|]. intros config t1.
  apply bind_congr.
  { unfold readdirSafeSync. cbn [fs_readdirSync withFileSystem]. by rewrite Hread. }
  intros filenames t2. apply forEach_ext. intros filename acc' t3.
  apply bind_congr; [reflexivity|]. intros stat t4.
  destruct (isFileStat stat); [reflexivity|]. by rewrite Hrec.
Qed.

Lemma walk_without_recursion_witness :
  _iterateFilesRecursive Sample.posix (traced (fun _ (n : nat) => ret (S n))) 5
    (withFileSystem Sample.project (fs_statSync Sample.project)
       (fun path => if bool_decide (path = "/tmp/root/lib") then
                      fs_readdirSync Sample.project path
                    else Raised Sample.eio)
       (ignoredPaths_contains Sample.project))
    "/tmp/root/lib" 0
    {| dotfiles := false; recursive := false; selector := Some "/tmp/root/lib/*.js" |}
    (0, []) Sample.fresh
  = _iterateFilesRecursive Sample.posix (traced (fun _ (n : nat) => ret (S n))) 1
      Sample.project "/tmp/root/lib" 0
      {| dotfiles := false; recursive := false; selector := Some "/tmp/root/lib/*.js" |}
      (0, []) Sample.fresh.
Proof.
  apply (walk_without_recursion Sample.posix Sample.project
           (traced (fun _ (n : nat) => ret (S n))) 4 "/tmp/root/lib" 0
           {| dotfiles := false; recursive := false;
              selector := Some "/tmp/root/lib/*.js" |}
           (0, []) Sample.fresh).
  - reflexivity.
  - reflexivity.
Defined.

(** X7.  A pattern that names a directory which [_isIgnoredFile] rejects: the
    configs of the ancestors are still loaded, but the directory is not read,
    nothing is yielded and [iterateFiles] throws [NoFilesFoundError]. *)
Theorem iterateFiles_ignored_directory P fuel w pattern s stat r1 s1 :
  pattern <> EmptyString ->
  globInputPaths s && isGlobPattern P pattern = false ->
  let absolutePath := path_resolve P (cwd s) pattern in
  fs_statSync w absolutePath = Returned stat ->
  isDirectory stat = true ->
  isIgnored w s absolutePath (RegExp_test P dotfilesPattern pattern) false = true ->
  _loadConfigInAncestors P fuel w absolutePath s = (r1, s1) ->
  (forall readdirSync,
     iterateFiles P fuel
       (withFileSystem w (fs_statSync w) readdirSync (ignoredPaths_contains w))
       (inl pattern) s =
     (match r1 with
      | Ok _ => Throw (NoFilesFoundError pattern
                         (negb (globInputPaths s) && isGlob P pattern))
      | Throw e => Throw e
      | OutOfFuel => OutOfFuel
      end, s1)) /\
  yielded s1 = yielded s.
Proof.
  intros Hne Hglob absolutePath Hstat Hd Hig H1. unfold _loadConfigInAncestors in H1.
  destruct (ancestors_quiet _ _ _ _ _ _ _ H1) as ([C1 Y1] & _). split; [|done].
  intros readdirSync. rewrite iterateFiles_single.
  set (w' := withFileSystem w (fs_statSync w) readdirSync (ignoredPaths_contains w)).
  assert (E : iterateFiles_pattern P fuel w' (globInputPaths s) pattern ∅ s =
              (match r1 with
               | Ok _ => Throw (NoFilesFoundError pattern
                                  (negb (globInputPaths s) && isGlob P pattern))
               | Throw e => Throw e
               | OutOfFuel => OutOfFuel
               end, s1)).
  { unfold iterateFiles_pattern. rewrite bool_decide_eq_false_2 by done.
    unfold _iterateFiles. unfold bind at 1 2. unfold get. rewrite Hglob.
    unfold bind at 1. rewrite statSafeSync_run. fold absolutePath.
    cbn [fs_statSync w' withFileSystem]. rewrite Hstat.
    cbn [isDirectoryStat isFileStat]. rewrite Hd.
    unfold _iterateFilesWithDirectory, _loadConfigInAncestors. unfold bind at 1.
    rewrite (walk_ignores_file_system P w (fs_statSync w) readdirSync
               (ignoredPaths_contains w)), H1.
    destruct r1 as [c|e|]; try reflexivity.
    unfold ret at 1. cbv beta iota. cbn [forOf]. unfold bind at 1.
    destruct fuel as [|fuel]; [discriminate H1|].
    cbn [_iterateFilesRecursive]. unfold bind at 1. rewrite isIgnoredFile_run.
    cbn [dotfiles].
    change (isIgnored w' s1 absolutePath (RegExp_test P dotfilesPattern pattern) false)
      with (isIgnored w s1 absolutePath (RegExp_test P dotfilesPattern pattern) false).
    rewrite (isIgnored_configured w s s1) by done. rewrite Hig. reflexivity. }
  by rewrite E; destruct r1.
Qed.

Lemma iterateFiles_ignored_directory_witness :
  fst (iterateFiles Sample.posix 10
         (withFileSystem ignoringHidden (fs_statSync ignoringHidden)
            (fun _ => Raised Sample.eio) (ignoredPaths_contains ignoringHidden))
         (inl "hidden") Sample.fresh)
  = Throw (NoFilesFoundError "hidden" false).
Proof.
  rewrite (proj1 (iterateFiles_ignored_directory Sample.posix 10 ignoringHidden "hidden"
                    Sample.fresh Sample.directory
                    (fst (_loadConfigInAncestors Sample.posix 10 ignoringHidden
                            "/tmp/root/hidden" Sample.fresh))
                    (snd (_loadConfigInAncestors Sample.posix 10 ignoringHidden
                            "/tmp/root/hidden" Sample.fresh))
                    ltac:(discriminate) ltac:(vm_compute; reflexivity)
                    ltac:(vm_compute; reflexivity) ltac:(reflexivity)
                    ltac:(vm_compute; reflexivity) ltac:(vm_compute; reflexivity))
             (fun _ => Raised Sample.eio)).
  vm_compute. reflexivity.
Defined.

(** ** The base array, the CLI array and the constructor *)

Lemma create_run w data nm s :
  create w data nm s =
  match factory_create w data nm with
  | Returned es => (Ok (next s), allocated es (logged (CallCreate nm) s))
  | Raised j => (Throw (ExternalError j), logged (CallCreate nm) s)
  end.
Proof. unfold create. unfold_M. by destruct (factory_create w data nm). Qed.

Lemma loadFile_run w path nm s :
  loadFile w path nm s =
  match factory_loadFile w path nm with
  | Returned es => (Ok (next s), allocated es (logged (CallLoadFile path) s))
  | Raised j => (Throw (ExternalError j), logged (CallLoadFile path) s)
  end.
Proof. unfold loadFile. unfold_M. by destruct (factory_loadFile w path nm). Qed.

Lemma reduceRules_run w cwd : forall paths map s r s',
  reduceRules w paths cwd map s = (r, s') ->
  s' = s /\
  match r with
  | Ok rules =>
      exists tables,
        Forall2 (fun rulesPath table => loadRules w rulesPath cwd = Returned table)
          paths tables /\
        forall id,
          rules !! id =
          match lastDefinition id tables with
          | Some rule => Some rule
          | None => map !! id
          end
  | Throw e =>
      exists rulesPath j,
        In rulesPath paths /\ loadRules w rulesPath cwd = Raised j /\
        e = ExternalError j
  | OutOfFuel => False
  end.
Proof.
  induction paths as [|rulesPath rest IH]; intros map s r s' H.
  - injection H as <- <-. split; [done|]. exists []. split; [constructor|done].
  - cbn in H. unfold bind, lift in H.
    destruct (loadRules w rulesPath cwd) as [table|j] eqn:E.
    + cbn in H. apply IH in H. destruct H as [-> H]. split; [done|].
      destruct r as [rules|e|]; [| |done].
      * destruct H as (tables & HF & Hrules). exists (table :: tables).
        split; [by constructor|]. intros id. rewrite Hrules. cbn.
        destruct (lastDefinition id tables); [done|].
        rewrite lookup_union. by destruct (table !! id), (map !! id).
      * destruct H as (p & j & Hin & Hj & ->). exists p, j. split_and!; auto.
        by right.
    + cbn in H. injection H as <- <-. split; [done|]. exists rulesPath, j.
      split_and!; auto. by left.
Qed.

(** X8.  [createBaseConfigArray]: the base array holds what the factory makes of
    the [baseConfig] option and, when there are rule directories, one more
    element after it, the pseudo plugin [--rulesdir] with an empty [filePath];
    its rules are those of all the directories, the definition of a later
    directory replacing that of an earlier one.  The function throws only what
    the factory or [loadRules] threw. *)
Theorem base_array_ends_with_rulesdir w s r s' :
  createBaseConfigArray w s = (r, s') ->
  match r with
  | Ok a =>
      a = next s /\
      exists es,
        factory_create w (baseConfigData s) "BaseConfig" = Returned es /\
        match rulePaths s with
        | None | Some [] => contents s' a = es
        | Some paths =>
            exists tables rules,
              Forall2 (fun rulesPath table =>
                         loadRules w rulesPath (cwd s) = Returned table)
                paths tables /\
              (forall id, rules !! id = lastDefinition id tables) /\
              contents s' a = (es ++ [rulesdirElement rules])%list
        end
  | Throw e =>
      exists j,
        e = ExternalError j /\
        (factory_create w (baseConfigData s) "BaseConfig" = Raised j \/
         exists paths rulesPath,
           rulePaths s = Some paths /\ In rulesPath paths /\
           loadRules w rulesPath (cwd s) = Raised j)
  | OutOfFuel => False
  end.
Proof.
  unfold createBaseConfigArray. unfold bind at 1 2. unfold get. rewrite create_run.
  destruct (factory_create w (baseConfigData s) "BaseConfig") as [es|j] eqn:Hc.
  2:{ intros [= <- <-]. exists j. auto. }
  destruct (rulePaths s) as [[|rulesPath rest]|] eqn:Hp.
  - intros [= <- <-]. split; [done|]. exists es. split; [done|].
    apply (contents_allocated_new (logged (CallCreate "BaseConfig") s)).
  - unfold bind at 1. cbn [cwd].
    match goal with
    | |- context [reduceRules w ?l ?c ?m ?t] =>
        destruct (reduceRules w l c m t) as [r1 s1] eqn:E
    end.
    apply reduceRules_run in E. destruct E as [-> E]. destruct r1 as [rules|e|]; [| |done].
    + unfold_M. intros [= <- <-]. split; [done|]. exists es. split; [done|].
      destruct E as (tables & HF & Hrules). exists tables, rules. split_and!; auto.
      * intros id. rewrite Hrules. by destruct (lastDefinition id tables).
      * unfold contents. cbn. rewrite !lookup_insert_eq. reflexivity.
    + intros [= <- <-]. destruct E as (p & j & Hin & Hj & ->). exists j.
      split; [done|]. right. eauto.
  - intros [= <- <-]. split; [done|]. exists es. split; [done|].
    apply (contents_allocated_new (logged (CallCreate "BaseConfig") s)).
Qed.

Lemma base_array_ends_with_rulesdir_witness :
  exists rules,
    contents (snd (createBaseConfigArray withRules (emptySlots Sample.posix rulesOptions))) 0
    = [rulesdirElement rules] /\
    rules !! "no-foo" = Some "b/no-foo.js" /\
    rules !! "no-bar" = Some "a/no-bar.js".
Proof.
  pose proof (base_array_ends_with_rulesdir withRules
                (emptySlots Sample.posix rulesOptions) (Ok 0)
                (snd (createBaseConfigArray withRules (emptySlots Sample.posix rulesOptions)))
                ltac:(vm_compute; reflexivity)) as [_ (es & Hes & H)].
  injection Hes as <-. cbn [rulePaths emptySlots rulesOptions opt_rulePaths] in H.
  destruct H as (tables & rules & HF & Hrules & Hc).
  exists rules. split; [exact Hc|].
  inversion HF as [|? t1 ? ? H1 HF1]; subst. inversion HF1 as [|? t2 ? ? H2 HF2]; subst.
  inversion HF2; subst. injection H1 as <-. injection H2 as <-.
  rewrite !Hrules. split; reflexivity.
Defined.

(** X9.  [createCLIConfigArray]: the factory makes the array of the [cliConfig]
    option first; when a [--config] file is given (a non-empty path), the file
    is loaded next and its elements are put in front of the array, so that the
    CLI options come last.  Without a file, [loadFile] is not called.  The
    function throws only what the factory threw. *)
Theorem cli_array_starts_with_config_file w s r s' :
  createCLIConfigArray w s = (r, s') ->
  let configPath := default EmptyString (specificConfigPath s) in
  match r with
  | Ok a =>
      a = next s /\
      exists es,
        factory_create w (cliConfigData s) "CLIOptions" = Returned es /\
        if truthy (specificConfigPath s) then
          exists loaded,
            factory_loadFile w configPath "--config" = Returned loaded /\
            contents s' a = (loaded ++ es)%list /\
            events s' = (events s ++ [CallCreate "CLIOptions"; CallLoadFile configPath])%list
        else
          contents s' a = es /\
          events s' = (events s ++ [CallCreate "CLIOptions"])%list
  | Throw e =>
      exists j,
        e = ExternalError j /\
        (factory_create w (cliConfigData s) "CLIOptions" = Raised j \/
         truthy (specificConfigPath s) = true /\
         factory_loadFile w configPath "--config" = Raised j)
  | OutOfFuel => False
  end.
Proof.
  unfold createCLIConfigArray. unfold bind at 1 2. unfold get. rewrite create_run.
  destruct (factory_create w (cliConfigData s) "CLIOptions") as [es|j] eqn:Hc.
  2:{ intros [= <- <-]. exists j. auto. }
  destruct (truthy (specificConfigPath s)) eqn:Ht.
  - unfold bind at 1. rewrite loadFile_run.
    destruct (factory_loadFile w _ "--config") as [loaded|j] eqn:Hl.
    + unfold_M. intros [= <- <-]. cbv zeta. split; [done|]. exists es. split; [done|].
      exists loaded. split_and!; auto.
      * unfold contents. cbn.
        rewrite lookup_insert_eq. cbn.
        rewrite lookup_insert_eq. cbn.
        rewrite lookup_insert_ne by lia. rewrite lookup_insert_eq. reflexivity.
      * cbn. by rewrite <- app_assoc.
    + intros [= <- <-]. exists j. auto.
  - intros [= <- <-]. cbv zeta. split; [done|]. exists es. split; [done|].
    split; [|done]. apply (contents_allocated_new (logged (CallCreate "CLIOptions") s)).
Qed.

Lemma cli_array_starts_with_config_file_witness :
  contents (snd (createCLIConfigArray withRules (emptySlots Sample.posix rulesOptions))) 0
  = [Sample.element "--config" "/tmp/root/my.json"; Sample.element "CLIOptions" EmptyString].
Proof.
  pose proof (cli_array_starts_with_config_file withRules
                (emptySlots Sample.posix rulesOptions) (Ok 0)
                (snd (createCLIConfigArray withRules (emptySlots Sample.posix rulesOptions)))
                ltac:(vm_compute; reflexivity)) as [_ (es & Hes & H)].
  injection Hes as <-. cbn in H. destruct H as (loaded & Hl & Hc & _).
  injection Hl as <-. exact Hc.
Defined.

Lemma createBaseConfigArray_run w s r s' :
  createBaseConfigArray w s = (r, s') ->
  quiet s s' /\ frames s s' /\
  events s' = (events s ++ [CallCreate "BaseConfig"])%list /\
  match r with
  | Ok a => a = next s /\ next s' = S (next s)
  | Throw e => exists j, e = ExternalError j
  | OutOfFuel => False
  end.
Proof.
  intros H. destruct (createBaseConfigArray_spec _ _ _ _ H) as (F & _ & _).
  revert H. unfold createBaseConfigArray. unfold bind at 1 2. unfold get.
  rewrite create_run.
  assert (Q : quiet s (logged (CallCreate "BaseConfig") s)) by by apply quiet_logged.
  destruct (factory_create w (baseConfigData s) "BaseConfig") as [es|j] eqn:Hc.
  2:{ intros [= <- <-]. split_and!; eauto. }
  assert (Q1 : quiet s (allocated es (logged (CallCreate "BaseConfig") s))).
  { eapply quiet_trans; [exact Q|apply quiet_allocated]. }
  destruct (rulePaths s) as [[|rulesPath rest]|] eqn:Hp.
  1,3: intros [= <- <-]; by split_and!.
  unfold bind at 1.
  match goal with
  | |- context [reduceRules w ?l ?c ?m ?t] =>
      destruct (reduceRules w l c m t) as [r1 s1] eqn:E
  end.
  apply reduceRules_run in E. destruct E as [-> E]. destruct r1 as [rules|e|]; [| |done].
  - unfold_M. intros [= <- <-]. split_and!; auto.
    eapply quiet_trans; [exact Q1|apply quiet_set_store].
  - intros [= <- <-]. destruct E as (p & j & _ & _ & ->). split_and!; eauto.
Qed.

Lemma createCLIConfigArray_run w s r s' :
  createCLIConfigArray w s = (r, s') ->
  quiet s s' /\ frames s s' /\
  (exists rest,
     events s' = (events s ++ CallCreate "CLIOptions" :: rest)%list /\
     (rest = [] \/
      rest = [CallLoadFile (default EmptyString (specificConfigPath s))])) /\
  match r with
  | Ok a => a = next s
  | Throw e => exists j, e = ExternalError j
  | OutOfFuel => False
  end.
Proof.
  intros H. destruct (createCLIConfigArray_spec _ _ _ _ H) as (F & _ & _).
  revert H. unfold createCLIConfigArray. unfold bind at 1 2. unfold get.
  rewrite create_run.
  assert (Q : quiet s (logged (CallCreate "CLIOptions") s)) by by apply quiet_logged.
  destruct (factory_create w (cliConfigData s) "CLIOptions") as [es|j] eqn:Hc.
  2:{ intros [= <- <-]. split_and!; eauto. }
  assert (Q1 : quiet s (allocated es (logged (CallCreate "CLIOptions") s))).
  { eapply quiet_trans; [exact Q|apply quiet_allocated]. }
  destruct (truthy (specificConfigPath s)).
  2:{ intros [= <- <-]. split_and!; eauto. }
  unfold bind at 1. rewrite loadFile_run.
  set (s1 := allocated es (logged (CallCreate "CLIOptions") s)) in *.
  assert (Q2 : quiet s1 (logged (CallLoadFile (default EmptyString (specificConfigPath s))) s1))
    by by apply quiet_logged.
  destruct (factory_loadFile w _ "--config") as [loaded|j] eqn:Hl.
  - unfold_M. intros [= <- <-]. split_and!; auto.
    + eapply quiet_trans; [exact Q1|]. eapply quiet_trans; [exact Q2|].
      eapply quiet_trans; [apply quiet_allocated|apply quiet_set_store].
    + eexists. split; [|by right]. cbn. by rewrite <- app_assoc.
  - intros [= <- <-]. split_and!; eauto.
    + eapply quiet_trans; [exact Q1|exact Q2].
    + eexists. split; [|by right]. cbn. by rewrite <- app_assoc.
Qed.

Lemma constructor_run P w o r s :
  new_FileEnumerator P w o = (r, s) ->
  configured (emptySlots P o) s /\
  configCache s = ∅ /\ finalizeCache s = ∅ /\ yielded s = [] /\
  (forall dir name, ~ In (CallLoadOnDirectory dir name) (events s)) /\
  match r with
  | Ok _ =>
      baseConfigArray s = 0 /\ cliConfigArray s = 1 /\
      exists rest,
        events s = CallCreate "BaseConfig" :: CallCreate "CLIOptions" :: rest
  | Throw e => exists j, e = ExternalError j
  | OutOfFuel => False
  end.
Proof.
  unfold new_FileEnumerator, constructor. unfold bind at 1.
  destruct (createBaseConfigArray w (emptySlots P o)) as [r1 s1] eqn:E1.
  apply createBaseConfigArray_run in E1.
  destruct E1 as ([C1 Y1] & F1 & Hev1 & Hr1).
  assert (Hno1 : forall dir name, ~ In (CallLoadOnDirectory dir name) (events s1)).
  { intros dir name. rewrite Hev1. cbn. intros [|[]]. discriminate. }
  destruct r1 as [base|e|]; [| |done].
  2:{ intros [= <- <-]. destruct F1. split_and!; auto. }
  destruct Hr1 as [-> Hn1]. unfold bind at 1. unfold modify at 1. unfold bind at 1.
  destruct (createCLIConfigArray w (set_baseConfigArray (next (emptySlots P o)) s1))
    as [r2 s2] eqn:E2.
  apply createCLIConfigArray_run in E2.
  destruct E2 as ([C2 Y2] & F2 & (rest & Hev2 & Hrest) & Hr2).
  assert (Hno2 : forall dir name, ~ In (CallLoadOnDirectory dir name) (events s2)).
  { intros dir name. rewrite Hev2. cbn [events set_baseConfigArray]. rewrite Hev1.
    intros Hin. apply in_app_or in Hin. destruct Hin as [[|[]]|[|Hin]]; try discriminate.
    destruct Hrest as [->| ->]; [destruct Hin|destruct Hin as [|[]]; discriminate]. }
  assert (C : configured (emptySlots P o) s2).
  { eapply configured_trans; [exact C1|]. by destruct C2. }
  assert (Y : yielded s2 = []) by (rewrite Y2; exact Y1).
  destruct F1, F2. cbn in *.
  destruct r2 as [cli|e|]; [| |done].
  - subst cli. unfold modify. intros [= <- <-]. cbn.
    split_and!; try congruence; try exact Y; try exact Hno2.
    + by destruct C.
    + exists rest. rewrite Hev2, Hev1. reflexivity.
  - intros [= <- <-]. split_and!; try congruence; try exact Y; try exact Hno2; eauto.
Qed.

(** X10.  The constructor, when it returns: it has made the base array and
    then the CLI array, two different objects; both caches are empty and the
    options are in their slots; it has called the factory's [create] and
    [loadFile] only (no directory was searched for config files). *)
Theorem constructor_makes_two_arrays P w o s :
  new_FileEnumerator P w o = (Ok tt, s) ->
  configured (emptySlots P o) s /\
  configCache s = ∅ /\ finalizeCache s = ∅ /\ yielded s = [] /\
  baseConfigArray s = 0 /\ cliConfigArray s = 1 /\
  (forall dir name, ~ In (CallLoadOnDirectory dir name) (events s)) /\
  exists rest,
    events s = CallCreate "BaseConfig" :: CallCreate "CLIOptions" :: rest.
Proof.
  intros H. apply constructor_run in H.
  destruct H as (C & Hc & Hf & Hy & Hno & Hb & Hcli & Hev). by split_and!.
Qed.

Lemma constructor_makes_two_arrays_witness :
  baseConfigArray (snd (new_FileEnumerator Sample.posix withRules rulesOptions)) = 0 /\
  cliConfigArray (snd (new_FileEnumerator Sample.posix withRules rulesOptions)) = 1 /\
  configCache (snd (new_FileEnumerator Sample.posix withRules rulesOptions)) = ∅.
Proof.
  destruct (constructor_makes_two_arrays Sample.posix withRules rulesOptions
              (snd (new_FileEnumerator Sample.posix withRules rulesOptions))
              ltac:(vm_compute; reflexivity))
    as (_ & Hc & _ & _ & Hb & Hcli & _).
  by split_and!.
Defined.

(** X11.  The leading dot of an extension is optional: the constructor builds the
    same [extRegExp] from [js] as from [.js].  (Only one dot is dropped.) *)
Theorem extension_dot_is_optional P extensions :
  Forall (fun ext => startsWithDot ext = false) extensions ->
  makeExtRegExp P (map (String "."%char) extensions) = makeExtRegExp P extensions.
Proof.
  intros H. unfold makeExtRegExp. do 3 f_equal. rewrite map_map.
  apply map_ext_in. intros ext Hin. rewrite List.Forall_forall in H.
  rewrite (H ext Hin). reflexivity.
Qed.

Lemma extension_dot_is_optional_witness :
  makeExtRegExp Sample.posix [".js"; ".jsx"] = makeExtRegExp Sample.posix ["js"; "jsx"].
Proof.
  apply (extension_dot_is_optional Sample.posix ["js"; "jsx"]).
  repeat constructor.
Defined.

(** ** The finalizer *)

Lemma empty_length {A} (l : list A) : bool_decide (length l = 0) = true <-> l = [].
Proof.
  rewrite bool_decide_eq_true. destruct l; [done|]. split; discriminate.
Qed.

Lemma check_cases t f dir :
  let r := if useEslintrc t && bool_decide (length (contents t f) = 0)
           then Throw (ConfigurationNotFoundError dir) else Ok f in
  (r = Ok f /\ (useEslintrc t = true -> contents t f <> [])) \/
  (r = Throw (ConfigurationNotFoundError dir) /\
   useEslintrc t = true /\ contents t f = []).
Proof.
  cbv zeta. destruct (useEslintrc t) eqn:Hu; cbn [andb]; [|by left].
  destruct (bool_decide (length (contents t f) = 0)) eqn:Hl.
  - apply empty_length in Hl. by right.
  - left. split; [done|]. intros _ He. apply empty_length in He. congruence.
Qed.

Lemma finalize_outcome w a dir s r s' :
  _finalizeConfigArray w a dir s = (r, s') ->
  useEslintrc s' = useEslintrc s /\
  match r with
  | Ok f =>
      finalizeCache s' !! a = Some f /\ (useEslintrc s' = true -> contents s' f <> [])
  | Throw (ConfigurationNotFoundError _) =>
      exists f,
        finalizeCache s' !! a = Some f /\ useEslintrc s' = true /\ contents s' f = []
  | Throw _ => finalizeCache s' = finalizeCache s
  | OutOfFuel => False
  end.
Proof.
  intros H. destruct (finalize_quiet _ _ _ _ _ _ H) as ([C _] & _).
  split; [by destruct C|]. clear C.
  destruct (finalizeCache s !! a) as [f|] eqn:Hf.
  - rewrite (finalize_hit _ _ _ _ _ Hf) in H.
    destruct (check_cases s f dir) as [[E ?]|[E ?]]; cbv zeta in E; rewrite E in H;
      injection H as <- <-; eauto.
  - rewrite (finalize_miss _ _ _ _ Hf) in H.
    assert (exists r1 s1,
      (if wantsPersonalConfig s a
       then loadOnDirectory w (os_homedir w) (Some "PersonalConfig") (Some a) s
       else (Ok a, s)) = (r1, s1) /\ finalizeCache s1 = finalizeCache s /\
      match r1 with Throw (ExternalError _) | Ok _ => True | _ => False end)
      as (r1 & s1 & E & F1 & Hr1).
    { destruct (wantsPersonalConfig s a).
      - destruct (loadOnDirectory w (os_homedir w) (Some "PersonalConfig") (Some a) s)
          as [r1 s1] eqn:E.
        exists r1, s1. split; [done|].
        pose proof (loadOnDirectory_quiet _ _ _ _ _ _ _ E) as (_ & _ & F & _).
        split; [done|]. apply loadOnDirectory_cases in E. cbv zeta in E.
        destruct (factory_loadOnDirectory w _ _) as [[|]|]; by destruct E as [-> _].
      - by exists (Ok a), s. }
    rewrite E in H. destruct r1 as [f1|[]|]; try done.
    2:{ by injection H as <- <-. }
    destruct (0 <? length (contents s1 (cliConfigArray s1)))%nat;
      cbv beta iota zeta in H;
      match type of H with context [validateConfigArray w ?x] =>
        destruct (validateConfigArray w x) end;
      try (by injection H as <- <-);
      match type of H with
      | ((if useEslintrc ?t && bool_decide (length (contents ?t ?f) = 0) then _ else _), _)
        = _ =>
          destruct (check_cases t f dir) as [[E' ?]|[E' ?]]; cbv zeta in E';
          rewrite E' in H; injection H as <- <-;
          [split; [apply lookup_insert_eq|done]
          |eexists; split; [apply lookup_insert_eq|done]]
      end.
Qed.

(** X12.  The finalizer remembers its result by array: once it has returned for an
    array, every later call for that array returns the same object without any
    effect, and once it has thrown [ConfigurationNotFoundError] every later
    call throws it again (for the directory then given) without loading
    anything.  An error of the factory or of the validator is not remembered. *)
Theorem finalize_is_remembered w a dir s r s' :
  _finalizeConfigArray w a dir s = (r, s') ->
  (forall f, r = Ok f ->
     forall w' dir', _finalizeConfigArray w' a dir' s' = (Ok f, s')) /\
  (forall d, r = Throw (ConfigurationNotFoundError d) ->
     forall w' dir',
       _finalizeConfigArray w' a dir' s'
       = (Throw (ConfigurationNotFoundError dir'), s')) /\
  (forall j, r = Throw (ExternalError j) -> finalizeCache s' = finalizeCache s).
Proof.
  intros H. apply finalize_outcome in H. destruct H as [_ H]. split_and!.
  - intros f -> w' dir'. destruct H as [Hf Hne]. rewrite (finalize_hit _ _ _ _ _ Hf).
    destruct (useEslintrc s'); [|done]. cbn [andb].
    destruct (bool_decide (length (contents s' f) = 0)) eqn:E; [|done].
    apply empty_length in E. by destruct Hne.
  - intros d -> w' dir'. destruct H as (f & Hf & Hu & He).
    rewrite (finalize_hit _ _ _ _ _ Hf), Hu, He. reflexivity.
  - by intros j ->.
Qed.

Lemma finalize_is_remembered_witness :
  _finalizeConfigArray Sample.project 0 "/elsewhere"
    (snd (_finalizeConfigArray Sample.noConfigs 0 "/work" Sample.freshNoConfig))
  = (Throw (ConfigurationNotFoundError "/elsewhere"),
     snd (_finalizeConfigArray Sample.noConfigs 0 "/work" Sample.freshNoConfig)).
Proof.
  apply (proj1 (proj2 (finalize_is_remembered Sample.noConfigs 0 "/work"
                         Sample.freshNoConfig
                         (fst (_finalizeConfigArray Sample.noConfigs 0 "/work"
                                 Sample.freshNoConfig))
                         (snd (_finalizeConfigArray Sample.noConfigs 0 "/work"
                                 Sample.freshNoConfig))
                         ltac:(vm_compute; reflexivity))) "/work").
  vm_compute. reflexivity.
Defined.

Lemma finalize_layers w a dir s f s' :
  inv 0 s -> a < next s ->
  finalizeCache s !! a = None ->
  _finalizeConfigArray w a dir s = (Ok f, s') ->
  let personal :=
    if wantsPersonalConfig s a then
      match factory_loadOnDirectory w (os_homedir w) (Some "PersonalConfig") with
      | Returned es => es
      | Raised _ => []
      end
    else [] in
  let cli := contents s (cliConfigArray s) in
  contents s' f = (contents s a ++ personal ++ cli)%list /\
  contents s' a = contents s a /\
  (personal = [] -> cli = [] -> f = a) /\
  (personal <> [] \/ cli <> [] -> next s <= f).
Proof.
  intros Hreach Ha Hmiss H personal cli.
  assert (Hcli : cliConfigArray s < next s) by by destruct Hreach.
  rewrite (finalize_miss _ _ _ _ Hmiss) in H.
  assert (exists f1 s1,
    (if wantsPersonalConfig s a
     then loadOnDirectory w (os_homedir w) (Some "PersonalConfig") (Some a) s
     else (Ok a, s)) = (Ok f1, s1) /\
    cliConfigArray s1 = cliConfigArray s /\ next s <= next s1 /\
    (forall x, x < next s -> contents s1 x = contents s x) /\
    contents s1 f1 = (contents s a ++ personal)%list /\
    (personal = [] -> f1 = a) /\ (personal <> [] -> f1 = next s) /\ f1 < next s1)
    as (f1 & s1 & E & Hc1 & Hn1 & Hold & Hf1 & Hsame & Hnew & Hlt1).
  { subst personal. destruct (wantsPersonalConfig s a).
    - destruct (loadOnDirectory w (os_homedir w) (Some "PersonalConfig") (Some a) s)
        as [r1 s1] eqn:Hl.
      apply loadOnDirectory_cases in Hl. cbv zeta in Hl.
      destruct (factory_loadOnDirectory w (os_homedir w) (Some "PersonalConfig"))
        as [[|e es]|e]; destruct Hl as [-> ->].
      + exists a, (logged (CallLoadOnDirectory (os_homedir w) (Some "PersonalConfig")) s).
        split_and!; auto; try (by rewrite app_nil_r); try (by intros []).
      + exists (next s),
          (allocated (contents s a ++ e :: es)
             (logged (CallLoadOnDirectory (os_homedir w) (Some "PersonalConfig")) s)).
        split_and!; auto.
        * cbn. lia.
        * intros x Hx. by apply (contents_allocated_old (logged _ s)).
        * apply (contents_allocated_new (logged _ s)).
        * discriminate.
      + discriminate H.
    - exists a, s. split_and!; auto; try (by rewrite app_nil_r); try (by intros []). }
  rewrite E in H. rewrite Hc1 in H. rewrite (Hold _ Hcli) in H. fold cli in H.
  destruct cli as [|c cli'] eqn:Hcl; cbv beta iota zeta in H; cbn [length Nat.ltb Nat.leb] in H.
  - match type of H with context [validateConfigArray w ?x] =>
      destruct (validateConfigArray w x) end; [discriminate|].
    match type of H with
    | ((if ?b then _ else _), _) = _ => destruct b; [discriminate|]
    end.
    injection H as <- <-.
    change (contents (set_finalizeCache _ s1) ?x) with (contents s1 x).
    rewrite app_nil_r. split_and!; auto.
    intros [Hp|]; [|done]. rewrite Hnew by done. lia.
  - match type of H with context [validateConfigArray w ?x] =>
      destruct (validateConfigArray w x) end; [discriminate|].
    match type of H with
    | ((if ?b then _ else _), _) = _ => destruct b; [discriminate|]
    end.
    injection H as <- <-.
    change (contents (set_finalizeCache _ ?t) ?x) with (contents t x).
    rewrite contents_allocated_new, Hf1, <- app_assoc.
    rewrite contents_allocated_old by lia. split_and!; auto.
    discriminate.
Qed.

(** X13.  The first finalization of an array that succeeds: the result holds the
    elements of the array, then those of the personal config if it was
    consulted, then those of the CLI array, which so have the last word.  The
    array itself is not changed; it is its own finalization when neither the
    personal config nor the CLI array adds an element, and the result is a new
    object otherwise. *)
Theorem finalized_array_layers P w a dir s f s' :
  reachable P s -> a < next s ->
  finalizeCache s !! a = None ->
  _finalizeConfigArray w a dir s = (Ok f, s') ->
  let personal :=
    if wantsPersonalConfig s a then
      match factory_loadOnDirectory w (os_homedir w) (Some "PersonalConfig") with
      | Returned es => es
      | Raised _ => []
      end
    else [] in
  let cli := contents s (cliConfigArray s) in
  contents s' f = (contents s a ++ personal ++ cli)%list /\
  contents s' a = contents s a /\
  (personal = [] -> cli = [] -> f = a) /\
  (personal <> [] \/ cli <> [] -> next s <= f).
Proof.
  intros Hreach. apply finalize_layers. by apply reachable_inv in Hreach.
Qed.

Lemma finalized_array_layers_witness :
  contents (snd (_finalizeConfigArray Sample.homeOnly 0 "/work" Sample.freshAtWork)) 2
  = [Sample.element "PersonalConfig" "/home/user/.eslintrc.json"] /\
  contents (snd (_finalizeConfigArray Sample.homeOnly 0 "/work" Sample.freshAtWork)) 0
  = [].
Proof.
  destruct (finalized_array_layers Sample.posix Sample.homeOnly 0 "/work"
              Sample.freshAtWork 2
              (snd (_finalizeConfigArray Sample.homeOnly 0 "/work" Sample.freshAtWork)))
    as (H1 & H2 & _).
  - apply (reachable_intro _ _ Sample.homeOnly (Sample.options "/work") Sample.freshAtWork).
    + vm_compute. reflexivity.
    + apply steps_refl.
  - vm_compute. lia.
  - vm_compute. reflexivity.
  - vm_compute. reflexivity.
  - split; [exact H1|exact H2].
Defined.

(** ** An enumerator with [useEslintrc: false] *)

(** X14.  With [useEslintrc: false], [getConfigArrayForFile] calls no loader of the
    factory and leaves the directory cache alone; it never throws
    [ConfigurationNotFoundError]; and the array it returns is the one every
    later call returns, whatever the path: the finalized base array, which
    holds the base elements followed by the CLI elements when this call made
    it. *)
Theorem without_eslintrc_one_array P fuel w p s r s' :
  reachable P s -> useEslintrc s = false -> 0 < fuel ->
  getConfigArrayForFile P fuel w p s = (r, s') ->
  events s' = events s /\ configCache s' = configCache s /\
  (forall d, r <> Throw (ConfigurationNotFoundError d)) /\
  (forall f, r = Ok f ->
     (forall fuel2 w2 p2, 0 < fuel2 ->
        getConfigArrayForFile P fuel2 w2 p2 s' = (Ok f, s')) /\
     (finalizeCache s !! baseConfigArray s = None ->
      contents s' f =
      (contents s (baseConfigArray s) ++ contents s (cliConfigArray s))%list)).
Proof.
  intros Hreach Huse Hfuel H. apply reachable_inv in Hreach.
  assert (Hwalk : forall n w0 q t, useEslintrc t = false ->
            _loadConfigInAncestors P (S n) w0 q t = (Ok (baseConfigArray t), t)).
  { intros n w0 q t Ht. unfold _loadConfigInAncestors. cbn. by rewrite Ht. }
  destruct fuel as [|n]; [lia|].
  unfold getConfigArrayForFile in H. unfold bind at 1 2 in H. unfold get in H.
  rewrite Hwalk in H by done.
  destruct (finalize_quiet _ _ _ _ _ _ H) as ([C _] & Hcache & Hbase & _).
  destruct (finalize_outcome _ _ _ _ _ _ H) as [Hu Hout].
  assert (Hwants : wantsPersonalConfig s (baseConfigArray s) = false).
  { unfold wantsPersonalConfig. by rewrite Huse. }
  split_and!; auto.
  - destruct (finalizeCache s !! baseConfigArray s) as [f|] eqn:Hf.
    + rewrite (finalize_hit _ _ _ _ _ Hf) in H. by injection H as _ <-.
    + rewrite (finalize_events _ _ _ _ _ _ Hf H), Hwants. apply app_nil_r.
  - intros d ->. destruct Hout as (f & _ & Hu' & _). congruence.
  - intros f ->. destruct Hout as [Hf _]. split.
    + intros [|n2] w2 p2 Hn2; [lia|]. unfold getConfigArrayForFile.
      unfold bind at 1 2. unfold get. rewrite Hwalk by congruence.
      rewrite Hbase, (finalize_hit _ _ _ _ _ Hf). by rewrite Hu, Huse.
    + intros Hmiss.
      assert (Hlt : baseConfigArray s < next s) by (destruct Hreach; lia).
      destruct (finalize_layers _ _ _ _ _ _ Hreach Hlt Hmiss H) as (Hc & _).
      by rewrite Hwants in Hc.
Qed.

Lemma without_eslintrc_one_array_witness :
  getConfigArrayForFile Sample.posix 3 Sample.noConfigs (Some "/other/b.js")
    (snd (getConfigArrayForFile Sample.posix 1 Sample.project (Some "lib/one.js")
            freshWithoutEslintrc))
  = (Ok 2, snd (getConfigArrayForFile Sample.posix 1 Sample.project (Some "lib/one.js")
                  freshWithoutEslintrc)).
Proof.
  destruct (without_eslintrc_one_array Sample.posix 1 Sample.project (Some "lib/one.js")
              freshWithoutEslintrc (Ok 2)
              (snd (getConfigArrayForFile Sample.posix 1 Sample.project
                      (Some "lib/one.js") freshWithoutEslintrc)))
    as (_ & _ & _ & H).
  - apply (reachable_intro _ _ Sample.project withoutEslintrc freshWithoutEslintrc).
    + vm_compute. reflexivity.
    + apply steps_refl.
  - reflexivity.
  - lia.
  - vm_compute. reflexivity.
  - apply (proj1 (H 2 eq_refl)). lia.
Defined.

(** ** The order of the cascade *)

Lemma cascade P w : forall n (loads : nat -> list ConfigElement) fuel p s top a s',
  inv 0 s -> useEslintrc s = true ->
  (forall i, i < n ->
     configCache s !! ancestor P (S i) p = None /\
     consideredRoot w s (ancestor P i p) (ancestor P (S i) p) = false /\
     factory_loadOnDirectory w (ancestor P (S i) p) None = Returned (loads i) /\
     (loads i = [] \/ configArray_root w (loads i) = false)) ->
  (configCache s !! ancestor P (S n) p = Some top \/
   configCache s !! ancestor P (S n) p = None /\
   consideredRoot w s (ancestor P n p) (ancestor P (S n) p) = true /\
   top = baseConfigArray s) ->
  _loadConfigInAncestorsRecursive P fuel w p s = (Ok a, s') ->
  contents s' a = (contents s top ++ concat (map loads (rev (seq 0 n))))%list.
Proof.
  induction n as [|n IH]; intros loads fuel p s top a s' Hinv Huse Hlevels Htop H.
  - destruct fuel as [|fuel]; [discriminate|]. cbn [ancestor] in Htop.
    cbn [seq rev map concat]. rewrite app_nil_r.
    destruct Htop as [Hhit|(Hmiss & Hroot & ->)].
    + cbn [_loadConfigInAncestorsRecursive] in H. rewrite Huse, Hhit in H.
      cbn in H. by injection H as <- <-.
    + rewrite walk_stop in H by done. by injection H as <- <-.
  - destruct fuel as [|fuel]; [discriminate|].
    destruct (Hlevels 0 ltac:(lia)) as (Hmiss & Hgo & Hload & Hes). cbn [ancestor] in *.
    rewrite (walk_ascend P w fuel p s Huse Hmiss Hgo _ Hload Hes) in H.
    set (s1 := allocated (loads 0) (logged (CallLoadOnDirectory (path_dirname P p) None) s))
      in *.
    destruct (_loadConfigInAncestorsRecursive P fuel w (path_dirname P p) s1)
      as [[parent|e|] s2] eqn:Hrec; [|by destruct (loads 0)..].
    assert (Hinv1 : inv 0 s1) by by apply inv_alloc, inv_events.
    assert (Hlt : top < next s).
    { destruct Htop as [Hhit|(_ & _ & ->)]; destruct Hinv.
      - apply inv_cache0 in Hhit. lia.
      - lia. }
    assert (Hparent : contents s2 parent =
              (contents s top ++ concat (map (fun i => loads (S i)) (rev (seq 0 n))))%list).
    { assert (Hold : contents s1 top = contents s top)
        by exact (contents_allocated_old
                    (logged (CallLoadOnDirectory (path_dirname P p) None) s)
                    (loads 0) top Hlt).
      rewrite <- Hold.
      apply (IH (fun i => loads (S i)) fuel (path_dirname P p) s1 top parent s2); auto.
      - intros i Hi. rewrite !ancestor_dirname. apply (Hlevels (S i)). lia.
      - rewrite !ancestor_dirname. exact Htop. }
    assert (Hseq : concat (map loads (rev (seq 0 (S n)))) =
                   (concat (map (fun i => loads (S i)) (rev (seq 0 n))) ++ loads 0)%list).
    { cbn [seq]. rewrite <- seq_shift. cbn [rev]. rewrite map_app, concat_app.
      cbn [map concat]. rewrite app_nil_r. f_equal. f_equal.
      rewrite <- map_rev, map_map. reflexivity. }
    rewrite Hseq, app_assoc, <- Hparent.
    destruct (ancestors_inv P 0 w fuel _ _ _ _ Hinv1 Hrec) as (_ & G & _).
    destruct (loads 0) as [|e es] eqn:Hl0; injection H as <- <-.
    + by rewrite app_nil_r.
    + unfold contents at 1. cbn. rewrite lookup_insert_eq. cbn. f_equal.
      rewrite (contents_grows _ _ _ G) by (cbn; lia).
      apply (contents_allocated_new (logged (CallLoadOnDirectory (path_dirname P p) None) s)).
Qed.

(** X15.  The cascade: when the walk climbs [n] directories that have no cached
    array, loads the config of each, finds no [root] flag, and ends at a
    directory that has a cached array or that it takes for the root of the
    chain, the array it returns holds the elements it ended on (the cached
    array's, or the base array's) followed by the elements of the directories
    from the outermost to the innermost, so that the config closest to the
    file comes last. *)
Theorem cascade_outermost_first P w n (loads : nat -> list ConfigElement)
    fuel p s top a s' :
  reachable P s -> useEslintrc s = true ->
  (forall i, i < n ->
     configCache s !! ancestor P (S i) p = None /\
     consideredRoot w s (ancestor P i p) (ancestor P (S i) p) = false /\
     factory_loadOnDirectory w (ancestor P (S i) p) None = Returned (loads i) /\
     (loads i = [] \/ configArray_root w (loads i) = false)) ->
  (configCache s !! ancestor P (S n) p = Some top \/
   configCache s !! ancestor P (S n) p = None /\
   consideredRoot w s (ancestor P n p) (ancestor P (S n) p) = true /\
   top = baseConfigArray s) ->
  _loadConfigInAncestorsRecursive P fuel w p s = (Ok a, s') ->
  contents s' a = (contents s top ++ concat (map loads (rev (seq 0 n))))%list.
Proof.
  intros Hreach. apply cascade. by apply reachable_inv in Hreach.
Qed.

Lemma cascade_outermost_first_witness :
  contents (snd (_loadConfigInAncestorsRecursive Sample.posix 10 Sample.project
                   "/tmp/root/lib/nested/one.js" Sample.fresh)) 2
  = [Sample.element ".eslintrc.json" "/tmp/root/.eslintrc.json";
     Sample.element ".eslintrc.yml" "/tmp/root/lib/nested/.eslintrc.yml"].
Proof.
  apply (cascade_outermost_first Sample.posix Sample.project 5
           (projectLoads "/tmp/root/lib/nested/one.js") 10
           "/tmp/root/lib/nested/one.js" Sample.fresh 0 2).
  - apply (reachable_intro _ _ Sample.project (Sample.options "/tmp/root") Sample.fresh).
    + vm_compute. reflexivity.
    + apply steps_refl.
  - reflexivity.
  - intros i Hi. destruct i as [|[|[|[|[|i]]]]]; [..|lia];
      (split_and!; [vm_compute; reflexivity..|right; vm_compute; reflexivity]).
  - right. split_and!; vm_compute; reflexivity.
  - vm_compute. reflexivity.
Defined.

(** ** What no operation changes *)

Lemma run_heap P n fuel w op s r s' :
  inv n s -> run P fuel w op s = (r, s') ->
  forall a, a < next s -> heap s' !! a = heap s !! a.
Proof.
  intros Hinv Hrun. destruct op as [p|patterns|].
  - destruct (run_inv _ _ _ _ _ _ _ _ Hinv Hrun) as [_ G]. by destruct (G eq_refl).
  - destruct (run_inv _ _ _ _ _ _ _ _ Hinv Hrun) as [_ G]. by destruct (G eq_refl).
  - cbn in Hrun. by destruct (clearCache_inv _ _ _ _ _ Hinv Hrun) as (_ & _ & _ & ? & _).
Qed.

Lemma steps_heap P c s s' :
  steps P c s s' -> inv 0 s -> forall a, a < next s -> heap s' !! a = heap s !! a.
Proof.
  induction 1 as [|s s' s'' Hsteps IH [fuel w op r _ Hrun _]]; intros Hinv a Ha; [done|].
  pose proof (steps_inv _ _ _ _ _ Hsteps Hinv) as Hinv'.
  pose proof (steps_next _ _ _ _ Hsteps Hinv) as Hn.
  rewrite (run_heap _ _ _ _ _ _ _ _ Hinv' Hrun) by lia. by apply IH.
Qed.

(** X16.  Once an operation has returned, no later operation ([clearCache]
    included) changes the elements of an array that exists by then: the
    arrays the enumerator has handed out are never mutated; [push] and
    [unshift] only touch arrays made within the same call. *)
Theorem published_arrays_never_change P s s' a :
  reachable P s -> steps P true s s' -> a < next s ->
  contents s' a = contents s a.
Proof.
  intros Hreach Hsteps Ha. apply reachable_inv in Hreach.
  unfold contents. by rewrite (steps_heap _ _ _ _ Hsteps Hreach).
Qed.

Lemma published_arrays_never_change_witness :
  contents Sample.afterClear 3 = contents Sample.afterOne 3.
Proof.
  apply (published_arrays_never_change Sample.posix).
  - apply (reachable_intro _ _ Sample.project (Sample.options "/tmp/root") Sample.fresh).
    + vm_compute. reflexivity.
    + eapply steps_step; [apply steps_refl|].
      apply (step_run _ _ _ _ 10 Sample.project
               (GetConfigArrayForFile (Some "lib/one.js")) (Ok tt)).
      * discriminate.
      * vm_compute. reflexivity.
      * discriminate.
  - eapply steps_step; [eapply steps_step; [eapply steps_step; [apply steps_refl|]|]|].
    + apply (step_run _ _ _ _ 10 Sample.project (IterateFiles (inl "lib/**/*.js")) (Ok tt)).
      * discriminate.
      * vm_compute. reflexivity.
      * discriminate.
    + apply (step_run _ _ _ _ 10 Sample.project ClearCache (Ok tt)).
      * reflexivity.
      * vm_compute. reflexivity.
      * discriminate.
    + apply (step_run _ _ _ _ 10 Sample.project
               (GetConfigArrayForFile (Some "lib/one.js")) (Ok tt)).
      * discriminate.
      * vm_compute. reflexivity.
      * discriminate.
  - vm_compute. lia.
Defined.

Lemma clearCache_configured w s r s' : clearCache w s = (r, s') -> configured s s'.
Proof.
  unfold clearCache. unfold bind at 1.
  destruct (createBaseConfigArray w s) as [r1 s1] eqn:E1.
  apply createBaseConfigArray_run in E1. destruct E1 as ([C1 _] & _).
  destruct r1 as [base|e|]; [|by intros [= <- <-]..].
  unfold bind at 1. unfold modify at 1. unfold bind at 1.
  destruct (createCLIConfigArray w (set_baseConfigArray base s1)) as [r2 s2] eqn:E2.
  apply createCLIConfigArray_run in E2. destruct E2 as ([C2 _] & _).
  assert (C : configured s s2) by (eapply configured_trans; [exact C1|by destruct C2]).
  destruct r2 as [cli|e|]; [|by intros [= <- <-]..].
  unfold_M. intros [= <- <-]. by destruct C.
Qed.

Lemma run_configured P fuel w op s r s' : run P fuel w op s = (r, s') -> configured s s'.
Proof.
  destruct op as [p|patterns|]; cbn [run].
  - unfold bind at 1. destruct (getConfigArrayForFile P fuel w p s) as [r1 s1] eqn:E.
    intros H. assert (s' = s1) as -> by (destruct r1; by injection H). clear H.
    unfold getConfigArrayForFile in E. unfold bind at 1 2 in E. unfold get in E.
    unfold _loadConfigInAncestors in E.
    destruct (_loadConfigInAncestorsRecursive P fuel w _ s) as [r2 s2] eqn:E2.
    apply ancestors_quiet in E2. destruct E2 as ([C2 _] & _).
    destruct r2 as [c|e|]; [|by injection E as _ <-..].
    apply finalize_quiet in E. destruct E as ([C _] & _).
    by eapply configured_trans.
  - intros H. apply iterateFiles_received in H. by destruct H as (? & C & _).
  - apply clearCache_configured.
Qed.

Lemma steps_configured P c s s' : steps P c s s' -> configured s s'.
Proof.
  induction 1 as [|s s' s'' _ IH [fuel w op r _ Hrun _]]; [apply configured_refl|].
  eapply configured_trans; [exact IH|]. by eapply run_configured.
Qed.

(** X17.  The options an enumerator was made with stay in their slots whatever is
    done with it; in particular the [cwd] getter always returns the
    constructor's [cwd]. *)
Theorem cwd_is_the_constructors P w o s0 s :
  new_FileEnumerator P w o = (Ok tt, s0) ->
  steps P true s0 s ->
  get_cwd s = (Ok (opt_cwd o), s) /\
  useEslintrc s = opt_useEslintrc o /\
  globInputPaths s = opt_globInputPaths o /\
  ignoreFlag s = opt_ignore o /\
  extRegExp s = makeExtRegExp P (opt_extensions o) /\
  baseConfigData s = opt_baseConfig o /\
  cliConfigData s = opt_cliConfig o /\
  rulePaths s = opt_rulePaths o /\
  specificConfigPath s = opt_specificConfigPath o.
Proof.
  intros Hnew Hsteps.
  assert (C0 : configured (emptySlots P o) s0).
  { unfold new_FileEnumerator, constructor in Hnew. unfold bind at 1 in Hnew.
    destruct (createBaseConfigArray w (emptySlots P o)) as [r1 s1] eqn:E1.
    apply createBaseConfigArray_run in E1. destruct E1 as ([C1 _] & _).
    destruct r1 as [base|e|]; [|discriminate..].
    unfold bind at 1 in Hnew. unfold modify at 1 in Hnew. unfold bind at 1 in Hnew.
    destruct (createCLIConfigArray w (set_baseConfigArray base s1)) as [r2 s2] eqn:E2.
    apply createCLIConfigArray_run in E2. destruct E2 as ([C2 _] & _).
    destruct r2 as [cli|e|]; [|discriminate..].
    unfold modify in Hnew. injection Hnew as <-.
    eapply configured_trans; [exact C1|]. by destruct C2. }
  pose proof (configured_trans _ _ _ C0 (steps_configured _ _ _ _ Hsteps)) as [].
  unfold get_cwd, bind, get, ret. cbn in *. split_and!; congruence.
Qed.

Lemma cwd_is_the_constructors_witness :
  get_cwd Sample.afterOne = (Ok "/tmp/root", Sample.afterOne).
Proof.
  apply (cwd_is_the_constructors Sample.posix Sample.project (Sample.options "/tmp/root")
           Sample.fresh Sample.afterOne).
  - vm_compute. reflexivity.
  - eapply steps_step; [apply steps_refl|].
    apply (step_run _ _ _ _ 10 Sample.project
             (GetConfigArrayForFile (Some "lib/one.js")) (Ok tt)).
    + discriminate.
    + vm_compute. reflexivity.
    + discriminate.
Defined.

(** ** [clearCache] that throws *)

(** X18.  When [clearCache] throws, it throws what the factory or [loadRules] threw,
    and it has cleared nothing: the directory cache, the finalize cache and
    the CLI array are as before.  The base array is as before when making the
    new base array failed; when making the new CLI array failed, the base
    array has already been replaced, next to a directory cache that still
    holds the arrays made from the old one. *)
Theorem clearCache_that_throws_clears_nothing w s e s' :
  clearCache w s = (Throw e, s') ->
  (exists j, e = ExternalError j) /\
  configCache s' = configCache s /\
  finalizeCache s' = finalizeCache s /\
  cliConfigArray s' = cliConfigArray s /\
  match createBaseConfigArray w s with
  | (Ok base, _) => baseConfigArray s' = base /\ base = next s
  | _ => baseConfigArray s' = baseConfigArray s
  end.
Proof.
  unfold clearCache. unfold bind at 1.
  destruct (createBaseConfigArray w s) as [r1 s1] eqn:E1.
  apply createBaseConfigArray_run in E1. destruct E1 as (_ & F1 & _ & Hr1).
  destruct r1 as [base|e1|]; [| |done].
  2:{ intros [= <- <-]. by destruct F1. }
  destruct Hr1 as [-> _].
  unfold bind at 1. unfold modify at 1. unfold bind at 1.
  destruct (createCLIConfigArray w (set_baseConfigArray (next s) s1)) as [r2 s2] eqn:E2.
  apply createCLIConfigArray_run in E2. destruct E2 as (_ & F2 & _ & Hr2).
  destruct r2 as [cli|e2|]; [|intros [= <- <-]|done].
  { unfold_M. discriminate. }
  destruct F1, F2. cbn in *. split_and!; auto; congruence.
Qed.

Lemma clearCache_that_throws_clears_nothing_witness :
  configCache (snd (clearCache configFileGone usedWithConfigFile))
  = configCache usedWithConfigFile /\
  baseConfigArray (snd (clearCache configFileGone usedWithConfigFile))
  = next usedWithConfigFile /\
  baseConfigArray usedWithConfigFile < next usedWithConfigFile.
Proof.
  destruct (clearCache_that_throws_clears_nothing configFileGone usedWithConfigFile
              (ExternalError Sample.enoent)
              (snd (clearCache configFileGone usedWithConfigFile))
              ltac:(vm_compute; reflexivity))
    as (_ & Hc & _ & _ & Hb).
  split; [exact Hc|]. split; [|vm_compute; lia].
  vm_compute. reflexivity.
Defined.

(** ** Directories without a config file *)

(** X19.  A directory without a config file gets the very array of the directory
    above it: after [getConfigArrayForFile] has returned for a file in such a
    directory (not cached before and not taken for the root of the chain), it
    returns the same object for every path in the directory above. *)
Theorem directory_without_config_shares_array P fuel w p s a s1 :
  reachable P s -> useEslintrc s = true ->
  let absolutePath := path_resolve P (cwd s) (default "a.js" p) in
  let d := path_dirname P absolutePath in
  configCache s !! d = None ->
  consideredRoot w s absolutePath d = false ->
  factory_loadOnDirectory w d None = Returned [] ->
  getConfigArrayForFile P fuel w p s = (Ok a, s1) ->
  forall fuel2 w2 p2,
    0 < fuel2 ->
    path_dirname P (path_resolve P (cwd s) (default "a.js" p2)) = path_dirname P d ->
    getConfigArrayForFile P fuel2 w2 p2 s1 = (Ok a, s1).
Proof.
  intros Hreach Huse absolutePath d Hmiss Hgo Hload H fuel2 w2 p2 Hfuel2 Hdir.
  apply reachable_inv in Hreach.
  unfold getConfigArrayForFile in H. unfold bind at 1 2 in H. unfold get in H.
  fold absolutePath in H. unfold _loadConfigInAncestors in H.
  destruct fuel as [|fuel]; [discriminate|].
  rewrite (walk_ascend P w fuel absolutePath s Huse Hmiss Hgo [] Hload (or_introl eq_refl))
    in H.
  fold d in H.
  set (s0 := allocated [] (logged (CallLoadOnDirectory d None) s)) in *.
  destruct (_loadConfigInAncestorsRecursive P fuel w d s0) as [[parent|e|] s2] eqn:Hrec;
    [|discriminate..].
  assert (Hinv0 : inv 0 s0) by by apply inv_alloc, inv_events.
  destruct (ancestors_inv P 0 w fuel _ _ _ _ Hinv0 Hrec) as (_ & _ & _ & Hp).
  destruct (Hp _ eq_refl) as [_ Hcached]. cbn in Hcached. rewrite Huse in Hcached.
  destruct (ancestors_quiet _ _ _ _ _ _ _ Hrec) as ([C2 _] & _).
  set (s3 := set_configCache (<[d := parent]> (configCache s2)) s2) in *.
  assert (Hcached3 : configCache s3 !! path_dirname P d = Some parent).
  { cbn. destruct (decide (d = path_dirname P d)) as [<-|Hne].
    - apply lookup_insert_eq.
    - by rewrite lookup_insert_ne. }
  destruct (finalize_quiet _ _ _ _ _ _ H) as ([C3 _] & Hc3 & _).
  destruct (finalize_outcome _ _ _ _ _ _ H) as [Hu3 [Hf Hne]].
  assert (Hcwd : cwd s1 = cwd s).
  { rewrite (configured_cwd _ _ C3). cbn. by rewrite (configured_cwd _ _ C2). }
  assert (Huse1 : useEslintrc s1 = true).
  { rewrite Hu3. cbn. by rewrite (configured_useEslintrc _ _ C2). }
  unfold getConfigArrayForFile. unfold bind at 1 2. unfold get. rewrite Hcwd.
  unfold _loadConfigInAncestors. destruct fuel2 as [|fuel2]; [lia|].
  cbn [_loadConfigInAncestorsRecursive]. rewrite Huse1. cbn [negb].
  rewrite Hdir, Hc3, Hcached3. rewrite (finalize_hit _ _ _ _ _ Hf), Huse1. cbn [andb].
  destruct (bool_decide (length (contents s1 a) = 0)) eqn:E; [|done].
  apply empty_length in E. by destruct (Hne Huse1).
Qed.

Lemma directory_without_config_shares_array_witness :
  getConfigArrayForFile Sample.posix 10 Sample.project (Some "one.js") Sample.afterOne
  = (Ok 3, Sample.afterOne).
Proof.
  apply (directory_without_config_shares_array Sample.posix 10 Sample.project
           (Some "lib/one.js") Sample.fresh 3 Sample.afterOne).
  - apply (reachable_intro _ _ Sample.project (Sample.options "/tmp/root") Sample.fresh).
    + vm_compute. reflexivity.
    + apply steps_refl.
  - reflexivity.
  - vm_compute. reflexivity.
  - vm_compute. reflexivity.
  - vm_compute. reflexivity.
  - vm_compute. reflexivity.
  - lia.
  - vm_compute. reflexivity.
Defined.


(** ** More on [iterateFiles] *)

Lemma forEach_filter {X A} (body : X -> A -> M A) (keep : X -> bool) :
  (forall x acc s, keep x = false -> body x acc s = (Ok acc, s)) ->
  forall xs acc s,
    forEach body xs acc s = forEach body (List.filter keep xs) acc s.
Proof.
  intros Hskip. induction xs as [|x xs IH]; intros acc s; [done|].
  cbn [forEach List.filter]. destruct (keep x) eqn:E.
  - cbn [forEach]. apply bind_congr; [done|]. intros acc' t. apply IH.
  - unfold bind. rewrite Hskip by done. apply IH.
Qed.

(** X20.  Empty strings among the patterns are skipped: [iterateFiles] does with a
    list of patterns what it does with the list without its empty strings
    (for which alone it neither yields nor throws). *)
Theorem iterateFiles_skips_empty_patterns P fuel w patterns s :
  iterateFiles P fuel w (inr patterns) s =
  iterateFiles P fuel w
    (inr (List.filter (fun pattern => negb (bool_decide (pattern = EmptyString))) patterns)) s
  /\ iterateFiles P fuel w (inl EmptyString) s = (Ok tt, s).
Proof.
  split; [|reflexivity].
  unfold iterateFiles. unfold bind at 1 3. unfold get.
  apply bind_congr; [|done].
  apply (forEach_filter (iterateFiles_pattern P fuel w (globInputPaths s))
           (fun pattern => negb (bool_decide (pattern = EmptyString)))).
  intros pattern acc t Hp. unfold iterateFiles_pattern.
  by destruct (bool_decide (pattern = EmptyString)).
Qed.

(** X21.  The walk does nothing with an entry of a directory that is neither a file
    nor (when the walk is recursive) a directory, or that has vanished since
    the directory was read ([fs.statSync] reports [ENOENT]): it runs as if the
    directories did not list those entries. *)
Theorem walk_passes_over_other_entries {A} P w (yield : FileEntry -> A -> M A) options :
  forall fuel d parent acc s,
    _iterateFilesRecursive P yield fuel (withoutOthers P w options) d parent options acc s
    = _iterateFilesRecursive P yield fuel w d parent options acc s.
Proof.
  induction fuel as [|fuel IH]; intros d parent acc s; [done|].
  cbn [_iterateFilesRecursive].
  apply bind_congr; [reflexivity|]. intros ignoredDir t.
  destruct ignoredDir; [reflexivity|].
  apply bind_congr; [reflexivity|]. intros config t1.
  rewrite (bind_unfold (readdirSafeSync (withoutOthers P w options) d)),
    (bind_unfold (readdirSafeSync w d)), !readdirSafeSync_run.
  cbn [fs_readdirSync withoutOthers withFileSystem].
  destruct (fs_readdirSync w d) as [filenames|e];
    [|destruct (bool_decide (code e = "ENOENT")); reflexivity].
  cbv beta iota. symmetry.
  rewrite (forEach_filter _ (considered P w options d)).
  - apply forEach_ext. intros filename acc' t2.
    apply bind_congr; [reflexivity|]. intros stat t3.
    destruct (isFileStat stat); [reflexivity|].
    destruct (recursive options && isDirectoryStat stat); [|reflexivity].
    symmetry. apply IH.
  - intros filename acc' t2 Hc. unfold considered in Hc.
    unfold bind at 1. rewrite statSafeSync_run.
    destruct (fs_statSync w (path_join P d filename)) as [stat|e].
    + cbn [isFileStat isDirectoryStat]. apply orb_false_elim in Hc.
      destruct Hc as [-> ->]. reflexivity.
    + apply negb_false_iff in Hc. rewrite Hc. cbn [isFileStat isDirectoryStat].
      by rewrite andb_false_r.
Qed.


(** ** [iterateFiles] and [getConfigArrayForFile] together *)

(** X22.  For a file that a pattern names directly, [iterateFiles] hands over the
    very config array that [getConfigArrayForFile] returns for that file
    afterwards, in any world: both go through the same two caches. *)
Theorem direct_file_config_is_shared P fuel w pattern s stat s' :
  reachable P s ->
  pattern <> EmptyString ->
  globInputPaths s && isGlobPattern P pattern = false ->
  fs_statSync w (path_resolve P (cwd s) pattern) = Returned stat ->
  isDirectory stat = false -> isFile stat = true ->
  iterateFiles P fuel w (inl pattern) s = (Ok tt, s') ->
  exists fc,
    yielded s' = (yielded s ++ [fc])%list /\
    fc_filePath fc = path_resolve P (cwd s) pattern /\
    forall fuel2 w2, 0 < fuel2 ->
      getConfigArrayForFile P fuel2 w2 (Some pattern) s' = (Ok (config fc), s').
Proof.
  intros Hreach Hne Hglob Hstat Hd Hf. apply reachable_inv in Hreach.
  rewrite iterateFiles_single.
  set (absolutePath := path_resolve P (cwd s) pattern) in *.
  unfold iterateFiles_pattern. rewrite bool_decide_eq_false_2 by done.
  unfold _iterateFiles. unfold bind at 1 2. unfold get. rewrite Hglob.
  unfold bind at 1. rewrite statSafeSync_run. fold absolutePath. rewrite Hstat.
  cbn [isDirectoryStat isFileStat]. rewrite Hd, Hf.
  unfold _iterateFilesWithFile, _loadConfigInAncestors. unfold bind at 1 2.
  destruct (_loadConfigInAncestorsRecursive P fuel w absolutePath s) as [r1 s1] eqn:E1.
  destruct (ancestors_quiet _ _ _ _ _ _ _ E1) as ([C1 Y1] & _ & Hb1 & _).
  destruct (ancestors_inv P 0 w fuel _ _ _ _ Hreach E1) as (_ & _ & _ & Hr1).
  destruct r1 as [c|e|]; [|discriminate..].
  destruct (Hr1 _ eq_refl) as [_ Hc]. clear Hr1.
  unfold bind at 1. rewrite isIgnoredFile_run. unfold ret at 1. cbv beta iota.
  cbn [forOf forEach]. unfold bind at 1. unfold iterateFiles_body.
  cbn [flag entry_filePath entry_config set].
  rewrite (bool_decide_eq_false_2 (_ = IGNORED_SILENTLY))
    by (unfold IGNORED, NONE, IGNORED_SILENTLY;
        destruct (isIgnored w s1 absolutePath false true); cbn; lia).
  rewrite (bool_decide_eq_false_2 (absolutePath ∈ ∅)) by set_solver. cbn [negb].
  unfold bind at 1.
  destruct (_finalizeConfigArray w c (path_dirname P absolutePath) s1) as [r2 s2] eqn:E2.
  destruct (finalize_quiet _ _ _ _ _ _ E2) as ([C2 Y2] & Hc2 & Hb2 & _).
  destruct (finalize_outcome _ _ _ _ _ _ E2) as [Hu2 Hout].
  destruct r2 as [final|e|]; [|discriminate..].
  unfold record, modify, bind, ret. cbn [foundRegardlessOfIgnored found set negb].
  intros [= Hs']. destruct Hout as [Hfin Hne2].
  assert (Hev : events s' =
                (events s2 ++
                 [Yield {| config := final; fc_filePath := absolutePath;
                           ignored := bool_decide
                             ((if isIgnored w s1 absolutePath false true
                               then IGNORED else NONE) = IGNORED) |}])%list)
    by by rewrite <- Hs'.
  assert (Hcwd' : cwd s' = cwd s).
  { rewrite <- Hs'. cbn. by rewrite (configured_cwd _ _ C2), (configured_cwd _ _ C1). }
  assert (Huse' : useEslintrc s' = useEslintrc s).
  { rewrite <- Hs'. cbn. by rewrite Hu2, (configured_useEslintrc _ _ C1). }
  assert (Hcache' : configCache s' = configCache s1) by by rewrite <- Hs'.
  assert (Hbase' : baseConfigArray s' = baseConfigArray s).
  { rewrite <- Hs'. cbn. by rewrite Hb2, Hb1. }
  assert (Hfin' : finalizeCache s' !! c = Some final) by by rewrite <- Hs'.
  assert (Hcont' : contents s' final = contents s2 final) by by rewrite <- Hs'.
  assert (Hu2' : useEslintrc s2 = useEslintrc s) by by rewrite Hu2, (configured_useEslintrc _ _ C1).
  clear Hs'.
  eexists {| config := final; fc_filePath := absolutePath; ignored := _ |}.
  split_and!.
  - unfold yielded. rewrite Hev, omap_app. cbn [omap yieldOf].
    fold (yielded s2). by rewrite Y2, Y1.
  - reflexivity.
  - intros [|fuel2] w2 Hfuel2; [lia|]. cbn [config].
    unfold getConfigArrayForFile. unfold bind at 1 2. unfold get.
    change (default "a.js" (Some pattern)) with pattern. rewrite Hcwd'.
    fold absolutePath.
    assert (Hwalk : _loadConfigInAncestors P (S fuel2) w2 absolutePath s' = (Ok c, s')).
    { unfold _loadConfigInAncestors. cbn [_loadConfigInAncestorsRecursive].
      rewrite Huse'. destruct (useEslintrc s) eqn:Huse; cbn [negb].
      - by rewrite Hcache', Hc.
      - destruct Hc as [-> _]. by rewrite Hbase'. }
    rewrite Hwalk. rewrite (finalize_hit _ _ _ _ final) by exact Hfin'.
    rewrite Hcont', Huse', <- Hu2'.
    destruct (useEslintrc s2) eqn:Hu; [|done]. cbn [andb].
    destruct (bool_decide (length (contents s2 final) = 0)) eqn:E; [|done].
    apply empty_length in E. by destruct (Hne2 eq_refl).
Qed.

Lemma direct_file_config_is_shared_witness :
  exists fc,
    yielded (snd (iterateFiles Sample.posix 10 Sample.project (inl "lib/one.js")
                    Sample.fresh))
    = (yielded Sample.fresh ++ [fc])%list /\
    fc_filePath fc = "/tmp/root/lib/one.js" /\
    forall fuel2 w2, 0 < fuel2 ->
      getConfigArrayForFile Sample.posix fuel2 w2 (Some "lib/one.js")
        (snd (iterateFiles Sample.posix 10 Sample.project (inl "lib/one.js")
                Sample.fresh))
      = (Ok (config fc),
         snd (iterateFiles Sample.posix 10 Sample.project (inl "lib/one.js")
                Sample.fresh)).
Proof.
  apply (direct_file_config_is_shared Sample.posix 10 Sample.project "lib/one.js"
           Sample.fresh Sample.file).
  - apply (reachable_intro _ _ Sample.project (Sample.options "/tmp/root") Sample.fresh).
    + vm_compute. reflexivity.
    + apply steps_refl.
  - discriminate.
  - vm_compute. reflexivity.
  - vm_compute. reflexivity.
  - reflexivity.
  - reflexivity.
  - vm_compute. reflexivity.
Defined.

(** ** [iterateFiles] with [useEslintrc: false] *)

Lemma finalize_keeps w a dir s r s' k f :
  finalizeCache s !! k = Some f ->
  _finalizeConfigArray w a dir s = (r, s') ->
  finalizeCache s' !! k = Some f.
Proof.
  intros Hk H. destruct (finalizeCache s !! a) as [fa|] eqn:Ha.
  - rewrite (finalize_hit _ _ _ _ _ Ha) in H. by injection H as _ <-.
  - assert (a <> k) by congruence.
    pose proof (finalize_outcome _ _ _ _ _ _ H) as [_ Hout].
    rewrite (finalize_miss _ _ _ _ Ha) in H.
    assert (exists r1 s1,
      (if wantsPersonalConfig s a
       then loadOnDirectory w (os_homedir w) (Some "PersonalConfig") (Some a) s
       else (Ok a, s)) = (r1, s1) /\ finalizeCache s1 = finalizeCache s)
      as (r1 & s1 & E & F1).
    { destruct (wantsPersonalConfig s a).
      - destruct (loadOnDirectory w (os_homedir w) (Some "PersonalConfig") (Some a) s)
          as [r1 s1] eqn:E.
        exists r1, s1. split; [done|].
        by pose proof (loadOnDirectory_quiet _ _ _ _ _ _ _ E) as (_ & _ & F & _).
      - by exists (Ok a), s. }
    rewrite E in H. destruct r1 as [f1|e|]; [|injection H as _ <-; congruence..].
    destruct (0 <? length (contents s1 (cliConfigArray s1)))%nat;
      cbv beta iota zeta in H;
      match type of H with context [validateConfigArray w ?x] =>
        destruct (validateConfigArray w x) end;
      injection H as _ <-; cbn; try rewrite lookup_insert_ne by done; congruence.
Qed.

Lemma finalize_without_eslintrc w a dir s r s' :
  useEslintrc s = false ->
  _finalizeConfigArray w a dir s = (r, s') -> events s' = events s.
Proof.
  intros Huse H. destruct (finalizeCache s !! a) as [fa|] eqn:Ha.
  - rewrite (finalize_hit _ _ _ _ _ Ha) in H. by injection H as _ <-.
  - rewrite (finalize_events _ _ _ _ _ _ Ha H). unfold wantsPersonalConfig.
    rewrite Huse. apply app_nil_r.
Qed.

Lemma lookupFree_body P w s0 e l s r s' :
  lookupFree s0 s -> entry_config e = baseConfigArray s0 ->
  iterateFiles_body P w e l s = (r, s') -> lookupFree s0 s'.
Proof.
  intros HJ He. unfold iterateFiles_body.
  destruct (bool_decide (flag e = IGNORED_SILENTLY)); [by intros [= <- <-]|].
  destruct (negb (bool_decide (entry_filePath e ∈ set l))); [|by intros [= <- <-]].
  unfold bind at 1. rewrite He.
  destruct (_finalizeConfigArray w (baseConfigArray s0) _ s) as [r1 s1] eqn:E.
  destruct HJ as (Hu & Hb & Hcalls & Hcache & new & Hy & Hall).
  destruct (finalize_quiet _ _ _ _ _ _ E) as ([C Y] & Hc1 & Hb1 & _).
  pose proof (finalize_without_eslintrc _ _ _ _ _ _ Hu E) as Hev.
  destruct (finalize_outcome _ _ _ _ _ _ E) as [Hu1 Hout].
  assert (HJ1 : lookupFree s0 s1).
  { unfold lookupFree. split_and!; try congruence.
    - unfold calls. by rewrite Hev.
    - exists new. split; [congruence|]. eapply Forall_impl; [exact Hall|].
      intros fc Hfc. cbn in Hfc. by eapply finalize_keeps. }
  destruct r1 as [final|e1|]; [|by intros [= <- <-]..].
  unfold record, modify, bind, ret. intros [= <- <-].
  destruct HJ1 as (Hu' & Hb' & Hcalls' & Hcache' & new' & Hy' & Hall').
  unfold lookupFree. split_and!; try done.
  - unfold calls. cbn [events set_events]. rewrite List.filter_app. cbn.
    rewrite app_nil_r. exact Hcalls'.
  - exists (new' ++ [{| config := final; fc_filePath := entry_filePath e;
                        ignored := bool_decide (flag e = IGNORED) |}])%list.
    split.
    + unfold yielded. cbn [events set_events]. rewrite omap_app. cbn [omap yieldOf].
      fold (yielded s1). by rewrite Hy', app_assoc.
    + apply Forall_app. split; [exact Hall'|]. constructor; [|done]. cbn.
      by destruct Hout.
Qed.

Lemma lookupFree_walk P w s0 options : forall fuel d l s r s',
  lookupFree s0 s ->
  _iterateFilesRecursive P (iterateFiles_body P w) fuel w d (baseConfigArray s0) options l s
  = (r, s') ->
  lookupFree s0 s'.
Proof.
  induction fuel as [|fuel IH]; intros d l s r s' HJ H.
  - by injection H as _ <-.
  - cbn [_iterateFilesRecursive] in H. rewrite bind_unfold, isIgnoredFile_run in H.
    destruct (isIgnored w s d (dotfiles options) false); [by injection H as _ <-|].
    rewrite bind_unfold in H.
    assert (Hl : _loadConfigOnDirectory w d (baseConfigArray s0) s
                 = (Ok (baseConfigArray s0), s)).
    { unfold _loadConfigOnDirectory, bind, get. destruct HJ as (-> & _). reflexivity. }
    rewrite Hl in H. rewrite bind_unfold, readdirSafeSync_run in H.
    destruct (fs_readdirSync w d) as [filenames|e].
    2:{ destruct (bool_decide _); by injection H as _ <-. }
    assert (Hends : ends (fun _ t => lookupFree s0 t) r s').
    { revert H. apply forEach_ends with (Q := fun _ => True); auto.
      2:{ apply List.Forall_forall. auto. }
      clear l s HJ Hl. intros filename l s r0 s1 _ HJ H.
      rewrite bind_unfold, statSafeSync_run in H.
      destruct (fs_statSync w (path_join P d filename)) as [stat|e].
      2:{ destruct (bool_decide _).
          - cbn [isFileStat isDirectoryStat] in H. rewrite andb_false_r in H.
            by injection H as <- <-.
          - injection H as <- <-. by exists l. }
      cbn [isFileStat isDirectoryStat] in H. destruct (isFile stat).
      - rewrite bind_unfold, isIgnoredFile_run in H. rewrite bind_unfold in H.
        unfold get in H.
        match type of H with
        | (if ?m then _ else _) _ = _ => destruct m
        end; [|by injection H as <- <-].
        apply (lookupFree_body _ _ s0) in H; auto. destruct r0; cbn; eauto.
      - destruct (recursive options && isDirectory stat); [|by injection H as <- <-].
        apply IH in H; auto. destruct r0; cbn; eauto. }
    destruct r; cbn in Hends; [done|by destruct Hends..].
Qed.

Lemma lookupFree_pattern P fuel w g s0 pattern set0 s r s' :
  lookupFree s0 s ->
  iterateFiles_pattern P fuel w g pattern set0 s = (r, s') -> lookupFree s0 s'.
Proof.
  intros HJ. unfold iterateFiles_pattern.
  destruct (bool_decide (pattern = EmptyString)); [by intros [= _ <-]|].
  rewrite bind_unfold.
  assert (Hwalk : forall q,
            _loadConfigInAncestors P fuel w q s =
            (match fuel with 0 => OutOfFuel | S _ => Ok (baseConfigArray s0) end, s)).
  { intros q. unfold _loadConfigInAncestors. destruct fuel; [done|].
    cbn [_loadConfigInAncestorsRecursive].
    destruct HJ as (-> & -> & _). reflexivity. }
  assert (exists r1,
    _iterateFiles P fuel w pattern s = (r1, s) /\
    forall iter, r1 = Ok iter ->
      match iter with
      | IterArray entries => Forall (fun e => entry_config e = baseConfigArray s0) entries
      | IterWalk _ parent _ => parent = baseConfigArray s0
      end) as (r1 & E & Hiter).
  { unfold _iterateFiles. rewrite bind_unfold. unfold get at 1. cbv beta iota.
    destruct (globInputPaths s && isGlobPattern P pattern).
    { unfold _iterateFilesWithGlob. rewrite bind_unfold, Hwalk.
      destruct fuel; eexists; (split; [reflexivity|]); intros iter [= <-]. done. }
    rewrite bind_unfold, statSafeSync_run.
    destruct (fs_statSync w _) as [stat|e]; cbn [isDirectoryStat isFileStat].
    2:{ destruct (bool_decide _); cbn [isDirectoryStat isFileStat];
          eexists; (split; [reflexivity|]); intros iter [= <-]. constructor. }
    destruct (isDirectory stat).
    { unfold _iterateFilesWithDirectory. rewrite bind_unfold, Hwalk.
      destruct fuel; eexists; (split; [reflexivity|]); intros iter [= <-]. done. }
    destruct (isFile stat).
    2:{ eexists; (split; [reflexivity|]); intros iter [= <-]. constructor. }
    unfold _iterateFilesWithFile. rewrite bind_unfold, Hwalk.
    destruct fuel; [eexists; (split; [reflexivity|]); intros iter [=]|].
    rewrite bind_unfold, isIgnoredFile_run.
    eexists; (split; [reflexivity|]); intros iter [= <-]. by repeat constructor. }
  rewrite E. destruct r1 as [iter|e|]; [|by intros [= _ <-]..].
  specialize (Hiter _ eq_refl). rewrite bind_unfold.
  destruct (forOf P fuel w iter (iterateFiles_body P w) _ s) as [r2 s2] eqn:E2.
  assert (HJ2 : lookupFree s0 s2).
  { destruct iter as [entries|d parent options]; cbn [forOf] in E2.
    - assert (Hends : ends (fun _ t => lookupFree s0 t) r2 s2).
      { revert E2.
        apply forEach_ends with (Q := fun e => entry_config e = baseConfigArray s0); auto.
        intros e l t r' t' He Ht Hb. apply (lookupFree_body _ _ s0) in Hb; auto.
        destruct r'; cbn; eauto. }
      destruct r2; cbn in Hends; [done|by destruct Hends..].
    - subst parent. by eapply lookupFree_walk. }
  destruct r2 as [l|e|]; [|by intros [= _ <-]..].
  destruct (negb (foundRegardlessOfIgnored l)); [by intros [= _ <-]|].
  destruct (negb (found l)); by intros [= _ <-].
Qed.

(** X23.  With [useEslintrc: false], [iterateFiles] calls no loader of the factory
    and leaves the directory cache alone, and all the entries it hands over
    carry one and the same config array: the finalized base array. *)
Theorem without_eslintrc_iterateFiles_one_array P fuel w patternOrPatterns s r s' :
  useEslintrc s = false ->
  iterateFiles P fuel w patternOrPatterns s = (r, s') ->
  calls s' = calls s /\
  configCache s' = configCache s /\
  exists new,
    yielded s' = (yielded s ++ new)%list /\
    forall fc, In fc new ->
      finalizeCache s' !! baseConfigArray s = Some (config fc).
Proof.
  intros Huse. unfold iterateFiles. rewrite bind_unfold. unfold get at 1. cbv beta iota.
  rewrite bind_unfold.
  match goal with
  | |- context [forEach ?b ?xs ?acc s] => destruct (forEach b xs acc s) as [r1 s1] eqn:E
  end.
  assert (Hends : ends (fun _ t => lookupFree s t) r1 s1).
  { revert E. apply forEach_ends with (Q := fun _ => True).
    - intros x acc t r' t' _ Ht Hb. apply (lookupFree_pattern _ _ _ _ s) in Hb; auto.
      destruct r'; cbn; eauto.
    - apply List.Forall_forall. auto.
    - unfold lookupFree. split_and!; auto. exists []. by rewrite app_nil_r. }
  assert (HJ : lookupFree s s1) by (destruct r1; cbn in Hends; [done|by destruct Hends..]).
  intros H. assert (s' = s1) as -> by (destruct r1; by injection H).
  destruct HJ as (_ & _ & Hcalls & Hcache & new & Hy & Hall).
  split_and!; auto. exists new. split; [done|]. by apply List.Forall_forall.
Qed.

Lemma without_eslintrc_iterateFiles_one_array_witness :
  calls (snd (iterateFiles Sample.posix 10 Sample.project (inl "lib") freshWithoutEslintrc))
  = calls freshWithoutEslintrc /\
  length (yielded (snd (iterateFiles Sample.posix 10 Sample.project (inl "lib")
                          freshWithoutEslintrc))) = 4.
Proof.
  destruct (without_eslintrc_iterateFiles_one_array Sample.posix 10 Sample.project
              (inl "lib") freshWithoutEslintrc
              (fst (iterateFiles Sample.posix 10 Sample.project (inl "lib")
                      freshWithoutEslintrc))
              (snd (iterateFiles Sample.posix 10 Sample.project (inl "lib")
                      freshWithoutEslintrc)))
    as (Hcalls & _).
  - reflexivity.
  - vm_compute. reflexivity.
  - split; [exact Hcalls|]. vm_compute. reflexivity.
Defined.

(** ** What a glob or a directory pattern yields *)

Lemma iterateFiles_iter_walk P fuel w pattern s iter s1 :
  _iterateFiles P fuel w pattern s = (Ok iter, s1) ->
  let absolutePath := path_resolve P (cwd s) pattern in
  let dots := RegExp_test P dotfilesPattern pattern in
  if globInputPaths s && isGlobPattern P pattern then
    exists c recursive,
      iter = IterWalk (getGlobParent P absolutePath) c
               {| dotfiles := dots; recursive := recursive;
                  selector := Some absolutePath |}
  else
    forall stat, fs_statSync w absolutePath = Returned stat -> isDirectory stat = true ->
      exists c,
        iter = IterWalk absolutePath c
                 {| dotfiles := dots; recursive := true; selector := None |}.
Proof.
  unfold _iterateFiles. rewrite bind_unfold. unfold get at 1. cbv beta iota zeta.
  destruct (globInputPaths s && isGlobPattern P pattern).
  - unfold _iterateFilesWithGlob. rewrite bind_unfold.
    destruct (_loadConfigInAncestors P fuel w _ s) as [[c| |] s2]; [|discriminate..].
    intros [= <- <-]. eauto.
  - rewrite bind_unfold, statSafeSync_run. intros H stat Hstat Hd. rewrite Hstat in H.
    cbn [isDirectoryStat] in H. rewrite Hd in H.
    unfold _iterateFilesWithDirectory in H. rewrite bind_unfold in H.
    destruct (_loadConfigInAncestors P fuel w _ s) as [[c| |] s2]; [|discriminate..].
    injection H as <- <-. eauto.
Qed.

(** X24.  A pattern that is taken as a glob, or that names a directory: every entry
    [iterateFiles] hands over for it is a path found below the directory the
    walk starts on (the glob's parent, or the directory itself), which
    [fs.statSync] reports as a file, which [_isIgnoredFile] does not reject,
    and which the glob matches or, for a directory, [extRegExp] accepts; its
    [ignored] is [false]. *)
Theorem iterateFiles_walk_yields_selected P fuel w pattern s r s' :
  pattern <> EmptyString ->
  let absolutePath := path_resolve P (cwd s) pattern in
  let dots := RegExp_test P dotfilesPattern pattern in
  (globInputPaths s && isGlobPattern P pattern = true \/
   exists stat, fs_statSync w absolutePath = Returned stat /\ isDirectory stat = true) ->
  iterateFiles P fuel w (inl pattern) s = (r, s') ->
  exists new,
    yielded s' = (yielded s ++ new)%list /\
    forall fc, In fc new ->
      ignored fc = false /\
      (exists stat, fs_statSync w (fc_filePath fc) = Returned stat /\ isFile stat = true) /\
      isIgnored w s (fc_filePath fc) dots false = false /\
      if globInputPaths s && isGlobPattern P pattern then
        inside P w (getGlobParent P absolutePath) (fc_filePath fc) /\
        minimatch_match P absolutePath (fc_filePath fc) = true
      else
        inside P w absolutePath (fc_filePath fc) /\
        RegExp_test P (extRegExp s) (fc_filePath fc) = true.
Proof.
  intros Hne absolutePath dots Hkind. rewrite iterateFiles_single.
  set (Good := fun fc : FileAndConfig =>
      ignored fc = false /\
      (exists stat, fs_statSync w (fc_filePath fc) = Returned stat /\ isFile stat = true) /\
      isIgnored w s (fc_filePath fc) dots false = false /\
      if globInputPaths s && isGlobPattern P pattern then
        inside P w (getGlobParent P absolutePath) (fc_filePath fc) /\
        minimatch_match P absolutePath (fc_filePath fc) = true
      else
        inside P w absolutePath (fc_filePath fc) /\
        RegExp_test P (extRegExp s) (fc_filePath fc) = true).
  set (I := fun (_ : LoopState) (t : State) =>
      configured s t /\ exists new, yielded t = (yielded s ++ new)%list /\ Forall Good new).
  assert (Hstable : forall l t t', I l t -> quiet t t' -> I l t').
  { intros l t t' (C & new & Hy & Hall) [C' Y']. split; [by eapply configured_trans|].
    exists new. split; [congruence|done]. }
  assert (E : exists r1 s1,
            iterateFiles_pattern P fuel w (globInputPaths s) pattern ∅ s = (r1, s1) /\
            exists l, I l s1).
  { unfold iterateFiles_pattern. rewrite bool_decide_eq_false_2 by done.
    rewrite bind_unfold.
    destruct (_iterateFiles P fuel w pattern s) as [r0 s0] eqn:E0.
    destruct (iterateFiles_iter_quiet _ _ _ _ _ _ _ E0) as [Q0 _].
    set (l0 := {| foundRegardlessOfIgnored := false; found := false; set := ∅ |}).
    assert (HI0 : I l0 s0).
    { apply (Hstable l0 s); [|done]. split; [apply configured_refl|].
      exists []. by rewrite app_nil_r. }
    destruct r0 as [iter|e|]; [|eexists _, _; split; [reflexivity|by exists l0]..].
    pose proof (iterateFiles_iter_walk _ _ _ _ _ _ _ E0) as Hiter. cbv zeta in Hiter.
    fold absolutePath dots in Hiter.
    rewrite bind_unfold.
    destruct (forOf P fuel w iter (iterateFiles_body P w) _ s0) as [r2 s2] eqn:E2.
    assert (H2 : ends I r2 s2).
    { revert E2. apply forOf_ends; auto.
      { intros l t t' Ht (Q & _). exact (Hstable l _ _ Ht Q). }
      intros e l t r' t' Ht He Hbody.
      assert (Hw : exists d options,
                walked P w options d e t /\
                dotfiles options = dots /\
                if globInputPaths s && isGlobPattern P pattern then
                  d = getGlobParent P absolutePath /\ selector options = Some absolutePath
                else d = absolutePath /\ selector options = None).
      { destruct (globInputPaths s && isGlobPattern P pattern) eqn:Hg.
        - destruct Hiter as (c & rec & ->). eauto 10.
        - destruct Hkind as [|(stat & Hstat & Hd)]; [discriminate|].
          destruct (Hiter stat Hstat Hd) as (c & ->). eauto 10. }
      destruct Hw as (d & options & [Hin Hfile Hflag Hm] & Hdot & Hsel). clear He.
      revert Hbody. unfold iterateFiles_body.
      destruct (bool_decide (flag e = IGNORED_SILENTLY)) eqn:Hsil.
      { intros [= <- <-]. exact Ht. }
      destruct (negb (bool_decide (entry_filePath e ∈ set l))).
      2:{ intros [= <- <-]. exact Ht. }
      rewrite bind_unfold.
      destruct (_finalizeConfigArray w (entry_config e) _ t) as [r3 t3] eqn:E3.
      destruct (finalize_quiet _ _ _ _ _ _ E3) as (Q3 & _).
      pose proof (Hstable l _ _ Ht Q3) as (C3 & new & Hy & Hall).
      destruct r3 as [final|e3|]; [|intros [= <- <-]; exists l; split; [done|by eauto]..].
      unfold record, modify, bind, ret. intros [= <- <-]. split; [by destruct C3|].
      exists (new ++ [{| config := final; fc_filePath := entry_filePath e;
                         ignored := bool_decide (flag e = IGNORED) |}])%list.
      split.
      - unfold yielded. cbn [events set_events]. rewrite omap_app. cbn [omap yieldOf].
        fold (yielded t3). by rewrite Hy, app_assoc.
      - apply Forall_app. split; [done|]. constructor; [|done].
        destruct Ht as [Ct _].
        assert (Hig : isIgnored w s (entry_filePath e) dots false = false).
        { rewrite <- (isIgnored_configured w s t) by done. rewrite <- Hdot.
          apply bool_decide_eq_false in Hsil. rewrite Hflag in Hsil.
          by destruct (isIgnored w t _ _ false). }
        unfold Good. cbn [ignored fc_filePath]. split_and!; auto.
        + apply bool_decide_eq_false_2. rewrite Hflag.
          unfold IGNORED, IGNORED_SILENTLY, NONE.
          destruct (isIgnored w t _ _ false); lia.
        + destruct (globInputPaths s && isGlobPattern P pattern);
            destruct Hsel as [-> Hsel]; rewrite Hsel in Hm; split; auto.
          by rewrite <- (configured_extRegExp _ _ Ct). }
    destruct r2 as [l|e|]; [|eexists _, _; split; [reflexivity|exact H2]..].
    destruct (negb (foundRegardlessOfIgnored l));
      [eexists _, _; split; [reflexivity|by exists l]|].
    destruct (negb (found l)); eexists _, _; (split; [reflexivity|by exists l]). }
  destruct E as (r1 & s1 & E & l & _ & new & Hy & Hall). rewrite E.
  intros H. assert (s' = s1) as -> by (destruct r1; by injection H).
  exists new. split; [done|]. by apply List.Forall_forall.
Qed.

Lemma iterateFiles_walk_yields_selected_witness :
  exists new,
    yielded (snd (iterateFiles Sample.posix 10 Sample.project (inl "lib/*.js") Sample.fresh))
    = (yielded Sample.fresh ++ new)%list /\
    forall fc, In fc new ->
      minimatch_match Sample.posix "/tmp/root/lib/*.js" (fc_filePath fc) = true.
Proof.
  destruct (iterateFiles_walk_yields_selected Sample.posix 10 Sample.project "lib/*.js"
              Sample.fresh
              (fst (iterateFiles Sample.posix 10 Sample.project (inl "lib/*.js")
                      Sample.fresh))
              (snd (iterateFiles Sample.posix 10 Sample.project (inl "lib/*.js")
                      Sample.fresh)))
    as (new & Hy & Hall).
  - discriminate.
  - left. vm_compute. reflexivity.
  - vm_compute. reflexivity.
  - exists new. split; [exact Hy|]. intros fc Hfc.
    destruct (Hall fc Hfc) as (_ & _ & _ & _ & Hm). exact Hm.
Defined.

(** * More properties of [ExtractedConfig] *)

Module ExtractedConfigFacts.

Import ExtractedConfig.

Lemma insertIndex_perm n key sorted :
  insertIndex n key sorted ≡ₚ (n, key) :: sorted.
Proof.
  induction sorted as [|[m k] rest IH]; cbn; [done|].
  destruct (n <=? m)%N; [done|]. rewrite IH. apply perm_swap.
Qed.

Lemma indexKeys_perm keys :
  map snd (indexKeys keys) ≡ₚ List.filter isArrayIndex keys.
Proof.
  induction keys as [|key rest IH]; cbn; [done|].
  unfold isArrayIndex at 1. destruct (arrayIndex key) as [n|]; [|done].
  rewrite insertIndex_perm. cbn. by rewrite IH.
Qed.

Lemma filter_partition {A} (f : A -> bool) (l : list A) :
  (List.filter f l ++ List.filter (fun x => negb (f x)) l)%list ≡ₚ l.
Proof.
  induction l as [|x l IH]; cbn; [done|]. destruct (f x); cbn.
  - by rewrite IH.
  - rewrite <- Permutation_middle. by rewrite IH.
Qed.

(** X25.  The [plugins] array of the converted object names every plugin of the
    config exactly once: it is a rearrangement of the plugin ids, whatever
    order [Object.keys] gives them in. *)
Theorem plugins_are_all_listed (this : ExtractedConfig) :
  exists ids,
    getProperty "plugins" (toCompatibleObjectAsConfigFileContent this)
    = Some (VArray ids) /\
    ids ≡ₚ map fst (plugins this) /\
    length ids = length (plugins this).
Proof.
  exists (rev (Object_keys (plugins this))).
  assert (Hperm : rev (Object_keys (plugins this)) ≡ₚ map fst (plugins this)).
  { rewrite <- Permutation_rev. unfold Object_keys.
    rewrite indexKeys_perm. apply filter_partition. }
  split_and!; [reflexivity|exact Hperm|].
  rewrite (Permutation_length Hperm). apply length_map.
Qed.

End ExtractedConfigFacts.

(** * Properties of the test utilities *)

Module UtilsFacts.

Import Utils.

Section Resolver.

Variable path : Path.
Variable statSync : string -> Ext Stats.

Lemma find_first {A} (f : A -> bool) (l : list A) :
  match List.find f l with
  | Some x =>
      exists before after,
        l = (before ++ x :: after)%list /\ f x = true /\
        Forall (fun y => f y = false) before
  | None => Forall (fun y => f y = false) l
  end.
Proof.
  induction l as [|y l IH]; cbn; [constructor|].
  destruct (f y) eqn:E.
  - exists [], l. split_and!; auto.
  - destruct (List.find f l) as [x|].
    + destruct IH as (before & after & -> & Hx & Hb).
      exists (y :: before), after. split_and!; auto.
    + by constructor.
Qed.

(** X26.  [fsResolve] returns the first candidate, in the order the generator
    yields them, that is an existing file; it throws [MODULE_NOT_FOUND] when
    the generator has ended and no candidate is an existing file. *)
Theorem fsResolve_first_existing_candidate fuel request relativeTo :
  let candidates := fst (iterateCandidatePaths path fuel request relativeTo) in
  let ended := snd (iterateCandidatePaths path fuel request relativeTo) in
  match fsResolve path statSync fuel request relativeTo with
  | Some (Returned filePath) =>
      exists before after,
        candidates = (before ++ filePath :: after)%list /\
        isExistingFile statSync filePath = true /\
        Forall (fun candidate => isExistingFile statSync candidate = false) before
  | Some (Raised e) =>
      code e = "MODULE_NOT_FOUND" /\
      message e = "Cannot find module '" ++ request ++ "'" /\
      ended = true /\
      Forall (fun candidate => isExistingFile statSync candidate = false) candidates
  | None =>
      ended = false /\
      Forall (fun candidate => isExistingFile statSync candidate = false) candidates
  end.
Proof.
  unfold fsResolve.
  destruct (iterateCandidatePaths path fuel request relativeTo) as [candidates ended].
  cbn [fst snd]. pose proof (find_first (isExistingFile statSync) candidates) as H.
  destruct (List.find (isExistingFile statSync) candidates) as [filePath|]; [done|].
  by destruct ended.
Qed.

Lemma climb_more fuel : forall fuel' request prevPath dirPath,
  fuel <= fuel' ->
  let (candidates, ended) := climb path fuel request prevPath dirPath in
  if ended then climb path fuel' request prevPath dirPath = (candidates, true)
  else exists more ended',
         climb path fuel' request prevPath dirPath = ((candidates ++ more)%list, ended').
Proof.
  induction fuel as [|fuel IH]; intros fuel' request prevPath dirPath Hle.
  - cbn [climb].
    destruct (negb (bool_decide (dirPath = EmptyString))
              && negb (bool_decide (dirPath = prevPath))) eqn:E.
    + destruct (climb path fuel' request prevPath dirPath) as [l e]. by exists l, e.
    + destruct fuel'; cbn [climb]; by rewrite E.
  - destruct fuel' as [|fuel']; [lia|]. cbn [climb].
    destruct (negb (bool_decide (dirPath = EmptyString))
              && negb (bool_decide (dirPath = prevPath))); [|done].
    specialize (IH fuel' request dirPath (dirname path dirPath) ltac:(lia)).
    destruct (climb path fuel request dirPath (dirname path dirPath)) as [l e].
    destruct e.
    + by rewrite IH.
    + destruct IH as (more & e' & ->). exists more, e'. by rewrite app_assoc.
Qed.

Lemma find_app_found {A} (f : A -> bool) l more x :
  List.find f l = Some x -> List.find f (l ++ more) = Some x.
Proof.
  induction l as [|y l IH]; cbn; [discriminate|]. destruct (f y); auto.
Qed.

(** X27.  The result of [fsResolve] does not depend on how long the generator is
    run: a result found within some number of turns is the result for any
    larger number. *)
Theorem fsResolve_more_fuel fuel fuel' request relativeTo r :
  fsResolve path statSync fuel request relativeTo = Some r ->
  fuel <= fuel' ->
  fsResolve path statSync fuel' request relativeTo = Some r.
Proof.
  unfold fsResolve, iterateCandidatePaths. intros H Hle.
  destruct (isAbsolute path request); [done|].
  destruct (isRelative request); [done|].
  pose proof (climb_more fuel fuel' request (resolve path [relativeTo])
                (dirname path (resolve path [relativeTo])) Hle) as Hc.
  destruct (climb path fuel request _ _) as [l e]. destruct e.
  - by rewrite Hc.
  - destruct Hc as (more & e' & ->).
    destruct (List.find (isExistingFile statSync) l) as [x|] eqn:Hf; [|done].
    by rewrite (find_app_found _ _ _ _ Hf).
Qed.

Lemma climb_chain request start : forall n k fuel,
  (forall i, i < n ->
     up path (S (k + i)) start <> EmptyString /\
     up path (S (k + i)) start <> up path (k + i) start) ->
  up path (S (k + n)) start = EmptyString \/
  up path (S (k + n)) start = up path (k + n) start ->
  n <= fuel ->
  climb path fuel request (up path k start) (up path (S k) start) =
  (concat (map (fun i => getTestPaths path
                           (join path [up path (S i) start; "node_modules"; request]))
             (seq k n)), true).
Proof.
  induction n as [|n IH]; intros k fuel Hgo Hstop Hfuel.
  - rewrite Nat.add_0_r in Hstop.
    assert (E : negb (bool_decide (up path (S k) start = EmptyString))
                && negb (bool_decide (up path (S k) start = up path k start)) = false).
    { destruct Hstop as [->| ->].
      - by rewrite bool_decide_eq_true_2.
      - rewrite (bool_decide_eq_true_2 (_ = up path k start)) by done.
        by rewrite andb_false_r. }
    destruct fuel; cbn [climb]; by rewrite E.
  - destruct fuel as [|fuel]; [lia|]. cbn [climb].
    destruct (Hgo 0 ltac:(lia)) as [H1 H2]. rewrite Nat.add_0_r in H1, H2.
    rewrite !bool_decide_eq_false_2 by done. cbn [negb andb].
    change (dirname path (up path (S k) start)) with (up path (S (S k)) start).
    rewrite (IH (S k) fuel).
    + reflexivity.
    + intros i Hi. replace (S k + i) with (k + S i) by lia. apply Hgo. lia.
    + by replace (S k + n) with (k + S n) by lia.
    + lia.
Qed.

(** X28.  A request that is neither absolute nor relative is looked up in the
    [node_modules] of every directory above the requiring file, the nearest
    first, up to the root: the directory whose [dirname] is itself or the
    empty string. *)
Theorem bare_request_searches_upwards fuel request relativeTo n :
  isAbsolute path request = false ->
  isRelative request = false ->
  let start := resolve path [relativeTo] in
  (forall i, i < n ->
     up path (S i) start <> EmptyString /\ up path (S i) start <> up path i start) ->
  up path (S n) start = EmptyString \/ up path (S n) start = up path n start ->
  n <= fuel ->
  iterateCandidatePaths path fuel request relativeTo =
  (concat (map (fun i => getTestPaths path
                           (join path [up path (S i) start; "node_modules"; request]))
             (seq 0 n)), true).
Proof.
  intros Habs Hrel start Hgo Hstop Hfuel. unfold iterateCandidatePaths.
  rewrite Habs, Hrel. apply (climb_chain request start n 0 fuel); auto.
Qed.

End Resolver.

Lemma fsResolve_more_fuel_witness :
  fsResolve posix packages 7 "eslint-config-foo" "/tmp/root/lib/nested/.eslintrc.yml"
  = Some (Returned "/tmp/root/node_modules/eslint-config-foo/index.js").
Proof.
  apply (fsResolve_more_fuel posix packages 3 7).
  - vm_compute. reflexivity.
  - lia.
Defined.

Lemma bare_request_searches_upwards_witness :
  iterateCandidatePaths posix 5 "eslint-config-foo" "/tmp/root/.eslintrc.json" =
  (["/tmp/root/node_modules/eslint-config-foo";
    "/tmp/root/node_modules/eslint-config-foo.js";
    "/tmp/root/node_modules/eslint-config-foo/index.js";
    "/tmp/node_modules/eslint-config-foo";
    "/tmp/node_modules/eslint-config-foo.js";
    "/tmp/node_modules/eslint-config-foo/index.js";
    "/node_modules/eslint-config-foo";
    "/node_modules/eslint-config-foo.js";
    "/node_modules/eslint-config-foo/index.js"], true).
Proof.
  apply (bare_request_searches_upwards posix 5 "eslint-config-foo"
           "/tmp/root/.eslintrc.json" 3).
  - reflexivity.
  - reflexivity.
  - intros i Hi. destruct i as [|[|[|i]]]; [..|lia]; split; vm_compute; discriminate.
  - right. vm_compute. reflexivity.
  - lia.
Defined.

End UtilsFacts.
